(* ===== verification/_CoqProject ===== *)
-Q . S2P
Prelude.v
F64.v
Protocol.v
Peers.v
Utils.v
Config.v
ParseConfig.v
BtcMgmt.v
BtcUtxo.v
BtcChain.v
BtcInv.v
AvaDecide.v
Blizzard.v
BtcDecide.v
Samples.v
BtcProps.v
BtcCompose.v
AvaProps.v
VoteLog.v
VoteLedger.v
VoteStage.v
AvaSnowball.v
BlizzardProps.v
BlizzardLog.v
TxnValidation.v
TxnValProps.v
ChainRepl.v
ChainReplProps.v
Dissem.v
DissemProps.v
AvaMgmt.v
AvaMgmtProps.v
VCores.v
VCoresProps.v
SourceTests.v
BtcEager.v
Stages.v
Threads.v
ThreadProps.v
ThreadTypes.v
Delay.v
Node.v
NodeProps.v
FlowGen.v
AvaFlowGen.v
FlowGenProps.v
Clients.v
ClientProps.v
AvaClientProps.v
Cluster.v
ClusterProps.v
ClusterRepl.v
BtcStats.v
BtcClient.v
Startup.v
