(* ===== verification/Prelude.v ===== *)
(** * CBox: a verification development (root file)

    CBox (called copycat in its crates) runs blockchains as a set of stages that
    can be taken apart and recombined: Bitcoin, Avalanche, chain replication and a
    dummy chain. A node is the same seven threads for every chain, joined by
    channels; the configuration chooses the stages the threads run.

      client -> transaction validation -> transaction dissemination
             -> block management -> block dissemination -> decision -> commit
      pacemaker -> block management; decision -> pacemaker

    ** Files

    Shared definitions:
    - [Prelude]: results of Rust code ([res]: [Ok], [Err], [Panic], [OutOfFuel]),
      the state monad [M] over them with its rules ([wp], [wlp], [wpe], [keeps],
      [raises]), record updates, lemmas on lists.
    - [F64]: u64 arithmetic in both build profiles, f64 as binary64, durations.
    - [Protocol]: src/src/protocol/, src/src/context.rs: transactions, blocks,
      identifiers, signatures; [Externals] and [Bincode] are the third-party code.
    - [Peers]: src/src/peers/peers.rs, and [HashOrder], the unspecified iteration
      order of hash maps and sets.
    - [Utils], [Config], [ParseConfig]: src/src/utils/, src/src/config.rs.
    - [Samples]: concrete parameters for the witnesses. [SourceTests]: the unit tests of
      the repository, run on the model.

    Stages, under src/src/stage/ (X.v has the operations, XProps.v the theorems):
    - [TxnValidation]: txn_validation/, one validator over the interface [TxnCheck].
    - [Dissem]: txn_dissemination/, consensus/block_dissemination/.
    - [BtcMgmt]: consensus/block_management/bitcoin/basic.rs. [BtcUtxo] has the
      reference semantics of chains, [BtcChain] the pool of blocks, [BtcInv] the
      invariant; [BtcEager] is the variant eager.rs.
    - [BtcDecide]: consensus/decide/bitcoin/basic.rs; [BtcCompose] runs it after
      [BtcMgmt].
    - [AvaMgmt]: consensus/block_management/avalanche/.
    - [AvaDecide], [Blizzard]: consensus/decide/avalanche/basic.rs, blizzard.rs. [VoteLog]
      is the abstract machine of both, a log of what reaches a node (batches, ballots,
      deadlines) and of the counts, polls and votes it makes of it; [VoteLedger] relates a
      log to the fields of a stage, with the class [VoteRule] for what differs, and
      [VoteStage] to its calls, with the class [Stage]; [AvaSnowball] and [BlizzardLog] are
      the instances and the refinements.
    - [ChainRepl]: chain_replication.rs of block management and of decide, and the
      head of the chain as a step relation over both.
    - [Stages]: the traits of mod.rs as classes, an instance per implementation,
      and the small implementations.

    The node and its clients:
    - [VCores]: src/src/vcores.rs. [Threads]: the event loops of mod.rs ([ThreadTypes]:
      the types of the transactions in them); [Delay]: the arm of each loop that sleeps
      off simulated compute time. [Node]: src/src/node.rs, the threads and the channels
      between them.
    - [FlowGen], [AvaFlowGen]: src/copycat_flowgen/src/. [ClientProps] and
      [AvaClientProps] put a client and a node's validator together, over [Clients];
      [BtcStats] specifies the statistics of the Bitcoin client, [BtcClient] runs it
      after [BtcMgmt] and [BtcDecide].
    - [Cluster]: src/copycat_cluster/src/main.rs and src/copycat_server/src/main.rs,
      nodes and a generator in one process; [ClusterRepl]: of chain replication.
      [Startup]: how the three binaries come to their loops, [PeerMessenger::new].

    ** How the model corresponds to the code

    A struct is a record with the fields of the struct, a method is a function of
    the same name in the monad [M S], where [S] is the struct; where names would
    clash they have a prefix ([am_], [bf_], ...). An early [return] or [?] is a
    branch, a panic ([unwrap], [assert!], an index out of range, an unsigned
    subtraction or a sum that overflows in the debug profile) is [Panic]. On a
    panic or an error the state is the one reached so far, as in the code.
    A [select!] has a definition per arm; what runs in a spawned task is a step of
    its own ([Threads], [VCores]), so tasks interleave in any order.

    Hash maps and sets are [gmap] and [gset]; where the code iterates over one, the
    order comes from [HashOrder], a function of the content, so theorems hold for every
    such order; where a claim is that the order does not matter, its two runs have one each
    ([TxnValProps]). Hashes are
    numbers below 2^256, u64 and usize are numbers with [u64_add] and [u64_sub];
    where a sum in the code is bounded by the sizes of collections in memory it is
    the plain sum. Instants are nanoseconds and are inputs. Random values are
    inputs; the clients take them from a list.

    ** Fuel

    Loops that are not structural take a number of rounds and end in [OutOfFuel]
    when it is used up. That enough of it exists is proved where the loop ends: one
    round per pending transaction to prepare a Bitcoin block ([BtcProps], which also
    has the states in which the loop does not end), the depth of the DAG for the
    recursive preference and the cache walk ([AvaProps]), the number of known
    transactions for a validator ([TxnValProps]), the height of a block for the
    searches in the pool ([BtcChain]), the number of waiting transactions for the
    other batches ([ChainReplProps], [AvaMgmtProps]). The list of random values is
    the fuel of a client.

    ** What is proved

    - Bitcoin: the UTXO set is the replay of the main chain in every reachable
      state; fork choice takes the longest valid chain; a chain switch equals
      undoing and redoing; what is committed is the buried main chain
      ([BtcProps], [BtcCompose]). This is in the release profile, for transactions with
      distinct inputs and outputs and blocks whose chains repeat none; examples show what
      the code does with others.
    - Avalanche: no transaction is committed twice; votes are tallied as specified;
      the recursive preference with its cache equals its definition; in every reachable
      state what either variant keeps is a function of a log made from the ballots that
      reached it, each batch counted when its ballots are in, each vote from a poll with
      enough of them; acceptance goes by the rule and rivals are at a distance ([VoteLog]
      to [BlizzardLog]); proposals are in topological order as long as transactions are
      recorded after their inputs ([AvaProps], [BlizzardProps], [AvaMgmtProps]).
    - Chain replication: the head commits in the order of arrival, and none of its
      assertions fails ([ChainReplProps]); a cluster comes up with one chain through
      every node ([Startup]), and its client is told of the blocks 1, 2, 3, ... of every
      node ([ClusterRepl]).
    - Validation: batches and their order do not matter, nothing valid is lost
      ([TxnValProps]); only transactions of the node's chain get through, and those
      never panic it ([ThreadTypes]). Dissemination: whom messages reach, and FIFO hand-over
      ([DissemProps]).
    - Concurrency: cores in use under every interleaving of the compare-and-swap
      loops, up to 2^32 cores or tasks ([VCoresProps]); blocks, those of the dummy chain
      aside, are handed over once ([ThreadProps]); the
      blocks in flight stay within the quota in every run of a node, proved from
      the laws each stage satisfies ([NodeProps]).
    - Simulated compute time is slept off once, or lost to a race ([Delay]).
    - The clients: what a Bitcoin or an Avalanche client makes, conflicts included, is
      validated by every validator that is given it, in any order ([ClientProps],
      [AvaClientProps]; a node may drop it before, [ThreadProps]); the Avalanche client's count of what is in flight does not
      underflow ([FlowGenProps]); what the decision stages of a cluster hand out reaches the
      generator's [txn_committed] in order and unchanged ([ClusterProps]); what a Bitcoin client counts is the main
      chain of its nodes, over every switch ([BtcStats], [BtcClient]: for tails whose
      dissemination succeeds; a lost one panics the decision stage).
    - Where the code does not do what it means to, a theorem says what it does
      instead: overflowing sums, inputs named twice, an endless loop, stale
      preferences, lost acknowledgments, payments that are never proposed, the
      eager variant.

    ** Parameters and their laws

    Hashing, serialization, k256, the mailbox ([Transport], [Channel]), the logarithm
    and tokio's semaphore are parameters. The laws asked of them are classes or
    named hypotheses of the theorems that need them: a serialized value can be read
    back, identifiers do not collide, a signature made with a key verifies, a
    semaphore hands out no more permits than it has.

    ** Not modelled

    - Command lines, runtimes, files and sockets of the binaries; the mailbox behind
      src/copycat_mailbox is a third-party service.
    - Logging (src/src/utils/log.rs), reports and counters that are only printed.
    - src/src/peers/mock.rs beyond its stub, and src/src/composition.rs (commented out).
    - Two accesses of different threads to memory they share other than the word of
      vcores.rs: the map of seen transactions is read and written in one step. *)

From stdpp Require Export base tactics prelude gmap strings list sorting.
From Stdlib Require Export Lia.

(** ** Results of Rust code *)

(** [CopycatError(pub String)], src/src/utils/error.rs. *)
Record CopycatError := mkErr { err_msg : string }.

(** How a Rust call ends: with [Ok], with [Err] (propagated by [?]), with a
    panic ([unwrap] on [None], [assert!], [unreachable!], [todo!], an index out
    of range, a checked overflow), or, for a loop run with a bounded number of
    iterations, with the bound exhausted. *)
Inductive res (A : Type) : Type :=
| Ok (a : A)
| Err (e : CopycatError)
| Panic
| OutOfFuel.
Arguments Ok {A} a.
Arguments Err {A} e.
Arguments Panic {A}.
Arguments OutOfFuel {A}.

(** A [Result] returned by code outside the repository. *)
Definition of_result {A} (r : A + CopycatError) : res A :=
  match r with inl a => Ok a | inr e => Err e end.

#[export] Instance res_ret : MRet res := λ A, Ok.
#[export] Instance res_bind : MBind res := λ A B k m,
  match m with
  | Ok a => k a
  | Err e => Err e
  | Panic => Panic
  | OutOfFuel => OutOfFuel
  end.

Lemma res_bind_ok {A B} (m : res A) (k : A → res B) b :
  m ≫= k = Ok b → ∃ a, m = Ok a ∧ k a = Ok b.
Proof. destruct m; naive_solver. Qed.

Lemma res_ret_ok {A} (a b : A) : mret (M:=res) a = Ok b → a = b.
Proof. by intros [= ->]. Qed.

(** Invert hypotheses that say a pure computation returned [Ok]. *)
Ltac res_inv :=
  repeat match goal with
  | H : _ ≫= _ = Ok _ |- _ => apply res_bind_ok in H as (? & ? & ?)
  | H : mret _ = Ok _ |- _ => apply res_ret_ok in H
  | H : Ok _ = Ok _ |- _ => injection H as H
  | H : Panic = Ok _ |- _ => discriminate H
  | H : Err _ = Ok _ |- _ => discriminate H
  | H : OutOfFuel = Ok _ |- _ => discriminate H
  end; simplify_eq.

(** ** Stateful code: [&mut self] methods *)

(** A method keeps the mutations it made before an [Err] is returned, so the
    state is returned in every case. *)
Definition M (S A : Type) : Type := S → res A * S.

#[export] Instance M_ret {S} : MRet (M S) := λ A a s, (Ok a, s).
#[export] Instance M_bind {S} : MBind (M S) := λ A B k m s,
  match m s with
  | (Ok a, s') => k a s'
  | (Err e, s') => (Err e, s')
  | (Panic, s') => (Panic, s')
  | (OutOfFuel, s') => (OutOfFuel, s')
  end.

Section StateOps.
Context {S : Type}.

Definition gets {A} (f : S → A) : M S A := λ s, (Ok (f s), s).
Definition modify (f : S → S) : M S unit := λ s, (Ok tt, f s).
Definition lift_res {A} (r : res A) : M S A := λ s, (r, s).
Definition panic {A} : M S A := λ s, (Panic, s).
Definition out_of_fuel {A} : M S A := λ s, (OutOfFuel, s).
Definition throw {A} (e : CopycatError) : M S A := λ s, (Err e, s).
(** [Option::unwrap] *)
Definition unwrap {A} (o : option A) : M S A :=
  match o with Some a => mret a | None => panic end.
(** [assert!] *)
Definition massert (b : bool) : M S unit := if b then mret tt else panic.
(** A method of a field: run on the field, write the field back. *)
Definition zoom {T A} (get : S → T) (put : T → S → S) (m : M T A) : M S A :=
  λ s, match m (get s) with (r, t) => (r, put t s) end.
(** [for x in xs { f(x)?; }] *)
Fixpoint mfor {A} (xs : list A) (f : A → M S unit) : M S unit :=
  match xs with
  | [] => mret tt
  | x :: xs' => f x ;; mfor xs' f
  end.
End StateOps.

(** [hs.map(|h| pool.get(&h).unwrap())] *)
Fixpoint lookup_all {A} (pool : gmap N A) (hs : list N) : res (list A) :=
  match hs with
  | [] => Ok []
  | h :: hs' =>
    match pool !! h with
    | Some x => xs ← lookup_all pool hs'; Ok (x :: xs)
    | None => Panic
    end
  end.

Lemma lookup_all_ext {A} (m m' : gmap N A) hs l :
  m ⊆ m' → lookup_all m hs = Ok l → lookup_all m' hs = Ok l.
Proof.
  intros Hsub. revert l. induction hs as [|h hs IH]; intros l; cbn; [done|].
  destruct (m !! h) eqn:E; [|done]. erewrite lookup_weaken by done.
  intros Heq. apply res_bind_ok in Heq as (xs & Hxs & Heq). by rewrite (IH _ Hxs).
Qed.

Lemma lookup_all_snoc {A} (m : gmap N A) hs l h x :
  lookup_all m hs = Ok l → m !! h = Some x → lookup_all m (hs ++ [h]) = Ok (l ++ [x]).
Proof.
  revert l. induction hs as [|h' hs IH]; intros l; cbn.
  - intros [= <-] ->. done.
  - destruct (m !! h') eqn:E; [|done]. intros Heq Hx.
    apply res_bind_ok in Heq as (xs & Hxs & [= <-]). by rewrite (IH _ Hxs Hx).
Qed.

(** ** Total-correctness weakest preconditions *)

(** [wp m Q E s]: from [s], [m] neither panics nor exhausts a bound; [Q] holds
    of a normal result and [E] of an error, with the state reached. *)
Definition wp {S A} (m : M S A) (Q : A → S → Prop) (E : CopycatError → S → Prop)
    (s : S) : Prop :=
  match m s with
  | (Ok a, s') => Q a s'
  | (Err e, s') => E e s'
  | (Panic, _) | (OutOfFuel, _) => False
  end.

Section Wp.
Context {S : Type}.
Implicit Types (s : S) (E : CopycatError → S → Prop).

Lemma wp_ret {A} (a : A) Q E s : Q a s → wp (mret a) Q E s.
Proof. done. Qed.

Lemma wp_bind {A B} (m : M S A) (k : A → M S B) Q E s :
  wp m (λ a, wp (k a) Q E) E s → wp (m ≫= k) Q E s.
Proof.
  unfold wp, mbind, M_bind. by destruct (m s) as [[a|e| |] s'].
Qed.

Lemma wp_mono {A} (m : M S A) (Q Q' : A → S → Prop) E E' s :
  wp m Q E s → (∀ a s', Q a s' → Q' a s') → (∀ e s', E e s' → E' e s') →
  wp m Q' E' s.
Proof.
  unfold wp. destruct (m s) as [[a|e| |] s']; eauto.
Qed.

Lemma wp_gets {A} (f : S → A) Q E s : Q (f s) s → wp (gets f) Q E s.
Proof. done. Qed.

Lemma wp_modify (f : S → S) Q E s : Q tt (f s) → wp (modify f) Q E s.
Proof. done. Qed.

Lemma wp_throw {A} e (Q : A → S → Prop) E s : E e s → wp (throw e) Q E s.
Proof. done. Qed.

Lemma wp_unwrap {A} (o : option A) a (Q : A → S → Prop) E s :
  o = Some a → Q a s → wp (unwrap o) Q E s.
Proof. by intros ->. Qed.

Lemma wp_assert b (Q : unit → S → Prop) E s :
  b = true → Q tt s → wp (massert b) Q E s.
Proof. by intros ->. Qed.

Lemma wp_lift {A} (r : res A) a (Q : A → S → Prop) E s :
  r = Ok a → Q a s → wp (lift_res r) Q E s.
Proof. by intros ->. Qed.

Lemma wp_zoom {T A} (get : S → T) put (m : M T A) Q E s :
  wp m (λ a t, Q a (put t s)) (λ e t, E e (put t s)) (get s) →
  wp (zoom get put m) Q E s.
Proof. unfold wp, zoom. by destruct (m (get s)) as [[a|e| |] t]. Qed.

(** A loop keeps an invariant that speaks of the elements still to come. *)
Lemma wp_mfor {A} (I : list A → S → Prop) (xs : list A) (f : A → M S unit) E s :
  (∀ x xs' s, I (x :: xs') s → wp (f x) (λ _, I xs') E s) →
  I xs s → wp (mfor xs f) (λ _, I []) E s.
Proof.
  intros Hstep. revert s. induction xs as [|x xs IH]; intros s HI; [done|].
  cbn. apply wp_bind. eapply wp_mono; [by apply Hstep| |done]. cbn.
  intros _ s' HI'. by apply IH.
Qed.

Lemma wp_ok {A} (m : M S A) Q E s :
  wp m Q E s → ∀ a s', m s = (Ok a, s') → Q a s'.
Proof. unfold wp. intros H a s' Heq. by rewrite Heq in H. Qed.
End Wp.

(** Invert a method that returned normally. *)
Lemma M_bind_ok {S A B} (m : M S A) (k : A → M S B) s b s' :
  (m ≫= k) s = (Ok b, s') → ∃ a s1, m s = (Ok a, s1) ∧ k a s1 = (Ok b, s').
Proof. unfold mbind, M_bind. destruct (m s) as [[a|e| |] s1]; naive_solver. Qed.

Lemma gets_ok {S A} (f : S → A) s a s' : gets f s = (Ok a, s') → a = f s ∧ s' = s.
Proof. by intros [= <- <-]. Qed.

Lemma modify_ok {S} (f : S → S) s a s' : modify f s = (Ok a, s') → s' = f s.
Proof. by intros [= _ <-]. Qed.

Lemma ret_ok {S A} (a b : A) (s s' : S) : mret (M:=M S) a s = (Ok b, s') → b = a ∧ s' = s.
Proof. by intros [= <- <-]. Qed.

Lemma lift_ok {S A} (r : res A) (a : A) (s s' : S) :
  lift_res r s = (Ok a, s') → r = Ok a ∧ s' = s.
Proof. by intros [= -> ->]. Qed.

Lemma unwrap_ok {S A} (o : option A) (a : A) (s s' : S) :
  unwrap o s = (Ok a, s') → o = Some a ∧ s' = s.
Proof. destruct o; [by intros [= -> ->]|done]. Qed.

Lemma assert_ok {S} (b : bool) (a : unit) (s s' : S) :
  massert b s = (Ok a, s') → b = true ∧ s' = s.
Proof. destruct b; [by intros [= _ ->]|done]. Qed.

(** Symbolic execution of a body known to have returned normally. *)
Ltac m_step :=
  match goal with
  | H : (_ ≫= _) _ = (Ok _, _) |- _ =>
    apply M_bind_ok in H; destruct H as (? & ? & ? & H)
  | H : gets _ _ = (Ok _, _) |- _ => apply gets_ok in H as [? ?]; subst
  | H : modify _ _ = (Ok _, _) |- _ => apply modify_ok in H; subst
  | H : mret _ _ = (Ok _, _) |- _ => apply ret_ok in H as [? ?]; subst
  | H : lift_res _ _ = (Ok _, _) |- _ => apply lift_ok in H as [? ?]; subst
  | H : unwrap _ _ = (Ok _, _) |- _ => apply unwrap_ok in H as [? ?]; subst
  | H : massert _ _ = (Ok _, _) |- _ => apply assert_ok in H as [? ?]; subst
  | H : panic _ = (Ok _, _) |- _ => discriminate H
  | H : throw _ _ = (Ok _, _) |- _ => discriminate H
  | H : out_of_fuel _ = (Ok _, _) |- _ => discriminate H
  end.
Ltac m_inv := repeat m_step.

Create HintDb wpdb.
#[export] Hint Resolve wp_ret wp_gets wp_modify wp_throw : wpdb.

(** One step of symbolic execution of a method body. *)
Ltac wp_step :=
  lazymatch goal with
  | |- wp (mbind _ _) _ _ _ => apply wp_bind
  | |- wp (mret _) _ _ _ => apply wp_ret
  | |- wp (gets _) _ _ _ => apply wp_gets
  | |- wp (modify _) _ _ _ => apply wp_modify
  | |- wp (throw _) _ _ _ => apply wp_throw
  | |- wp (zoom _ _ _) _ _ _ => apply wp_zoom
  end; cbn beta.
Ltac wp_steps := repeat wp_step.

(** ** Partial correctness, whatever the outcome *)

(** [wlp m Q R s]: if [m] returns normally, [Q] holds of the result and the
    state; however else it ends (an error, a panic, a bound exhausted), [R]
    holds of the state it leaves. *)
Definition wlp {S A} (m : M S A) (Q : A → S → Prop) (R : S → Prop) (s : S) : Prop :=
  match m s with (Ok a, s') => Q a s' | (_, s') => R s' end.

Section Wlp.
Context {S : Type}.
Implicit Types (s : S) (R : S → Prop).

Lemma wlp_ret {A} (a : A) Q R s : Q a s → wlp (mret a) Q R s.
Proof. done. Qed.

Lemma wlp_bind {A B} (m : M S A) (k : A → M S B) Q R s :
  wlp m (λ a, wlp (k a) Q R) R s → wlp (m ≫= k) Q R s.
Proof. unfold wlp, mbind, M_bind. by destruct (m s) as [[a|e| |] s']. Qed.

Lemma wlp_mono {A} (m : M S A) (Q Q' : A → S → Prop) (R R' : S → Prop) s :
  wlp m Q R s → (∀ a s', Q a s' → Q' a s') → (∀ s', R s' → R' s') → wlp m Q' R' s.
Proof. unfold wlp. destruct (m s) as [[a|e| |] s']; eauto. Qed.

Lemma wlp_gets {A} (f : S → A) Q R s : Q (f s) s → wlp (gets f) Q R s.
Proof. done. Qed.

Lemma wlp_modify (f : S → S) Q R s : Q tt (f s) → wlp (modify f) Q R s.
Proof. done. Qed.

Lemma wlp_throw {A} e (Q : A → S → Prop) R s : R s → wlp (throw e) Q R s.
Proof. done. Qed.

Lemma wlp_panic {A} (Q : A → S → Prop) R s : R s → wlp panic Q R s.
Proof. done. Qed.

Lemma wlp_out_of_fuel {A} (Q : A → S → Prop) R s : R s → wlp out_of_fuel Q R s.
Proof. done. Qed.

Lemma wlp_unwrap {A} (o : option A) (Q : A → S → Prop) R s :
  (∀ a, o = Some a → Q a s) → R s → wlp (unwrap o) Q R s.
Proof. destruct o; [by intros HQ _; apply HQ|done]. Qed.

Lemma wlp_assert b (Q : unit → S → Prop) R s :
  (b = true → Q tt s) → R s → wlp (massert b) Q R s.
Proof. destruct b; [by intros HQ _; apply HQ|done]. Qed.

Lemma wlp_lift {A} (r : res A) (Q : A → S → Prop) R s :
  (∀ a, r = Ok a → Q a s) → R s → wlp (lift_res r) Q R s.
Proof. unfold wlp, lift_res. destruct r; eauto. Qed.

Lemma wlp_zoom {T A} (get : S → T) put (m : M T A) Q R s :
  wlp m (λ a t, Q a (put t s)) (λ t, R (put t s)) (get s) → wlp (zoom get put m) Q R s.
Proof. unfold wlp, zoom. by destruct (m (get s)) as [[a|e| |] t]. Qed.

Lemma wlp_mfor {A} (I : list A → S → Prop) R (xs : list A) (f : A → M S unit) s :
  (∀ x xs' s, I (x :: xs') s → wlp (f x) (λ _, I xs') R s) →
  I xs s → wlp (mfor xs f) (λ _, I []) R s.
Proof.
  intros Hstep. revert s. induction xs as [|x xs IH]; intros s HI; [done|].
  cbn. apply wlp_bind. eapply wlp_mono; [by apply Hstep| |done].
  intros ? s' HI'. by apply IH.
Qed.

(** The state a call leaves, whatever its outcome. *)
Lemma wlp_state {A} (m : M S A) (R : S → Prop) s : wlp m (λ _, R) R s → R (m s).2.
Proof. unfold wlp. by destruct (m s) as [[]]. Qed.
End Wlp.

Ltac wlp_step :=
  lazymatch goal with
  | |- wlp (mbind _ _) _ _ _ => apply wlp_bind
  | |- wlp (mret _) _ _ _ => apply wlp_ret
  | |- wlp (gets _) _ _ _ => apply wlp_gets
  | |- wlp (modify _) _ _ _ => apply wlp_modify
  | |- wlp (throw _) _ _ _ => apply wlp_throw
  | |- wlp panic _ _ _ => apply wlp_panic
  | |- wlp out_of_fuel _ _ _ => apply wlp_out_of_fuel
  | |- wlp (zoom _ _ _) _ _ _ => apply wlp_zoom
  | |- wlp (unwrap _) _ _ _ => apply wlp_unwrap; [intros ? ?|]
  | |- wlp (massert _) _ _ _ => apply wlp_assert; [intros ?|]
  | |- wlp (lift_res _) _ _ _ => apply wlp_lift; [intros ? ?|]
  end; cbn beta.
Ltac wlp_steps := repeat wlp_step.

(** ** What a call leaves alone *)

(** [keeps f m]: whatever the outcome of [m], it leaves [f] as it was. *)
Definition keeps {S T A} (f : S → T) (m : M S A) : Prop := ∀ s, f (m s).2 = f s.

Section Keeps.
Context {S T : Type} (f : S → T).

Lemma keeps_ret {A} (a : A) : keeps f (mret a).
Proof. done. Qed.
Lemma keeps_gets {A} (g : S → A) : keeps f (gets g).
Proof. done. Qed.
Lemma keeps_modify g : (∀ s, f (g s) = f s) → keeps f (modify g).
Proof. intros Hg s. apply Hg. Qed.
Lemma keeps_throw {A} e : keeps f (throw (A:=A) e).
Proof. done. Qed.
Lemma keeps_panic {A} : keeps f (panic (A:=A)).
Proof. done. Qed.
Lemma keeps_out_of_fuel {A} : keeps f (out_of_fuel (A:=A)).
Proof. done. Qed.
Lemma keeps_lift {A} (r : res A) : keeps f (lift_res r).
Proof. done. Qed.
Lemma keeps_unwrap {A} (o : option A) : keeps f (unwrap o).
Proof. by destruct o. Qed.
Lemma keeps_assert b : keeps f (massert b).
Proof. by destruct b. Qed.

Lemma keeps_bind {A B} (m : M S A) (k : A → M S B) :
  keeps f m → (∀ a, keeps f (k a)) → keeps f (m ≫= k).
Proof.
  intros Hm Hk s. specialize (Hm s). unfold mbind, M_bind.
  destruct (m s) as [[a|e| |] s']; [|done..]. rewrite Hk. apply Hm.
Qed.

Lemma keeps_zoom {U A} (get : S → U) put (m : M U A) :
  (∀ t s, f (put t s) = f s) → keeps f (zoom get put m).
Proof. intros Hput s. unfold zoom. destruct (m (get s)). apply Hput. Qed.

Lemma keeps_mfor {A} (xs : list A) (g : A → M S unit) : (∀ x, keeps f (g x)) → keeps f (mfor xs g).
Proof. intros Hg. induction xs; cbn; [apply keeps_ret|]. by apply keeps_bind. Qed.
End Keeps.

Create HintDb keepsdb.
#[export] Hint Resolve keeps_ret keeps_gets keeps_throw keeps_panic keeps_out_of_fuel keeps_lift
  keeps_unwrap keeps_assert : keepsdb.

(** Follows the structure of a method body. *)
Ltac keeps_step :=
  lazymatch goal with
  | |- ∀ _, _ => intros ?
  | |- keeps _ (mbind _ _) => apply keeps_bind
  | |- keeps _ (modify _) => apply keeps_modify; intros ?
  | |- keeps _ (zoom _ _ _) => apply keeps_zoom; intros ? ?
  | |- keeps _ (mfor _ _) => apply keeps_mfor; intros ?
  | |- keeps _ (match ?x with _ => _ end) => destruct x
  | |- keeps _ (let _ := _ in _) => cbv zeta
  | |- keeps _ _ => solve [eauto with keepsdb]
  | |- _ => done
  end.
Ltac keeps_auto := repeat keeps_step.

Lemma wlp_keeps {S T A} (f : S → T) (m : M S A) s :
  keeps f m → wlp m (λ _ s', f s' = f s) (λ s', f s' = f s) s.
Proof. intros Hm. specialize (Hm s). unfold wlp. by destruct (m s) as [[]]. Qed.

(** ** Triples of calls whose panics end the run *)

(** [wpe m Q E s]: from [s], if [m] returns then [Q] holds of its result, [E] after an
    error, with the state reached; nothing is said of a panic. *)
Definition wpe {S A} (m : M S A) (Q : A → S → Prop) (E : S → Prop) (s : S) : Prop :=
  match m s with (Ok a, s') => Q a s' | (Err _, s') => E s' | _ => True end.

Section Wpe.
Context {S : Type}.
Implicit Types (s : S) (E : S → Prop).

Lemma wpe_ret {A} (a : A) Q E s : Q a s → wpe (mret a) Q E s.
Proof. done. Qed.

Lemma wpe_bind {A B} (m : M S A) (k : A → M S B) Q E s :
  wpe m (λ a s', wpe (k a) Q E s') E s → wpe (m ≫= k) Q E s.
Proof. unfold wpe, mbind, M_bind. by destruct (m s) as [[]]. Qed.

Lemma wpe_mono {A} (m : M S A) (Q Q' : A → S → Prop) (E E' : S → Prop) s :
  wpe m Q E s → (∀ a s', Q a s' → Q' a s') → (∀ s', E s' → E' s') → wpe m Q' E' s.
Proof. unfold wpe. destruct (m s) as [[]]; auto. Qed.

(** What it returned, and what it left alone. *)
Lemma wpe_result {A T} (f : S → T) (m : M S A) (Q : A → S → Prop) (E : S → Prop) s :
  wpe m Q E s → keeps f m → wpe m (λ a s', Q a s' ∧ (m s).1 = Ok a ∧ f s' = f s) E s.
Proof. intros Hm Hf. specialize (Hf s). unfold wpe in *. destruct (m s) as [[]]; try done. Qed.

Lemma wpe_gets {A} (f : S → A) Q E s : Q (f s) s → wpe (gets f) Q E s.
Proof. done. Qed.

Lemma wpe_modify (f : S → S) Q E s : Q tt (f s) → wpe (modify f) Q E s.
Proof. done. Qed.

Lemma wpe_panic {A} (Q : A → S → Prop) E s : wpe panic Q E s.
Proof. done. Qed.

Lemma wpe_out_of_fuel {A} (Q : A → S → Prop) E s : wpe out_of_fuel Q E s.
Proof. done. Qed.

Lemma wpe_unwrap {A} (o : option A) (Q : A → S → Prop) E s :
  (∀ a, o = Some a → Q a s) → wpe (unwrap o) Q E s.
Proof. unfold wpe, unwrap. destruct o; [|done]. intros Hq. by apply Hq. Qed.

Lemma wpe_assert b (Q : unit → S → Prop) E s : (b = true → Q tt s) → wpe (massert b) Q E s.
Proof. unfold wpe, massert. destruct b; [|done]. intros Hq. by apply Hq. Qed.

Lemma wpe_lift {A} (r : res A) (Q : A → S → Prop) E s :
  (∀ a, r = Ok a → Q a s) → (∀ e, r = Err e → E s) → wpe (lift_res r) Q E s.
Proof. unfold wpe, lift_res. destruct r; intros HQ HE; try done; [by apply HQ|by eapply HE]. Qed.

Lemma wpe_mfor {A} (I : list A → S → Prop) E (xs : list A) (f : A → M S unit) s :
  (∀ x xs' s, I (x :: xs') s → wpe (f x) (λ _, I xs') E s) →
  I xs s → wpe (mfor xs f) (λ _, I []) E s.
Proof.
  intros Hstep. revert s. induction xs as [|x xs IH]; intros s HI; [done|].
  cbn. apply wpe_bind. eapply wpe_mono; [by apply Hstep| |done]. intros ? s' HI'. by apply IH.
Qed.

Lemma wpe_keeps {T A} (f : S → T) (m : M S A) s :
  keeps f m → wpe m (λ _ s', f s' = f s) (λ s', f s' = f s) s.
Proof. intros Hm. specialize (Hm s). unfold wpe. by destruct (m s) as [[]]. Qed.
End Wpe.

Ltac wpe_step :=
  lazymatch goal with
  | |- wpe (mbind _ _) _ _ _ => apply wpe_bind
  | |- wpe (mret _) _ _ _ => apply wpe_ret
  | |- wpe (gets _) _ _ _ => apply wpe_gets
  | |- wpe (modify _) _ _ _ => apply wpe_modify
  | |- wpe panic _ _ _ => apply wpe_panic
  | |- wpe out_of_fuel _ _ _ => apply wpe_out_of_fuel
  | |- wpe (unwrap _) _ _ _ => apply wpe_unwrap; intros ? ?
  | |- wpe (massert _) _ _ _ => apply wpe_assert; intros ?
  | |- wpe (lift_res _) _ _ _ => apply wpe_lift; [intros ? ?|intros ? ?]
  end; cbn beta.
Ltac wpe_steps := repeat wpe_step.

(** [raises k f m]: whatever the outcome of [m], it raises [f] by [k] at most. *)
Definition raises {S A} (k : N) (f : S → N) (m : M S A) : Prop := ∀ s, (f (m s).2 ≤ f s + k)%N.

Section Raises.
Context {S : Type} (f : S → N).

Lemma raises_wlp {A} k (m : M S A) s :
  raises k f m → wlp m (λ _ s', f s' ≤ f s + k)%N (λ s', f s' ≤ f s + k)%N s.
Proof. intros Hm. specialize (Hm s). unfold wlp. by destruct (m s) as [[]]. Qed.

Lemma raises_keeps {A} k (m : M S A) : keeps f m → raises k f m.
Proof. intros Hm s. rewrite Hm. lia. Qed.

Lemma raises_bind {A B} k1 k2 (m : M S A) (k : A → M S B) :
  raises k1 f m → (∀ a, raises k2 f (k a)) → raises (k1 + k2) f (m ≫= k).
Proof.
  intros Hm Hk s. specialize (Hm s). unfold mbind, M_bind.
  destruct (m s) as [[a|e| |] s']; cbn in *; [|lia..]. specialize (Hk a s'). lia.
Qed.

Lemma raises_mono {A} k k' (m : M S A) : raises k f m → (k ≤ k')%N → raises k' f m.
Proof. intros Hm Hk s. specialize (Hm s). lia. Qed.

(** After a call that leaves [f] alone. *)
Lemma raises_after {A B} k (m : M S A) (r : A → M S B) :
  keeps f m → (∀ a, raises k f (r a)) → raises k f (m ≫= r).
Proof. intros Hm Hr. change k with (0 + k)%N. apply raises_bind; [by apply raises_keeps|done]. Qed.

Lemma raises_zoom {U A} (get : S → U) put (m : M U A) (g : U → N) k :
  (∀ t s, (f (put t s) + g (get s) = f s + g t)%N) → raises k g m → raises k f (zoom get put m).
Proof.
  intros Hput Hm s. specialize (Hm (get s)). unfold zoom. destruct (m (get s)) as [r t]. cbn in *.
  specialize (Hput t s). lia.
Qed.
End Raises.

(** ** Field updates of records *)

(** [s <| f := v |>] and [s <| f ::= g |>], for a record type with an [Eta]
    instance that rebuilds a value from its projections. *)
Class Eta (R : Type) := eta : R → R.
Class Update {R T : Type} (proj : R → T) := update : (T → T) → R → R.
Arguments update {R T} proj {_} _ _ /.

Ltac solve_update :=
  lazymatch goal with
  | |- @Update ?R ?T ?p =>
    let e := constr:(_ : Eta R) in
    let b := eval hnf in e in
    let b := eval pattern p in b in
    lazymatch b with
    | ?F _ => exact (fun (g : T → T) (r : R) => F (fun r' => g (p r')) r)
    end
  end.
#[export] Hint Extern 1 (Update _) => solve_update : typeclass_instances.

Declare Scope cbox_scope.
Delimit Scope cbox_scope with cbox.
#[global] Open Scope cbox_scope.
Notation "s <| f ::= g |>" := (update f g s)
  (at level 1, f at next level, left associativity, format "s  <| f  ::=  g |>") : cbox_scope.
Notation "s <| f := v |>" := (update f (λ _, v) s)
  (at level 1, f at next level, left associativity, format "s  <| f  :=  v |>") : cbox_scope.
