(* ===== verification/F64.v ===== *)
(** * Machine arithmetic: u64, usize, f64, Duration

    - unsigned 64-bit addition in the two build profiles of Rust (overflow
      checks on: panic; off: wrap around);
    - [f64] as IEEE-754 binary64 (Stdlib's executable [SpecFloat]): the
      operations the sources use;
    - [std::time::Duration] as a number of nanoseconds with the conversions
      from and to [f64];
    - [process_illusion] of src/src/stage/mod.rs. *)

From S2P Require Import Prelude.
From Stdlib Require Import SpecFloat ZArith.

Local Open Scope N_scope.

(** ** u64 / usize *)

(** [overflow_checks] of the build profile: on in debug and test builds, off in
    the release profile of src/Cargo.toml. *)
Class BuildProfile := overflow_checks : bool.

Definition two64 : N := 2 ^ 64.

(** [a + b] on u64 / usize. *)
Definition u64_add `{BuildProfile} (a b : N) : res N :=
  if (a + b <? two64)%N then Ok (a + b)
  else if overflow_checks then Panic else Ok ((a + b) mod two64).

(** [a - b] on u64 / usize. *)
Definition u64_sub `{BuildProfile} (a b : N) : res N :=
  if (b <=? a)%N then Ok (a - b)
  else if overflow_checks then Panic else Ok (two64 + a - b).

Section U64.
Context `{BuildProfile}.

Lemma u64_add_ok a b : a + b < two64 → u64_add a b = Ok (a + b).
Proof. unfold u64_add. intros ?%N.ltb_lt. by rewrite H0. Qed.

Lemma u64_sub_ok a b : b ≤ a → u64_sub a b = Ok (a - b).
Proof. unfold u64_sub. intros ?%N.leb_le. by rewrite H0. Qed.

Lemma u64_add_inv a b c :
  u64_add a b = Ok c →
  c = a + b ∧ a + b < two64 ∨
  overflow_checks = false ∧ two64 ≤ a + b ∧ c = (a + b) mod two64.
Proof.
  unfold u64_add. destruct (N.ltb_spec (a + b) two64) as [Hlt|Hge]; intros Heq.
  - left. by simplify_eq.
  - right. destruct overflow_checks; [done|]. by simplify_eq.
Qed.
End U64.

(** ** f64 *)

Definition f64 := spec_float.
Definition f64_of_N (n : N) : f64 := binary_normalize 53 1024 (Z.of_N n) 0 false.
Definition f64_add : f64 → f64 → f64 := SFadd 53 1024.
Definition f64_sub : f64 → f64 → f64 := SFsub 53 1024.
Definition f64_mul : f64 → f64 → f64 := SFmul 53 1024.
Definition f64_div : f64 → f64 → f64 := SFdiv 53 1024.
Definition f64_opp (x : f64) : f64 :=
  match x with
  | S754_zero s => S754_zero (negb s)
  | S754_infinity s => S754_infinity (negb s)
  | S754_nan => S754_nan
  | S754_finite s m e => S754_finite (negb s) m e
  end.
Definition f64_leb : f64 → f64 → bool := SFleb.
Definition f64_ltb : f64 → f64 → bool := SFltb.

(** A decimal literal [n / d]: the binary64 number nearest to the quotient. *)
Definition f64_lit (n d : N) : f64 := f64_div (f64_of_N n) (f64_of_N d).
Definition f64_zero : f64 := S754_zero false.
Definition f64_one : f64 := f64_of_N 1.

(** [x.ceil() as usize]: the cast saturates and sends NaN to 0. *)
Definition f64_ceil_as_usize (x : f64) : N :=
  match x with
  | S754_nan | S754_zero _ | S754_infinity true => 0
  | S754_infinity false => two64 - 1
  | S754_finite true _ _ => 0
  | S754_finite false m e =>
    let v := if (0 <=? e)%Z then (Z.pos m * 2 ^ e)%Z
             else (- ((- Z.pos m) / 2 ^ (- e)))%Z in
    N.min (Z.to_N v) (two64 - 1)
  end.

(** ** Duration *)

(** A [Duration] is a number of nanoseconds; its seconds fit a u64. *)
Definition nanos_per_sec : N := 1000000000.
Definition duration_max : N := two64 * nanos_per_sec.

(** [a + b] on durations: panics on overflow in every profile. *)
Definition dur_add (a b : N) : res N :=
  if (a + b <? duration_max)%N then Ok (a + b) else Panic.

(** [Duration::as_secs_f64] *)
Definition as_secs_f64 (d : N) : f64 :=
  f64_add (f64_of_N (d / nanos_per_sec))
          (f64_div (f64_of_N (d mod nanos_per_sec)) (f64_of_N nanos_per_sec)).

(** [Duration::from_secs_f64]: rounds to the nearest nanosecond, ties to even;
    panics on negative, too large and non-finite inputs. *)
Definition from_secs_f64 (x : f64) : res N :=
  match x with
  | S754_zero _ => Ok 0
  | S754_finite false m e =>
    let num := (Z.pos m * Z.of_N nanos_per_sec)%Z in
    let v :=
      if (0 <=? e)%Z then (num * 2 ^ e)%Z
      else let d := (2 ^ (- e))%Z in
           let q := (num / d)%Z in
           let r := (num mod d)%Z in
           if (2 * r <? d)%Z then q
           else if (d <? 2 * r)%Z then (q + 1)%Z
           else if Z.even q then q else (q + 1)%Z in
    if (Z.to_N v <? duration_max)%N then Ok (Z.to_N v) else Panic
  | _ => Panic
  end.

(** Instants are nanoseconds since an origin; [i + d] panics when the clock
    cannot represent the result, which the range of [Duration] bounds. *)
Definition Instant := N.

(** src/src/stage/mod.rs: a compute cost below a millisecond is added to the
    stage's accumulated delay, a larger one is slept at once. *)
Definition process_illusion (timeout : N) (delay : f64) : f64 :=
  if (timeout / 1000000 <? 1)%N then f64_add delay (as_secs_f64 timeout) else delay.

Lemma process_illusion_sleeps timeout delay :
  1000000 ≤ timeout → process_illusion timeout delay = delay.
Proof.
  intros Hle. unfold process_illusion.
  assert (1 ≤ timeout / 1000000) as Hdiv by (apply N.div_le_lower_bound; lia).
  apply N.ltb_ge in Hdiv. by rewrite Hdiv.
Qed.

Lemma from_secs_f64_negative m e : from_secs_f64 (S754_finite true m e) = Panic.
Proof. done. Qed.
