(* ===== verification/Protocol.v ===== *)
(** * Transactions, blocks, contexts and cryptographic schemes

    src/src/protocol/ and src/src/context.rs: the data every stage exchanges.
    Third-party code (bincode, ring's SHA-256, k256's ECDSA, the byte
    conversions of primitive_types' U256, the sizes derived by get_size) is a
    parameter: the classes [Bincode] and [Externals]. *)

From S2P Require Import Prelude F64.
Local Open Scope N_scope.

(** ** Primitive data *)

(** [Hash = U256]: a number below 2^256. *)
Abbreviation Hash := N (only parsing).
(** [NodeId = u64], src/src/utils/mod.rs *)
Abbreviation NodeId := N (only parsing).
Abbreviation bytes := (list N) (only parsing).
Abbreviation PubKey := (list N) (only parsing).
Abbreviation PrivKey := (list N) (only parsing).
Abbreviation Signature := (list N) (only parsing).

(** [U256 + U256]: panics on overflow. *)
Definition u256_add (a b : Hash) : res Hash :=
  if (a + b <? 2 ^ 256)%N then Ok (a + b) else Panic.
(** [U256::as_u64]: panics when the number does not fit. *)
Definition u256_as_u64 (a : Hash) : res N :=
  if (a <? two64)%N then Ok a else Panic.

(** ** Transactions: src/src/protocol/transaction/ *)

Inductive BitcoinTxn :=
| BIncentive (out_utxo : N) (receiver : PubKey)
| BSend (sender : PubKey) (in_utxo : list Hash) (receiver : PubKey)
    (out_utxo remainder : N) (sender_signature : Signature)
    (script_bytes : N) (script_runtime : N) (script_succeed : bool)
| BGrant (out_utxo : N) (receiver : PubKey).

Inductive AvalancheTxn :=
| ASend (sender : PubKey) (in_utxo : list Hash) (receiver : PubKey)
    (out_utxo remainder : N) (sender_signature : Signature)
| AGrant (out_utxo : N) (receiver : PubKey) (nonce : N)
| ANoop (parents : list Hash)
| APlaceHolder.

Record DummyTxn := mkDummyTxn {
  dt_id : Hash; dt_content : bytes; dt_pub_key : PubKey; dt_signature : Signature }.

Inductive Txn :=
| TDummy (txn : DummyTxn)
| TBitcoin (txn : BitcoinTxn)
| TAvalanche (txn : AvalancheTxn).

#[export] Instance BitcoinTxn_eq_dec : EqDecision BitcoinTxn.
Proof. solve_decision. Defined.
#[export] Instance AvalancheTxn_eq_dec : EqDecision AvalancheTxn.
Proof. solve_decision. Defined.
#[export] Instance DummyTxn_eq_dec : EqDecision DummyTxn.
Proof. solve_decision. Defined.
#[export] Instance Txn_eq_dec : EqDecision Txn.
Proof. solve_decision. Defined.

(** ** Blocks: src/src/protocol/block.rs *)

Inductive BlockHeader :=
| HDummy
| HBitcoin (proposer : NodeId) (prev_hash merkle_root : Hash) (nonce : N)
| HAvalanche (proposer : NodeId) (id : N) (depth : N)
| HChainReplication (blk_id : Hash).

Record Block := mkBlock { header : BlockHeader; txns : list Txn }.

#[export] Instance BlockHeader_eq_dec : EqDecision BlockHeader.
Proof. solve_decision. Defined.
#[export] Instance Block_eq_dec : EqDecision Block.
Proof. solve_decision. Defined.

(** src/src/context.rs *)
Record TxnCtx := mkTxnCtx { tc_id : Hash }.
Record BlkCtx := mkBlkCtx { bc_id : Hash; bc_txn_ctx : list TxnCtx }.

#[export] Instance TxnCtx_eq_dec : EqDecision TxnCtx.
Proof. solve_decision. Defined.
#[export] Instance BlkCtx_eq_dec : EqDecision BlkCtx.
Proof. solve_decision. Defined.

(** src/src/protocol/mod.rs *)
Inductive ChainType := CTDummy | CTBitcoin | CTAvalanche | CTChainReplication.

Inductive DissemPattern :=
| DBroadcast
| DGossip
| DSample (sample_size : N)
| DLinear (order : list NodeId)
| DPassthrough.

Inductive MsgType :=
| NewTxn (txn_batch : list Txn)
| NewBlock (blk : Block)
| ConsensusMsg (msg : bytes)
| PMakerMsg (msg : bytes)
| BlockReq (msg : bytes).

#[export] Instance MsgType_eq_dec : EqDecision MsgType.
Proof. solve_decision. Defined.

(** ** Third-party code *)

(** [bincode::serialize] and [bincode::deserialize] at a type. *)
Class Bincode (T : Type) := {
  serialize : T → bytes + CopycatError;
  deserialize : bytes → T + CopycatError;
}.

(** What the sources rely on: a serialized value can be read back. *)
Class BincodeLaws (T : Type) `{Bincode T} : Prop :=
  deserialize_serialize : ∀ (t : T) (b : bytes), serialize t = inl b → deserialize b = inl t.

Class Externals := {
  (** [ring::digest] with SHA256 *)
  sha256_digest : bytes → bytes;
  (** [U256::from_little_endian] ([None]: it panics) and [to_little_endian] *)
  u256_from_le : bytes → option Hash;
  u256_to_le : Hash → bytes;
  (** k256: key generation from a seed, signing, verification *)
  k256_gen_key_pair : N → PubKey * PrivKey;
  k256_sign : PrivKey → bytes → Signature + CopycatError;
  k256_verify : PubKey → bytes → Signature → bool + CopycatError;
  (** [GetSize::get_size] of the types without an implementation of their own *)
  btc_stack_size : BitcoinTxn → N;
  avax_stack_size : AvalancheTxn → N;
  (** [get_size] called on an [Arc<Txn>]: the crate's implementation for [Arc],
      which decides whether the implementation for [Txn] below is asked *)
  arc_get_size : Txn → N;
}.

Class ExternalsLaws `{Externals} : Prop := {
  u256_le_roundtrip : ∀ h, u256_from_le (u256_to_le h) = Some h;
}.

(** ** Cryptographic schemes: src/src/protocol/crypto/ *)

Inductive CryptoScheme := CSDummy | CSDummyECDSA | CSECDSA.

Section Crypto.
Context `{Externals}.

(** [u64::to_le_bytes] *)
Fixpoint le_bytes (n : nat) (x : N) : bytes :=
  match n with
  | O => []
  | S n' => (x mod 256) :: le_bytes n' (x / 256)
  end.

Definition dummy_gen_key_pair (seed : N) : PubKey * PrivKey :=
  (le_bytes 8 seed, le_bytes 8 seed).
Definition dummy_sign (privkey : PrivKey) (input : bytes) : res (Signature * f64) :=
  Ok (replicate 64 0, f64_zero).
Definition dummy_verify (pubkey : PubKey) (input : bytes) (signature : Signature) :
    res (bool * f64) :=
  Ok (true, f64_zero).

Definition HASH_TIME_PER_BYTE : f64 := f64_lit 530 100000000000.
Definition SIGN_TIME : f64 := f64_lit 799 10000000.
Definition VERIFY_TIME : f64 := f64_lit 144 1000000.
Definition dummy_ecdsa_sign (privkey : PrivKey) (input : bytes) :
    res (Signature * f64) :=
  Ok (replicate 64 0,
      f64_add (f64_mul HASH_TIME_PER_BYTE (f64_of_N (N.of_nat (length input)))) SIGN_TIME).
Definition dummy_ecdsa_verify (pubkey : PubKey) (input : bytes)
    (signature : Signature) : res (bool * f64) :=
  Ok (true,
      f64_add (f64_mul HASH_TIME_PER_BYTE (f64_of_N (N.of_nat (length input)))) VERIFY_TIME).

Definition ecdsa_sign (privkey : PrivKey) (input : bytes) : res (Signature * f64) :=
  signature ← of_result (k256_sign privkey input);
  mret (signature, f64_zero).
Definition ecdsa_verify (pubkey : PubKey) (input : bytes) (signature : Signature) :
    res (bool * f64) :=
  valid ← of_result (k256_verify pubkey input signature);
  mret (valid, f64_zero).

Definition gen_key_pair (cs : CryptoScheme) (seed : N) : PubKey * PrivKey :=
  match cs with
  | CSDummy | CSDummyECDSA => dummy_gen_key_pair seed
  | CSECDSA => k256_gen_key_pair seed
  end.

Definition sign (cs : CryptoScheme) (privkey : PrivKey) (input : bytes) :
    res (Signature * f64) :=
  match cs with
  | CSDummy => dummy_sign privkey input
  | CSDummyECDSA => dummy_ecdsa_sign privkey input
  | CSECDSA => ecdsa_sign privkey input
  end.

Definition verify (cs : CryptoScheme) (pubkey : PubKey) (input : bytes)
    (signature : Signature) : res (bool * f64) :=
  match cs with
  | CSDummy => dummy_verify pubkey input signature
  | CSDummyECDSA => dummy_ecdsa_verify pubkey input signature
  | CSECDSA => ecdsa_verify pubkey input signature
  end.

Definition u256_from_le_res (b : bytes) : res Hash :=
  match u256_from_le b with Some h => Ok h | None => Panic end.

(** [sha256]: the digest read as a little-endian number *)
Definition sha256 (input : bytes) : res Hash :=
  u256_from_le_res (sha256_digest input).

(** [DummyMerkleTree]: a random root and a time proportional to the number of
    leaves; [verify] always succeeds. *)
Definition TIMEOUT_PER_LEAF : f64 := f64_lit 123 10000000.
Definition merkle_timeout (num_elem : nat) : res N :=
  from_secs_f64 (f64_mul TIMEOUT_PER_LEAF (f64_of_N (N.of_nat num_elem))).
Definition DummyMerkleTree_new (rng : Hash) (num_elem : nat) : res (Hash * N) :=
  timeout ← merkle_timeout num_elem; mret (rng, timeout).
Definition DummyMerkleTree_verify (root : Hash) (num_elem : nat) : res (bool * N) :=
  timeout ← merkle_timeout num_elem; mret (true, timeout).
End Crypto.

(** ** Identifiers, validation and sizes of transactions *)

Section Ids.
Context `{Externals} `{!Bincode BitcoinTxn} `{!Bincode AvalancheTxn}
  `{!Bincode BlockHeader} `{!Bincode (list Hash)} `{BuildProfile}.

Definition btc_compute_id (txn : BitcoinTxn) : res Hash :=
  serialized ← of_result (serialize txn); sha256 serialized.

Definition btc_validate (crypto : CryptoScheme) (txn : BitcoinTxn) : res (bool * f64) :=
  match txn with
  | BSend sender in_utxo _ _ _ sender_signature _ _ _ =>
    serialized_in_txo ← of_result (serialize in_utxo);
    verify crypto sender serialized_in_txo sender_signature
  | BGrant _ _ | BIncentive _ _ => Ok (true, f64_zero)
  end.

Definition btc_get_size (txn : BitcoinTxn) : res N :=
  match txn with
  | BSend _ _ _ _ _ _ script_bytes _ _ => u64_add (btc_stack_size txn) script_bytes
  | _ => Ok (btc_stack_size txn)
  end.

Definition avax_compute_id (txn : AvalancheTxn) : res Hash :=
  match txn with
  | APlaceHolder => Ok 0
  | _ => serialized ← of_result (serialize txn); sha256 serialized
  end.

Definition avax_validate (crypto : CryptoScheme) (txn : AvalancheTxn) :
    res (bool * f64) :=
  match txn with
  | ASend sender in_utxo _ _ _ sender_signature =>
    serialized_in_txo ← of_result (serialize in_utxo);
    verify crypto sender serialized_in_txo sender_signature
  | AGrant _ _ _ => Ok (true, f64_zero)
  | ANoop _ | APlaceHolder => Panic
  end.

Definition dummy_compute_id (txn : DummyTxn) : res Hash := Ok (dt_id txn).
Definition dummy_get_size (txn : DummyTxn) : N :=
  N.of_nat (length (dt_content txn)) + N.of_nat (length (dt_signature txn)) + 64.
Definition dummy_validate (crypto : CryptoScheme) (txn : DummyTxn) : res (bool * f64) :=
  verify crypto (dt_pub_key txn) (dt_content txn) (dt_signature txn).

Definition txn_compute_id (t : Txn) : res Hash :=
  match t with
  | TDummy txn => dummy_compute_id txn
  | TBitcoin txn => btc_compute_id txn
  | TAvalanche txn => avax_compute_id txn
  end.

Definition txn_validate (crypto : CryptoScheme) (t : Txn) : res (bool * f64) :=
  match t with
  | TDummy txn => dummy_validate crypto txn
  | TBitcoin txn => btc_validate crypto txn
  | TAvalanche txn => avax_validate crypto txn
  end.

Definition txn_get_size (t : Txn) : res N :=
  match t with
  | TDummy txn => Ok (dummy_get_size txn)
  | TAvalanche txn => Ok (avax_stack_size txn)
  | TBitcoin txn => btc_get_size txn
  end.

(** [BlockHeader::compute_id]; [rand]: the 32 random bytes of a dummy header.
    An Avalanche id is the U256 with limbs 0, depth, proposer, id. *)
Definition header_compute_id (rand : bytes) (h : BlockHeader) : res Hash :=
  match h with
  | HDummy => u256_from_le_res rand
  | HAvalanche proposer id depth =>
    Ok (depth * two64 + proposer * two64 ^ 2 + id * two64 ^ 3)
  | HBitcoin _ _ _ _ =>
    serialized_header ← of_result (serialize h); sha256 serialized_header
  | HChainReplication blk_id => Ok blk_id
  end.

Definition TxnCtx_from_txn (t : Txn) : res TxnCtx :=
  id ← txn_compute_id t; mret (mkTxnCtx id).

Fixpoint txn_ctxs (ts : list Txn) : res (list TxnCtx) :=
  match ts with
  | [] => Ok []
  | t :: ts' => c ← TxnCtx_from_txn t; cs ← txn_ctxs ts'; mret (c :: cs)
  end.

Definition BlkCtx_from_blk (rand : bytes) (b : Block) : res BlkCtx :=
  blk_id ← header_compute_id rand (header b);
  txn_ctx ← txn_ctxs (txns b);
  mret (mkBlkCtx blk_id txn_ctx).

Definition BlkCtx_from_header_and_txns (rand : bytes) (h : BlockHeader)
    (txn_ctx : list TxnCtx) : res BlkCtx :=
  blk_id ← header_compute_id rand h; mret (mkBlkCtx blk_id txn_ctx).

(** An Avalanche header identifies its round of votes: distinct (proposer, id,
    depth) triples of u64 numbers have distinct ids. *)
Lemma avalanche_id_inj rand p1 i1 d1 p2 i2 d2 h :
  p1 < two64 → p2 < two64 → d1 < two64 → d2 < two64 →
  header_compute_id rand (HAvalanche p1 i1 d1) = Ok h →
  header_compute_id rand (HAvalanche p2 i2 d2) = Ok h →
  p1 = p2 ∧ i1 = i2 ∧ d1 = d2.
Proof.
  unfold header_compute_id, two64. intros Hp1 Hp2 Hd1 Hd2 H1' H2'.
  injection H1' as H1'. injection H2' as H2'. lia.
Qed.

Lemma txn_ctxs_length ts cs : txn_ctxs ts = Ok cs → length cs = length ts.
Proof.
  revert cs. induction ts as [|t ts IH]; intros cs Heq; cbn in Heq; res_inv; [done|].
  cbn. f_equal. by apply IH.
Qed.
End Ids.
