(* ===== verification/Peers.v ===== *)
(** * Peer messenger and iteration orders

    - src/src/peers/peers.rs: the messenger every stage sends through. The
      mailbox client it wraps is third-party: the class [Transport] says which
      calls it accepts. The calls made are recorded in order ([pm_wire]).
    - the iteration order of Rust's hash sets and maps, which is unspecified:
      the class [HashOrder]. *)

From S2P Require Import Prelude F64 Protocol.
Local Open Scope N_scope.

(** ** Iteration order of HashSet and HashMap *)

(** Iterating visits every element once, in some order. *)
Class HashOrder := {
  set_iter : ∀ {K : Type} `{Countable K}, gset K → list K;
  set_iter_perm : ∀ {K : Type} `{Countable K} (s : gset K), set_iter s ≡ₚ elements s;
  map_iter : ∀ {K V : Type} `{Countable K}, gmap K V → list (K * V);
  map_iter_perm : ∀ {K V : Type} `{Countable K} (m : gmap K V),
    map_iter m ≡ₚ map_to_list m;
}.

(** An order to compute with. *)
#[local] Program Instance canonical_order : HashOrder := {|
  set_iter := λ K _ _ s, elements s;
  map_iter := λ K V _ _ m, map_to_list m;
|}.
Solve All Obligations with done.

Section HashOrder.
Context `{HashOrder} {K : Type} `{Countable K}.

Lemma elem_of_set_iter (s : gset K) x : x ∈ set_iter s ↔ x ∈ s.
Proof. by rewrite set_iter_perm, elem_of_elements. Qed.

Lemma NoDup_set_iter (s : gset K) : NoDup (set_iter s).
Proof. rewrite set_iter_perm. apply NoDup_elements. Qed.

Lemma set_iter_empty : set_iter (∅ : gset K) = [].
Proof. apply Permutation_nil_r. rewrite set_iter_perm. by rewrite elements_empty. Qed.

Lemma set_iter_singleton (x : K) : set_iter ({[x]} : gset K) = [x].
Proof. apply Permutation_singleton_r. rewrite set_iter_perm. by rewrite elements_singleton. Qed.

Lemma elem_of_map_iter {V} (m : gmap K V) k v : (k, v) ∈ map_iter m ↔ m !! k = Some v.
Proof. by rewrite map_iter_perm, elem_of_map_to_list. Qed.

Lemma NoDup_map_iter {V} (m : gmap K V) : NoDup (map_iter m).*1.
Proof. rewrite map_iter_perm. apply NoDup_fst_map_to_list. Qed.
End HashOrder.

(** ** The messenger *)

(** Calls to the mailbox client ([ClientStubSendHalf]). *)
Inductive hub_call :=
| HubSend (dest : NodeId) (msg : MsgType)
| HubDelayedSend (dest : NodeId) (msg : MsgType) (delay : N)
| HubBroadcast (msg : MsgType)
| HubMulticast (dests : list NodeId) (msg : MsgType).

#[export] Instance hub_call_eq_dec : EqDecision hub_call.
Proof. solve_decision. Defined.

(** Whether the mailbox accepts a call, after the calls already accepted;
    [sample_peers]: rand's [choose_multiple] on the neighbors. *)
Class Transport := {
  hub_accepts : list hub_call → hub_call → bool;
  sample_peers : gset NodeId → N → list NodeId;
}.

(** The documentation of [choose_multiple]: distinct elements of the iterator,
    as many as asked for or all of them. *)
Class TransportLaws `{Transport} : Prop := {
  sample_peers_nodup : ∀ s n, NoDup (sample_peers s n);
  sample_peers_in : ∀ s n x, x ∈ sample_peers s n → x ∈ s;
  sample_peers_length : ∀ s n,
    N.of_nat (length (sample_peers s n)) = N.min n (N.of_nat (size s));
}.

(** A bounded channel inside a node ([mpsc::Sender::send]): an error once the
    receiver is gone. The channel is the list of messages sent, latest first. *)
Class Channel := chan_open : ∀ {T : Type}, list T → bool.

Definition chan_send `{Channel} {T} (msg : T) : M (list T) unit := λ c,
  if chan_open c then (Ok tt, msg :: c) else (Err (mkErr "channel closed"), c).

Lemma wp_chan_send `{Channel} {T} (msg : T) (Q : unit → list T → Prop)
    (E : CopycatError → list T → Prop) c :
  Q tt (msg :: c) → E (mkErr "channel closed") c → wp (chan_send msg) Q E c.
Proof. intros HQ HE. unfold wp, chan_send. by destruct (chan_open c). Qed.

Lemma wlp_chan_send `{Channel} {T} (msg : T) (Q : unit → list T → Prop) (R : list T → Prop) c :
  Q tt (msg :: c) → R c → wlp (chan_send msg) Q R c.
Proof. intros HQ HR. unfold wlp, chan_send. by destruct (chan_open c). Qed.

(** [peers.rs] [PeerMessenger]; [pm_wire]: the accepted calls, latest first. *)
Record PeerMessenger := mkPeerMessenger {
  pm_id : NodeId;
  pm_neighbors : gset NodeId;
  pm_msgs_sent : N;
  pm_wire : list hub_call;
}.
#[export] Instance PeerMessenger_eta : Eta PeerMessenger := λ r,
  mkPeerMessenger (pm_id r) (pm_neighbors r) (pm_msgs_sent r) (pm_wire r).

Section Messenger.
Context `{Transport} `{HashOrder}.

Definition hub (what : string) (c : hub_call) : M PeerMessenger unit := λ pm,
  if hub_accepts (pm_wire pm) c then
    (Ok tt, pm <| pm_wire ::= cons c |> <| pm_msgs_sent ::= N.succ |>)
  else (Err (mkErr what), pm).

Definition pm_send (dest : NodeId) (msg : MsgType) : M PeerMessenger unit :=
  hub "send failed" (HubSend dest msg).

Definition pm_delayed_send (dest : NodeId) (msg : MsgType) (delay : N) :
    M PeerMessenger unit :=
  hub "send failed" (HubDelayedSend dest msg delay).

Definition pm_broadcast (msg : MsgType) : M PeerMessenger unit :=
  hub "broadcast failed" (HubBroadcast msg).

Definition pm_gossip (msg : MsgType) (skipping : gset NodeId) : M PeerMessenger unit :=
  nbrs ← gets pm_neighbors;
  let dests := set_iter (nbrs ∖ skipping) in
  if decide (0 < length dests)%nat then hub "gossip failed" (HubMulticast dests msg)
  else mret tt.

Definition pm_sample (msg : MsgType) (neighbors : N) : M PeerMessenger unit :=
  nbrs ← gets pm_neighbors;
  let dests := sample_peers nbrs neighbors in
  if decide (0 < length dests)%nat then
    hub "sample multicast failed" (HubMulticast dests msg)
  else mret tt.

(** Sending neither panics nor changes anything but the wire and its count. *)
Lemma wp_hub what c (Q : unit → PeerMessenger → Prop) (E : CopycatError → PeerMessenger → Prop) pm :
  Q tt (pm <| pm_wire ::= cons c |> <| pm_msgs_sent ::= N.succ |>) →
  E (mkErr what) pm → wp (hub what c) Q E pm.
Proof. intros HQ HE. unfold wp, hub. by destruct (hub_accepts _ _). Qed.

(** What gossip puts on the wire: one multicast of the message to the
    neighbors outside the skipped set, or nothing when there is none. *)
Lemma gossip_wire msg skipping pm pm' :
  pm_gossip msg skipping pm = (Ok tt, pm') →
  pm' = pm ∧ pm_neighbors pm ∖ skipping = ∅ ∨
  ∃ dests, pm_wire pm' = HubMulticast dests msg :: pm_wire pm ∧
    dests ≡ₚ elements (pm_neighbors pm ∖ skipping) ∧ dests ≠ [].
Proof.
  unfold pm_gossip, mbind, M_bind, gets, hub. case_decide as Hlen; intros Heq.
  - destruct (hub_accepts _ _); simplify_eq. right.
    eexists; split_and!; [done|apply set_iter_perm|]. by destruct (set_iter _); cbn in Hlen; [lia|].
  - left. injection Heq as <-. split; [done|].
    assert (set_iter (pm_neighbors pm ∖ skipping) = []) as Hnil
      by (destruct (set_iter _); [done|cbn in Hlen; lia]).
    apply set_eq. intros x. rewrite <- elem_of_set_iter, Hnil. set_solver.
Qed.
End Messenger.
