(* ===== verification/Utils.v ===== *)
(** * Time queue and topology

    src/src/utils/time_queue.rs: the queue of vote timeouts, kept in time order;
    src/src/utils/parse_topo.rs: neighbor sets from the list of pipes read from
    a file. *)

From S2P Require Import Prelude F64 Protocol Peers.
Local Open Scope N_scope.

(** ** TimeQueue *)

Record TimeEvent (T : Type) := mkTimeEvent { te_data : T; te_time : Instant }.
Arguments mkTimeEvent {T} te_data te_time.
Arguments te_data {T} t.
Arguments te_time {T} t.

(** The entries, front first ([inner]). *)
Definition TimeQueue (T : Type) := list (TimeEvent T).

(** What a poll of [wait_next] sees. *)
Inductive wait_state := TimerDue | TimerWaiting | TimerEmpty.

Section TimeQueue.
Context {T : Type}.
Implicit Types (q : TimeQueue T).

Definition tq_new : TimeQueue T := [].

(** The backward scan of [push]: how many trailing entries are later. *)
Fixpoint later_suffix (rq : list (TimeEvent T)) (time : Instant) : nat :=
  match rq with
  | te :: rq' => if (time <? te_time te)%N then S (later_suffix rq' time) else O
  | [] => O
  end.

Definition tq_push (data : T) (time : Instant) q : TimeQueue T :=
  let insert_idx := (length q - later_suffix (reverse q) time)%nat in
  take insert_idx q ++ mkTimeEvent data time :: drop insert_idx q.

Definition tq_pop q : option T * TimeQueue T :=
  match q with
  | [] => (None, [])
  | te :: q' => (Some (te_data te), q')
  end.

Definition tq_wait_next (now : Instant) q : wait_state :=
  match q with
  | [] => TimerEmpty
  | te :: _ => if (te_time te <? now)%N then TimerDue else TimerWaiting
  end.

(** Removes the first entry with the data. *)
Fixpoint tq_remove `{EqDecision T} (data : T) q : option T * TimeQueue T :=
  match q with
  | [] => (None, [])
  | te :: q' =>
    if decide (te_data te = data) then (Some (te_data te), q')
    else let r := tq_remove data q' in (r.1, te :: r.2)
  end.

Definition by_time (a b : TimeEvent T) : Prop := te_time a ≤ te_time b.

Lemma later_suffix_spec q time :
  Sorted by_time q →
  ∃ q1 q2, q = q1 ++ q2 ∧ length q2 = later_suffix (reverse q) time ∧
    Forall (λ te, te_time te ≤ time) q1 ∧ Forall (λ te, time < te_time te) q2.
Proof.
  intros Hs%Sorted_StronglySorted; [|intros a b c; unfold by_time; lia].
  induction q as [|te q IH] using rev_ind; [by exists [], []|].
  apply StronglySorted_app in Hs as (Hle & Hs & _). rewrite reverse_snoc. cbn.
  destruct (N.ltb_spec time (te_time te)) as [Hlt|Hge].
  - destruct (IH Hs) as (q1 & q2 & -> & Hlen & H1 & H2).
    exists q1, (q2 ++ [te]). rewrite (assoc_L (++)), length_app, Hlen, Nat.add_1_r.
    split_and!; [done|done|done|]. apply Forall_app. split; [done|by apply Forall_singleton].
  - exists (q ++ [te]), []. rewrite app_nil_r. split_and!; [done|done| |done].
    apply Forall_app. split; [|apply Forall_singleton; lia]. apply Forall_forall. intros x Hx.
    specialize (Hle x te Hx ltac:(by apply list_elem_of_singleton)). unfold by_time in Hle. lia.
Qed.

(** [push] puts the entry after every entry that is not later. *)
Lemma tq_push_split q data time :
  Sorted by_time q →
  ∃ q1 q2, q = q1 ++ q2 ∧ tq_push data time q = q1 ++ mkTimeEvent data time :: q2 ∧
    Forall (λ te, te_time te ≤ time) q1 ∧ Forall (λ te, time < te_time te) q2.
Proof.
  intros Hs. destruct (later_suffix_spec q time Hs) as (q1 & q2 & Heq & Hlen & H1 & H2).
  exists q1, q2. split_and!; try done. unfold tq_push. rewrite <- Hlen, Heq, length_app.
  replace (length q1 + length q2 - length q2)%nat with (length q1) by lia.
  by rewrite take_app_length, drop_app_length.
Qed.

Lemma tq_push_sorted q data time : Sorted by_time q → Sorted by_time (tq_push data time q).
Proof.
  intros Hs. destruct (tq_push_split q data time Hs) as (q1 & q2 & -> & -> & H1 & H2).
  apply Sorted_StronglySorted in Hs; [|intros a b c; unfold by_time; lia].
  apply StronglySorted_app in Hs as (Hle & Hs1 & Hs2). apply StronglySorted_Sorted.
  apply StronglySorted_app. split_and!; [|done|constructor; [done|]].
  - intros a b Ha Hb. apply elem_of_cons in Hb as [->|Hb]; [|by apply Hle].
    rewrite Forall_forall in H1. by apply H1.
  - eapply Forall_impl; [exact H2|]. intros x Hx. unfold by_time. cbn in *. lia.
Qed.

Lemma tq_push_perm q data time : tq_push data time q ≡ₚ mkTimeEvent data time :: q.
Proof.
  unfold tq_push. rewrite <- Permutation_middle. by rewrite take_drop.
Qed.

Lemma tq_remove_spec `{EqDecision T} q data :
  tq_remove data q = (None, q) ∧ data ∉ te_data <$> q ∨
  ∃ q1 te q2, q = q1 ++ te :: q2 ∧ te_data te = data ∧ data ∉ te_data <$> q1 ∧
    tq_remove data q = (Some data, q1 ++ q2).
Proof.
  induction q as [|te q IH]; cbn; [left; split; [done|set_solver]|].
  case_decide as Hd; [right; exists [], te, q; split_and!; [done|done|set_solver|by rewrite Hd]|].
  destruct IH as [[-> Hn]|(q1 & te' & q2 & -> & Ht & Hn & ->)].
  - left. split; [done|]. rewrite elem_of_cons. naive_solver.
  - right. exists (te :: q1), te', q2. split_and!; try done. cbn. rewrite elem_of_cons. naive_solver.
Qed.
End TimeQueue.

(** ** Topology *)

Abbreviation Pipes := (list (NodeId * NodeId)) (only parsing).

(** [get_neighbors] on the pipes the file holds. *)
Definition get_neighbors (me : NodeId) (pipes : Pipes) : gset NodeId :=
  foldl (λ neighbors p,
    if decide (p.1 = me) then {[p.2]} ∪ neighbors
    else if decide (p.2 = me) then {[p.1]} ∪ neighbors else neighbors) ∅ pipes.

(** [if let Some(neighbors) = neighbor_map.get_mut(&n) { neighbors.insert(m) }] *)
Definition add_neighbor (n m : NodeId) (nm : gmap NodeId (gset NodeId)) : gmap NodeId (gset NodeId) :=
  match nm !! n with Some s => <[n := {[m]} ∪ s]> nm | None => nm end.

Definition get_topology (local_nodes : list NodeId) (pipes : Pipes) : gmap NodeId (gset NodeId) :=
  foldl (λ nm p, add_neighbor p.2 p.1 (add_neighbor p.1 p.2 nm))
    (foldl (λ nm n, <[n := ∅]> nm) ∅ local_nodes) pipes.

Definition fully_connected_topology (local_nodes : list NodeId) (all_nodes : gset NodeId) :
    gmap NodeId (gset NodeId) :=
  foldl (λ nm n, <[n := all_nodes ∖ {[n]}]> nm) ∅ local_nodes.

Lemma elem_of_get_neighbors me pipes x :
  x ∈ get_neighbors me pipes ↔ (me, x) ∈ pipes ∨ (x, me) ∈ pipes ∧ x ≠ me.
Proof.
  unfold get_neighbors. rewrite <- (reverse_involutive pipes).
  setoid_rewrite elem_of_reverse. generalize (reverse pipes) as l. clear pipes.
  induction l as [|[a b] l IH]; [set_solver|].
  rewrite reverse_cons, foldl_app. cbn [foldl]. setoid_rewrite elem_of_cons.
  repeat case_decide; cbn in *; subst; rewrite ?elem_of_union, ?elem_of_singleton, IH; naive_solver.
Qed.

Lemma get_topology_dom local_nodes pipes : dom (get_topology local_nodes pipes) = list_to_set local_nodes.
Proof.
  unfold get_topology.
  assert (∀ nm : gmap NodeId (gset NodeId), dom (foldl (λ nm n, <[n := ∅]> nm) nm local_nodes) =
    list_to_set local_nodes ∪ dom nm) as H1.
  { induction local_nodes as [|n l IH]; intros nm; cbn; [set_solver|].
    rewrite IH, dom_insert_L. set_solver. }
  assert (∀ (ps : Pipes) (nm : gmap NodeId (gset NodeId)),
    dom (foldl (λ nm p, add_neighbor p.2 p.1 (add_neighbor p.1 p.2 nm)) nm ps) = dom nm) as H2.
  { assert (∀ n m nm, dom (add_neighbor n m nm) = dom nm) as Ha.
    { intros n m nm. unfold add_neighbor. destruct (nm !! n) eqn:E; [|done].
      rewrite dom_insert_L. apply elem_of_dom_2 in E. set_solver. }
    induction ps as [|p ps IH]; intros nm; cbn; [done|]. by rewrite IH, !Ha. }
  rewrite H2, H1. set_solver.
Qed.
