(* ===== verification/Config.v ===== *)
(** * Configuration

    src/src/config.rs: the configuration of a node for each kind of chain, its
    validation against the topology, and the dissemination patterns it implies.
    Reading the file (serde_json) is not modelled: [parse_config_file] starts
    from the items it parses. *)

From S2P Require Import Prelude F64 Protocol Peers.
Local Open Scope N_scope.

Record DummyConfig := mkDummyConfig { dc_txn_dissem : DissemPattern; dc_blk_dissem : DissemPattern }.

Record BitcoinBasicConfig := mkBitcoinBasicConfig {
  bb_difficulty : N;
  bb_commit_depth : N;
  bb_txn_dissem : DissemPattern;
  bb_blk_dissem : DissemPattern;
}.
Inductive BitcoinConfig := BCBasic (config : BitcoinBasicConfig) | BCEager (config : BitcoinBasicConfig).

Record AvalancheBasicConfig := mkAvalancheBasicConfig {
  cf_blk_len : N;
  cf_k : N;
  cf_alpha : f64;
  cf_beta1 : N;
  cf_beta2 : N;
  cf_proposal_timeout_secs : f64;
  cf_vote_timeout : f64;
  cf_max_inflight_blk : N;
  cf_txn_dissem : DissemPattern;
}.
#[export] Instance AvalancheBasicConfig_eta : Eta AvalancheBasicConfig := λ r,
  mkAvalancheBasicConfig (cf_blk_len r) (cf_k r) (cf_alpha r) (cf_beta1 r) (cf_beta2 r)
    (cf_proposal_timeout_secs r) (cf_vote_timeout r) (cf_max_inflight_blk r) (cf_txn_dissem r).
Inductive AvalancheConfig :=
| ACBasic (config : AvalancheBasicConfig)
| ACBlizzard (config : AvalancheBasicConfig)
| ACVoteNo.

Record ChainReplicationConfig := mkChainReplicationConfig { cr_order : list NodeId; cr_blk_size : N }.
#[export] Instance ChainReplicationConfig_eta : Eta ChainReplicationConfig := λ r,
  mkChainReplicationConfig (cr_order r) (cr_blk_size r).

Inductive ChainConfig :=
| CCDummy (config : DummyConfig)
| CCBitcoin (config : BitcoinConfig)
| CCAvalanche (config : AvalancheConfig)
| CCChainReplication (config : ChainReplicationConfig).

Record NodeConfig := mkNodeConfig { chain_config : ChainConfig; max_concurrency : option N }.
#[export] Instance NodeConfig_eta : Eta NodeConfig := λ r,
  mkNodeConfig (chain_config r) (max_concurrency r).

(** ** Defaults *)

Definition DummyConfig_default : DummyConfig := mkDummyConfig DBroadcast DBroadcast.
Definition BitcoinBasicConfig_default : BitcoinBasicConfig := mkBitcoinBasicConfig 25 6 DGossip DGossip.
Definition AvalancheBasicConfig_default : AvalancheBasicConfig :=
  mkAvalancheBasicConfig 40 10 (f64_lit 8 10) 11 150 (f64_of_N 5) (f64_of_N 5) 40 DBroadcast.
Definition ChainReplicationConfig_default : ChainReplicationConfig :=
  mkChainReplicationConfig [] 0x100000.

(** ** Validation *)

(** At most as many voters as there are, and a majority. *)
Definition validate_avalanche (max_voters : N) (config : AvalancheBasicConfig) : AvalancheBasicConfig :=
  let config := if (max_voters <? cf_k config)%N then config <| cf_k := max_voters |> else config in
  if f64_leb (cf_alpha config) (f64_lit 1 2) then config <| cf_alpha := f64_lit 51 100 |> else config.

(** The loop over the order: the nodes seen, or [None] at the first invalid one. *)
Fixpoint scan_order (all_nodes on_chain : gset NodeId) (order : list NodeId) : option (gset NodeId) :=
  match order with
  | [] => Some on_chain
  | node :: order' =>
    if decide (node ∈ all_nodes ∧ node ∉ on_chain) then scan_order all_nodes ({[node]} ∪ on_chain) order'
    else None
  end.

Section Validate.
Context `{HashOrder}.

Definition validate_order (all_nodes : gset NodeId) (config : ChainReplicationConfig) :
    ChainReplicationConfig :=
  match scan_order all_nodes ∅ (cr_order config) with
  | None => config <| cr_order := merge_sort N.le (set_iter all_nodes) |>
  | Some on_chain =>
    config <| cr_order ::= λ o, o ++ filter (λ node, node ∉ on_chain) (set_iter all_nodes) |>
  end.

Definition validate (neighbors all_nodes : gset NodeId) (nc : NodeConfig) : NodeConfig :=
  let max_voters := N.of_nat (size neighbors) + 1 in
  match chain_config nc with
  | CCDummy _ | CCBitcoin _ => nc
  | CCAvalanche (ACBasic config) =>
    nc <| chain_config := CCAvalanche (ACBasic (validate_avalanche max_voters config)) |>
  | CCAvalanche (ACBlizzard config) =>
    nc <| chain_config := CCAvalanche (ACBlizzard (validate_avalanche max_voters config)) |>
  | CCAvalanche ACVoteNo => nc
  | CCChainReplication config =>
    nc <| chain_config := CCChainReplication (validate_order all_nodes config) |>
  end.
End Validate.

(** ** Dissemination patterns *)

Definition get_txn_dissem (c : ChainConfig) : DissemPattern :=
  match c with
  | CCDummy config => dc_txn_dissem config
  | CCBitcoin (BCBasic config) | CCBitcoin (BCEager config) => bb_txn_dissem config
  | CCAvalanche (ACBasic config) | CCAvalanche (ACBlizzard config) => cf_txn_dissem config
  | CCAvalanche ACVoteNo => DPassthrough
  | CCChainReplication _ => DPassthrough
  end.

Definition get_blk_dissem (c : ChainConfig) : DissemPattern :=
  match c with
  | CCDummy config => dc_blk_dissem config
  | CCBitcoin (BCBasic config) | CCBitcoin (BCEager config) => bb_blk_dissem config
  | CCAvalanche (ACBasic config) | CCAvalanche (ACBlizzard config) => DSample (cf_k config)
  | CCAvalanche ACVoteNo => DPassthrough
  | CCChainReplication config => DLinear (cr_order config)
  end.

(** [parse_config_file], from the parsed items: nodes, configuration of the
    chain read, concurrency bound; a later item overrides an earlier one. *)
Definition parse_config (items : list (list NodeId * ChainConfig * option N)) : gmap NodeId NodeConfig :=
  foldl (λ m it, foldl (λ m node, <[node := mkNodeConfig it.1.2 it.2]> m) m it.1.1) ∅ items.

(** ** Properties *)

Lemma scan_order_spec all_nodes on_chain order :
  match scan_order all_nodes on_chain order with
  | Some seen => NoDup order ∧ (∀ x, x ∈ order → x ∈ all_nodes ∧ x ∉ on_chain) ∧
      seen = list_to_set order ∪ on_chain
  | None => ¬ (NoDup order ∧ ∀ x, x ∈ order → x ∈ all_nodes ∧ x ∉ on_chain)
  end.
Proof.
  revert on_chain. induction order as [|n order IH]; intros on_chain; cbn.
  { split_and!; [constructor|set_solver|set_solver]. }
  case_decide as Hn.
  - specialize (IH ({[n]} ∪ on_chain)). destruct (scan_order _ _ order) as [seen|].
    + destruct IH as (Hnd & Hall & ->). split_and!; [|set_solver|set_solver].
      apply NoDup_cons. split; [|done]. intros Hin. destruct (Hall n Hin). set_solver.
    + intros [[Hni Hnd]%NoDup_cons Hall]. apply IH. split; [done|].
      intros x Hx. destruct (Hall x); [by apply list_elem_of_further|]. set_solver.
  - intros [_ Hall]. apply Hn, Hall, list_elem_of_here.
Qed.

Section Properties.
Context `{HashOrder}.

(** After validation the replication chain visits every node exactly once,
    whatever order was configured; a valid configured order is kept as its
    beginning, and an invalid one is replaced by the sorted list of nodes. *)
Theorem validate_order_covers all_nodes config :
  let order := cr_order (validate_order all_nodes config) in
  NoDup order ∧ (∀ x, x ∈ order ↔ x ∈ all_nodes) ∧
  ((NoDup (cr_order config) ∧ ∀ x, x ∈ cr_order config → x ∈ all_nodes) ∧
     (∃ rest, order = cr_order config ++ rest) ∨
   ¬ (NoDup (cr_order config) ∧ ∀ x, x ∈ cr_order config → x ∈ all_nodes) ∧
     Sorted N.le order).
Proof.
  cbn. unfold validate_order. pose proof (scan_order_spec all_nodes ∅ (cr_order config)) as Hs.
  destruct (scan_order _ _ _) as [seen|]; cbn.
  - destruct Hs as (Hnd & Hall & ->). rewrite union_empty_r_L. split_and!.
    + apply NoDup_app. split; [done|]. split; [|apply NoDup_filter, NoDup_set_iter].
      intros x Hx. rewrite list_elem_of_filter. set_solver.
    + intros x. rewrite elem_of_app, list_elem_of_filter, elem_of_set_iter, not_elem_of_list_to_set.
      split; [intros [Hx|[_ ?]]; [by apply Hall|done]|].
      intros Hx. destruct (decide (x ∈ cr_order config)); tauto.
    + left. split; [|by eexists]. split; [done|]. intros x Hx. by apply Hall.
  - assert (merge_sort N.le (set_iter all_nodes) ≡ₚ set_iter all_nodes) as Hp by apply merge_sort_Permutation.
    split_and!.
    + rewrite Hp. apply NoDup_set_iter.
    + intros x. by rewrite Hp, elem_of_set_iter.
    + right. split.
      * intros [Hnd Hall]. apply Hs. split; [done|]. intros x Hx. split; [by apply Hall|set_solver].
      * apply Sorted_merge_sort. intros x y. lia.
Qed.

(** With the default, empty order the chain is the iteration order of a hash
    set: nodes with different hash seeds place their head and tail elsewhere. *)
Lemma default_order_is_iteration_order all_nodes :
  cr_order (validate_order all_nodes ChainReplicationConfig_default) = set_iter all_nodes.
Proof.
  unfold validate_order. cbn. induction (set_iter all_nodes) as [|n l IH]; [done|].
  rewrite filter_cons_True by set_solver. by rewrite IH.
Qed.

(** After validation an Avalanche node never waits for more votes than it
    can get: [k] is at most the number of its neighbors plus itself, and is
    changed only when it was larger; the quorum fraction is above a half, or
    not a number. *)
Theorem validate_avalanche_bounds neighbors all_nodes config conc :
  ∃ config', chain_config (validate neighbors all_nodes
      (mkNodeConfig (CCAvalanche (ACBasic config)) conc)) = CCAvalanche (ACBasic config') ∧
    cf_k config' = N.min (cf_k config) (N.of_nat (size neighbors) + 1) ∧
    f64_leb (cf_alpha config') (f64_lit 1 2) = false.
Proof.
  eexists. split; [done|]. unfold validate_avalanche.
  assert (f64_leb (f64_lit 51 100) (f64_lit 1 2) = false) as H51 by by vm_compute.
  destruct (N.ltb_spec (N.of_nat (size neighbors) + 1) (cf_k config)); cbn;
    destruct (f64_leb (cf_alpha config) (f64_lit 1 2)) eqn:Ha; cbn -[f64_leb f64_lit];
    (split; [lia|done]).
Qed.
End Properties.
