(* ===== verification/ParseConfig.v ===== *)
(** * Configuration from a string

    src/src/utils/parse_config.rs: the macro [parsed_config!], which overwrites the named
    fields of a default configuration with what a TOML string holds, and its tests. The
    parser and the conversion of values are third-party: arguments. *)

From S2P Require Import Prelude F64.

Section ParsedConfig.
Context {Value Config : Type} (parse : string → gmap string Value + CopycatError).

(** A field: its name, and [config.$field = v.try_into()?]. *)
Abbreviation Field := (string * (Value → Config → Config + CopycatError))%type (only parsing).
Implicit Types (fields : list (string * (Value → Config → Config + CopycatError))) (table : gmap string Value).

(** The fields found in the table are removed from it. *)
Fixpoint set_fields fields (config : Config) table : res (Config * gmap string Value) :=
  match fields with
  | [] => Ok (config, table)
  | (name, set) :: rest =>
    match table !! name with
    | Some v => config ← of_result (set v config); set_fields rest config (delete name table)
    | None => set_fields rest config table
    end
  end.

Definition parsed_config (config_str : option string) (default_config : Config) fields : res Config :=
  match config_str with
  | None => Ok default_config
  | Some config_str =>
    table ← of_result (parse config_str);
    r ← set_fields fields default_config table;
    if decide (r.2 = ∅) then Ok r.1 else Err (mkErr "invalid field name in config")
  end.

(** What the table says of a configuration: the fields it has are set, in the order of
    the fields, the others are kept. *)
Fixpoint overwritten fields table (config : Config) : res Config :=
  match fields with
  | [] => Ok config
  | (name, set) :: rest =>
    config ← match table !! name with Some v => of_result (set v config) | None => Ok config end;
    overwritten rest table config
  end.

Lemma set_fields_spec fields : ∀ config table, NoDup fields.*1 →
  set_fields fields config table =
    (c ← overwritten fields table config; Ok (c, filter (λ kv : string * Value, kv.1 ∉ fields.*1) table)).
Proof.
  induction fields as [|[name set] rest IH]; intros config table Hnd; cbn.
  - f_equal. f_equal. symmetry. apply map_filter_id. intros i x _. apply not_elem_of_nil.
  - apply NoDup_cons in Hnd as [Hname Hnd].
    assert (∀ c t, (∀ n, n ∈ rest.*1 → t !! n = table !! n) → overwritten rest t c = overwritten rest table c) as Hagree.
    { clear IH. intros c t. revert c. induction rest as [|[n st] rest IHr]; intros c Ht; [done|]. cbn.
      rewrite (Ht n) by (by left). apply NoDup_cons in Hnd as [_ Hnd]. destruct (table !! n) as [v|]; cbn.
      - destruct (of_result (st v c)); cbn; [|done..]. apply IHr; [set_solver|done|set_solver].
      - apply IHr; [set_solver|done|set_solver]. }
    destruct (table !! name) as [v|] eqn:Hv; cbn.
    + destruct (of_result (set v config)) as [c| | |]; cbn; [|done..]. rewrite IH by done.
      rewrite (Hagree c) by (intros n Hn; apply lookup_delete_ne; by intros ->).
      destruct (overwritten rest table c); cbn; [|done..]. do 2 f_equal. apply map_eq. intros i. apply option_eq. intros x.
      rewrite !map_lookup_filter_Some, lookup_delete_Some. cbn. set_solver.
    + rewrite IH by done. destruct (overwritten rest table config); cbn; [|done..]. do 2 f_equal. apply map_eq.
      intros i. apply option_eq. intros x. rewrite !map_lookup_filter_Some. cbn. split; [|set_solver].
      intros [Hi ?]. split; [done|]. rewrite not_elem_of_cons. split; [congruence|done].
Qed.

(** The configuration is the default with the fields of the table; a key that is no
    field is an error, and so is a value of the wrong type. *)
Lemma parsed_config_spec config_str default_config fields table :
  NoDup fields.*1 → parse config_str = inl table →
  parsed_config (Some config_str) default_config fields =
    (c ← overwritten fields table default_config;
     if decide (dom table ⊆ list_to_set fields.*1) then Ok c
     else Err (mkErr "invalid field name in config")).
Proof.
  intros Hnd Hparse. unfold parsed_config. rewrite Hparse. cbn. rewrite set_fields_spec by done.
  destruct (overwritten fields table default_config) as [c| | |]; cbn; [|done..].
  assert (filter (λ kv : string * Value, kv.1 ∉ fields.*1) table = ∅ ↔ dom table ⊆ list_to_set fields.*1) as Hiff.
  { rewrite map_empty_filter. unfold map_Forall. split.
    - intros Hall name [v Hv]%elem_of_dom. specialize (Hall name v Hv). cbn in Hall.
      apply elem_of_list_to_set. by destruct (decide (name ∈ fields.*1)).
    - intros Hsub name v Hv Hn. apply Hn. apply (elem_of_list_to_set (C := gset string)), Hsub. by apply elem_of_dom. }
  do 2 case_decide; first [done|exfalso; tauto].
Qed.
End ParsedConfig.

(** ** The tests *)

#[local] Instance f64_eq_dec : EqDecision f64.
Proof. unfold f64. solve_decision. Defined.

Record TestConfig := mkTestConfig { abc : N; hij : string; lmn : f64 }.
#[export] Instance TestConfig_eta : Eta TestConfig := λ r, mkTestConfig (abc r) (hij r) (lmn r).
#[export] Instance TestConfig_eq_dec : EqDecision TestConfig.
Proof. solve_decision. Defined.
Definition TestConfig_default : TestConfig := mkTestConfig 7 "Jose" (f64_lit 618 100).

(** TOML values of the types the fields have, and their conversions. *)
Inductive TestValue := TvInteger (n : Z) | TvString (s : string) | TvFloat (x : f64).

Definition set_abc (v : TestValue) (c : TestConfig) : TestConfig + CopycatError :=
  match v with
  | TvInteger n => if decide (0 ≤ n < 65536)%Z then inl (c <| abc := Z.to_N n |>) else inr (mkErr "out of range")
  | _ => inr (mkErr "invalid type")
  end.
Definition set_hij (v : TestValue) (c : TestConfig) : TestConfig + CopycatError :=
  match v with TvString s => inl (c <| hij := s |>) | _ => inr (mkErr "invalid type") end.
Definition set_lmn (v : TestValue) (c : TestConfig) : TestConfig + CopycatError :=
  match v with TvFloat x => inl (c <| lmn := x |>) | _ => inr (mkErr "invalid type") end.

Section Tests.
Context (parse : string → gmap string TestValue + CopycatError).

Definition parse_from_none : res unit :=
  config ← parsed_config parse None TestConfig_default [("abc", set_abc); ("hij", set_hij); ("lmn", set_lmn)];
  if decide (config = TestConfig_default) then Ok tt else Panic.

Definition parse_from_partial : res unit :=
  config ← parsed_config parse (Some "hij = 'Nice'") TestConfig_default [("hij", set_hij); ("lmn", set_lmn)];
  if decide (config = mkTestConfig 7 "Nice" (f64_lit 618 100)) then Ok tt else Panic.

Definition parse_invalid_field : res unit :=
  match parsed_config parse (Some "xyz = 999") TestConfig_default [("abc", set_abc)] with
  | Ok _ => Panic
  | Err _ => Ok tt
  | Panic => Panic
  | OutOfFuel => OutOfFuel
  end.

(** They pass on a parser that reads their two strings. *)
Lemma parse_tests_pass :
  parse "hij = 'Nice'" = inl {["hij" := TvString "Nice"]} → parse "xyz = 999" = inl {["xyz" := TvInteger 999]} →
  parse_from_none = Ok tt ∧ parse_from_partial = Ok tt ∧ parse_invalid_field = Ok tt.
Proof.
  intros H1 H2. unfold parse_from_none, parse_from_partial, parse_invalid_field, parsed_config.
  rewrite H1, H2. split_and!; by vm_compute.
Qed.
End Tests.
