(* ===== verification/BtcMgmt.v ===== *)
(** * Bitcoin block management: the operations

    src/src/stage/consensus/block_management/bitcoin/basic.rs: the pool of
    blocks with their heights, the UTXO set at the chain tail, the block under
    construction, and the orphans whose ancestors are missing. Each method of
    [impl BlockManagement for BitcoinBlockManagement] is a definition here; the
    long [validate_block] is cut at its own comments. *)

From S2P Require Import Prelude F64 Protocol Peers.
Local Open Scope N_scope.

Abbreviation Utxo := (N * list N)%type (only parsing).

(** block_management/mod.rs *)
Inductive CurBlockState := Working | Full | EmptyMempool.

#[export] Instance CurBlockState_eq_dec : EqDecision CurBlockState.
Proof. solve_decision. Defined.

Record BitcoinBM := mkBitcoinBM {
  bm_id : NodeId;
  bm_delay : f64;
  txn_pool : gmap Hash (Txn * TxnCtx);
  block_pool : gmap Hash (Block * BlkCtx * N);
  utxo : gset Utxo;
  chain_tail : Hash;
  difficulty : N;
  (* fields for constructing new block *)
  pending_txns : list Hash;
  block_under_construction : list Hash;
  merkle_root : option Hash;
  block_size : N;
  new_utxo : gset Utxo;
  utxo_spent : gset Utxo;
  pow_time : option (Instant * f64);
  (* for requesting missing blocks *)
  peer_messenger : PeerMessenger;
  orphan_blocks : gmap Hash (gset Hash);
}.
#[export] Instance BitcoinBM_eta : Eta BitcoinBM := λ r,
  mkBitcoinBM (bm_id r) (bm_delay r) (txn_pool r) (block_pool r) (utxo r)
    (chain_tail r) (difficulty r) (pending_txns r) (block_under_construction r)
    (merkle_root r) (block_size r) (new_utxo r) (utxo_spent r) (pow_time r)
    (peer_messenger r) (orphan_blocks r).

(** [2f64.powf] and [f64::log]: the precision of both is unspecified. *)
Class Libm := { f64_powf : f64 → f64 → f64; f64_log : f64 → f64 → f64 }.

(** bitcoin/mod.rs: [HEADER_HASH_TIME] = 0.0000019 *)
Definition HEADER_HASH_TIME : f64 := f64_lit 19 10000000.
(** The size at which a block counts as full: 0x100000. *)
Definition MAX_BLOCK_SIZE : N := 0x100000.

(** What a poll of [wait_to_propose] decides. *)
Inductive poll := Ready | SleepFor (d : N) | YieldNow.

(** ** Definitions that read no state *)

(** [prev_hash] of a block; a header of another chain is [unreachable!()]. *)
Definition header_prev (b : Block) : res Hash :=
  match header b with HBitcoin _ prev_hash _ _ => Ok prev_hash | _ => Panic end.

(** The value of a referenced output for a sender, if it belongs to him. *)
Definition utxo_value (txn_sender : PubKey) (utxo : BitcoinTxn) : option N :=
  match utxo with
  | BIncentive out_utxo receiver | BGrant out_utxo receiver =>
    if decide (receiver = txn_sender) then Some out_utxo else None
  | BSend sender _ receiver out_utxo remainder _ _ _ _ =>
    if decide (receiver = txn_sender) then Some out_utxo
    else if decide (sender = txn_sender) then Some remainder
    else None
  end.

(** The changes a chain switch makes to the UTXO set and the pending set. *)
Record switch := mkSwitch {
  sw_new_utxos : gset Utxo;
  sw_utxos_spent : gset Utxo;
  sw_txns_applied : gset Hash;
  sw_undo_txns : gset Hash;
  sw_exec_time : N;
}.
#[export] Instance switch_eta : Eta switch := λ r,
  mkSwitch (sw_new_utxos r) (sw_utxos_spent r) (sw_txns_applied r) (sw_undo_txns r)
    (sw_exec_time r).

(** The sets built while the old chain is undone:
    [undo_utxo_spent], [undo_new_utxo], [undo_txns]. *)
Record undo := mkUndo {
  ud_utxo_spent : gset Utxo;
  ud_new_utxo : gset Utxo;
  ud_txns : gset Hash;
}.
#[export] Instance undo_eta : Eta undo := λ r,
  mkUndo (ud_utxo_spent r) (ud_new_utxo r) (ud_txns r).

(** [if !undo_utxo_spent.remove(&o) { undo_new_utxo.insert(o) }] *)
Definition undo_output (o : Utxo) (u : undo) : undo :=
  if decide (o ∈ ud_utxo_spent u) then u <| ud_utxo_spent ::= λ s, s ∖ {[o]} |>
  else u <| ud_new_utxo ::= λ s, {[o]} ∪ s |>.

(** Undo one transaction of the old chain. *)
Definition undo_txn (txn : Txn) (txn_ctx : TxnCtx) (u : undo) : res undo :=
  let txn_hash := tc_id txn_ctx in
  match txn with
  | TBitcoin (BSend sender in_utxo receiver out_utxo remainder _ _ _ _) =>
    let u := u <| ud_utxo_spent ::= λ s, list_to_set ((λ i, (i, sender)) <$> in_utxo) ∪ s |> in
    let u := if (0 <? out_utxo)%N then undo_output (txn_hash, receiver) u else u in
    let u := if (0 <? remainder)%N then undo_output (txn_hash, sender) u else u in
    Ok (u <| ud_txns ::= λ s, {[txn_hash]} ∪ s |>)
  | TBitcoin (BGrant _ receiver) =>
    Ok ((undo_output (txn_hash, receiver) u) <| ud_txns ::= λ s, {[txn_hash]} ∪ s |>)
  | TBitcoin (BIncentive _ receiver) => Ok (undo_output (txn_hash, receiver) u)
  | _ => Panic
  end.

Fixpoint undo_txns (l : list (Txn * TxnCtx)) (u : undo) : res undo :=
  match l with
  | [] => Ok u
  | (t, c) :: l' => u' ← undo_txn t c u; undo_txns l' u'
  end.

(** The transactions of a block with their contexts; the lengths are asserted
    to agree. *)
Definition block_txns (bc : Block * BlkCtx) : res (list (Txn * TxnCtx)) :=
  if decide (length (txns bc.1) = length (bc_txn_ctx bc.2))
  then Ok (zip (txns bc.1) (bc_txn_ctx bc.2)) else Panic.

(** [for (undo_blk, ctx) in old_chain { for idx in (0..len).rev() { .. } }] *)
Fixpoint undo_chain (old_chain : list (Block * BlkCtx)) (u : undo) : res undo :=
  match old_chain with
  | [] => Ok u
  | bc :: old_chain' =>
    l ← block_txns bc; u' ← undo_txns (reverse l) u; undo_chain old_chain' u'
  end.

(** Check and spend the inputs of a [Send] against a UTXO set; [None] is the
    double-spending exit. *)
Fixpoint spend_inputs (utxo : gset Utxo) (sender : PubKey) (in_utxo : list Hash)
    (sw : switch) : option switch :=
  match in_utxo with
  | [] => Some sw
  | in_txn_hash :: rest =>
    let key := (in_txn_hash, sender) in
    if decide (key ∈ sw_new_utxos sw) then
      spend_inputs utxo sender rest (sw <| sw_new_utxos ::= λ s, s ∖ {[key]} |>)
    else if decide (key ∈ utxo ∧ key ∉ sw_utxos_spent sw) then
      spend_inputs utxo sender rest (sw <| sw_utxos_spent ::= λ s, {[key]} ∪ s |>)
    else None
  end.

(** [if !utxos_spent.remove(&o) { new_utxos.insert(o) }] *)
Definition add_output (o : Utxo) (sw : switch) : switch :=
  if decide (o ∈ sw_utxos_spent sw) then sw <| sw_utxos_spent ::= λ s, s ∖ {[o]} |>
  else sw <| sw_new_utxos ::= λ s, {[o]} ∪ s |>.

(** [if !undo_txns.remove(&h) { txns_applied.insert(h) }] *)
Definition mark_applied (h : Hash) (sw : switch) : switch :=
  if decide (h ∈ sw_undo_txns sw) then sw <| sw_undo_txns ::= λ s, s ∖ {[h]} |>
  else sw <| sw_txns_applied ::= λ s, {[h]} ∪ s |>.

(** Apply one transaction of the new chain; [Ok None] is an exit that rejects
    the chain (double spending, or a script that fails). *)
Definition apply_txn (utxo : gset Utxo) (txn : Txn) (txn_ctx : TxnCtx) (sw : switch) :
    res (option switch) :=
  let txn_hash := tc_id txn_ctx in
  match txn with
  | TBitcoin (BSend sender in_utxo receiver out_utxo remainder _ _ script_runtime script_succeed) =>
    match spend_inputs utxo sender in_utxo sw with
    | None => Ok None
    | Some sw =>
      t ← dur_add (sw_exec_time sw) script_runtime;
      if script_succeed then
        let sw := sw <| sw_exec_time := t |> in
        let sw := if (0 <? out_utxo)%N then add_output (txn_hash, receiver) sw else sw in
        let sw := if (0 <? remainder)%N then add_output (txn_hash, sender) sw else sw in
        Ok (Some (mark_applied txn_hash sw))
      else Ok None
    end
  | TBitcoin (BGrant _ receiver) =>
    Ok (Some (mark_applied txn_hash (add_output (txn_hash, receiver) sw)))
  | TBitcoin (BIncentive _ receiver) => Ok (Some (add_output (txn_hash, receiver) sw))
  | _ => Panic
  end.

Fixpoint apply_txns (utxo : gset Utxo) (l : list (Txn * TxnCtx)) (sw : switch) :
    res (option switch) :=
  match l with
  | [] => Ok (Some sw)
  | (t, c) :: l' =>
    o ← apply_txn utxo t c sw;
    match o with Some sw' => apply_txns utxo l' sw' | None => Ok None end
  end.

Fixpoint apply_chain (utxo : gset Utxo) (new_chain : list (Block * BlkCtx)) (sw : switch) :
    res (option switch) :=
  match new_chain with
  | [] => Ok (Some sw)
  | bc :: new_chain' =>
    l ← block_txns bc;
    o ← apply_txns utxo l sw;
    match o with Some sw' => apply_chain utxo new_chain' sw' | None => Ok None end
  end.

(** [validate_txn]: every input exists, belongs to the sender, and the values
    of the inputs add up to the outputs; [Ok None] is [return Ok(false)]. *)
Section Methods.
Context `{Externals} `{!Bincode BitcoinTxn} `{!Bincode BlockHeader} `{BuildProfile}
  `{HashOrder} `{Transport} `{Libm}.

Fixpoint input_value (pool : gmap Hash (Txn * TxnCtx)) (txn_sender : PubKey)
    (txn_in_utxo : list Hash) (acc : N) : res (option N) :=
  match txn_in_utxo with
  | [] => Ok (Some acc)
  | in_utxo_hash :: rest =>
    match pool !! in_utxo_hash with
    | None => Ok None
    | Some (TBitcoin utxo, _) =>
      match utxo_value txn_sender utxo with
      | None => Ok None
      | Some value => acc' ← u64_add acc value; input_value pool txn_sender rest acc'
      end
    | Some _ => Panic
    end
  end.

Definition validate_txn (pool : gmap Hash (Txn * TxnCtx)) (txn : BitcoinTxn) : res bool :=
  match txn with
  | BSend txn_sender txn_in_utxo _ txn_out_utxo txn_remainder _ _ _ _ =>
    iv ← input_value pool txn_sender txn_in_utxo 0;
    match iv with
    | None => Ok false
    | Some input_value =>
      out ← u64_add txn_out_utxo txn_remainder; Ok (bool_decide (input_value = out))
    end
  | BGrant _ _ => Ok true
  | BIncentive _ _ => Panic
  end.

Definition new (id : NodeId) (difficulty : N) (pm : PeerMessenger) : BitcoinBM :=
  mkBitcoinBM id f64_zero ∅ ∅ ∅ 0 difficulty [] [] None 0 ∅ ∅ None pm ∅.

Definition get_chain_length : M BitcoinBM N :=
  tail ← gets chain_tail;
  if decide (tail = 0) then mret 0
  else
    pool ← gets block_pool;
    e ← unwrap (pool !! tail);
    mret e.2.

(** The loop over the children of a block, given the recursive call. *)
Fixpoint visit_children (rec : Hash → N → M BitcoinBM (Hash * N)) (height : N)
    (children : list Hash) (longest : Hash * N) : M BitcoinBM (Hash * N) :=
  match children with
  | [] => mret longest
  | child :: children' =>
    pool ← gets block_pool;
    e ← unwrap (pool !! child);
    modify (λ s, s <| block_pool ::= <[child := (e.1, height + 1)]> |>) ;;
    d ← rec child (height + 1);
    visit_children rec height children' (if (longest.2 <? d.2)%N then d else longest)
  end.

(** [fuel] bounds the depth of the recursion. *)
Fixpoint update_orphans_and_return_tail (fuel : nat) (block_hash : Hash) (height : N) :
    M BitcoinBM (Hash * N) :=
  match fuel with
  | O => out_of_fuel
  | S fuel' =>
    orphans ← gets orphan_blocks;
    match orphans !! block_hash with
    | Some children =>
      modify (λ s, s <| orphan_blocks ::= delete block_hash |>) ;;
      visit_children (update_orphans_and_return_tail fuel') height
        (set_iter children) (block_hash, height)
    | None => mret (block_hash, height)
    end
  end.

(** [get_pow_time_secs], [u]: the uniform sample *)
Definition get_pow_time_secs (u : f64) (difficulty : N) : f64 :=
  let p := f64_sub f64_one (f64_powf (f64_of_N 2) (f64_opp (f64_of_N difficulty))) in
  f64_mul HEADER_HASH_TIME (f64_log u p).

Definition record_new_txn (txn : Txn) (ctx : TxnCtx) : M BitcoinBM bool :=
  let txn_hash := tc_id ctx in
  pool ← gets txn_pool;
  match pool !! txn_hash with
  | Some _ => mret false
  | None =>
    modify (λ s, s <| txn_pool ::= <[txn_hash := (txn, ctx)]> |>
                   <| pending_txns ::= λ p, p ++ [txn_hash] |>) ;;
    mret true
  end.

(** Can the block under construction spend this output? *)
Definition spendable (s : BitcoinBM) (key : Utxo) : bool :=
  (bool_decide (key ∈ utxo s) || bool_decide (key ∈ new_utxo s)) &&
  negb (bool_decide (key ∈ utxo_spent s)).

(** One round of the loop of [prepare_new_block] on the transaction popped;
    returns whether the block was modified and the execution delay. *)
Definition try_add_txn (txn_hash : Hash) (execution_delay : N) : M BitcoinBM (bool * N) :=
  pool ← gets txn_pool;
  e ← unwrap (pool !! txn_hash);
  match e.1 with
  | TBitcoin (BSend sender in_utxos receiver out_utxo remainder _ _ script_runtime script_succeed) =>
    valid ← gets (λ s, forallb (λ in_utxo, spendable s (in_utxo, sender)) in_utxos);
    delay ← (if (valid : bool) then lift_res (dur_add execution_delay script_runtime)
             else mret execution_delay);
    if valid && script_succeed then
      modify (λ s, s <| block_under_construction ::= λ l, l ++ [txn_hash] |>
        <| utxo_spent ::= λ u, list_to_set ((λ i, (i, sender)) <$> in_utxos) ∪ u |>
        <| new_utxo ::= λ u, if (0 <? out_utxo)%N then {[(txn_hash, receiver)]} ∪ u else u |>
        <| new_utxo ::= λ u, if (0 <? remainder)%N then {[(txn_hash, sender)]} ∪ u else u |>) ;;
      size ← gets block_size;
      size' ← lift_res (u64_add size (arc_get_size e.1));
      modify (λ s, s <| block_size := size' |>) ;;
      mret (true, delay)
    else
      (* some dependencies might be missing, retry later *)
      modify (λ s, s <| pending_txns ::= λ p, p ++ [txn_hash] |>) ;;
      mret (false, delay)
  | TBitcoin (BGrant _ receiver) =>
    modify (λ s, s <| block_under_construction ::= λ l, l ++ [txn_hash] |>
      <| new_utxo ::= λ u, {[(txn_hash, receiver)]} ∪ u |>) ;;
    size ← gets block_size;
    size' ← lift_res (u64_add size (arc_get_size e.1));
    modify (λ s, s <| block_size := size' |>) ;;
    mret (true, execution_delay)
  | _ => panic
  end.

(** The loop that fills the block; [fuel] bounds its rounds. *)
Fixpoint prepare_loop (fuel : nat) (modified : bool) (execution_delay : N) :
    M BitcoinBM (CurBlockState * bool * N) :=
  match fuel with
  | O => out_of_fuel
  | S fuel' =>
    size ← gets block_size;
    if (MAX_BLOCK_SIZE <? size)%N then mret (Full, modified, execution_delay)
    else
      pending ← gets pending_txns;
      match pending with
      | [] => mret (EmptyMempool, modified, execution_delay)
      | txn_hash :: rest =>
        modify (λ s, s <| pending_txns := rest |>) ;;
        r ← try_add_txn txn_hash execution_delay;
        prepare_loop fuel' (modified || r.1) r.2
      end
  end.

(** [root]: the random Merkle root drawn; [now], [u]: the clock and the uniform
    sample for the proof-of-work time. *)
Definition prepare_new_block (fuel : nat) (root : Hash) (now : Instant) (u : f64) :
    M BitcoinBM CurBlockState :=
  r ← prepare_loop fuel false 0;
  let '(blk_full, modified, execution_delay) := r in
  pow ← gets pow_time;
  if (modified : bool) || bool_decide (pow = None) then
    len ← gets (λ s, length (block_under_construction s));
    m ← lift_res (DummyMerkleTree_new root len);
    delay ← lift_res (dur_add execution_delay m.2);
    modify (λ s, s <| merkle_root := Some m.1 |>
                   <| bm_delay ::= process_illusion delay |>
                   <| pow_time := Some (now, get_pow_time_secs u (difficulty s)) |>) ;;
    mret blk_full
  else
    modify (λ s, s <| bm_delay ::= process_illusion execution_delay |>) ;;
    mret blk_full.

(** One round of the loop of [wait_to_propose]; [compute_power]: the idle cores
    reported by the core group. *)
Definition wait_to_propose (now : Instant) (compute_power : f64) (s : BitcoinBM) : res poll :=
  match pow_time s with
  | None => Ok YieldNow
  | Some (pow_start_time, pow_time) =>
    pow_dur ← from_secs_f64 (f64_sub (f64_div pow_time compute_power) (f64_lit 1 1000));
    if (pow_start_time + pow_dur <? now)%N then Ok Ready
    else Ok (SleepFor (N.min (pow_start_time + pow_dur - now) (10 * nanos_per_sec)))
  end.

Definition get_new_block : M BitcoinBM (Block * BlkCtx) :=
  hashes ← gets block_under_construction;
  modify (λ s, s <| block_under_construction := [] |>) ;;
  pool ← gets txn_pool;
  txns_with_ctx ← lift_res (lookup_all pool hashes);
  id ← gets bm_id;
  tail ← gets chain_tail;
  mr ← gets merkle_root;
  root ← unwrap mr;
  let hdr := HBitcoin id tail root 1 in
  block_ctx ← lift_res (BlkCtx_from_header_and_txns [] hdr txns_with_ctx.*2);
  let hash := bc_id block_ctx in
  let block := mkBlock hdr txns_with_ctx.*1 in
  chain_length ← get_chain_length;
  modify (λ s, s <| block_pool ::= <[hash := (block, block_ctx, chain_length + 1)]> |>
                 <| chain_tail := hash |>
                 <| utxo := (utxo s ∪ new_utxo s) ∖ utxo_spent s |>
                 <| new_utxo := ∅ |> <| utxo_spent := ∅ |>) ;;
  pow ← gets pow_time;
  _ ← unwrap pow;
  modify (λ s, s <| merkle_root := None |> <| pow_time := None |> <| block_size := 0 |>) ;;
  mret (block, block_ctx).

(** [validate_block], validating and recording the transactions of a block;
    [false]: the block is rejected. *)
Fixpoint record_block_txns (ts : list Txn) (cs : list TxnCtx) : M BitcoinBM bool :=
  match ts, cs with
  | [], _ => mret true
  | TBitcoin bitcoin_txn :: ts', txn_ctx :: cs' =>
    pool ← gets txn_pool;
    match pool !! tc_id txn_ctx with
    | Some _ => record_block_txns ts' cs'
    | None =>
      valid ← lift_res (validate_txn pool bitcoin_txn);
      if (valid : bool) then
        modify (λ s, s <| txn_pool ::= <[tc_id txn_ctx := (TBitcoin bitcoin_txn, txn_ctx)]> |>) ;;
        record_block_txns ts' cs'
      else mret false
    end
  | _, _ => panic
  end.

(** The height of a block in the chain, 0 while its ancestors are missing. *)
Definition block_height (pool : gmap Hash (Block * BlkCtx * N)) (prev_hash : Hash) : N :=
  if decide (prev_hash = 0) then 1
  else match pool !! prev_hash with
       | Some (_, _, parent_height) => if (0 <? parent_height)%N then parent_height + 1 else 0
       | None => 0
       end.

(** The loop that looks for the missing ancestor of an orphan. *)
Fixpoint missing_ancestor (fuel : nat) (pool : gmap Hash (Block * BlkCtx * N))
    (parent : Hash) : res Hash :=
  match fuel with
  | O => OutOfFuel
  | S fuel' =>
    if decide (parent = 0) then Panic
    else match pool !! parent with
         | None => Ok parent
         | Some (block, _, height) =>
           if decide (height = 0) then
             prev ← header_prev block; missing_ancestor fuel' pool prev
           else Panic
         end
  end.

(** Register an orphan under its parent and ask the neighbors for the missing
    ancestor. *)
Definition park_orphan (block_hash prev_hash : Hash) : M BitcoinBM unit :=
  modify (λ s, s <| orphan_blocks ::= λ o,
    <[prev_hash := {[block_hash]} ∪ default ∅ (o !! prev_hash)]> o |>) ;;
  pool ← gets block_pool;
  parent ← lift_res (missing_ancestor (S (size pool)) pool prev_hash);
  id ← gets bm_id;
  zoom peer_messenger (λ p s, s <| peer_messenger := p |>)
    (pm_gossip (BlockReq (u256_to_le parent)) {[id]}).

(** The blocks of the new chain above the height of the old one;
    [steps] = new_tail_ancester_height - chain_length. *)
Fixpoint collect_above (steps : nat) (pool : gmap Hash (Block * BlkCtx * N))
    (ancester : Hash) (ancester_height : N) (new_chain : list (Block * BlkCtx)) :
    res (Hash * list (Block * BlkCtx)) :=
  match steps with
  | O => Ok (ancester, new_chain)
  | S steps' =>
    match pool !! ancester with
    | Some (parent, ctx, parent_height) =>
      if decide (ancester_height = parent_height) then
        prev ← header_prev parent;
        collect_above steps' pool prev (ancester_height - 1) (new_chain ++ [(parent, ctx)])
      else Panic
    | None => Panic
    end
  end.

(** Walk both chains down to the common ancestor. *)
Fixpoint find_common (fuel : nat) (pool : gmap Hash (Block * BlkCtx * N))
    (new_ancester old_ancester : Hash) (new_chain old_chain : list (Block * BlkCtx)) :
    res (list (Block * BlkCtx) * list (Block * BlkCtx)) :=
  match fuel with
  | O => OutOfFuel
  | S fuel' =>
    if decide (new_ancester = old_ancester) then Ok (new_chain, old_chain)
    else
      match pool !! new_ancester, pool !! old_ancester with
      | Some (nb, nctx, nh), Some (ob, octx, oh) =>
        if decide (nh = oh) then
          np ← header_prev nb;
          op ← header_prev ob;
          find_common fuel' pool np op (new_chain ++ [(nb, nctx)]) (old_chain ++ [(ob, octx)])
        else Panic
      | _, _ => Panic
      end
  end.

(** The blocks of the new chain (oldest first) and of the old chain (latest
    first) down to their common ancestor. *)
Definition diverging_chains (pool : gmap Hash (Block * BlkCtx * N)) (new_tail : Hash)
    (new_tail_height : N) (old_tail : Hash) (chain_length : N) :
    res (list (Block * BlkCtx) * list (Block * BlkCtx)) :=
  match pool !! new_tail with
  | Some (blk, ctx, _) =>
    prev ← header_prev blk;
    r ← collect_above (N.to_nat (new_tail_height - 1 - chain_length)) pool prev
          (new_tail_height - 1) [(blk, ctx)];
    chains ← find_common (S (N.to_nat chain_length)) pool r.1 old_tail r.2 [];
    Ok (reverse chains.1, chains.2)
  | None => Panic
  end.

(** "the new block is the tail of the longer chain, move over" *)
Definition move_over (new_tail : Hash) (sw : switch) : M BitcoinBM unit :=
  modify (λ s,
    s <| merkle_root := None |> <| pow_time := None |>
      <| pending_txns := filter (λ h, h ∉ sw_txns_applied sw)
           (pending_txns s ++ block_under_construction s ++ set_iter (sw_undo_txns sw)) |>
      <| block_under_construction := [] |> <| block_size := 0 |>
      <| utxo_spent := ∅ |> <| new_utxo := ∅ |> <| chain_tail := new_tail |>
      <| utxo := (utxo s ∪ sw_new_utxos sw) ∖ sw_utxos_spent sw |>).

(** Switch to a longer chain if its transactions are valid; returns the blocks
    of the new chain. *)
Definition switch_chain (new_tail : Hash) (new_tail_height chain_length : N) :
    M BitcoinBM (list (Block * BlkCtx)) :=
  s ← gets (λ s, s);
  chains ← lift_res (diverging_chains (block_pool s) new_tail new_tail_height
                       (chain_tail s) chain_length);
  let '(new_chain, old_chain) := chains in
  u ← lift_res (undo_chain old_chain (mkUndo ∅ ∅ ∅));
  o ← lift_res (apply_chain (utxo s) new_chain
        (mkSwitch (ud_utxo_spent u) (ud_new_utxo u) ∅ (ud_txns u) 0));
  match o with
  | None => mret []
  | Some sw => move_over new_tail sw ;; mret new_chain
  end.

(** [validate_block] once the block's height is known. *)
Definition accept_block (block : Block) (blk_ctx : BlkCtx) (prev_hash : Hash) :
    M BitcoinBM (list (Block * BlkCtx)) :=
  let block_hash := bc_id blk_ctx in
  pool ← gets block_pool;
  let blk_height := block_height pool prev_hash in
  modify (λ s, s <| block_pool ::= <[block_hash := (block, blk_ctx, blk_height)]> |>) ;;
  if decide (blk_height = 0) then park_orphan block_hash prev_hash ;; mret []
  else
    fuel ← gets (λ s, S (size (orphan_blocks s)));
    t ← update_orphans_and_return_tail fuel block_hash blk_height;
    chain_length ← get_chain_length;
    if (t.2 <=? chain_length)%N then mret []
    else switch_chain t.1 t.2 chain_length.

Definition validate_block (block : Block) (blk_ctx : BlkCtx) :
    M BitcoinBM (list (Block * BlkCtx)) :=
  pool ← gets block_pool;
  match pool !! bc_id blk_ctx with
  | Some _ => mret []
  | None =>
    match header block with
    | HBitcoin _ prev_hash root nonce =>
      (* hash verification *)
      t1 ← lift_res (from_secs_f64 HEADER_HASH_TIME);
      if decide (nonce ≠ 1) then
        modify (λ s, s <| bm_delay ::= process_illusion t1 |>) ;; mret []
      else
        (* merkle root verification *)
        v ← lift_res (DummyMerkleTree_verify root (length (txns block)));
        verification_timeout ← lift_res (dur_add t1 v.2);
        if (v.1 : bool) then
          massert (bool_decide (length (txns block) = length (bc_txn_ctx blk_ctx))) ;;
          ok ← record_block_txns (txns block) (bc_txn_ctx blk_ctx);
          modify (λ s, s <| bm_delay ::= process_illusion verification_timeout |>) ;;
          if (ok : bool) then accept_block block blk_ctx prev_hash else mret []
        else mret []
    | _ => panic
    end
  end.

Definition handle_pmaker_msg (msg : bytes) : M BitcoinBM unit :=
  match msg with
  | [] => throw (mkErr "got empty message from pacemaker")
  | d :: _ => modify (λ s, s <| difficulty := d |>)
  end.

Definition handle_peer_blk_req (peer : NodeId) (msg : bytes) : M BitcoinBM unit :=
  blk_id ← lift_res (u256_from_le_res msg);
  pool ← gets block_pool;
  id ← gets bm_id;
  zoom peer_messenger (λ p s, s <| peer_messenger := p |>)
    (match pool !! blk_id with
     | Some (blk, _, _) => pm_send peer (NewBlock blk)
     | None => pm_gossip (BlockReq msg) {[id; peer]}
     end).
End Methods.
