(* ===== verification/BtcUtxo.v ===== *)
(** * Bitcoin: the reference semantics of chains, and chain switches

    The reference runs the transactions of a chain one by one on a UTXO set
    ([exec_txns]). The code never does: on a switch it computes, from the set at
    the old tail, the changes that undoing the old branch and applying the new
    one make ([undo_chain], [apply_chain]). This file relates the two. *)

From S2P Require Import Prelude F64 Protocol Peers BtcMgmt.
Local Open Scope N_scope.

Abbreviation txn_rec := (Txn * TxnCtx)%type (only parsing).

(** ** Reference semantics *)

Definition txn_inputs (t : Txn) : list Utxo :=
  match t with
  | TBitcoin (BSend sender in_utxo _ _ _ _ _ _ _) => (λ i, (i, sender)) <$> in_utxo
  | _ => []
  end.

Definition txn_outputs (h : Hash) (t : Txn) : list Utxo :=
  match t with
  | TBitcoin (BSend sender _ receiver out_utxo remainder _ _ _ _) =>
    (if (0 <? out_utxo)%N then [(h, receiver)] else []) ++
    (if (0 <? remainder)%N then [(h, sender)] else [])
  | TBitcoin (BGrant _ receiver) | TBitcoin (BIncentive _ receiver) => [(h, receiver)]
  | _ => []
  end.

Definition txn_script_ok (t : Txn) : bool :=
  match t with TBitcoin (BSend _ _ _ _ _ _ _ _ script_succeed) => script_succeed | _ => true end.

Definition txn_runtime (t : Txn) : N :=
  match t with TBitcoin (BSend _ _ _ _ _ _ _ script_runtime _) => script_runtime | _ => 0 end.

(** Transactions a block may hold once [validate_txn] accepted them. *)
Definition plain_txn (t : Txn) : bool :=
  match t with TBitcoin (BIncentive _ _) => false | TBitcoin _ => true | _ => false end.

(** Spend outputs one by one. *)
Fixpoint spend (V : gset Utxo) (ins : list Utxo) : option (gset Utxo) :=
  match ins with
  | [] => Some V
  | i :: ins' => if decide (i ∈ V) then spend (V ∖ {[i]}) ins' else None
  end.

Definition exec_txn (V : gset Utxo) (tc : txn_rec) : option (gset Utxo) :=
  V' ← spend V (txn_inputs tc.1);
  if txn_script_ok tc.1 then Some (V' ∪ list_to_set (txn_outputs (tc_id tc.2) tc.1)) else None.

Fixpoint exec_txns (V : gset Utxo) (l : list txn_rec) : option (gset Utxo) :=
  match l with
  | [] => Some V
  | tc :: l' => V' ← exec_txn V tc; exec_txns V' l'
  end.

Definition txn_ids (l : list txn_rec) : list Hash := (λ tc, tc_id tc.2) <$> l.

Fixpoint total_runtime (l : list txn_rec) : N :=
  match l with [] => 0 | tc :: l' => txn_runtime tc.1 + total_runtime l' end.

(** Distinct transactions with distinct outputs, none of them a coinbase. *)
Definition good_txn (tc : txn_rec) : Prop :=
  plain_txn tc.1 = true ∧ NoDup (txn_outputs (tc_id tc.2) tc.1).

(** Every output in the set was made by a transaction with its id in [I]. *)
Definition owned (V : gset Utxo) (I : list Hash) : Prop := ∀ k, k ∈ V → k.1 ∈ I.

(** ** Facts about the reference *)

Lemma spend_spec V ins V' :
  spend V ins = Some V' ↔ NoDup ins ∧ (∀ i, i ∈ ins → i ∈ V) ∧ V' = V ∖ list_to_set ins.
Proof.
  revert V. induction ins as [|i ins IH]; intros V; cbn.
  - split; [intros [= <-]; split_and!; [constructor|set_solver|set_solver]|].
    intros (_ & _ & ->). f_equal. set_solver.
  - case_decide as Hi.
    + rewrite IH, NoDup_cons. split.
      * intros (Hnd & Hin & ->). split_and!; [set_solver|done|set_solver|set_solver].
      * intros ([Hni Hnd] & Hin & ->). split_and!; [done|set_solver|set_solver].
    + split; [done|]. intros (_ & Hin & _). destruct Hi. set_solver.
Qed.

Lemma txn_outputs_id h t k : k ∈ txn_outputs h t → k.1 = h.
Proof.
  destruct t as [|[]|]; cbn; repeat case_match; rewrite ?elem_of_app, ?elem_of_cons, ?elem_of_nil;
    naive_solver.
Qed.

Lemma exec_txn_inv V tc V' :
  exec_txn V tc = Some V' →
  NoDup (txn_inputs tc.1) ∧ (∀ i, i ∈ txn_inputs tc.1 → i ∈ V) ∧ txn_script_ok tc.1 = true ∧
  V' = V ∖ list_to_set (txn_inputs tc.1) ∪ list_to_set (txn_outputs (tc_id tc.2) tc.1).
Proof.
  unfold exec_txn. intros (V1 & (Hnd & Hin & ->)%spend_spec & Hx)%bind_Some.
  case_match; simplify_eq. done.
Qed.

Lemma exec_txns_app V l1 l2 :
  exec_txns V (l1 ++ l2) = exec_txns V l1 ≫= λ V', exec_txns V' l2.
Proof.
  revert V. induction l1 as [|tc l1 IH]; intros V; cbn; [done|].
  destruct (exec_txn V tc); cbn; auto.
Qed.

Lemma exec_txn_owned V I tc V' :
  owned V I → exec_txn V tc = Some V' → owned V' (I ++ [tc_id tc.2]).
Proof.
  intros Hown (_ & _ & _ & ->)%exec_txn_inv k.
  rewrite elem_of_union, elem_of_difference, elem_of_list_to_set, elem_of_app, list_elem_of_singleton.
  rewrite elem_of_list_to_set. intros [[Hk _]|Hk%txn_outputs_id]; [left; by apply Hown|by right].
Qed.

Lemma exec_txns_owned V I l V' :
  owned V I → exec_txns V l = Some V' → owned V' (I ++ txn_ids l).
Proof.
  revert V I. induction l as [|tc l IH]; intros V I Hown; cbn.
  - intros [= <-]. by rewrite app_nil_r.
  - intros (V1 & Hx & Hxs)%bind_Some. apply (IH _ (I ++ [tc_id tc.2])) in Hxs.
    + by rewrite <- app_assoc in Hxs.
    + by eapply exec_txn_owned.
Qed.

(** An output that is gone does not come back while its transaction does not. *)
Lemma exec_txns_keeps_out V l V' k :
  exec_txns V l = Some V' → k ∉ V → k.1 ∉ txn_ids l → k ∉ V'.
Proof.
  revert V. induction l as [|tc l IH]; intros V; cbn; [by intros [= <-]|].
  intros (V1 & (_ & _ & _ & ->)%exec_txn_inv & Hxs)%bind_Some Hk Hni.
  rewrite elem_of_cons in Hni. eapply IH; [done| |tauto].
  rewrite elem_of_union, elem_of_difference, !elem_of_list_to_set.
  intros [[? _]|Ho%txn_outputs_id]; [done|]. rewrite <- Ho in Hni. tauto.
Qed.

Lemma outputs_fresh V I tc :
  owned V I → tc_id tc.2 ∉ I → ∀ o, o ∈ txn_outputs (tc_id tc.2) tc.1 → o ∉ V.
Proof. intros Hown Hni o Ho%txn_outputs_id Hin. apply Hni. rewrite <- Ho. by apply Hown. Qed.

(** ** Applying transactions *)

(** The switch [sw], relative to the set [U] at the old tail, stands for the
    set [V]. *)
Definition sw_rel (U : gset Utxo) (sw : switch) (V : gset Utxo) : Prop :=
  V = (U ∪ sw_new_utxos sw) ∖ sw_utxos_spent sw ∧ sw_new_utxos sw ## U ∧ sw_utxos_spent sw ⊆ U.

(** The fields of [sw] the outputs do not touch. *)
Definition same_log (sw sw' : switch) : Prop :=
  sw_txns_applied sw' = sw_txns_applied sw ∧ sw_undo_txns sw' = sw_undo_txns sw ∧
  sw_exec_time sw' = sw_exec_time sw.

Lemma spend_inputs_rel U sender ins sw V :
  sw_rel U sw V →
  match spend_inputs U sender ins sw, spend V ((λ i, (i, sender)) <$> ins) with
  | Some sw', Some V' => sw_rel U sw' V' ∧ same_log sw sw'
  | None, None => True
  | _, _ => False
  end.
Proof.
  revert sw V. induction ins as [|i ins IH]; intros sw V (-> & Hd & Hs); cbn.
  { split; done. }
  set (k := (i, sender)). case_decide as Hnew; [|case_decide as Hold].
  - rewrite decide_True by set_solver.
    refine (_ (IH (sw <| sw_new_utxos ::= λ s, s ∖ {[k]} |>) _ _)).
    { by destruct sw. }
    split_and!; cbn; set_solver.
  - rewrite decide_True by set_solver.
    refine (_ (IH (sw <| sw_utxos_spent ::= λ s, {[k]} ∪ s |>) _ _)).
    { by destruct sw. }
    split_and!; cbn; set_solver.
  - by rewrite decide_False by set_solver.
Qed.

Lemma add_output_rel U o sw V :
  sw_rel U sw V → o ∉ V →
  sw_rel U (add_output o sw) (V ∪ {[o]}) ∧ same_log sw (add_output o sw).
Proof.
  intros (-> & Hd & Hs) Ho. split; [|by unfold add_output; case_decide; destruct sw].
  unfold add_output. case_decide as Hin; split_and!; cbn.
  - apply set_eq. intros x. destruct (decide (x = o)) as [->|]; set_solver.
  - set_solver.
  - set_solver.
  - set_solver.
  - set_solver.
  - done.
Qed.

(** The sets of transactions to return to and to drop from the pending ones:
    [O] those of the old branch, [A] those of the new branch so far. *)
Definition log_rel (O A : gset Hash) (sw : switch) : Prop :=
  sw_undo_txns sw = O ∖ A ∧ sw_txns_applied sw = A ∖ O.

Lemma mark_applied_rel U O A h sw V :
  sw_rel U sw V → log_rel O A sw → h ∉ A →
  sw_rel U (mark_applied h sw) V ∧ log_rel O ({[h]} ∪ A) (mark_applied h sw) ∧
  sw_exec_time (mark_applied h sw) = sw_exec_time sw.
Proof.
  intros HV (Hu & Ha) Hh. unfold mark_applied. case_decide as Hin; destruct sw; cbn in *;
    (split_and!; [done| |done]); split; cbn; set_solver.
Qed.

Lemma add_outputs_rel U os sw V :
  sw_rel U sw V → NoDup os → (∀ o, o ∈ os → o ∉ V) →
  sw_rel U (foldl (flip add_output) sw os) (V ∪ list_to_set os) ∧
  same_log sw (foldl (flip add_output) sw os).
Proof.
  revert sw V. induction os as [|o os IH]; intros sw V HV Hnd Hni; cbn.
  { by rewrite union_empty_r_L. }
  apply NoDup_cons in Hnd as [Ho Hnd].
  destruct (add_output_rel U o sw V HV) as [HV1 (? & ? & ?)]; [apply Hni, list_elem_of_here|].
  destruct (IH _ _ HV1 Hnd) as [HV2 (? & ? & ?)].
  { intros o' Ho'. rewrite elem_of_union, elem_of_singleton.
    intros [Hin| ->]; [by eapply Hni; [apply list_elem_of_further|]|done]. }
  rewrite union_assoc_L. split; [done|]. split_and!; congruence.
Qed.

(** The code on one transaction, its branches put together. *)
Lemma apply_txn_fold U t c sw :
  plain_txn t = true → sw_exec_time sw + txn_runtime t < duration_max →
  match spend_inputs U (match t with TBitcoin (BSend sender _ _ _ _ _ _ _ _) => sender | _ => [] end)
          (txn_inputs t).*1 sw with
  | None => apply_txn U t c sw = Ok None
  | Some sw1 =>
    sw_exec_time sw1 = sw_exec_time sw →
    apply_txn U t c sw = Ok (if txn_script_ok t then
      Some (mark_applied (tc_id c) (foldl (flip add_output)
        (sw1 <| sw_exec_time := sw_exec_time sw + txn_runtime t |>) (txn_outputs (tc_id c) t)))
      else None)
  end.
Proof.
  intros Hp Hrt. destruct t as [|[|sender ins receiver out rem ? ? rt ok|]|]; try done; cbn in *.
  - replace ((λ i, (i, sender)) <$> ins).*1 with ins
      by (rewrite <- list_fmap_compose; symmetry; apply list_fmap_id).
    destruct (spend_inputs U sender ins sw) as [sw1|]; [|done]. intros He.
    rewrite He. unfold dur_add. rewrite (proj2 (N.ltb_lt _ _) Hrt). cbn.
    destruct ok; [|done]. by destruct (0 <? out)%N, (0 <? rem)%N.
  - intros _. rewrite N.add_0_r. by destruct sw.
Qed.

(** [apply_txn] does to [V] what the reference does, on every branch. *)
Lemma apply_txn_rel U O A I t c sw V :
  sw_rel U sw V → log_rel O A sw → owned V I → tc_id c ∉ I → tc_id c ∉ A →
  good_txn (t, c) → sw_exec_time sw + txn_runtime t < duration_max →
  ∃ o, apply_txn U t c sw = Ok o ∧
  match o, exec_txn V (t, c) with
  | Some sw', Some V' =>
    sw_rel U sw' V' ∧ log_rel O ({[tc_id c]} ∪ A) sw' ∧
    sw_exec_time sw' = sw_exec_time sw + txn_runtime t
  | None, None => True
  | _, _ => False
  end.
Proof.
  intros HV Hlog Hown HI HA [Hplain Hnd] Hrt. cbn in Hplain, Hnd.
  pose proof (outputs_fresh V I (t, c) Hown HI) as Hfresh. cbn in Hfresh.
  pose proof (apply_txn_fold U t c sw Hplain Hrt) as Hfold.
  set (sender := match t with TBitcoin (BSend sender _ _ _ _ _ _ _ _) => sender | _ => [] end) in *.
  assert ((λ i, (i, sender)) <$> (txn_inputs t).*1 = txn_inputs t) as Hins.
  { destruct t as [|[|? ins| ]|]; cbn; try done. by rewrite <- !list_fmap_compose. }
  pose proof (spend_inputs_rel U sender (txn_inputs t).*1 sw V HV) as Hsp. rewrite Hins in Hsp.
  unfold exec_txn. cbn.
  destruct (spend_inputs U sender _ sw) as [sw1|], (spend V _) as [V1|] eqn:E2; try done;
    [|by exists None]. cbn.
  destruct Hsp as [HV1 (Ha & Hu & He)]. eexists; split; [by apply Hfold|].
  destruct (txn_script_ok t); [|done].
  assert (V1 ⊆ V) as Hsub by (apply spend_spec in E2 as (_ & _ & ->); set_solver).
  destruct (add_outputs_rel U (txn_outputs (tc_id c) t)
    (sw1 <| sw_exec_time := sw_exec_time sw + txn_runtime t |>) V1) as [HV2 (Ha2 & Hu2 & He2)];
    [by destruct sw1|done|by intros o Ho Hin; eapply Hfresh, Hsub|].
  destruct (mark_applied_rel U O A (tc_id c) _ _ HV2) as (? & ? & He3); [|done|].
  - destruct Hlog. split; [rewrite Hu2|rewrite Ha2]; cbn; congruence.
  - split_and!; [done|done|]. by rewrite He3, He2.
Qed.

Lemma txn_ids_app l1 l2 : txn_ids (l1 ++ l2) = txn_ids l1 ++ txn_ids l2.
Proof. apply fmap_app. Qed.

Lemma total_runtime_app l1 l2 :
  total_runtime (l1 ++ l2) = total_runtime l1 + total_runtime l2.
Proof. induction l1 as [|tc l1 IH]; cbn; [done|]. rewrite IH. lia. Qed.

Lemma apply_txns_rel U O A I l sw V :
  sw_rel U sw V → log_rel O A sw → owned V I → (∀ h, h ∈ A → h ∈ I) →
  NoDup (I ++ txn_ids l) → Forall good_txn l →
  sw_exec_time sw + total_runtime l < duration_max →
  ∃ o, apply_txns U l sw = Ok o ∧
  match o, exec_txns V l with
  | Some sw', Some V' =>
    sw_rel U sw' V' ∧ log_rel O (list_to_set (txn_ids l) ∪ A) sw' ∧
    sw_exec_time sw' = sw_exec_time sw + total_runtime l
  | None, None => True
  | _, _ => False
  end.
Proof.
  revert A I sw V. induction l as [|[t c] l IH]; intros A I sw V HV Hlog Hown HA Hnd Hgood Hrt.
  { eexists; split; [done|]. cbn. rewrite union_empty_l_L, N.add_0_r. done. }
  cbn in Hrt. apply Forall_cons in Hgood as [Hg Hgood].
  apply NoDup_app in Hnd as (HndI & Hdisj & Hnd). cbn in Hdisj, Hnd.
  apply NoDup_cons in Hnd as [Hni Hnd].
  assert (tc_id c ∉ I) as HcI by (intros Hin; eapply Hdisj; [done|apply list_elem_of_here]).
  destruct (apply_txn_rel U O A I t c sw V) as (o & Heq & Ho); try done; [auto|lia|].
  cbn. rewrite Heq. cbn.
  destruct o as [sw1|], (exec_txn V (t, c)) as [V1|] eqn:E1; try done; [|by exists None].
  destruct Ho as (HV1 & Hlog1 & He1). cbn.
  destruct (IH ({[tc_id c]} ∪ A) (I ++ [tc_id c]) sw1 V1) as (o & Heq' & Ho'); try done.
  - by eapply (exec_txn_owned _ _ (t, c)).
  - intros h. rewrite elem_of_union, elem_of_singleton, elem_of_app, list_elem_of_singleton.
    naive_solver.
  - rewrite <- app_assoc. apply NoDup_app. split_and!; [done| |by apply NoDup_cons].
    intros x Hx Hin. by eapply Hdisj.
  - rewrite He1. lia.
  - exists o. split; [done|]. destruct o as [sw'|], (exec_txns V1 l); try done.
    destruct Ho' as (? & Hl & He). split_and!; [done| |lia].
    by replace ({[tc_id c]} ∪ list_to_set (txn_ids l) ∪ A)
      with (list_to_set (txn_ids l) ∪ ({[tc_id c]} ∪ A)) by set_solver.
Qed.

(** ** Undoing transactions *)

(** The undo sets [u], relative to the set [U] at the old tail, stand for [V]. *)
Definition ud_rel (U : gset Utxo) (u : undo) (V : gset Utxo) : Prop :=
  V = (U ∪ ud_utxo_spent u) ∖ ud_new_utxo u ∧ ud_utxo_spent u ## U ∧ ud_new_utxo u ⊆ U.

Lemma undo_output_rel U o u V :
  ud_rel U u V → o ∈ V →
  ud_rel U (undo_output o u) (V ∖ {[o]}) ∧ ud_txns (undo_output o u) = ud_txns u.
Proof.
  intros (-> & Hd & Hs) Ho. split; [|by unfold undo_output; case_decide; destruct u].
  unfold undo_output. case_decide as Hin; split_and!; cbn; set_solver.
Qed.

Lemma undo_inputs_rel U ins u V :
  ud_rel U u V → (∀ i, i ∈ ins → i ∉ U) →
  ud_rel U (u <| ud_utxo_spent ::= λ s, list_to_set ins ∪ s |>) (V ∪ list_to_set ins).
Proof.
  intros (-> & Hd & Hs) Hins. split_and!; cbn; [|set_solver|done].
  apply set_eq. intros x. destruct (decide (x ∈ ins)); set_solver.
Qed.

Lemma undo_outputs_rel U os u V :
  ud_rel U u V → NoDup os → (∀ o, o ∈ os → o ∈ V) →
  ud_rel U (foldl (flip undo_output) u os) (V ∖ list_to_set os) ∧
  ud_txns (foldl (flip undo_output) u os) = ud_txns u.
Proof.
  revert u V. induction os as [|o os IH]; intros u V HU Hnd Hin; cbn.
  { split; [|done]. by rewrite difference_empty_L. }
  apply NoDup_cons in Hnd as [Hni Hnd].
  destruct (undo_output_rel U o u V HU) as [HU1 Ht1]; [apply Hin, list_elem_of_here|].
  destruct (IH _ _ HU1 Hnd) as [HU2 Ht2].
  { intros o' Ho'. apply elem_of_difference. split; [by apply Hin, list_elem_of_further|].
    rewrite elem_of_singleton. by intros ->. }
  split; [|congruence].
  by rewrite difference_difference_l_L in HU2.
Qed.

Lemma undo_txn_fold u t c :
  plain_txn t = true → ∃ u', undo_txn t c u = Ok u' ∧
  u' = (foldl (flip undo_output)
         (u <| ud_utxo_spent ::= λ s, list_to_set (txn_inputs t) ∪ s |>)
         (txn_outputs (tc_id c) t)) <| ud_txns ::= λ s, {[tc_id c]} ∪ s |>.
Proof.
  destruct t as [|[|sender ins receiver out rem|]|]; intros Hp; try done; cbn.
  - eexists; split; [done|]. by destruct (0 <? out)%N, (0 <? rem)%N.
  - eexists; split; [done|].
    rewrite union_empty_l_L. by destruct u.
Qed.

Lemma undo_txn_rel U u t c V0 V1 :
  exec_txn V0 (t, c) = Some V1 → ud_rel U u V1 → good_txn (t, c) →
  (∀ o, o ∈ txn_outputs (tc_id c) t → o ∉ V0) → (∀ i, i ∈ txn_inputs t → i ∉ U) →
  ∃ u', undo_txn t c u = Ok u' ∧ ud_rel U u' V0 ∧ ud_txns u' = {[tc_id c]} ∪ ud_txns u.
Proof.
  intros (Hndi & Hin & _ & HV1)%exec_txn_inv HU [Hplain Hnd] Hout HnU. cbn in *.
  destruct (undo_txn_fold u t c Hplain) as (u' & Heq & Hu'). exists u'. split; [done|].
  destruct (undo_outputs_rel U (txn_outputs (tc_id c) t) _ _
    (undo_inputs_rel U (txn_inputs t) u V1 HU HnU) Hnd) as [HU' Ht'].
  { intros o Ho. rewrite HV1. set_solver. }
  rewrite Hu'. split; [|cbn in *; by rewrite Ht'].
  assert (V0 = (V1 ∪ list_to_set (txn_inputs t)) ∖ list_to_set (txn_outputs (tc_id c) t)) as ->;
    [|by destruct HU' as (? & ? & ?); split_and!].
  rewrite HV1. apply set_eq. intros x.
  destruct (decide (x ∈ txn_inputs t)), (decide (x ∈ txn_outputs (tc_id c) t)); set_solver.
Qed.

Lemma undo_txns_app l1 l2 u :
  undo_txns (l1 ++ l2) u = undo_txns l1 u ≫= λ u', undo_txns l2 u'.
Proof.
  revert u. induction l1 as [|[t c] l1 IH]; intros u; cbn; [done|].
  destruct (undo_txn t c u); cbn; auto.
Qed.

(** Undoing a branch from its end leads back to the set before the branch. *)
Lemma undo_txns_rel U I l u V0 V1 :
  exec_txns V0 l = Some V1 → ud_rel U u V1 → owned V0 I → NoDup (I ++ txn_ids l) →
  Forall good_txn l → (∀ k, k.1 ∈ I ++ txn_ids l → k ∉ V1 → k ∉ U) →
  ∃ u', undo_txns (reverse l) u = Ok u' ∧ ud_rel U u' V0 ∧
    ud_txns u' = list_to_set (txn_ids l) ∪ ud_txns u.
Proof.
  revert V0 I. induction l as [|[t c] l IH]; intros V0 I Hx HU Hown Hnd Hgood Hkeep; cbn in Hx.
  { simplify_eq. exists u. split_and!; [done|done|]. cbn. set_solver. }
  apply bind_Some in Hx as (V & Hx & Hxs).
  apply Forall_cons in Hgood as [Hg Hgood].   change (txn_ids ((t, c) :: l)) with ([tc_id c] ++ txn_ids l) in *.
  rewrite (assoc_L (++) I [tc_id c]) in Hnd, Hkeep.
  destruct (IH V (I ++ [tc_id c])) as (u1 & Heq1 & HU1 & Ht1); try done.
  { by eapply (exec_txn_owned _ _ (t, c)). }
  assert (tc_id c ∉ I) as HcI.
  { apply NoDup_app in Hnd as (Hnd & _ & _). apply NoDup_app in Hnd as (_ & Hd & _).
    intros Hin. eapply Hd; [done|apply list_elem_of_here]. }
  pose proof (outputs_fresh V0 I (t, c) Hown HcI) as Hfresh. cbn in Hfresh.
  destruct (undo_txn_rel U u1 t c V0 V) as (u2 & Heq2 & HU2 & Ht2); try done.
  - intros i Hi. apply exec_txn_inv in Hx as (_ & Hin & _ & ->). cbn in *.
    assert (i.1 ∈ I) as HiI by (apply Hown, Hin, Hi).
    apply Hkeep; [rewrite !elem_of_app; tauto|].
    eapply exec_txns_keeps_out; [done| |].
    + rewrite elem_of_union, elem_of_difference, !elem_of_list_to_set.
      intros [[_ Hn]|Ho]; [done|]. apply (Hfresh i Ho), Hin, Hi.
    + apply NoDup_app in Hnd as (_ & Hd & _). apply Hd. rewrite elem_of_app. tauto.
  - exists u2. rewrite reverse_cons, undo_txns_app, Heq1. cbn. rewrite Heq2. cbn.
    split_and!; [done|done|]. rewrite Ht2, Ht1. set_solver.
Qed.

(** ** Chains of blocks *)

Abbreviation blk_rec := (Block * BlkCtx)%type (only parsing).

Definition blk_recs (bc : blk_rec) : list txn_rec := zip (txns bc.1) (bc_txn_ctx bc.2).
Definition chain_recs (l : list blk_rec) : list txn_rec := concat (blk_recs <$> l).

(** As many contexts as transactions: what [validate_block] asserts. *)
Definition aligned (bc : blk_rec) : Prop := length (txns bc.1) = length (bc_txn_ctx bc.2).

(** A chain in which no transaction occurs twice, all of them good. *)
Definition good_chain (l : list blk_rec) : Prop :=
  Forall aligned l ∧ NoDup (txn_ids (chain_recs l)) ∧ Forall good_txn (chain_recs l).

#[export] Instance good_txn_dec tc : Decision (good_txn tc).
Proof. unfold good_txn. apply _. Defined.
#[export] Instance aligned_dec bc : Decision (aligned bc).
Proof. unfold aligned. apply _. Defined.
#[export] Instance good_chain_dec l : Decision (good_chain l).
Proof. unfold good_chain. apply _. Defined.

Lemma chain_recs_app l1 l2 : chain_recs (l1 ++ l2) = chain_recs l1 ++ chain_recs l2.
Proof. unfold chain_recs. by rewrite fmap_app, concat_app. Qed.

Lemma chain_recs_snoc l bc : chain_recs (l ++ [bc]) = chain_recs l ++ blk_recs bc.
Proof. rewrite chain_recs_app. cbn. by rewrite app_nil_r. Qed.

Lemma block_txns_aligned bc : aligned bc → block_txns bc = Ok (blk_recs bc).
Proof. intros Hal. unfold block_txns. by rewrite decide_True. Qed.

Lemma undo_chain_flat l u :
  Forall aligned l → undo_chain (reverse l) u = undo_txns (reverse (chain_recs l)) u.
Proof.
  revert u. induction l as [|bc l IH] using rev_ind; intros u; [done|].
  rewrite Forall_app, Forall_singleton. intros [Hl Hbc].
  rewrite reverse_snoc, chain_recs_snoc, reverse_app, undo_txns_app. cbn.
  rewrite block_txns_aligned by done. cbn.
  destruct (undo_txns _ u); cbn; auto.
Qed.

Lemma apply_txns_app U l1 l2 sw :
  apply_txns U (l1 ++ l2) sw =
  o ← apply_txns U l1 sw; match o with Some sw' => apply_txns U l2 sw' | None => Ok None end.
Proof.
  revert sw. induction l1 as [|[t c] l1 IH]; intros sw; cbn; [done|].
  destruct (apply_txn U t c sw) as [[sw'|]| | |]; cbn; auto.
Qed.

Lemma apply_chain_flat U l sw :
  Forall aligned l → apply_chain U l sw = apply_txns U (chain_recs l) sw.
Proof.
  revert sw. induction l as [|bc l IH]; intros sw; [done|].
  rewrite Forall_cons. intros [Hbc Hl]. cbn. rewrite block_txns_aligned by done. cbn.
  change (chain_recs (bc :: l)) with (blk_recs bc ++ chain_recs l). rewrite apply_txns_app.
  destruct (apply_txns U (blk_recs bc) sw) as [[sw'|]| | |]; cbn; auto.
Qed.

(** The changes of a switch from the branch [old] to the branch [new]. *)
Definition branch_switch (U : gset Utxo) (old new : list blk_rec) : res (option switch) :=
  u ← undo_chain (reverse old) (mkUndo ∅ ∅ ∅);
  apply_chain U new (mkSwitch (ud_utxo_spent u) (ud_new_utxo u) ∅ (ud_txns u) 0).

Definition ids_of (l : list blk_rec) : gset Hash := list_to_set (txn_ids (chain_recs l)).

Lemma branch_switch_spec U common old new :
  exec_txns ∅ (chain_recs (common ++ old)) = Some U →
  good_chain (common ++ old) → good_chain (common ++ new) →
  total_runtime (chain_recs new) < duration_max →
  ∃ o, branch_switch U old new = Ok o ∧
  match o with
  | Some sw =>
    exec_txns ∅ (chain_recs (common ++ new)) = Some ((U ∪ sw_new_utxos sw) ∖ sw_utxos_spent sw) ∧
    sw_txns_applied sw = ids_of new ∖ ids_of old ∧ sw_undo_txns sw = ids_of old ∖ ids_of new ∧
    sw_exec_time sw = total_runtime (chain_recs new)
  | None => exec_txns ∅ (chain_recs (common ++ new)) = None
  end.
Proof.
  intros HU (Hal1 & Hnd1 & Hg1) (Hal2 & Hnd2 & Hg2) Hrt.
  rewrite chain_recs_app in *. rewrite txn_ids_app in Hnd1, Hnd2.
  apply Forall_app in Hal1 as [_ Hal1], Hal2 as [_ Hal2], Hg1 as [_ Hg1], Hg2 as [_ Hg2].
  rewrite exec_txns_app in HU. apply bind_Some in HU as (U0 & HU0 & HU).
  assert (owned U0 (txn_ids (chain_recs common))) as Hown.
  { apply (exec_txns_owned ∅ [] _ _); [|done]. intros k. set_solver. }
  unfold branch_switch. rewrite undo_chain_flat by done.
  destruct (undo_txns_rel U (txn_ids (chain_recs common)) (chain_recs old) (mkUndo ∅ ∅ ∅) U0 U)
    as (u & Hu & (HV & Hd & Hs) & Ht); try done.
  { split_and!; cbn; [|set_solver|set_solver]. set_solver. }
  rewrite Hu. cbn -[apply_chain]. rewrite apply_chain_flat by done.
  destruct (apply_txns_rel U (ids_of old) ∅ (txn_ids (chain_recs common)) (chain_recs new)
    (mkSwitch (ud_utxo_spent u) (ud_new_utxo u) ∅ (ud_txns u) 0) U0) as (o & Ho & Hm); try done.
  { split; cbn; [|set_solver]. rewrite Ht. cbn. unfold ids_of. set_solver. }
  exists o. split; [done|]. rewrite exec_txns_app, HU0. cbn.
  destruct o as [sw|], (exec_txns U0 (chain_recs new)) as [V|]; try done.
  destruct Hm as ((-> & _) & (Hun & Hap) & He). split_and!; [done| | |].
  - rewrite Hap. unfold ids_of. set_solver.
  - rewrite Hun. unfold ids_of. set_solver.
  - rewrite He. cbn. lia.
Qed.
