(* ===== verification/BtcChain.v ===== *)
(** * Bitcoin: the pool of blocks, its heights and its orphans

    The well-formedness of the block pool ([pool_inv]); that the recursive
    update of orphans restores it; that the searches for a missing ancestor and
    for the fork point end, do not panic and find what they look for. *)

From S2P Require Import Prelude F64 Protocol Peers BtcMgmt BtcUtxo.
Local Open Scope N_scope.

Abbreviation pool_t := (gmap Hash (Block * BlkCtx * N)) (only parsing).
Abbreviation orphans_t := (gmap Hash (gset Hash)) (only parsing).

(** The orphans registered under a parent. *)
Definition children (orph : orphans_t) (p : Hash) : gset Hash := default ∅ (orph !! p).

(** [rank] orders blocks after their parents: hash links are acyclic. [W]: the
    connected blocks whose orphans are still to be visited; [P]: the orphans
    taken out of the map whose height is still to be set. *)
Record pool_inv (rank : Hash → nat) (W P : gset Hash) (pool : pool_t) (orph : orphans_t) : Prop :=
  mkPoolInv {
  pi_entry : ∀ h b c n, pool !! h = Some (b, c, n) →
    h ≠ 0 ∧ ∃ p, header_prev b = Ok p ∧ (rank p < rank h)%nat;
  pi_id : ∀ h b c n, pool !! h = Some (b, c, n) → bc_id c = h;
  pi_conn : ∀ h b c n p, pool !! h = Some (b, c, n) → n ≠ 0 → header_prev b = Ok p →
    p = 0 ∧ n = 1 ∨ ∃ b' c' m, pool !! p = Some (b', c', m) ∧ m ≠ 0 ∧ n = m + 1;
  pi_orphan : ∀ h b c p, pool !! h = Some (b, c, 0) → header_prev b = Ok p →
    p ≠ 0 ∧ (h ∈ P ∨ h ∈ children orph p ∧
      (p ∈ W ∨ ∀ b' c' m, pool !! p = Some (b', c', m) → m = 0));
  pi_reg : ∀ p h, h ∈ children orph p →
    h ∉ P ∧ ∃ b c, pool !! h = Some (b, c, 0) ∧ header_prev b = Ok p;
  pi_pend : ∀ h, h ∈ P → ∃ b c p b' c' m,
    pool !! h = Some (b, c, 0) ∧ header_prev b = Ok p ∧ pool !! p = Some (b', c', m) ∧ m ≠ 0;
}.

(** The same blocks, with heights assigned to some that had none. *)
Definition pool_ext (pool pool' : pool_t) : Prop :=
  fst <$> pool' = fst <$> pool ∧
  ∀ h b c n, pool !! h = Some (b, c, n) → n ≠ 0 → pool' !! h = Some (b, c, n).

Lemma pool_ext_refl pool : pool_ext pool pool.
Proof. done. Qed.

Lemma pool_ext_trans p1 p2 p3 : pool_ext p1 p2 → pool_ext p2 p3 → pool_ext p1 p3.
Proof. intros [H1 H2] [H3 H4]. split; [congruence|]. eauto. Qed.

Lemma children_insert orph p p' s :
  children (<[p := s]> orph) p' = if decide (p = p') then s else children orph p'.
Proof.
  unfold children. case_decide as Hp; [subst; by rewrite lookup_insert_eq|].
  by rewrite lookup_insert_ne.
Qed.

Lemma children_delete orph p p' :
  children (delete p orph) p' = if decide (p = p') then ∅ else children orph p'.
Proof.
  unfold children. case_decide as Hp; [subst; by rewrite lookup_delete_eq|].
  by rewrite lookup_delete_ne.
Qed.

Lemma pool_inv_weaken rank W W' P pool orph :
  pool_inv rank W P pool orph → W ⊆ W' → pool_inv rank W' P pool orph.
Proof.
  intros [] HW. split; try done. intros h b c p Hh Hp.
  destruct (pi_orphan0 h b c p Hh Hp) as [? [?|[? [?|?]]]]; split; auto.
Qed.

Lemma pool_inv_done rank W P pool orph h :
  pool_inv rank W P pool orph → orph !! h = None → pool_inv rank (W ∖ {[h]}) P pool orph.
Proof.
  intros [] Hnone. split; try done. intros x b c p Hx Hp.
  destruct (pi_orphan0 x b c p Hx Hp) as [Hp0 [?|[Hc Hw]]]; [by auto|].
  split; [done|]. right. split; [done|]. destruct (decide (p = h)) as [->|].
  - unfold children in Hc. rewrite Hnone in Hc. set_solver.
  - set_solver.
Qed.

(** Taking the orphans of [h] out of the map. *)
Lemma pool_inv_take rank W P pool orph h b c n cs :
  pool_inv rank W P pool orph → pool !! h = Some (b, c, n) → n ≠ 0 → orph !! h = Some cs →
  pool_inv rank (W ∖ {[h]}) (P ∪ cs) pool (delete h orph) ∧ cs ## P ∧
  ∀ x, x ∈ cs → ∃ b' c', pool !! x = Some (b', c', 0) ∧ header_prev b' = Ok h.
Proof.
  intros [] Hh Hn Hcs.
  assert (children orph h = cs) as Hch by (unfold children; by rewrite Hcs).
  assert (∀ x, x ∈ cs → x ∉ P ∧ ∃ b' c', pool !! x = Some (b', c', 0) ∧ header_prev b' = Ok h) as Hreg.
  { intros x Hx. apply pi_reg0. by rewrite Hch. }
  split_and!; [|intros x Hx; by apply Hreg|intros x Hx; by apply Hreg].
  split; try done.
  - intros x b' c' p Hx Hp. rewrite children_delete.
    destruct (pi_orphan0 x b' c' p Hx Hp) as [Hp0 [?|[Hc Hw]]]; [set_solver|].
    split; [done|]. case_decide as Heq.
    + left. subst p. set_solver.
    + right. set_solver.
  - intros p x. rewrite children_delete. case_decide; [set_solver|]. intros Hx.
    destruct (pi_reg0 p x Hx) as [HxP (b' & c' & Hx' & Hp')].
    split; [|naive_solver]. rewrite elem_of_union. intros [?|Hin]; [done|].
    destruct (Hreg x Hin) as (_ & ? & ? & ? & ?). congruence.
  - intros x. rewrite elem_of_union. intros [Hx|Hx]; [by apply pi_pend0|].
    destruct (Hreg x Hx) as (_ & b' & c' & ? & ?). do 6 eexists. split_and!; done.
Qed.

(** Setting the height of one of them. *)
Lemma pool_inv_set rank W P pool orph h b c n x bx cx :
  pool_inv rank W P pool orph → pool !! h = Some (b, c, n) → n ≠ 0 →
  x ∈ P → pool !! x = Some (bx, cx, 0) → header_prev bx = Ok h →
  pool_inv rank (W ∪ {[x]}) (P ∖ {[x]}) (<[x := (bx, cx, n + 1)]> pool) orph ∧
  pool_ext pool (<[x := (bx, cx, n + 1)]> pool).
Proof.
  intros [] Hh Hn HxP Hx Hpx.
  assert (h ≠ x) as Hhx by (intros ->; congruence).
  split; [split|split].
  - intros y b' c' m. rewrite lookup_insert_Some. intros [[<- [= <- <- <-]]|[_ Hy]]; eauto.
  - intros y b' c' m. rewrite lookup_insert_Some. intros [[<- [= <- <- <-]]|[_ Hy]]; eauto.
  - intros y b' c' m p. rewrite lookup_insert_Some.
    intros [[<- [= <- <- <-]]|[Hne Hy]] Hm Hp.
    + right. assert (p = h) as -> by congruence.
      exists b, c, n. rewrite lookup_insert_ne by done. auto.
    + destruct (pi_conn0 y b' c' m p Hy Hm Hp) as [?|(b2 & c2 & m2 & Hp2 & Hm2 & ?)]; [by left|].
      right. exists b2, c2, m2. rewrite lookup_insert_ne; [done|]. intros ->. congruence.
  - intros y b' c' p. rewrite lookup_insert_Some.
    intros [[<- [= <- <- ?]]|[Hne Hy]] Hp; [lia|].
    destruct (pi_orphan0 y b' c' p Hy Hp) as [Hp0 [?|[Hc Hw]]]; [set_solver|].
    split; [done|]. right. split; [done|]. destruct Hw as [?|Hw]; [set_solver|].
    destruct (decide (p = x)) as [->|]; [set_solver|].
    right. intros b2 c2 m2. rewrite lookup_insert_ne by done. apply Hw.
  - intros p y Hy. destruct (pi_reg0 p y Hy) as [HyP (b' & c' & Hy' & Hp')].
    split; [set_solver|]. exists b', c'. rewrite lookup_insert_ne by set_solver. done.
  - intros y [HyP Hyx]%elem_of_difference. rewrite elem_of_singleton in Hyx.
    destruct (pi_pend0 y HyP) as (b1 & c1 & p & b2 & c2 & m & ? & ? & ? & ?).
    exists b1, c1, p, b2, c2, m. rewrite !lookup_insert_ne; [done|congruence|done].
  - apply map_eq. intros y. rewrite !lookup_fmap.
    destruct (decide (x = y)) as [<-|]; [by rewrite lookup_insert_eq, Hx|].
    by rewrite lookup_insert_ne.
  - intros y b' c' m Hy Hm. rewrite lookup_insert_ne; [done|]. intros <-. congruence.
Qed.

(** ** A block enters the pool *)

(** Without its ancestors: it is registered under its parent. *)
Lemma pool_inv_park rank pool orph h b c p :
  pool_inv rank ∅ ∅ pool orph → pool !! h = None → h ≠ 0 → bc_id c = h → header_prev b = Ok p →
  (rank p < rank h)%nat → p ≠ 0 → (∀ b' c' m, pool !! p = Some (b', c', m) → m = 0) →
  pool_inv rank ∅ ∅ (<[h := (b, c, 0)]> pool) (<[p := {[h]} ∪ children orph p]> orph).
Proof.
  intros [] Hh Hh0 Hid Hp Hr Hp0 Hm. split.
  - intros x b' c' n. rewrite lookup_insert_Some. intros [[<- [= <- <- <-]]|[_ Hx]]; eauto.
  - intros x b' c' n. rewrite lookup_insert_Some. intros [[<- [= <- <- <-]]|[_ Hx]]; eauto.
  - intros x b' c' n q. rewrite lookup_insert_Some. intros [[<- [= <- <- <-]]|[_ Hx]] Hn Hq; [done|].
    destruct (pi_conn0 x b' c' n q Hx Hn Hq) as [?|(b2 & c2 & m & Hq' & ? & ?)]; [by left|].
    right. exists b2, c2, m. rewrite lookup_insert_ne; [done|]. intros ->. congruence.
  - intros x b' c' q Hx Hq. rewrite children_insert. split.
    { apply lookup_insert_Some in Hx as [[<- [= <- <-]]|[_ Hx]]; [congruence|].
      by destruct (pi_orphan0 x b' c' q Hx Hq). }
    right. split.
    + apply lookup_insert_Some in Hx as [[<- [= <- <-]]|[_ Hx]].
      * rewrite decide_True by congruence. set_solver.
      * destruct (pi_orphan0 x b' c' q Hx Hq) as [_ [?|[? _]]]; [set_solver|].
        case_decide; subst; set_solver.
    + right. intros b2 c2 m. rewrite lookup_insert_Some. intros [[<- [= <- <- <-]]|[_ Hq']]; [done|].
      apply lookup_insert_Some in Hx as [[<- [= <- <-]]|[_ Hx]].
      { assert (q = p) as -> by congruence. by eapply Hm. }
      destruct (pi_orphan0 x b' c' q Hx Hq) as [_ [?|[_ [?|?]]]]; [set_solver..|eauto].
  - intros q x. rewrite children_insert. intros Hx. split; [set_solver|].
    assert (q = p ∧ x = h ∨ x ∈ children orph q) as [[-> ->]|Hx'] by (case_decide; set_solver).
    + exists b, c. by rewrite lookup_insert_eq.
    + destruct (pi_reg0 q x Hx') as (_ & b' & c' & ? & ?). exists b', c'.
      rewrite lookup_insert_ne; [done|]. intros ->. congruence.
  - set_solver.
Qed.

(** Below a connected parent, or as a first block: its own orphans may now be
    visited. *)
Lemma pool_inv_connect rank pool orph h b c p n :
  pool_inv rank ∅ ∅ pool orph → pool !! h = None → h ≠ 0 → bc_id c = h → header_prev b = Ok p →
  (rank p < rank h)%nat → n ≠ 0 →
  (p = 0 ∧ n = 1 ∨ ∃ b' c' m, pool !! p = Some (b', c', m) ∧ m ≠ 0 ∧ n = m + 1) →
  pool_inv rank {[h]} ∅ (<[h := (b, c, n)]> pool) orph.
Proof.
  intros [] Hh Hh0 Hid Hp Hr Hn Hpar. split.
  - intros x b' c' m. rewrite lookup_insert_Some. intros [[<- [= <- <- <-]]|[_ Hx]]; eauto.
  - intros x b' c' m. rewrite lookup_insert_Some. intros [[<- [= <- <- <-]]|[_ Hx]]; eauto.
  - intros x b' c' m q Hx Hm Hq.
    assert (q = 0 ∧ m = 1 ∨ ∃ b2 c2 m2, pool !! q = Some (b2, c2, m2) ∧ m2 ≠ 0 ∧ m = m2 + 1)
      as [?|(b2 & c2 & m2 & Hq' & ? & ?)].
    { apply lookup_insert_Some in Hx as [[<- [= <- <- <-]]|[_ Hx]]; [|by eapply pi_conn0].
      assert (q = p) as -> by congruence. done. }
    { by left. }
    right. exists b2, c2, m2. rewrite lookup_insert_ne; [done|]. intros ->. congruence.
  - intros x b' c' q. rewrite lookup_insert_Some. intros [[<- [= <- <- ?]]|[_ Hx]] Hq; [done|].
    destruct (pi_orphan0 x b' c' q Hx Hq) as [? [?|[? [?|Hm]]]]; [set_solver..|].
    split; [done|]. right. split; [done|]. destruct (decide (q = h)) as [->|]; [set_solver|].
    right. intros b2 c2 m2. rewrite lookup_insert_ne by done. apply Hm.
  - intros q x Hx. destruct (pi_reg0 q x Hx) as (? & b' & c' & ? & ?). split; [done|].
    exists b', c'. rewrite lookup_insert_ne; [done|]. intros ->. congruence.
  - set_solver.
Qed.

(** ** Connecting orphans *)

Definition upd (s : BitcoinBM) (p : pool_t) (o : orphans_t) : BitcoinBM :=
  s <| block_pool := p |> <| orphan_blocks := o |>.

(** The heights [p'] assigns to blocks without one are at most [n]. *)
Definition connects_upto (p p' : pool_t) (n : N) : Prop :=
  ∀ x b c b' c' m, p !! x = Some (b, c, 0) → p' !! x = Some (b', c', m) → m ≤ n.

Lemma connects_refl p n : connects_upto p p n.
Proof. intros x b c b' c' m H1 H2. assert (m = 0) as -> by congruence. lia. Qed.

Lemma connects_trans p1 p2 p3 n n' :
  pool_ext p1 p2 → pool_ext p2 p3 →
  connects_upto p1 p2 n → connects_upto p2 p3 n' → n ≤ n' → connects_upto p1 p3 n'.
Proof.
  intros [Hd1 _] [_ Hk] H1 H2 Hle x b c b' c' m Hx1 Hx3.
  assert (∃ b2 c2 m2, p2 !! x = Some (b2, c2, m2)) as (b2 & c2 & m2 & Hx2).
  { assert ((fst <$> p2) !! x = Some (b, c)) as Hx by (by rewrite Hd1, lookup_fmap, Hx1).
    rewrite lookup_fmap in Hx. destruct (p2 !! x) as [[[]]|]; [eauto|done]. }
  destruct (decide (m2 = 0)) as [->|Hm2]; [by eapply H2|].
  rewrite (Hk _ _ _ _ Hx2 Hm2) in Hx3. simplify_eq.
  etrans; [by eapply H1|done].
Qed.

Section Orphans.
Context `{HashOrder} (rank : Hash → nat).

(** What visiting the orphans below a connected block achieves. *)
Definition visited (W P : gset Hash) (n : N) (s : BitcoinBM) (r : Hash * N) (s' : BitcoinBM) : Prop :=
  ∃ p o, s' = upd s p o ∧ pool_inv rank W P p o ∧ pool_ext (block_pool s) p ∧
    (size o ≤ size (orphan_blocks s))%nat ∧ (∃ b c, p !! r.1 = Some (b, c, r.2)) ∧
    n ≤ r.2 ∧ connects_upto (block_pool s) p r.2.

Definition visits (fuel : nat) (rec : Hash → N → M BitcoinBM (Hash * N)) : Prop :=
  ∀ W P h n s b c, pool_inv rank W P (block_pool s) (orphan_blocks s) →
    block_pool s !! h = Some (b, c, n) → n ≠ 0 → (size (orphan_blocks s) < fuel)%nat →
    wp (rec h n) (visited (W ∖ {[h]}) P n s) (λ _ _, False) s.

Lemma visit_children_wp fuel rec W P h n cs longest s b c :
  visits fuel rec → pool_inv rank W (P ∪ list_to_set cs) (block_pool s) (orphan_blocks s) →
  NoDup cs → (∀ x, x ∈ cs → x ∉ P ∧ ∃ b' c', block_pool s !! x = Some (b', c', 0) ∧ header_prev b' = Ok h) →
  block_pool s !! h = Some (b, c, n) → n ≠ 0 → (size (orphan_blocks s) < fuel)%nat →
  (∃ b c, block_pool s !! longest.1 = Some (b, c, longest.2)) → n ≤ longest.2 →
  wp (visit_children rec n cs longest) (visited W P longest.2 s) (λ _ _, False) s.
Proof.
  intros Hrec. revert longest s.
  induction cs as [|x cs IH]; intros longest s Hinv Hnd Hcs Hh Hn Hfuel Hl Hle; cbn.
  { rewrite list_to_set_nil, union_empty_r_L in Hinv. exists (block_pool s), (orphan_blocks s).
    split_and!; [by destruct s|done|done|done|done|done|apply connects_refl]. }
  apply NoDup_cons in Hnd as [Hni Hnd].
  destruct (Hcs x) as [HxP (bx & cx & Hx & Hpx)]; [apply list_elem_of_here|].
  wp_steps. eapply wp_unwrap; [done|]. wp_steps. cbn [fst].
  destruct (pool_inv_set rank W (P ∪ list_to_set (x :: cs)) (block_pool s) (orphan_blocks s)
    h b c n x bx cx) as [Hinv' Hext]; [done|done|done|cbn; set_solver|done|done|].
  set (s1 := s <| block_pool := <[x := (bx, cx, n + 1)]> (block_pool s) |>).
  assert (connects_upto (block_pool s) (block_pool s1) (n + 1)) as Hc1.
  { intros y ? ? ? ? m Hy. cbn. rewrite lookup_insert_Some. intros [[<- [= <- <- <-]]|[_ Hy']];
      [done|]. assert (m = 0) as -> by congruence. lia. }
  eapply wp_mono; [eapply (Hrec (W ∪ {[x]}) _ x (n + 1) s1 bx cx); [done| |lia|done]| |done].
  { cbn. by rewrite lookup_insert_eq. }
  intros [d dn] s2 (p & o & -> & Hinv2 & Hext2 & Hsz & (b2 & c2 & Hd) & Hle2 & Hc2).
  cbn [snd fst] in *.
  assert (pool_ext (block_pool s) p) as Hext3 by exact (pool_ext_trans _ _ _ Hext Hext2).
  assert (connects_upto (block_pool s) p dn) as Hc3
    by exact (connects_trans _ _ _ _ _ Hext Hext2 Hc1 Hc2 Hle2).
  set (longest' := if (longest.2 <? dn)%N then (d, dn) else longest).
  assert (dn ≤ longest'.2 ∧ longest.2 ≤ longest'.2) as [Hl1 Hl2].
  { unfold longest'. destruct (N.ltb_spec (longest.2) dn); cbn; lia. }
  eapply wp_mono; [apply (IH longest')| |done].
  - cbn in *. eapply (pool_inv_weaken _ ((W ∪ {[x]}) ∖ {[x]})); [|set_solver].
    replace (P ∪ list_to_set cs) with ((P ∪ ({[x]} ∪ list_to_set cs)) ∖ {[x]}); [done|].
    set_solver.
  - done.
  - intros y Hy. destruct (Hcs y) as [HyP (by' & cy & Hy' & Hpy)]; [by apply list_elem_of_further|].
    split; [done|]. exists by', cy. split; [|done]. cbn.
    assert (y ∈ (P ∪ list_to_set (x :: cs)) ∖ {[x]}) as HyP'.
    { apply elem_of_difference. split; [cbn; set_solver|]. rewrite elem_of_singleton. by intros ->. }
    destruct (pi_pend _ _ _ _ _ Hinv2 y HyP') as (b3 & c3 & _ & _ & _ & _ & Hy3 & _).
    assert ((fst <$> p) !! y = Some (by', cy)) as Hf by (by rewrite (proj1 Hext3), lookup_fmap, Hy').
    rewrite lookup_fmap, Hy3 in Hf. by simplify_eq/=.
  - cbn. by apply (proj2 Hext3).
  - done.
  - cbn in *. lia.
  - unfold longest'. destruct (N.ltb_spec (longest.2) dn); cbn; [eauto|].
    destruct Hl as (bl & cl & Hl). exists bl, cl. apply (proj2 Hext3); [done|]. lia.
  - lia.
  - intros [t tn] s3 (p' & o' & -> & Hinv3 & Hext4 & Hsz3 & Ht & Hle3 & Hc4). cbn in *.
    exists p', o'. split_and!; [by destruct s|done|by eapply pool_ext_trans|by etrans|done|exact (N.le_trans _ _ _ Hl2 Hle3)|].
    exact (connects_trans _ _ _ _ _ Hext3 Hext4 Hc3 Hc4 (N.le_trans _ _ _ Hl1 Hle3)).
Qed.

Lemma update_orphans_wp fuel : visits fuel (update_orphans_and_return_tail fuel).
Proof.
  induction fuel as [|fuel IH]; intros W P h n s b c Hinv Hh Hn Hfuel; [lia|]. cbn.
  wp_steps. destruct (orphan_blocks s !! h) as [cs|] eqn:Hcs.
  - wp_steps.
    destruct (pool_inv_take rank W P (block_pool s) (orphan_blocks s) h b c n cs)
      as (Hinv' & Hdisj & Hcs'); try done.
    set (s1 := s <| orphan_blocks := delete h (orphan_blocks s) |>).
    assert (size (orphan_blocks s1) < size (orphan_blocks s))%nat as Hsz.
    { cbn. rewrite map_size_delete, Hcs. 
      assert (size (orphan_blocks s) ≠ 0%nat); [|lia].
      intros Hz%map_size_empty_inv. rewrite Hz in Hcs. done. }
    eapply wp_mono; [apply (visit_children_wp fuel _ (W ∖ {[h]}) P h n (set_iter cs) (h, n) s1 b c)| |done];
      try done.
    + cbn. by replace (list_to_set (set_iter cs)) with cs
        by (apply set_eq; intros x; by rewrite elem_of_list_to_set, elem_of_set_iter).
    + apply NoDup_set_iter.
    + intros x. rewrite elem_of_set_iter. intros Hx. split; [set_solver|by apply Hcs'].
    + cbn in *. lia.
    + cbn. eauto.
    + intros r s' (p & o & -> & ? & ? & ? & ? & ? & ?).
      exists p, o. split_and!; try done. etrans; [done|]. cbn in *; lia.
  - wp_steps. exists (block_pool s), (orphan_blocks s).
    split_and!; [by destruct s|by apply pool_inv_done|done|done|by eauto|done|apply connects_refl].
Qed.
End Orphans.

(** ** The missing ancestor of an orphan *)

Lemma size_dom_le (X : gset Hash) (pool : pool_t) :
  (∀ x, x ∈ X → is_Some (pool !! x)) → (size X ≤ size pool)%nat.
Proof.
  intros HX. rewrite <- (size_dom (D:=gset Hash) pool). apply subseteq_size.
  intros x Hx. by apply elem_of_dom, HX.
Qed.

(** The walk over orphans ends within the size of the pool: it follows links
    that go down in [rank]. *)
Lemma missing_ancestor_ok rank pool orph fuel p (vis : gset Hash) :
  pool_inv rank ∅ ∅ pool orph →
  (∀ v, v ∈ vis → is_Some (pool !! v) ∧ (rank p < rank v)%nat) →
  (size pool < fuel + size vis)%nat → p ≠ 0 →
  (∀ b c m, pool !! p = Some (b, c, m) → m = 0) →
  ∃ a, missing_ancestor fuel pool p = Ok a ∧ pool !! a = None ∧ a ≠ 0.
Proof.
  intros Hinv. revert p vis. induction fuel as [|fuel IH]; intros p vis Hvis Hfuel Hp Hm.
  { assert (size vis ≤ size pool)%nat; [|lia]. apply size_dom_le. by intros v []%Hvis. }
  cbn. rewrite decide_False by done. destruct (pool !! p) as [[[b c] m]|] eqn:Hpp; [|by exists p].
  assert (m = 0) as -> by (by eapply Hm). cbn.
  destruct (pi_entry _ _ _ _ _ Hinv p b c 0 Hpp) as (_ & q & Hq & Hrank). rewrite Hq. cbn.
  destruct (pi_orphan _ _ _ _ _ Hinv p b c q Hpp Hq) as [Hq0 [?|[_ [?|Hpar]]]]; [set_solver..|].
  apply (IH q ({[p]} ∪ vis)); try done.
  - intros v. rewrite elem_of_union, elem_of_singleton. intros [->|[? ?]%Hvis]; [by eauto|].
    split; [done|lia].
  - rewrite size_union, size_singleton; [lia|].
    intros v ->%elem_of_singleton [_ ?]%Hvis. lia.
Qed.

(** ** Paths to the genesis *)

(** [l]: the blocks from the genesis to [h], oldest first; heights count them. *)
Inductive is_path (pool : pool_t) : Hash → list blk_rec → Prop :=
| path_nil : is_path pool 0 []
| path_snoc h b c p l :
  pool !! h = Some (b, c, N.of_nat (S (length l))) → header_prev b = Ok p →
  is_path pool p l → is_path pool h (l ++ [(b, c)]).

(** The same without heights. *)
Inductive linked (B : gmap Hash blk_rec) : Hash → list blk_rec → Prop :=
| linked_nil : linked B 0 []
| linked_snoc h b c p l :
  B !! h = Some (b, c) → header_prev b = Ok p → linked B p l → linked B h (l ++ [(b, c)]).

Lemma is_path_linked pool h l : is_path pool h l → linked (fst <$> pool) h l.
Proof.
  induction 1 as [|h b c p l Hh Hp Hl IH]; [constructor|].
  econstructor; [|done|done]. by rewrite lookup_fmap, Hh.
Qed.

Lemma is_path_ext pool pool' h l : pool_ext pool pool' → is_path pool h l → is_path pool' h l.
Proof.
  intros [_ Hk]. induction 1 as [|h b c p l Hh Hp Hl IH]; [constructor|].
  econstructor; [|done|done]. apply Hk; [done|lia].
Qed.

Lemma is_path_insert pool x v h l :
  pool !! x = None → is_path pool h l → is_path (<[x := v]> pool) h l.
Proof.
  intros Hx. induction 1 as [|h b c p l Hh Hp Hl IH]; [constructor|].
  econstructor; [|done|done]. rewrite lookup_insert_ne; [done|]. intros ->. congruence.
Qed.

Section Paths.
Context (rank : Hash → nat) (pool : pool_t) (orph : orphans_t).
Context (Hinv : pool_inv rank ∅ ∅ pool orph).

Lemma pool_zero : pool !! 0 = None.
Proof.
  destruct (pool !! 0) as [[[b c] n]|] eqn:E; [|done].
  by destruct (pi_entry _ _ _ _ _ Hinv _ _ _ _ E).
Qed.

Lemma path_exists n h b c :
  pool !! h = Some (b, c, N.of_nat n) → n ≠ 0%nat → ∃ l, is_path pool h l ∧ length l = n.
Proof.
  revert h b c. induction n as [|n IH]; intros h b c Hh Hn; [done|].
  destruct (pi_entry _ _ _ _ _ Hinv _ _ _ _ Hh) as (_ & p & Hp & _).
  destruct (pi_conn _ _ _ _ _ Hinv _ _ _ _ _ Hh ltac:(lia) Hp)
    as [[-> Hn1]|(b' & c' & m & Hp' & Hm & Heq)].
  - assert (n = 0%nat) as -> by lia. exists ([] ++ [(b, c)]).
    split; [|done]. by econstructor; [|done|constructor].
  - assert (m = N.of_nat n) as -> by lia.
    destruct (IH p b' c' Hp') as (l & Hl & Hlen); [lia|].
    exists (l ++ [(b, c)]). rewrite length_app, Hlen, Nat.add_1_r. split; [|done].
    econstructor; [|done|done]. by rewrite Hlen.
Qed.

Lemma path_height h b c n l :
  is_path pool h l → pool !! h = Some (b, c, n) → n = N.of_nat (length l).
Proof.
  intros Hl Hh. inversion Hl; subst; [by rewrite pool_zero in Hh|].
  rewrite length_app, Nat.add_1_r. congruence.
Qed.

Lemma is_path_det h l l' : is_path pool h l → is_path pool h l' → l = l'.
Proof.
  intros Hl. revert l'. pose proof pool_zero as H0.
  induction Hl as [|h b c p l Hh Hp Hl IH]; intros l' Hl'.
  - inversion Hl'; [done|congruence].
  - inversion Hl' as [|h' b' c' p' l0 Hh' Hp' Hl0]; subst; [congruence|].
    rewrite Hh in Hh'. injection Hh' as <- <- _. rewrite Hp in Hp'. injection Hp' as <-.
    f_equal. by apply IH.
Qed.

(** The last block of a path. *)
Lemma path_last h l bc : is_path pool h (l ++ [bc]) →
  ∃ p, pool !! h = Some (bc, N.of_nat (S (length l))) ∧ header_prev bc.1 = Ok p ∧ is_path pool p l.
Proof.
  intros Hl. remember (l ++ [bc]) as l' eqn:Heq. revert Heq.
  destruct Hl as [|x b c p l1 Hh Hp Hl]; intros Heq; [by destruct l|].
  apply app_inj_tail in Heq as [-> <-]. eauto.
Qed.

Lemma path_nil_inv h : is_path pool h [] → h = 0.
Proof.
  intros Hl. remember [] as l eqn:Heq. revert Heq. by destruct Hl as [|x b c p [] Hh Hp Hl].
Qed.

Lemma collect_above_ok steps anc l1 seg acc :
  is_path pool anc (l1 ++ seg) → length seg = steps →
  ∃ anc', collect_above steps pool anc (N.of_nat (length (l1 ++ seg))) acc
    = Ok (anc', acc ++ reverse seg) ∧ is_path pool anc' l1.
Proof.
  revert anc seg acc. induction steps as [|steps IH]; intros anc seg acc Hl Hlen.
  { apply nil_length_inv in Hlen as ->. rewrite reverse_nil, !app_nil_r in *. by exists anc. }
  destruct seg as [|bc seg _] using rev_ind; [done|].
  rewrite length_app, Nat.add_1_r in Hlen. injection Hlen as Hlen.
  rewrite (assoc_L (++)) in Hl |- *. apply path_last in Hl as (p & Hanc & Hp & Hl).
  destruct bc as [b c]. cbn -[N.of_nat N.sub].
  rewrite Hanc, length_app, Nat.add_1_r, decide_True by done.
  cbn in Hp. rewrite Hp. cbn -[N.of_nat N.sub].
  replace (N.of_nat (S (length (l1 ++ seg))) - 1) with (N.of_nat (length (l1 ++ seg))) by lia.
  destruct (IH p seg (acc ++ [(b, c)]) Hl Hlen) as (anc' & Heq & Hanc'). exists anc'.
  rewrite Heq, reverse_snoc, <- (assoc_L (++)). done.
Qed.

Lemma find_common_ok fuel na oa l1 l2 nacc oacc :
  is_path pool na l1 → is_path pool oa l2 → length l1 = length l2 → (length l1 < fuel)%nat →
  ∃ com s1 s2, l1 = com ++ s1 ∧ l2 = com ++ s2 ∧
    find_common fuel pool na oa nacc oacc = Ok (nacc ++ reverse s1, oacc ++ reverse s2).
Proof.
  revert na oa l1 l2 nacc oacc.
  induction fuel as [|fuel IH]; intros na oa l1 l2 nacc oacc Hl1 Hl2 Hlen Hf; [lia|].
  cbn. case_decide as Heq.
  { subst oa. assert (l1 = l2) as <- by (by eapply is_path_det).
    exists l1, [], []. by rewrite reverse_nil, !app_nil_r. }
  destruct l1 as [|[b1 c1] l1 _] using rev_ind.
  { apply symmetry, nil_length_inv in Hlen as ->.
    apply path_nil_inv in Hl1, Hl2. congruence. }
  destruct l2 as [|[b2 c2] l2 _] using rev_ind; [by rewrite length_app, Nat.add_1_r in Hlen|].
  rewrite !length_app in *. cbn in *.
  apply path_last in Hl1 as (p1 & -> & Hp1 & Hl1), Hl2 as (p2 & -> & Hp2 & Hl2).
  assert (length l1 = length l2) as Hlen' by lia.
  rewrite decide_True by (by rewrite Hlen'). cbn in *. rewrite Hp1, Hp2. cbn.
  destruct (IH p1 p2 l1 l2 (nacc ++ [(b1, c1)]) (oacc ++ [(b2, c2)]))
    as (com & s1 & s2 & -> & -> & ->); try done; [lia|].
  exists com, (s1 ++ [(b1, c1)]), (s2 ++ [(b2, c2)]).
  by rewrite !reverse_snoc, <- !(assoc_L (++)).
Qed.

(** The two branches, from the fork point, of two chains of the pool. *)
Lemma diverging_chains_ok new_tail l_new old_tail l_old :
  is_path pool new_tail l_new → is_path pool old_tail l_old → (length l_old < length l_new)%nat →
  ∃ com s1 s2, l_new = com ++ s1 ∧ l_old = com ++ s2 ∧ s1 ≠ [] ∧
    diverging_chains pool new_tail (N.of_nat (length l_new)) old_tail (N.of_nat (length l_old))
    = Ok (s1, reverse s2).
Proof.
  intros Hn Ho Hlen. destruct l_new as [|[b c] l _] using rev_ind; [cbn in Hlen; lia|].
  rewrite length_app, Nat.add_1_r in *. apply path_last in Hn as (p & Hnt & Hp & Hl).
  unfold diverging_chains. rewrite Hnt. cbn [fst] in Hp. rewrite Hp. cbn -[find_common N.of_nat].
  replace (N.of_nat (S (length l)) - 1) with (N.of_nat (length l)) by lia.
  destruct (collect_above_ok (length l - length l_old) p (take (length l_old) l)
    (drop (length l_old) l) [(b, c)]) as (anc & Hca & Hanc).
  { by rewrite take_drop. }
  { by rewrite length_drop. }
  rewrite take_drop in Hca.
  replace (N.to_nat (N.of_nat (length l) - N.of_nat (length l_old)))
    with (length l - length l_old)%nat by lia.
  rewrite Hca. cbn -[find_common N.of_nat].
  destruct (find_common_ok (S (N.to_nat (N.of_nat (length l_old)))) anc old_tail
    (take (length l_old) l) l_old ((b, c) :: reverse (drop (length l_old) l)) [])
    as (com & s1 & s2 & H1 & H2 & Hfc); [done|done| | |].
  { rewrite length_take. lia. }
  { rewrite length_take. lia. }
  rewrite Hfc. cbn -[N.of_nat reverse].
  exists com, (s1 ++ drop (length l_old) l ++ [(b, c)]), s2. split_and!; [|done| |].
  - by rewrite (assoc_L (++)), <- H1, (assoc_L (++)), take_drop.
  - by destruct s1, (drop _ _).
  - do 2 f_equal. change (?x :: ?l ++ ?l') with ((x :: l) ++ l').
    by rewrite reverse_app, reverse_cons, !reverse_involutive.
Qed.
End Paths.
