(* ===== verification/BtcInv.v ===== *)
(** * Bitcoin: the invariant of block management

    Every operation of BtcMgmt keeps [btc_inv]: the pool is well formed, the
    UTXO set is the one the reference semantics gives for the main chain, the
    block under construction runs on it, and nothing pending is on the main
    chain. [btc_step] is the component as a state machine. *)

From S2P Require Import Prelude F64 Protocol Peers BtcMgmt BtcUtxo BtcChain.
Local Open Scope N_scope.

(** A transaction that pays no input twice and has distinct outputs. *)
Definition clean_txn (tc : txn_rec) : Prop := good_txn tc ∧ NoDup (txn_inputs tc.1).

#[export] Instance clean_txn_dec tc : Decision (clean_txn tc).
Proof. unfold clean_txn. apply _. Defined.

(** Chains of a set of blocks never hold a transaction twice, and their scripts
    take a time a [Duration] can hold. *)
Definition chains_good (B : gmap Hash blk_rec) : Prop :=
  ∀ h l, linked B h l → good_chain l ∧ total_runtime (chain_recs l) < duration_max.

Record btc_inv (rank : Hash → nat) (s : BitcoinBM) : Prop := mkBtcInv {
  bi_pool : pool_inv rank ∅ ∅ (block_pool s) (orphan_blocks s);
  bi_blocks : ∀ h b c n id, block_pool s !! h = Some (b, c, n) →
    id ∈ txn_ids (blk_recs (b, c)) → is_Some (txn_pool s !! id);
  bi_txns : ∀ h t c, txn_pool s !! h = Some (t, c) → tc_id c = h ∧ clean_txn (t, c);
  bi_chain : ∃ l, is_path (block_pool s) (chain_tail s) l ∧ good_chain l ∧
    exec_txns ∅ (chain_recs l) = Some (utxo s) ∧
    (∀ h, h ∈ pending_txns s ++ block_under_construction s →
      is_Some (txn_pool s !! h) ∧ h ∉ txn_ids (chain_recs l)) ∧
    (∀ k, k ∈ new_utxo s ∪ utxo_spent s →
      k.1 ∈ txn_ids (chain_recs l) ++ block_under_construction s);
  bi_nodup : NoDup (pending_txns s ++ block_under_construction s);
  bi_template : ∃ recs, lookup_all (txn_pool s) (block_under_construction s) = Ok recs ∧
    exec_txns (utxo s) recs = Some ((utxo s ∪ new_utxo s) ∖ utxo_spent s);
}.

(** ** Facts about lookups *)

Lemma lookup_all_ids (m : gmap Hash (Txn * TxnCtx)) hs l :
  (∀ h t c, m !! h = Some (t, c) → tc_id c = h ∧ clean_txn (t, c)) →
  lookup_all m hs = Ok l → txn_ids l = hs ∧ Forall clean_txn l.
Proof.
  intros Hm. revert l. induction hs as [|h hs IH]; intros l; cbn; [by intros [= <-]|].
  destruct (m !! h) as [[t c]|] eqn:E; [|done]. intros Heq.
  apply res_bind_ok in Heq as (xs & Hxs & [= <-]). destruct (IH _ Hxs) as [Hids Hcl].
  destruct (Hm _ _ _ E) as [Hid Hc]. split; [|by constructor].
  change (txn_ids ((t, c) :: xs)) with (tc_id c :: txn_ids xs). by rewrite Hids, Hid.
Qed.

Lemma path_known (pool : pool_t) (K : Hash → Prop) h l id :
  (∀ h b c n id, pool !! h = Some (b, c, n) → id ∈ txn_ids (blk_recs (b, c)) → K id) →
  is_path pool h l → id ∈ txn_ids (chain_recs l) → K id.
Proof.
  intros HK. induction 1 as [|h b c p l Hh Hp Hl IH]; [set_solver|].
  rewrite chain_recs_snoc, txn_ids_app, elem_of_app. intros [?|?]; eauto.
Qed.

Lemma good_chain_nil : good_chain [].
Proof. split_and!; [apply Forall_nil_2|apply NoDup_nil_2|apply Forall_nil_2]. Qed.

Section Invariant.
Context `{Externals} `{!Bincode BitcoinTxn} `{!Bincode BlockHeader} `{BuildProfile}
  `{HashOrder} `{Transport} `{Libm}.
Context (rank : Hash → nat).

Lemma btc_inv_new id d pm : btc_inv rank (new id d pm).
Proof.
  split; cbn.
  - split; [intros h b c n|intros h b c n|intros h b c n p|intros h b c p|intros p h|intros h]; cbn;
      rewrite ?lookup_empty; try done; set_solver.
  - done.
  - done.
  - exists []. split; [apply path_nil|]. split; [apply good_chain_nil|].
    split; [done|]. split; set_solver.
  - constructor.
  - exists []. split; [done|]. cbn. f_equal.
Qed.

(** The transaction pool may grow. *)
Lemma btc_inv_pool_grows s tp :
  btc_inv rank s → txn_pool s ⊆ tp →
  (∀ h t c, tp !! h = Some (t, c) → tc_id c = h ∧ clean_txn (t, c)) →
  btc_inv rank (s <| txn_pool := tp |>).
Proof.
  intros [] Hsub Htp. split; cbn; try done.
  - intros h b c n id Hh Hid. destruct (bi_blocks0 h b c n id Hh Hid) as [? ?].
    eexists. by eapply lookup_weaken.
  - destruct bi_chain0 as (l & ? & ? & ? & Hp & ?). exists l. split_and!; try done.
    intros h Hh. destruct (Hp h Hh) as [[? ?] ?]. split; [|done]. eexists. by eapply lookup_weaken.
  - destruct bi_template0 as (recs & ? & ?). exists recs. split; [|done]. by eapply lookup_all_ext.
Qed.

(** Fields the invariant does not speak of. *)
Lemma btc_inv_frame s s' :
  btc_inv rank s → block_pool s' = block_pool s → orphan_blocks s' = orphan_blocks s →
  txn_pool s' = txn_pool s → chain_tail s' = chain_tail s → utxo s' = utxo s →
  pending_txns s' = pending_txns s → block_under_construction s' = block_under_construction s →
  new_utxo s' = new_utxo s → utxo_spent s' = utxo_spent s → btc_inv rank s'.
Proof.
  intros [] E1 E2 E3 E4 E5 E6 E7 E8 E9.
  split; rewrite ?E1, ?E2, ?E3, ?E4, ?E5, ?E6, ?E7, ?E8, ?E9; done.
Qed.

(** ** record_new_txn *)

Lemma record_new_txn_inv t c s :
  btc_inv rank s → clean_txn (t, c) →
  wp (record_new_txn t c) (λ b s', btc_inv rank s' ∧
    (b = false ∧ s' = s ∧ is_Some (txn_pool s !! tc_id c) ∨
     b = true ∧ txn_pool s !! tc_id c = None ∧ pending_txns s' = pending_txns s ++ [tc_id c] ∧
     txn_pool s' = <[tc_id c := (t, c)]> (txn_pool s)))
    (λ _ _, False) s.
Proof.
  intros Hinv Hcl. unfold record_new_txn. wp_steps.
  destruct (txn_pool s !! tc_id c) as [x|] eqn:E; wp_steps;
    [split; [done|]; left; by eauto|].
  split; [|by right].
  set (s1 := s <| txn_pool := <[tc_id c := (t, c)]> (txn_pool s) |>).
  assert (btc_inv rank s1) as Hinv1.
  { apply btc_inv_pool_grows; [done|by apply insert_subseteq|].
    intros h t' c'. rewrite lookup_insert_Some. intros [[<- [= <- <-]]|[_ Hh]]; [done|].
    by eapply bi_txns. }
  destruct Hinv1 as [? ? ? (l & Hl & Hg & Hx & Hp & Hk) Hnd Htm]. cbn in Hp, Hk, Hnd.
  assert (∀ P : Prop, is_Some (txn_pool s !! tc_id c) → P) as Hno by (rewrite E; by intros P []).
  split; cbn; try done.
  - exists l. split_and!; try done. intros h.
    rewrite <- (assoc_L (++)), !elem_of_app, list_elem_of_singleton.
    assert (∀ h, h ∈ pending_txns s ∨ h ∈ block_under_construction s →
      is_Some (<[tc_id c := (t, c)]> (txn_pool s) !! h) ∧ h ∉ txn_ids (chain_recs l)) as Hp'
      by (intros y Hy; by apply Hp, elem_of_app).
    intros [?|[->|?]]; [by apply Hp'; left| |by apply Hp'; right].
    split; [by rewrite lookup_insert_eq|]. intros Hin. apply Hno.
    exact (path_known _ (λ id, is_Some (txn_pool s !! id)) _ _ _ (bi_blocks _ _ Hinv) Hl Hin).
  - rewrite <- (assoc_L (++)), (comm (++) [_]), (assoc_L (++)). apply NoDup_app. split_and!; [done| |].
    + intros h Hh ->%list_elem_of_singleton.
      destruct Hinv as [_ _ _ (? & _ & _ & _ & Hp' & _) _ _]. by eapply Hno, Hp'.
    + apply NoDup_singleton.
Qed.
(** ** prepare_new_block *)

(** The UTXO set as the block under construction leaves it. *)
Definition template_utxo (s : BitcoinBM) : gset Utxo := (utxo s ∪ new_utxo s) ∖ utxo_spent s.

Lemma spendable_all s sender ins :
  forallb (λ i, spendable s (i, sender)) ins = true →
  ∀ k, k ∈ (λ i, (i, sender)) <$> ins → k ∈ template_utxo s.
Proof.
  rewrite forallb_forall. intros Hall k (i & -> & Hi)%list_elem_of_fmap.
  specialize (Hall i ltac:(by apply list_elem_of_In)). unfold spendable in Hall.
  apply andb_prop in Hall as [Hor Hn]. apply negb_true_iff, bool_decide_eq_false in Hn.
  apply orb_prop in Hor as [Hin%bool_decide_eq_true|Hin%bool_decide_eq_true];
    unfold template_utxo; set_solver.
Qed.

(** A transaction leaves the pending ones and enters the block. *)
Lemma btc_inv_add s s' h rest t c :
  btc_inv rank s → pending_txns s = h :: rest → txn_pool s !! h = Some (t, c) →
  (∀ k, k ∈ txn_inputs t → k ∈ template_utxo s) → txn_script_ok t = true →
  block_pool s' = block_pool s → orphan_blocks s' = orphan_blocks s →
  txn_pool s' = txn_pool s → chain_tail s' = chain_tail s → utxo s' = utxo s →
  pending_txns s' = rest → block_under_construction s' = block_under_construction s ++ [h] →
  new_utxo s' = list_to_set (txn_outputs h t) ∪ new_utxo s →
  utxo_spent s' = list_to_set (txn_inputs t) ∪ utxo_spent s → btc_inv rank s'.
Proof.
  intros [Hpool Hb Ht (l & Hl & Hg & Hx & Hp & Hk) Hnd (recs & Hlk & Hex)]
    Hpend Hh Hins Hok E1 E2 E3 E4 E5 E6 E7 E8 E9.
  destruct (Ht h t c Hh) as [Hid [[Hplain Hndo] Hndi]]. cbn in Hndo, Hndi. rewrite Hid in Hndo.
  rewrite Hpend in Hp, Hnd.
  destruct (Hp h) as [_ Hhl]; [apply list_elem_of_here|].
  apply NoDup_app in Hnd as (Hnd1 & Hdisj & Hnd2). apply NoDup_cons in Hnd1 as [Hhr Hndr].
  assert (h ∉ block_under_construction s) as Hhb by (apply Hdisj, list_elem_of_here).
  assert (owned (utxo s) (txn_ids (chain_recs l))) as Hown.
  { apply (exec_txns_owned ∅ [] _ _); [|done]. intros k. set_solver. }
  assert (∀ k, k ∈ template_utxo s ∨ k ∈ utxo_spent s →
    k.1 ∈ txn_ids (chain_recs l) ++ block_under_construction s) as Hknown.
  { intros k [Hkin|Hkin]; [|apply Hk; set_solver]. unfold template_utxo in Hkin.
    apply elem_of_difference in Hkin as [[Hkin|Hkin]%elem_of_union _]; [|apply Hk; set_solver].
    apply elem_of_app. left. by apply Hown. }
  assert (∀ o, o ∈ txn_outputs h t → o ∉ template_utxo s ∧ o ∉ utxo_spent s ∧ o ∉ txn_inputs t) as Hfresh.
  { intros o Ho%txn_outputs_id.
    assert (o.1 ∉ txn_ids (chain_recs l) ++ block_under_construction s) as Hn
      by (rewrite Ho, elem_of_app; tauto).
    split_and!; intros Hin; apply Hn, Hknown; auto. }
  split; rewrite ?E1, ?E2, ?E3, ?E4, ?E5, ?E6, ?E7, ?E8, ?E9; try done.
  - exists l. split; [done|]. split; [done|]. split; [done|]. split.
    + intros x. rewrite !elem_of_app, list_elem_of_singleton. intros Hxin. apply Hp.
      rewrite elem_of_app, elem_of_cons. tauto.
    + intros k. rewrite !elem_of_union, !elem_of_list_to_set, !elem_of_app, list_elem_of_singleton.
      assert (k ∈ new_utxo s ∪ utxo_spent s ∨ k ∈ txn_inputs t →
        k.1 ∈ txn_ids (chain_recs l) ++ block_under_construction s) as Hk'.
      { intros [?|?]; [by apply Hk|apply Hknown; auto]. }
      rewrite elem_of_union, elem_of_app in Hk'.
      intros [[->%txn_outputs_id|?]|[?|?]]; tauto.
  - apply NoDup_app. split; [done|]. split.
    + intros x Hxr. rewrite elem_of_app, list_elem_of_singleton. intros [Hxb| ->]; [|done].
      by apply (Hdisj x); [apply list_elem_of_further|].
    + apply NoDup_app. split; [done|]. split; [|apply NoDup_singleton].
      by intros x Hxb ->%list_elem_of_singleton.
  - exists (recs ++ [(t, c)]). split; [by apply lookup_all_snoc|].
    rewrite exec_txns_app, Hex. cbn.
    assert (spend (template_utxo s) (txn_inputs t) =
      Some (template_utxo s ∖ list_to_set (txn_inputs t))) as Hsp by (by apply spend_spec).
    unfold exec_txn, template_utxo in *. cbn. rewrite Hsp. cbn. rewrite Hok, Hid. cbn. f_equal.
    apply set_eq. intros k. destruct (decide (k ∈ txn_outputs h t)) as [Ho|Ho].
    + destruct (Hfresh k Ho) as (? & ? & ?). set_solver.
    + set_solver.
Qed.

(** A transaction that cannot be added yet goes to the back of the queue. *)
Lemma btc_inv_rotate s h rest :
  btc_inv rank s → pending_txns s = h :: rest →
  btc_inv rank (s <| pending_txns := rest |> <| pending_txns ::= λ p, p ++ [h] |>).
Proof.
  intros [Hpool Hb Ht (l & Hl & Hg & Hx & Hp & Hk) Hnd Htm] Hpend. rewrite Hpend in Hp, Hnd.
  split; cbn; try done.
  - exists l. split_and!; try done. intros x Hin. apply Hp. revert Hin. cbn.
    rewrite !elem_of_cons, !elem_of_app, list_elem_of_singleton. tauto.
  - rewrite <- (assoc_L (++)). cbn. by rewrite <- Permutation_middle.
Qed.

Lemma try_add_txn_inv s h rest d r s' :
  btc_inv rank s → pending_txns s = h :: rest →
  try_add_txn h d (s <| pending_txns := rest |>) = (Ok r, s') → btc_inv rank s'.
Proof.
  intros Hinv Hpend Heq.
  assert (∃ t c, txn_pool s !! h = Some (t, c) ∧ plain_txn t = true) as (t & c & Hh & Hplain).
  { destruct (bi_chain _ _ Hinv) as (l & _ & _ & _ & Hp & _). rewrite Hpend in Hp.
    destruct (Hp h) as [[[t c] Hh] _]; [apply list_elem_of_here|].
    destruct (bi_txns _ _ Hinv h t c Hh) as (_ & [? _] & _). eauto. }
  unfold try_add_txn in Heq. apply M_bind_ok in Heq as (pool & s1 & [-> ->]%gets_ok & Heq).
  apply M_bind_ok in Heq as (e & s1 & [He ->]%unwrap_ok & Heq). cbn in He.
  rewrite Hh in He. injection He as <-. cbn [fst] in Heq.
  destruct t as [|[|sender ins receiver out rem sig sb rt ok|v receiver]|]; try done.
  - apply M_bind_ok in Heq as (valid & s1 & [-> ->]%gets_ok & Heq).
    apply M_bind_ok in Heq as (d' & s1 & Hd & Heq).
    assert (s1 = s <| pending_txns := rest |>) as ->.
    { destruct (forallb _ _); [by apply lift_ok in Hd as [_ ->]|by apply ret_ok in Hd as [_ ->]]. }
    set (valid := forallb _ ins) in *. destruct (valid && ok) eqn:Hv.
    + apply andb_prop in Hv as [Hv Hok]. m_inv.
      eapply (btc_inv_add s _ h rest); try done.
      * exact (spendable_all s sender ins Hv).
      * cbn. destruct (0 <? out)%N, (0 <? rem)%N; cbn; set_solver.
    + m_inv. by eapply btc_inv_rotate.
  - m_inv. eapply (btc_inv_add s _ h rest); try done; cbn; set_solver.
Qed.

Lemma prepare_loop_inv fuel m d s r s' :
  btc_inv rank s → prepare_loop fuel m d s = (Ok r, s') → btc_inv rank s'.
Proof.
  revert m d s. induction fuel as [|fuel IH]; intros m d s Hinv Heq; [done|]. cbn in Heq.
  apply M_bind_ok in Heq as (size & s1 & [-> ->]%gets_ok & Heq).
  case_match; [by m_inv|].
  apply M_bind_ok in Heq as (pend & s1 & [-> ->]%gets_ok & Heq).
  destruct (pending_txns s) as [|h rest] eqn:Hpend; [by m_inv|].
  apply M_bind_ok in Heq as (? & s1 & ->%modify_ok & Heq).
  apply M_bind_ok in Heq as (r1 & s1 & Hadd & Heq).
  eapply IH; [|done]. by eapply try_add_txn_inv.
Qed.

Lemma prepare_new_block_inv fuel root now u s r s' :
  btc_inv rank s → prepare_new_block fuel root now u s = (Ok r, s') → btc_inv rank s'.
Proof.
  intros Hinv Heq. unfold prepare_new_block in Heq.
  apply M_bind_ok in Heq as ([[full modified] d] & s1 & Hloop & Heq).
  apply prepare_loop_inv in Hloop; [|done].
  apply M_bind_ok in Heq as (pow & s2 & [-> ->]%gets_ok & Heq).
  case_match; m_inv; by eapply btc_inv_frame.
Qed.
(** ** get_new_block *)

(** The id of a new block is unknown to everybody. *)
Definition fresh_id (s : BitcoinBM) (id : Hash) : Prop :=
  id ≠ 0 ∧ block_pool s !! id = None ∧ orphan_blocks s !! id = None ∧
  (rank (chain_tail s) < rank id)%nat.

Lemma get_chain_length_ok l s :
  pool_inv rank ∅ ∅ (block_pool s) (orphan_blocks s) → is_path (block_pool s) (chain_tail s) l →
  get_chain_length s = (Ok (N.of_nat (length l)), s).
Proof.
  intros Hp Hl. unfold get_chain_length, mbind, M_bind, gets. case_decide as Ht.
  - rewrite Ht in Hl. assert (l = []) as -> by (eapply is_path_det; [done|done|constructor]). done.
  - inversion Hl as [|h b c p l' Hh]; [congruence|].
    rewrite Hh. unfold mret, M_ret. cbn. by rewrite length_app, Nat.add_1_r.
Qed.

Lemma good_chain_snoc l b c recs :
  good_chain l → blk_recs (b, c) = recs → aligned (b, c) → Forall clean_txn recs →
  NoDup (txn_ids recs) → (∀ h, h ∈ txn_ids recs → h ∉ txn_ids (chain_recs l)) →
  good_chain (l ++ [(b, c)]).
Proof.
  intros (Hal & Hnd & Hg) Hr Ha Hcl Hndr Hdisj. split; [|split].
  - apply Forall_app. split; [done|by apply Forall_singleton].
  - rewrite chain_recs_snoc, txn_ids_app, Hr. apply NoDup_app. split_and!; [done| |done].
    intros h Hh Hh'. by eapply Hdisj.
  - rewrite chain_recs_snoc, Hr. apply Forall_app. split; [done|].
    eapply Forall_impl; [done|]. by intros ? [].
Qed.

(** The new block extends the main chain by one, and its transactions ran. *)
Lemma get_new_block_inv s b c s' l :
  btc_inv rank s → get_new_block s = (Ok (b, c), s') → fresh_id s (bc_id c) →
  is_path (block_pool s) (chain_tail s) l →
  btc_inv rank s' ∧ chain_tail s' = bc_id c ∧
  is_path (block_pool s') (chain_tail s') (l ++ [(b, c)]) ∧
  header_prev b = Ok (chain_tail s) ∧ block_under_construction s' = [].
Proof.
  intros Hinv Heq (Hid0 & Hidp & Hido & Hrank) Hl. unfold get_new_block in Heq.
  destruct Hinv as [Hpool Hb Ht (l' & Hl' & Hg & Hx & Hp & Hk) Hnd (recs & Hlk & Hex)].
  assert (l' = l) as -> by (by eapply is_path_det).
  apply M_bind_ok in Heq as (? & s1 & [-> ->]%gets_ok & Heq).
  apply M_bind_ok in Heq as (? & s1 & ->%modify_ok & Heq).
  apply M_bind_ok in Heq as (? & s1 & [-> ->]%gets_ok & Heq).
  apply M_bind_ok in Heq as (recs' & s1 & [Hlk' ->]%lift_ok & Heq). cbn in Hlk'.
  rewrite Hlk in Hlk'. injection Hlk' as <-.
  do 3 apply M_bind_ok in Heq as (? & s1 & [-> ->]%gets_ok & Heq).
  apply M_bind_ok in Heq as (root & s1 & [_ ->]%unwrap_ok & Heq).
  apply M_bind_ok in Heq as (ctx & s1 & [Hctx ->]%lift_ok & Heq).
  unfold BlkCtx_from_header_and_txns in Hctx. res_inv.
  apply M_bind_ok in Heq as (len & s1 & Hlen & Heq).
  erewrite (get_chain_length_ok l) in Hlen by done. injection Hlen as <- <-.
  apply M_bind_ok in Heq as (? & s1 & ->%modify_ok & Heq). m_inv. cbn in *.
  match goal with H : (b, c) = _ |- _ => injection H as -> -> end. cbn in *.
  match goal with
  | |- context [mkBlock (HBitcoin ?i ?t ?r ?n) ?ts] =>
    set (b := mkBlock (HBitcoin i t r n) ts) in *
  end.
  match goal with |- context [mkBlkCtx ?i ?cs] => set (h := i) in *; set (c := mkBlkCtx i cs) in * end.
  destruct (lookup_all_ids _ _ _ Ht Hlk) as [Hids Hcl].
  assert (blk_recs (b, c) = recs) as Hrecs by exact (zip_fst_snd recs).
  assert (good_chain (l ++ [(b, c)])) as Hg'.
  { apply (good_chain_snoc _ _ _ recs); try done.
    - unfold aligned. cbn. by rewrite !length_fmap.
    - rewrite Hids. by apply NoDup_app in Hnd as (_ & _ & ?).
    - rewrite Hids. intros y Hyb. apply Hp, elem_of_app. by right. }
  assert (exec_txns ∅ (chain_recs (l ++ [(b, c)])) = Some ((utxo s ∪ new_utxo s) ∖ utxo_spent s)) as Hx'.
  { rewrite chain_recs_snoc, Hrecs, exec_txns_app, Hx. done. }
  assert (is_path (<[h := (b, c, N.of_nat (length l) + 1)]> (block_pool s)) h (l ++ [(b, c)])) as Hl2.
  { econstructor; [|done|by apply is_path_insert]. rewrite lookup_insert_eq. do 2 f_equal. lia. }
  split; [|done]. split; cbn.
  - refine (pool_inv_weaken _ _ _ _ _ _ (pool_inv_done _ {[h]} _ _ _ h _ Hido) _); [|set_solver].
    eapply pool_inv_connect; try done; [lia|].
    inversion Hl as [Ht0|? b' c' p l' Hh]; [by left|right].
    do 3 eexists. split_and!; [exact Hh|lia|]. by rewrite length_app, Nat.add_1_r.
  - intros y b' c' n id. rewrite lookup_insert_Some. intros [[_ [= <- <- _]]|[_ Hyb]] Hid; [|eauto].
    assert (id ∈ txn_ids recs) as Hid' by (rewrite <- Hrecs; exact Hid).
    rewrite Hids in Hid'. apply Hp, elem_of_app. by right.
  - done.
  - exists (l ++ [(b, c)]). split; [done|]. split; [done|]. split; [done|]. split; [|set_solver].
    intros y. rewrite app_nil_r. intros Hyp. rewrite chain_recs_snoc, txn_ids_app, Hrecs, Hids.
    destruct (Hp y) as [? Hyl]; [apply elem_of_app; by left|]. split; [done|].
    rewrite elem_of_app. intros [?|?]; [done|].
    apply NoDup_app in Hnd as (_ & Hd & _). by eapply Hd.
  - rewrite app_nil_r. by apply NoDup_app in Hnd as (? & _ & _).
  - exists []. split; [done|]. cbn. f_equal. set_solver.
Qed.
(** ** validate_block *)

(** A block and its context as the block management thread passes them on. *)
Record arriving (s : BitcoinBM) (b : Block) (c : BlkCtx) : Prop := mkArriving {
  ar_header : ∃ proposer p root nonce,
    header b = HBitcoin proposer p root nonce ∧ (rank p < rank (bc_id c))%nat;
  ar_id : bc_id c ≠ 0;
  ar_aligned : aligned (b, c);
  ar_clean : Forall clean_txn (blk_recs (b, c));
  ar_chains : chains_good (<[bc_id c := (b, c)]> (fst <$> block_pool s));
  ar_merkle : ∃ t, merkle_timeout (length (txns b)) = Ok t ∧ t < 2 ^ 64;
}.

(** The outcome: nothing moves, or the chain tail moves to a strictly longer
    chain, whose blocks after the fork point are returned. *)
Definition stays (s s' : BitcoinBM) : Prop :=
  chain_tail s' = chain_tail s ∧ utxo s' = utxo s ∧
  ∀ h l, is_path (block_pool s) h l → is_path (block_pool s') h l.

Definition switched (s : BitcoinBM) (r : list blk_rec) (s' : BitcoinBM) : Prop :=
  r = [] ∧ stays s s' ∨
  ∃ com old, is_path (block_pool s) (chain_tail s) (com ++ old) ∧
    is_path (block_pool s') (chain_tail s') (com ++ r) ∧ (length old < length r)%nat.

Lemma u64_add_total a b : overflow_checks = false → ∃ n, u64_add a b = Ok n.
Proof. intros Hov. unfold u64_add. case_match; [by eauto|]. rewrite Hov. by eauto. Qed.

Lemma input_value_total pool sender ins acc :
  overflow_checks = false → (∀ h t c, pool !! h = Some (t, c) → plain_txn t = true) →
  ∃ o, input_value pool sender ins acc = Ok o.
Proof.
  intros Hov Hpool. revert acc. induction ins as [|i ins IH]; intros acc; cbn; [by eauto|].
  destruct (pool !! i) as [[t c]|] eqn:E; [|by eauto].
  pose proof (Hpool _ _ _ E) as Hp. destruct t as [|t|]; try done.
  case_match; [|by eauto]. destruct (u64_add_total acc n Hov) as [acc' ->]. cbn. apply IH.
Qed.

Lemma validate_txn_total pool t :
  overflow_checks = false → (∀ h t c, pool !! h = Some (t, c) → plain_txn t = true) →
  plain_txn (TBitcoin t) = true → ∃ b, validate_txn pool t = Ok b.
Proof.
  intros Hov Hpool Hp. destruct t as [|sender ins receiver out rem|]; [done| |by eauto]. cbn.
  destruct (input_value_total pool sender ins 0 Hov Hpool) as [[v|] ->]; cbn; [|by eauto].
  destruct (u64_add_total out rem Hov) as [n ->]. cbn. by eauto.
Qed.

Definition clean_pool (tp : gmap Hash (Txn * TxnCtx)) : Prop :=
  ∀ h t c, tp !! h = Some (t, c) → tc_id c = h ∧ clean_txn (t, c).

Lemma record_block_txns_wp ts cs s :
  overflow_checks = false → clean_pool (txn_pool s) → length ts = length cs →
  Forall clean_txn (zip ts cs) →
  wp (record_block_txns ts cs) (λ ok s', ∃ tp, s' = s <| txn_pool := tp |> ∧
    txn_pool s ⊆ tp ∧ clean_pool tp ∧
    (ok = true → ∀ id, id ∈ txn_ids (zip ts cs) → is_Some (tp !! id))) (λ _ _, False) s.
Proof.
  intros Hov. revert cs s. induction ts as [|t ts IH]; intros cs s Hcl Hlen Hzip.
  { exists (txn_pool s). split_and!; [by destruct s|done|done|]. intros _ id. set_solver. }
  destruct cs as [|c cs]; [done|]. cbn in Hzip. apply Forall_cons in Hzip as [Htc Hzip].
  injection Hlen as Hlen. cbn.
  assert (∀ s', txn_pool s ⊆ txn_pool s' → clean_pool (txn_pool s') → s' = s <| txn_pool := txn_pool s' |> →
    is_Some (txn_pool s' !! tc_id c) →
    wp (record_block_txns ts cs) (λ ok s', ∃ tp, s' = s <| txn_pool := tp |> ∧
      txn_pool s ⊆ tp ∧ clean_pool tp ∧
      (ok = true → ∀ id, id ∈ tc_id c :: txn_ids (zip ts cs) → is_Some (tp !! id))) (λ _ _, False) s')
    as Hrest.
  { intros s' Hsub Hcl' Hs' Hc. eapply wp_mono; [by apply IH| |done].
    intros ok s2 (tp & -> & Hsub2 & Hcl2 & Hok). exists tp. rewrite Hs'. split_and!; [done| |done|].
    - by etrans.
    - intros Ht id [->|?]%elem_of_cons; [|by auto]. destruct Hc as [x Hc].
      exists x. by eapply lookup_weaken. }
  assert (∃ bt, t = TBitcoin bt) as [bt ->].
  { destruct Htc as [[Hp _] _]. destruct t as [|t|]; [done|by eauto|done]. }
  wp_steps. destruct (txn_pool s !! tc_id c) as [x|] eqn:E.
  { apply Hrest; [done|done|by destruct s|by eauto]. }
  wp_steps. destruct (validate_txn_total (txn_pool s) bt Hov) as [valid Hv].
  { intros h t' c' Hh. by destruct (Hcl _ _ _ Hh) as (_ & [? _] & _). }
  { by destruct Htc as [[? _] _]. }
  eapply wp_lift; [done|]. destruct valid; wp_steps.
  - apply Hrest; cbn; [by apply insert_subseteq| |by destruct s|by rewrite lookup_insert_eq].
    intros h t' c'. cbn. rewrite lookup_insert_Some.
    intros [[<- [= <- <-]]|[_ Hh]]; [done|by apply Hcl].
  - exists (txn_pool s). split_and!; [by destruct s|done|done|done].
Qed.
Lemma ids_of_elem l h : h ∈ ids_of l ↔ h ∈ txn_ids (chain_recs l).
Proof. apply elem_of_list_to_set. Qed.

(** Moving over to a chain the reference accepts. *)
Lemma move_over_inv s t com old new sw :
  btc_inv rank s → is_path (block_pool s) (chain_tail s) (com ++ old) →
  is_path (block_pool s) t (com ++ new) → good_chain (com ++ old) → good_chain (com ++ new) →
  exec_txns ∅ (chain_recs (com ++ new)) = Some ((utxo s ∪ sw_new_utxos sw) ∖ sw_utxos_spent sw) →
  sw_txns_applied sw = ids_of new ∖ ids_of old → sw_undo_txns sw = ids_of old ∖ ids_of new →
  wp (move_over t sw) (λ _ s', btc_inv rank s' ∧ block_pool s' = block_pool s ∧ chain_tail s' = t)
    (λ _ _, False) s.
Proof.
  intros Hinv Hlo Hln Hgo Hgn Hx Hap Hun. unfold move_over. wp_steps. split; [|done].
  assert (∀ h, h ∈ txn_ids (chain_recs (com ++ old)) → is_Some (txn_pool s !! h)) as Hknown.
  { intros h Hh. by apply (path_known _ (λ id, is_Some (txn_pool s !! id)) _ _ _ (bi_blocks _ _ Hinv) Hlo). }
  destruct Hinv as [Hpool Hb Ht (l & Hl & _ & _ & Hp & _) Hnd _].
  assert (l = com ++ old) as -> by (by eapply is_path_det).
  rewrite chain_recs_app, txn_ids_app in Hp, Hknown.
  assert (∀ h, h ∈ ids_of new → h ∉ txn_ids (chain_recs com)) as Hnc.
  { intros h Hh%ids_of_elem. destruct Hgn as (_ & Hn & _).
    rewrite chain_recs_app, txn_ids_app in Hn. apply NoDup_app in Hn as (_ & Hd & _).
    intros Hc. by eapply Hd. }
  assert (∀ h, h ∈ ids_of old → h ∉ txn_ids (chain_recs com)) as Hoc.
  { intros h Hh%ids_of_elem. destruct Hgo as (_ & Hn & _).
    rewrite chain_recs_app, txn_ids_app in Hn. apply NoDup_app in Hn as (_ & Hd & _).
    intros Hc. by eapply Hd. }
  split; cbn -[reverse]; try done.
  - exists (com ++ new). split; [done|]. split; [done|]. split; [done|]. split; [|set_solver].
    intros h. rewrite app_nil_r, list_elem_of_filter, Hap. intros [Hna Hin].
    rewrite !elem_of_app, elem_of_set_iter, Hun in Hin. rewrite elem_of_difference in Hna.
    rewrite chain_recs_app, txn_ids_app, elem_of_app, <- (ids_of_elem new).
    assert (h ∈ pending_txns s ++ block_under_construction s ∨ h ∈ ids_of old ∖ ids_of new)
      as [Hpb|[Ho Hn]%elem_of_difference] by (rewrite elem_of_app; tauto).
    + destruct (Hp h Hpb) as [? Hni]. rewrite elem_of_app, <- (ids_of_elem old) in Hni. tauto.
    + split; [|specialize (Hoc h Ho); tauto]. apply Hknown, elem_of_app. right. by apply ids_of_elem.
  - rewrite app_nil_r. apply NoDup_filter. rewrite (assoc_L (++)). apply NoDup_app.
    split; [done|]. split; [|apply NoDup_set_iter].
    intros h Hpb. rewrite elem_of_set_iter, Hun, elem_of_difference, ids_of_elem.
    destruct (Hp h Hpb) as [_ Hni]. rewrite elem_of_app in Hni. tauto.
  - exists []. split; [done|]. cbn. f_equal. set_solver.
Qed.

Lemma switch_chain_wp s l t l_new :
  btc_inv rank s → is_path (block_pool s) (chain_tail s) l → is_path (block_pool s) t l_new →
  (length l < length l_new)%nat → chains_good (fst <$> block_pool s) →
  wp (switch_chain t (N.of_nat (length l_new)) (N.of_nat (length l)))
    (λ r s', btc_inv rank s' ∧ switched s r s') (λ _ _, False) s.
Proof.
  intros Hinv Hl Hn Hlen Hgood. unfold switch_chain. wp_steps.
  destruct (diverging_chains_ok rank _ _ (bi_pool _ _ Hinv) t l_new (chain_tail s) l)
    as (com & new & old & -> & -> & Hne & Hdiv); try done.
  eapply wp_lift; [done|]. wp_steps.
  destruct (Hgood _ _ (is_path_linked _ _ _ Hl)) as [Hgo _].
  destruct (Hgood _ _ (is_path_linked _ _ _ Hn)) as [Hgn Hrt].
  assert (exec_txns ∅ (chain_recs (com ++ old)) = Some (utxo s)) as Hx.
  { destruct (bi_chain _ _ Hinv) as (l' & Hl' & _ & Hx & _).
    by rewrite (is_path_det _ _ _ (bi_pool _ _ Hinv) _ _ _ Hl Hl'). }
  destruct (branch_switch_spec (utxo s) com old new) as (o & Ho & Hm); try done.
  { rewrite chain_recs_app, total_runtime_app in Hrt. lia. }
  unfold branch_switch in Ho. apply res_bind_ok in Ho as (u & Hu & Ho).
  cbn beta iota. wp_steps. eapply wp_lift; [done|]. wp_steps.
  eapply wp_lift; [done|]. cbn beta. destruct o as [sw|]; wp_steps; [|split; [done|by left]].
  destruct Hm as (Hx' & Hap & Hun & _).
  eapply wp_mono; [by eapply move_over_inv| |done].
  intros _ s' (Hinv' & Hbp & Ht). cbn beta. apply wp_ret. split; [done|]. right.
  exists com, old. rewrite Hbp, Ht, !length_app in *. split_and!; [done|done|lia].
Qed.
(** The block pool may grow. *)
Lemma btc_inv_upd s p o :
  btc_inv rank s → pool_inv rank ∅ ∅ p o →
  (∀ h b c n id, p !! h = Some (b, c, n) → id ∈ txn_ids (blk_recs (b, c)) →
    is_Some (txn_pool s !! id)) →
  (∀ h l, is_path (block_pool s) h l → is_path p h l) → btc_inv rank (upd s p o).
Proof.
  intros [_ _ Ht (l & Hl & Hr) Hnd Htm] Hp Hb Hpath. split; cbn; try done.
  exists l. split; [by apply Hpath|done].
Qed.

Lemma park_orphan_wp s h b c p :
  btc_inv rank s → block_pool s !! h = None → h ≠ 0 → bc_id c = h → header_prev b = Ok p →
  (rank p < rank h)%nat → p ≠ 0 → (∀ b' c' m, block_pool s !! p = Some (b', c', m) → m = 0) →
  (∀ id, id ∈ txn_ids (blk_recs (b, c)) → is_Some (txn_pool s !! id)) →
  wp (park_orphan h p) (λ _ s', btc_inv rank s' ∧ stays s s')
    (λ _ s', btc_inv rank s' ∧ stays s s') (s <| block_pool := <[h := (b, c, 0)]> (block_pool s) |>).
Proof.
  intros Hinv Hh Hh0 Hid Hp Hr Hp0 Hm Hids. unfold park_orphan. wp_steps.
  pose proof (pool_inv_park rank _ _ h b c p (bi_pool _ _ Hinv) Hh Hh0 Hid Hp Hr Hp0 Hm) as Hpool.
  assert (btc_inv rank (upd s (<[h := (b, c, 0)]> (block_pool s))
    (<[p := {[h]} ∪ children (orphan_blocks s) p]> (orphan_blocks s)))) as Hinv1.
  { apply btc_inv_upd; [done|done| |].
    - intros x b' c' n id. rewrite lookup_insert_Some.
      intros [[<- [= <- <- <-]]|[_ Hx]]; [by auto|by eapply bi_blocks].
    - intros x l. by apply is_path_insert. }
  destruct (missing_ancestor_ok rank _ _ (S (size (<[h := (b, c, 0)]> (block_pool s)))) p ∅ Hpool)
    as (a & Ha & _); [set_solver|lia|done| |].
  { intros b' c' m. rewrite lookup_insert_Some. intros [[_ [= <- <- <-]]|[_ Hx]]; eauto. }
  eapply wp_lift; [exact Ha|]. wp_steps. cbn [peer_messenger].
  assert (∀ h' l, is_path (block_pool s) h' l → is_path (<[h := (b, c, 0)]> (block_pool s)) h' l)
    as Hpath by (intros h' l; by apply is_path_insert).
  unfold pm_gossip. wp_steps. case_decide.
  - apply wp_hub; (split; [by eapply btc_inv_frame|done]).
  - apply wp_ret. split; [|done]. by eapply btc_inv_frame.
Qed.

Lemma block_height_spec pool orph p :
  pool_inv rank ∅ ∅ pool orph →
  (block_height pool p = 0 → p ≠ 0 ∧ ∀ b c m, pool !! p = Some (b, c, m) → m = 0) ∧
  (block_height pool p ≠ 0 → p = 0 ∧ block_height pool p = 1 ∨
    ∃ b c m, pool !! p = Some (b, c, m) ∧ m ≠ 0 ∧ block_height pool p = m + 1).
Proof.
  intros _. unfold block_height. case_decide as Hp; [split; [done|by left]|].
  destruct (pool !! p) as [[[b c] m]|]; [|by split].
  destruct (N.ltb_spec 0 m); split; try lia.
  - intros _. right. exists b, c, m. split_and!; [done|lia|done].
  - intros _. split; [done|]. intros ? ? ? [= _ _ <-]. lia.
Qed.

Lemma accept_block_wp s b c p :
  btc_inv rank s → block_pool s !! bc_id c = None → bc_id c ≠ 0 → header_prev b = Ok p →
  (rank p < rank (bc_id c))%nat →
  (∀ id, id ∈ txn_ids (blk_recs (b, c)) → is_Some (txn_pool s !! id)) →
  chains_good (<[bc_id c := (b, c)]> (fst <$> block_pool s)) →
  wp (accept_block b c p) (λ r s', btc_inv rank s' ∧ switched s r s')
    (λ _ s', btc_inv rank s' ∧ stays s s') s.
Proof.
  intros Hinv Hh Hh0 Hp Hr Hids Hgood. unfold accept_block. wp_steps.
  set (h := bc_id c) in *. set (n := block_height (block_pool s) p).
  destruct (block_height_spec _ _ p (bi_pool _ _ Hinv)) as [Hn0 Hn1]. fold n in Hn0, Hn1.
  case_decide as Hn.
  { wp_steps. rewrite Hn. destruct (Hn0 Hn) as [Hp0 Hm].
    eapply wp_mono; [by eapply park_orphan_wp| |done].
    intros _ s' [Hinv' Hst]. cbn beta. apply wp_ret. split; [done|by left]. }
  wp_steps.
  pose proof (pool_inv_connect rank _ _ h b c p n (bi_pool _ _ Hinv) Hh Hh0 eq_refl Hp Hr Hn
    (Hn1 Hn)) as Hpool.
  eapply wp_mono; [eapply (update_orphans_wp rank _ {[h]} ∅ h n _ b c); [done| |done|]| |done].
  { cbn. by rewrite lookup_insert_eq. }
  { cbn. lia. }
  intros [t tn] s1 (q & o & -> & Hpool1 & Hext & _ & (bt & ct & Ht) & Hle & _). cbn in Ht, Hle.
  replace ({[h]} ∖ {[h]}) with (∅ : gset Hash) in Hpool1 by set_solver. cbn [block_pool] in Hext.
  set (s1 := upd _ q o).
  assert (fst <$> q = <[h := (b, c)]> (fst <$> block_pool s)) as Hfst.
  { rewrite (proj1 Hext). cbn. by rewrite fmap_insert. }
  assert (btc_inv rank s1) as Hinv1.
  { apply (btc_inv_upd s q o); [done|done| |].
    - intros x b' c' m id Hx. assert ((fst <$> q) !! x = Some (b', c')) as Hx' by (by rewrite lookup_fmap, Hx).
      rewrite Hfst, lookup_insert_Some in Hx'. destruct Hx' as [[_ [= <- <-]]|[_ Hx']]; [apply Hids|].
      rewrite lookup_fmap in Hx'. destruct (block_pool s !! x) as [[[b2 c2] m2]|] eqn:E; [|done].
      cbn in Hx'. injection Hx' as -> ->. by eapply bi_blocks.
    - intros x l Hl. apply (is_path_ext _ _ _ _ Hext). by apply is_path_insert. }
  destruct (bi_chain _ _ Hinv) as (l & Hl & _).
  assert (is_path (block_pool s1) (chain_tail s1) l) as Hl1.
  { apply (is_path_ext _ _ _ _ Hext). by apply is_path_insert. }
  wp_steps. unfold wp at 1. rewrite (get_chain_length_ok l s1 (bi_pool _ _ Hinv1) Hl1).
  cbn [fst snd]. destruct (N.leb_spec tn (N.of_nat (length l))) as [Hle2|Hlt]; cbn beta iota.
  { wp_steps. split; [done|]. left. split; [done|]. split; [done|]. split; [done|]. intros h' l' Hl'.
    apply (is_path_ext _ _ _ _ Hext). by apply is_path_insert. }
  destruct (path_exists rank q o Hpool1 (N.to_nat tn) t bt ct) as (l_new & Hln & Hlen);
    [by rewrite N2Nat.id|lia|].
  replace tn with (N.of_nat (length l_new)) by lia.
  eapply wp_mono; [apply (switch_chain_wp s1 l t l_new); [done|done|done|lia|by change (block_pool s1) with q; rewrite Hfst]| |done].
  intros r s2 [Hinv2 Hsw]. split; [done|].
  destruct Hsw as [[-> (Ht1 & Hu1 & Hp1)]|(com & old & Hlo & Hr2 & Hlen2)]; [left|right].
  { split; [done|]. split; [done|]. split; [done|]. intros h' l' Hl'. apply Hp1.
    apply (is_path_ext _ _ _ _ Hext). by apply is_path_insert. }
  exists com, old. split; [|done].
  by rewrite <- (is_path_det rank _ _ (bi_pool _ _ Hinv1) _ _ _ Hl1 Hlo).
Qed.
Lemma header_hash_time : from_secs_f64 HEADER_HASH_TIME = Ok 1900.
Proof. by vm_compute. Qed.

Lemma validate_block_wp s b c :
  overflow_checks = false → btc_inv rank s → arriving s b c →
  wp (validate_block b c) (λ r s', btc_inv rank s' ∧ switched s r s')
    (λ _ s', btc_inv rank s' ∧ stays s s') s.
Proof.
  intros Hov Hinv [(prop & p & root & nonce & Hhd & Hr) Hid Hal Hcl Hgood (t & Ht & Htb)].
  unfold validate_block. wp_steps. destruct (block_pool s !! bc_id c) as [x|] eqn:Hnew.
  { wp_steps. split; [done|by left]. }
  rewrite Hhd. wp_steps. eapply wp_lift; [apply header_hash_time|].
  case_decide as Hnonce.
  { wp_steps. split; [by eapply btc_inv_frame|by left]. }
  wp_steps. eapply wp_lift; [unfold DummyMerkleTree_verify; by rewrite Ht|]. wp_steps. cbn [fst snd].
  eapply (wp_lift _ (1900 + t)).
  { unfold dur_add. rewrite (proj2 (N.ltb_lt _ _)); [done|]. unfold duration_max, two64, nanos_per_sec. lia. }
  wp_steps. apply wp_assert; [by apply bool_decide_eq_true|]. wp_steps.
  eapply wp_mono; [apply (record_block_txns_wp _ _ _ Hov)| |done]; [|done|done|].
  { intros h t' c' Hh. by eapply bi_txns. }
  intros ok s1 (tp & -> & Hsub & Hcltp & Hok). cbn beta. wp_steps.
  set (s1 := s <| txn_pool := tp |> <| bm_delay ::= process_illusion (1900 + t) |>).
  assert (btc_inv rank s1) as Hinv1.
  { apply (btc_inv_frame (s <| txn_pool := tp |>)); try done. by apply btc_inv_pool_grows. }
  destruct ok; wp_steps; [|split; [done|by left]].
  assert (header_prev b = Ok p) as Hp by (unfold header_prev; by rewrite Hhd).
  eapply wp_mono; [apply (accept_block_wp s1 b c p); try done; by apply Hok| |done].
  done.
Qed.

(** ** The remaining handlers *)

Lemma handle_pmaker_msg_wp msg s :
  btc_inv rank s → wp (handle_pmaker_msg msg) (λ _, btc_inv rank) (λ _, btc_inv rank) s.
Proof.
  intros Hinv. unfold handle_pmaker_msg. destruct msg; wp_steps; [done|by eapply btc_inv_frame].
Qed.

Lemma handle_peer_blk_req_wp peer msg h s :
  u256_from_le msg = Some h → btc_inv rank s →
  wp (handle_peer_blk_req peer msg) (λ _, btc_inv rank) (λ _, btc_inv rank) s.
Proof.
  intros Hmsg Hinv. unfold handle_peer_blk_req, u256_from_le_res. rewrite Hmsg. wp_steps.
  eapply wp_lift; [done|]. wp_steps. destruct (block_pool s !! h) as [[[blk ctx] n]|].
  - apply wp_hub; by eapply btc_inv_frame.
  - unfold pm_gossip. wp_steps. case_decide; [apply wp_hub|apply wp_ret]; by eapply btc_inv_frame.
Qed.

(** ** The component as a state machine *)

(** The calls the block management thread makes, with any outcome but a panic. *)
Inductive btc_step : BitcoinBM → BitcoinBM → Prop :=
| step_new_txn s t c ok s' :
  clean_txn (t, c) → record_new_txn t c s = (Ok ok, s') → btc_step s s'
| step_prepare s fuel root now u st s' :
  prepare_new_block fuel root now u s = (Ok st, s') → btc_step s s'
| step_propose s b c s' :
  get_new_block s = (Ok (b, c), s') → fresh_id s (bc_id c) → btc_step s s'
| step_block s b c r s' :
  arriving s b c → validate_block b c s = (r, s') → btc_step s s'
| step_pmaker s msg r s' :
  handle_pmaker_msg msg s = (r, s') → btc_step s s'
| step_blk_req s peer msg h r s' :
  u256_from_le msg = Some h → handle_peer_blk_req peer msg s = (r, s') → btc_step s s'.

Lemma wp_any {A} (m : M BitcoinBM A) (Q : A → BitcoinBM → Prop) (R : BitcoinBM → Prop) s r s' :
  wp m Q (λ _, R) s → (∀ a s', Q a s' → R s') → m s = (r, s') → R s'.
Proof. unfold wp. intros Hwp Hq Heq. rewrite Heq in Hwp. destruct r; try done. by eapply Hq. Qed.

Lemma btc_step_inv s s' :
  overflow_checks = false → btc_step s s' → btc_inv rank s → btc_inv rank s'.
Proof.
  intros Hov Hstep Hinv. destruct Hstep.
  - eapply wp_ok in H5; [|by apply record_new_txn_inv]. by destruct H5.
  - by eapply prepare_new_block_inv.
  - destruct (bi_chain _ _ Hinv) as (l & Hl & _). by eapply get_new_block_inv.
  - eapply (wp_any _ (λ _, btc_inv rank)); [eapply wp_mono; [by apply validate_block_wp|naive_solver..]|done|done].
  - eapply wp_any; [by apply handle_pmaker_msg_wp| |done]. done.
  - eapply wp_any; [by eapply handle_peer_blk_req_wp| |done]. done.
Qed.

Lemma btc_reachable_inv s s' :
  overflow_checks = false → rtc btc_step s s' → btc_inv rank s → btc_inv rank s'.
Proof. intros Hov. induction 1; eauto using btc_step_inv. Qed.
End Invariant.
