(* ===== verification/Blizzard.v ===== *)
(** * Avalanche decision with Blizzard's rule: the operations

    src/src/stage/consensus/decide/avalanche/blizzard.rs ([BlizzardDecision]).
    It shares the DAG, the batches and the votes with basic.rs; a conflict set
    counts the rounds of all its transactions, a transaction is accepted on its
    confidence against the rounds of its rivals, and a failed vote resets
    nothing. What the two files have in common without touching the state (the
    DAG, the walk that invalidates the cache, the counting of votes) is that of
    AvaDecide. *)

From S2P Require Import Prelude F64 Protocol Peers Utils Config.
From S2P Require AvaDecide.
Import (notations) AvaDecide.
Local Open Scope N_scope.

Abbreviation Utxo := (N * list N)%type (only parsing).
Abbreviation DagNode := AvaDecide.DagNode (only parsing).
Abbreviation parents := AvaDecide.parents (only parsing).
Abbreviation VoteMsg := AvaDecide.VoteMsg (only parsing).
Abbreviation input_keys := AvaDecide.input_keys (only parsing).
Abbreviation avax_of := AvaDecide.avax_of (only parsing).
Abbreviation invalidate := AvaDecide.invalidate (only parsing).
Abbreviation committable := AvaDecide.committable (only parsing).
Abbreviation add_votes := AvaDecide.add_votes (only parsing).
Abbreviation add_to_dag := AvaDecide.add_to_dag (only parsing).

Record ConflictSet := mkConflictSet {
  has_conflicts : bool;
  pref : Hash;
  (* equal to the sum of the confidence of all txns in the set *)
  total_rounds : N;
}.
#[export] Instance ConflictSet_eta : Eta ConflictSet := λ r,
  mkConflictSet (has_conflicts r) (pref r) (total_rounds r).

Record BlizzardDecision := mkBlizzardDecision {
  bd_id : NodeId;
  bd_crypto_scheme : CryptoScheme;
  bd_k : N;
  vote_thresh : N;
  beta1 : N;
  beta2 : N;
  txn_pool : gmap Hash (Txn * TxnCtx);
  txn_dag : gmap Hash DagNode;
  conflict_sets : gmap Utxo ConflictSet;
  confidence : gmap Hash N;
  (* for voting *)
  vote_timeout : N;
  query_pool : gmap N (list (option Hash));
  finished_query : gset N;
  votes : gmap N (N * list N);
  vote_time_queue : TimeQueue N;
  preference_cache : gmap Hash bool;
  (* blocks ready to be committed *)
  commit_queue : list (N * list Hash);
  (* for p2p comm *)
  peer_messenger : PeerMessenger;
  neighbor_pks : gmap NodeId PubKey;
  sk : PrivKey;
  (* control loop *)
  pmaker_feedback : list bytes;
  (* statistics *)
  is_strongly_preferred_calls : N;
  is_preferred_checks : N;
  commit_total : N;
  commit_count : N;
  txn_query_count : N;
  bd_delay : f64;
}.
#[export] Instance BlizzardDecision_eta : Eta BlizzardDecision := λ r,
  mkBlizzardDecision (bd_id r) (bd_crypto_scheme r) (bd_k r) (vote_thresh r) (beta1 r)
    (beta2 r) (txn_pool r) (txn_dag r) (conflict_sets r) (confidence r) (vote_timeout r)
    (query_pool r) (finished_query r) (votes r) (vote_time_queue r) (preference_cache r)
    (commit_queue r) (peer_messenger r) (neighbor_pks r) (sk r) (pmaker_feedback r)
    (is_strongly_preferred_calls r) (is_preferred_checks r) (commit_total r)
    (commit_count r) (txn_query_count r) (bd_delay r).

(** Does every conflict set of the payment prefer it? *)
Fixpoint all_prefer (cts : gmap Utxo ConflictSet) (txn_hash : Hash) (keys : list Utxo) : res bool :=
  match keys with
  | [] => Ok true
  | k :: keys' =>
    match cts !! k with
    | Some ct => b ← all_prefer cts txn_hash keys'; Ok (bool_decide (pref ct = txn_hash) && b)
    | None => Panic
    end
  end.

Definition is_preferred (pool : gmap Hash (Txn * TxnCtx)) (cts : gmap Utxo ConflictSet)
    (txn_hash : Hash) : res bool :=
  match pool !! txn_hash with
  | None => Panic
  | Some e =>
    avax_txn ← avax_of e;
    match avax_txn with
    | AGrant _ _ _ | ANoop _ => Ok true
    | ASend sender in_utxo _ _ _ _ => all_prefer cts txn_hash (input_keys sender in_utxo)
    | APlaceHolder => Panic
    end
  end.

(** [vote_timeout], [vote_thresh] and the key pair of a new node. *)
Section New.
Context `{Externals}.

Definition bd_new (id : NodeId) (crypto_scheme : CryptoScheme) (config : AvalancheBasicConfig)
    (pm : PeerMessenger) : res BlizzardDecision :=
  let sk := (gen_key_pair crypto_scheme id).2 in
  let vote_thresh := f64_ceil_as_usize (f64_mul (f64_of_N (cf_k config)) (cf_alpha config)) in
  vote_timeout ← from_secs_f64 (cf_vote_timeout config);
  Ok (mkBlizzardDecision id crypto_scheme (cf_k config) vote_thresh (cf_beta1 config)
    (cf_beta2 config) ∅ ∅ ∅ ∅ vote_timeout ∅ ∅ ∅ tq_new ∅ [] pm ∅ sk [] 0 0 0 0 0 f64_zero).
End New.

Abbreviation Dec := (M BlizzardDecision) (only parsing).

(** ** Preference *)

(** The loop over the parents, given the recursive call. *)
Fixpoint all_strongly_preferred (rec : Hash → Dec bool) (ps : list Hash) : Dec bool :=
  match ps with
  | [] => mret true
  | p :: ps' => b ← rec p; if (b : bool) then all_strongly_preferred rec ps' else mret false
  end.

(** [fuel] bounds the depth of the recursion. *)
Fixpoint is_strongly_preferred (fuel : nat) (txn_hash : Hash) : Dec bool :=
  match fuel with
  | O => out_of_fuel
  | S fuel' =>
    modify (λ s, s <| is_preferred_checks ::= N.succ |>) ;;
    dag ← gets txn_dag;
    match dag !! txn_hash with
    | None => mret true
    | Some dag_node =>
      cache ← gets preference_cache;
      match cache !! txn_hash with
      | Some strongly_preferred => mret strongly_preferred
      | None =>
        s ← gets (λ s, s);
        preferred ← lift_res (is_preferred (txn_pool s) (conflict_sets s) txn_hash);
        result ← (if (preferred : bool)
                  then all_strongly_preferred (is_strongly_preferred fuel') (parents dag_node)
                  else mret false);
        modify (λ s, s <| preference_cache ::= <[txn_hash := result]> |>) ;;
        mret result
      end
    end
  end.

(** ** Votes *)

(** The update of one conflict set; accumulates whether a set has conflicts and
    the rounds won by rivals ([total_rounds - confidence_score], on u64). *)
Section Vote.
Context `{BuildProfile}.

Definition vote_conflict_set (fuel : nat) (txn_id : Hash) (confidence_score : N)
    (utxo : Utxo) (acc : bool * N) : Dec (bool * N) :=
  cts ← gets conflict_sets;
  ct ← unwrap (cts !! utxo);
  ct1 ← (if decide (pref ct = txn_id) then mret ct
         else
           confs ← gets confidence;
           pref_confidence_score ← unwrap (confs !! pref ct);
           if (pref_confidence_score <? confidence_score)%N then
             let ct' := ct <| pref := txn_id |> in
             s ← gets (λ s, s);
             cache ← lift_res (invalidate fuel (txn_dag s) [pref ct'; txn_id] (preference_cache s));
             modify (λ s, s <| preference_cache := cache |>) ;;
             mret ct'
           else mret ct);
  let ct2 := ct1 <| total_rounds ::= N.succ |> in
  modify (λ s, s <| conflict_sets ::= <[utxo := ct2]> |>) ;;
  rivals ← lift_res (u64_sub (total_rounds ct2) confidence_score);
  conflict_count ← lift_res (u64_add acc.2 rivals);
  mret (acc.1 || has_conflicts ct2, conflict_count).

Fixpoint vote_conflict_sets (fuel : nat) (txn_id : Hash) (confidence_score : N)
    (keys : list Utxo) (acc : bool * N) : Dec (bool * N) :=
  match keys with
  | [] => mret acc
  | k :: keys' =>
    acc' ← vote_conflict_set fuel txn_id confidence_score k acc;
    vote_conflict_sets fuel txn_id confidence_score keys' acc'
  end.

(** The acceptance rule: confidence against the rounds of rivals. *)
Definition is_accepted (s : BlizzardDecision) (ps : list Hash) (conflicts : bool)
    (confidence_score conflict_count : N) : res bool :=
  let parents_accepted := forallb (λ p, bool_decide (txn_dag s !! p = None)) ps in
  bound ← u64_add (if parents_accepted && negb conflicts then beta1 s else beta2 s) conflict_count;
  Ok (bound <=? confidence_score)%N.

(** [handle_votes_helper] on a transaction of the DAG, after its parents. *)
Definition vote_txn (fuel : nat) (txn_id : Hash) (dag_node : DagNode) : Dec (list Hash) :=
  confs ← gets confidence;
  c ← unwrap (confs !! txn_id);
  let confidence_score := c + 1 in
  modify (λ s, s <| confidence ::= <[txn_id := confidence_score]> |>) ;;
  pool ← gets txn_pool;
  e ← unwrap (pool !! txn_id);
  avax_txn ← lift_res (avax_of e);
  r ← match avax_txn with
      | AGrant _ _ _ | ANoop _ => mret (false, 0)
      | ASend sender in_utxo _ _ _ _ =>
        vote_conflict_sets fuel txn_id confidence_score (input_keys sender in_utxo) (false, 0)
      | APlaceHolder => panic
      end;
  s ← gets (λ s, s);
  accepted ← lift_res (is_accepted s (parents dag_node) r.1 confidence_score r.2);
  if (accepted : bool) then
    modify (λ s, s <| txn_dag ::= delete txn_id |> <| preference_cache ::= delete txn_id |>) ;;
    mret (if committable avax_txn then [txn_id] else [])
  else mret [].

Fixpoint vote_parents (rec : Hash → gset Hash → Dec (list Hash * gset Hash)) (ps : list Hash)
    (commit_list : list Hash) (dedup : gset Hash) : Dec (list Hash * gset Hash) :=
  match ps with
  | [] => mret (commit_list, dedup)
  | p :: ps' => r ← rec p dedup; vote_parents rec ps' (commit_list ++ r.1) r.2
  end.

Fixpoint handle_votes_helper (fuel : nat) (txn_id : Hash) (dedup : gset Hash) :
    Dec (list Hash * gset Hash) :=
  match fuel with
  | O => out_of_fuel
  | S fuel' =>
    if decide (txn_id ∈ dedup) then mret ([], dedup)
    else
      let dedup := {[txn_id]} ∪ dedup in
      dag ← gets txn_dag;
      match dag !! txn_id with
      | None => mret ([], dedup)
      | Some dag_node =>
        r ← vote_parents (handle_votes_helper fuel') (parents dag_node) [] dedup;
        own ← vote_txn fuel' txn_id dag_node;
        mret (r.1 ++ own, r.2)
      end
  end.

(** The loop of [handle_votes] over the transactions of the batch. *)
Fixpoint tally (fuel : nat) (txns : list (option Hash)) (accept_votes : list N)
    (to_commit : list Hash) : Dec (list Hash) :=
  match txns, accept_votes with
  | [], _ => mret to_commit
  | None :: txns', _ :: av' => tally fuel txns' av' to_commit
  | Some txn_hash :: txns', v :: av' =>
    modify (λ s, s <| txn_query_count ::= N.succ |>) ;;
    thresh ← gets vote_thresh;
    if (thresh <=? v)%N then
      r ← handle_votes_helper fuel txn_hash ∅;
      (if decide (0 < length r.1)%nat then modify (λ s, s <| commit_count ::= N.succ |>)
       else mret tt) ;;
      tally fuel txns' av' (to_commit ++ r.1)
    else tally fuel txns' av' to_commit
  | _, [] => panic
  end.
End Vote.

(** The feedback channel with other messages in it. *)
Definition set_feedback (f : list bytes) (s : BlizzardDecision) : BlizzardDecision :=
  s <| pmaker_feedback := f |>.

Section Methods.
Context `{BuildProfile} `{Externals} `{!Bincode (N * list bool)} `{!Bincode VoteMsg} `{Transport} `{Channel}.

Definition feedback (msg : bytes) : Dec unit :=
  zoom pmaker_feedback (λ f s, s <| pmaker_feedback := f |>) (chan_send msg).

Definition handle_votes (fuel : nat) (blk_id : N) : Dec unit :=
  pool ← gets query_pool;
  match pool !! blk_id with
  | None => mret tt
  | Some txns =>
    modify (λ s, s <| query_pool ::= delete blk_id |>) ;;
    vs ← gets votes;
    v ← unwrap (vs !! blk_id);
    modify (λ s, s <| votes ::= delete blk_id |>) ;;
    massert (bool_decide (length txns = length v.2)) ;;
    modify (λ s, s <| finished_query ::= λ f, {[blk_id]} ∪ f |>
                   <| vote_time_queue ::= λ q, (tq_remove blk_id q).2 |>) ;;
    to_commit ← tally fuel txns v.2 [];
    modify (λ s, s <| commit_total ::= λ c, c + N.of_nat (length to_commit) |>
                   <| commit_queue ::= λ q, q ++ [(blk_id, to_commit)] |>) ;;
    feedback []
  end.

Definition record_votes (fuel : nat) (blk_id : N) (src : NodeId) (vs : list bool) : Dec unit :=
  fin ← gets finished_query;
  if decide (blk_id ∈ fin) then mret tt
  else
    all ← gets votes;
    let v := default (0, replicate (length vs) 0) (all !! blk_id) in
    modify (λ s, s <| votes ::= <[blk_id := v]> |>) ;;
    massert (bool_decide (length v.2 = length vs)) ;;
    modify (λ s, s <| votes ::= <[blk_id := (v.1 + 1, add_votes vs v.2)]> |>) ;;
    k ← gets bd_k;
    if (k <=? v.1 + 1)%N then handle_votes fuel blk_id else mret tt.

(** ** new_tail *)

(** The conflict set of an output after one more payment spends it. *)
Definition join_conflict_set (h : Hash) (cts : gmap Utxo ConflictSet) (utxo : Utxo) :
    gmap Utxo ConflictSet :=
  match cts !! utxo with
  | None => <[utxo := mkConflictSet false h 0]> cts
  | Some ct => <[utxo := ct <| has_conflicts := true |>]> cts
  end.

(** Record a transaction never seen before. *)
Definition record_txn (txn : Txn) (ctx : TxnCtx) (ps : list Hash) (keys : list Utxo) : Dec unit :=
  let h := tc_id ctx in
  pool ← gets txn_pool;
  match pool !! h with
  | Some _ => mret tt
  | None =>
    modify (λ s, s <| txn_pool ::= <[h := (txn, ctx)]> |>
                   <| txn_dag ::= add_to_dag h ps |>
                   <| confidence ::= <[h := 0]> |>
                   <| conflict_sets ::= λ cts, foldl (join_conflict_set h) cts keys |>)
  end.

(** The vote on a payment or a no-op. *)
Definition query_txn (fuel : nat) (h : Hash) : Dec bool :=
  modify (λ s, s <| is_strongly_preferred_calls ::= N.succ |>) ;;
  is_strongly_preferred fuel h.

(** One transaction of the batch: its vote and its entry in the query. *)
Definition vote_on (fuel : nat) (txn : Txn) (ctx : TxnCtx) : Dec (bool * option Hash) :=
  let h := tc_id ctx in
  match txn with
  | TAvalanche (AGrant _ _ _) => record_txn txn ctx [] [] ;; mret (true, Some h)
  | TAvalanche (ASend sender in_utxo _ _ _ _) =>
    record_txn txn ctx in_utxo (input_keys sender in_utxo) ;;
    v ← query_txn fuel h; mret (v, Some h)
  | TAvalanche (ANoop ps) =>
    record_txn txn ctx ps [] ;; v ← query_txn fuel h; mret (v, Some h)
  | TAvalanche APlaceHolder => mret (false, None)
  | _ => panic
  end.

Fixpoint vote_batch (fuel : nat) (ts : list Txn) (cs : list TxnCtx) : Dec (list (bool * option Hash)) :=
  match ts, cs with
  | t :: ts', c :: cs' => v ← vote_on fuel t c; vs ← vote_batch fuel ts' cs'; mret (v :: vs)
  | _, _ => mret []
  end.

(** The signed vote sent to the node that queries. *)
Definition send_votes (proposer : NodeId) (blk_id : N) (vs : list bool) : Dec unit :=
  serialized_msg ← lift_res (of_result (serialize (blk_id, vs)));
  s ← gets (λ s, s);
  sg ← lift_res (sign (bd_crypto_scheme s) (sk s) serialized_msg);
  let delay := bd_delay s in
  modify (λ s, s <| bd_delay ::= λ d, f64_add d sg.2 |>) ;;
  msg ← lift_res (of_result (serialize (AvaDecide.mkVoteMsg blk_id vs sg.1)));
  dur ← lift_res (from_secs_f64 (f64_add delay sg.2));
  zoom peer_messenger (λ p s, s <| peer_messenger := p |>)
    (pm_delayed_send proposer (ConsensusMsg msg) dur).

Definition new_tail (fuel : nat) (now : Instant) (src : NodeId) (tail : list (Block * BlkCtx)) :
    Dec unit :=
  match tail with
  | [] => mret tt
  | [(new_blk, new_blk_ctx)] =>
    match header new_blk with
    | HAvalanche proposer blk_id depth =>
      massert (bool_decide (depth = 0)) ;;
      massert (bool_decide (src = proposer)) ;;
      massert (bool_decide (length (txns new_blk) = length (bc_txn_ctx new_blk_ctx))) ;;
      vs ← vote_batch fuel (txns new_blk) (bc_txn_ctx new_blk_ctx);
      id ← gets bd_id;
      if decide (proposer = id) then
        modify (λ s, s <| query_pool ::= <[blk_id := vs.*2]> |>
                       <| vote_time_queue ::= tq_push blk_id (now + vote_timeout s) |>) ;;
        record_votes fuel blk_id id vs.*1
      else send_votes proposer blk_id vs.*1
    | _ => panic
    end
  | _ => panic
  end.

(** ** The other handlers *)

(** [commit_ready] sleeps forever while there is nothing to commit. *)
Definition commit_ready (s : BlizzardDecision) : bool := negb (bool_decide (commit_queue s = [])).

Definition handle_timeout (fuel : nat) : Dec unit :=
  q ← gets vote_time_queue;
  blk_id ← unwrap (tq_pop q).1;
  modify (λ s, s <| vote_time_queue := (tq_pop q).2 |>) ;;
  fin ← gets finished_query;
  if decide (blk_id ∈ fin) then mret tt else handle_votes fuel blk_id.

Definition next_to_commit : Dec (N * list Txn) :=
  q ← gets commit_queue;
  match q with
  | [] => panic
  | (blk_id, txn_hashes) :: q' =>
    modify (λ s, s <| commit_queue := q' |>) ;;
    pool ← gets txn_pool;
    es ← lift_res (lookup_all pool txn_hashes);
    mret (blk_id, es.*1)
  end.

Definition handle_peer_msg (fuel : nat) (src : NodeId) (content : bytes) : Dec unit :=
  msg ← lift_res (of_result (deserialize content));
  fin ← gets finished_query;
  if decide (AvaDecide.round msg ∈ fin) then mret tt
  else
    s ← gets (λ s, s);
    let peer_pk := default (gen_key_pair (bd_crypto_scheme s) src).1 (neighbor_pks s !! src) in
    modify (λ s, s <| neighbor_pks ::= <[src := peer_pk]> |>) ;;
    serialized_content ← lift_res (of_result (serialize (AvaDecide.round msg, AvaDecide.vote_bits msg)));
    v ← lift_res (verify (bd_crypto_scheme s) peer_pk serialized_content (AvaDecide.signature msg));
    modify (λ s, s <| bd_delay ::= λ d, f64_add d v.2 |>) ;;
    if (v.1 : bool) then record_votes fuel (AvaDecide.round msg) src (AvaDecide.vote_bits msg) else mret tt.
End Methods.
