(* ===== verification/BtcDecide.v ===== *)
(** * Bitcoin decision

    src/src/stage/consensus/decide/bitcoin/basic.rs: the decision stage follows
    the chain that block management reports, block by block, and commits a block
    once more than [commit_len] blocks are undecided. The second half composes
    it with block management. *)

From S2P Require Import Prelude F64 Protocol Peers Config.
From S2P Require BtcMgmt.
Local Open Scope N_scope.

Record BitcoinDecision := mkBitcoinDecision {
  bdc_id : NodeId;
  commit_len : N;
  block_pool : gmap Hash (Block * BlkCtx * N);
  chain_tail : list Hash;
  first_block_seen : bool;
  miners_blk_cnt : gmap NodeId N;
}.
#[export] Instance BitcoinDecision_eta : Eta BitcoinDecision := λ r,
  mkBitcoinDecision (bdc_id r) (commit_len r) (block_pool r) (chain_tail r) (first_block_seen r)
    (miners_blk_cnt r).

Definition new (id : NodeId) (config : BitcoinBasicConfig) : BitcoinDecision :=
  mkBitcoinDecision id (bb_commit_depth config) ∅ [] false ∅.

(** The parent and the height of the first block reported; a parent that is not
    known is [unimplemented!()]. *)
Definition first_block (pool : gmap Hash (Block * BlkCtx * N)) (blk : Block) : res (Hash * N) :=
  prev_hash ← BtcMgmt.header_prev blk;
  if decide (prev_hash = 0) then Ok (prev_hash, 1)
  else match pool !! prev_hash with
       | Some (_, _, height) => Ok (prev_hash, height + 1)
       | None => Panic
       end.

(** The loop that pops the overwritten blocks, latest first; the flag says
    whether everything was popped. *)
Fixpoint prune (pool : gmap Hash (Block * BlkCtx * N)) (first_block_height : N)
    (ancester_hash : Hash) (rev_tail : list Hash) : res (list Hash * bool) :=
  match rev_tail with
  | [] => Ok ([], true)
  | old_tail :: rest =>
    match pool !! old_tail with
    | None => Panic
    | Some (_, _, old_height) =>
      if (first_block_height <=? old_height)%N then prune pool first_block_height ancester_hash rest
      else if decide (old_height = first_block_height - 1) then
        if decide (old_tail = ancester_hash) then Ok (old_tail :: rest, false) else Panic
      else Panic
    end
  end.

(** The loop that appends the new blocks. *)
Fixpoint append_blocks (height : N) (new_tail : list (Block * BlkCtx)) : M BitcoinDecision unit :=
  match new_tail with
  | [] => mret tt
  | (blk, blk_ctx) :: rest =>
    modify (λ s, s <| block_pool ::= <[bc_id blk_ctx := (blk, blk_ctx, height)]> |>
                   <| chain_tail ::= λ t, t ++ [bc_id blk_ctx] |>) ;;
    append_blocks (height + 1) rest
  end.

Definition new_tail (src : NodeId) (new_tail : list (Block * BlkCtx)) : M BitcoinDecision unit :=
  match new_tail with
  | [] => mret tt
  | (blk, _) :: _ =>
    s ← gets (λ s, s);
    f ← lift_res (first_block (block_pool s) blk);
    t ← lift_res (prune (block_pool s) f.2 f.1 (reverse (chain_tail s)));
    modify (λ s, s <| chain_tail := reverse t.1 |>
                   <| first_block_seen ::= λ b, b || t.2 |>) ;;
    append_blocks f.2 new_tail
  end.

Definition commit_ready (s : BitcoinDecision) : bool :=
  (commit_len s <? N.of_nat (length (chain_tail s)))%N.

Definition next_to_commit : M BitcoinDecision (N * list Txn) :=
  tail ← gets chain_tail;
  match tail with
  | [] => panic
  | blk_hash :: rest =>
    modify (λ s, s <| chain_tail := rest |>) ;;
    pool ← gets block_pool;
    e ← unwrap (pool !! blk_hash);
    match header e.1.1 with
    | HBitcoin proposer _ _ _ =>
      modify (λ s, s <| miners_blk_cnt ::= λ m, <[proposer := default 0 (m !! proposer) + 1]> m |>) ;;
      mret (e.2, txns e.1.1)
    | _ => panic
    end
  end.

(** ** Following a chain *)

Abbreviation blk_rec := (Block * BlkCtx)%type (only parsing).

Definition blk_ids (l : list blk_rec) : list Hash := (λ bc, bc_id bc.2) <$> l.

(** The id of the last block, 0 for the genesis. *)
Definition last_id (l : list blk_rec) : Hash := default 0 (list.last (blk_ids l)).

(** [l] is a chain from the genesis, oldest block first. *)
Inductive chained : list blk_rec → Prop :=
| chained_nil : chained []
| chained_snoc l b c :
  chained l → BtcMgmt.header_prev b = Ok (last_id l) → bc_id c ≠ 0 → bc_id c ∉ blk_ids l →
  chained (l ++ [(b, c)]).

Lemma blk_ids_app l1 l2 : blk_ids (l1 ++ l2) = blk_ids l1 ++ blk_ids l2.
Proof. apply fmap_app. Qed.

Lemma blk_ids_snoc l b c : blk_ids (l ++ [(b, c)]) = blk_ids l ++ [bc_id c].
Proof. apply blk_ids_app. Qed.

Lemma length_blk_ids l : length (blk_ids l) = length l.
Proof. apply length_fmap. Qed.

Lemma last_id_snoc l b c : last_id (l ++ [(b, c)]) = bc_id c.
Proof. unfold last_id. by rewrite blk_ids_snoc, last_snoc. Qed.

Lemma chained_app_inv l1 l2 : chained (l1 ++ l2) → chained l1.
Proof.
  induction l2 as [|bc l2 IH] using rev_ind; [by rewrite app_nil_r|].
  intros Hc. rewrite (assoc_L (++)) in Hc. inversion Hc as [Heq|l b c Hl _ _ _ Heq].
  - by apply symmetry, app_nil in Heq as [_ ?].
  - apply app_inj_tail in Heq as [-> _]. by apply IH.
Qed.

Lemma chained_first com b c new :
  chained (com ++ (b, c) :: new) → BtcMgmt.header_prev b = Ok (last_id com).
Proof.
  intros Hc. replace (com ++ (b, c) :: new) with ((com ++ [(b, c)]) ++ new) in Hc
    by (by rewrite <- (assoc_L (++))).
  apply chained_app_inv in Hc. inversion Hc as [Heq|l b' c' _ Hp _ _ Heq].
  - by apply symmetry, app_nil in Heq as [_ ?].
  - apply app_inj_tail in Heq as [-> [= -> ->]]. done.
Qed.

Lemma chained_nodup l : chained l → NoDup (blk_ids l) ∧ 0 ∉ blk_ids l.
Proof.
  induction 1 as [|l b c Hl [IH1 IH2] _ Hc Hni]; [split; [constructor|set_solver]|].
  rewrite blk_ids_app. cbn. split.
  - apply NoDup_app. split; [done|]. split; [|apply NoDup_singleton].
    intros x Hx ->%list_elem_of_singleton. done.
  - rewrite elem_of_app, list_elem_of_singleton. intros [?|?]; [done|congruence].
Qed.

(** The pool knows the blocks of the chain at their heights. *)
Definition pool_has (pool : gmap Hash (Block * BlkCtx * N)) (l : list blk_rec) : Prop :=
  ∀ i b c, l !! i = Some (b, c) → pool !! bc_id c = Some (b, c, N.of_nat i + 1).

Lemma pool_has_app_inv pool l1 l2 : pool_has pool (l1 ++ l2) → pool_has pool l1.
Proof. intros Hp i b c Hi. apply Hp. by apply lookup_app_l_Some. Qed.

Lemma pool_has_snoc pool l b c :
  pool_has pool (l ++ [(b, c)]) → pool !! bc_id c = Some (b, c, N.of_nat (length l) + 1).
Proof. intros Hp. apply Hp. by rewrite lookup_app_r, Nat.sub_diag by lia. Qed.

Lemma drop_ids_snoc l b c n :
  drop n (blk_ids (l ++ [(b, c)])) =
  if decide (n ≤ length l)%nat then drop n (blk_ids l) ++ [bc_id c] else [].
Proof.
  rewrite blk_ids_snoc. case_decide.
  - by rewrite drop_app_le by (rewrite length_blk_ids; lia).
  - apply drop_ge. rewrite length_app, length_blk_ids. cbn. lia.
Qed.

(** The loop stops at the fork point, or at the bottom when that is committed. *)
Lemma prune_spec pool com old n :
  pool_has pool (com ++ old) →
  prune pool (N.of_nat (length com) + 1) (last_id com) (reverse (drop n (blk_ids (com ++ old)))) =
  Ok (reverse (drop n (blk_ids com)), bool_decide (length com ≤ n)%nat).
Proof.
  intros Hp. induction old as [|[b c] old IH] using rev_ind.
  - rewrite app_nil_r in *. destruct com as [|[b c] com _] using rev_ind.
    { cbn. by rewrite drop_nil, bool_decide_true by lia. }
    rewrite drop_ids_snoc, length_app. cbn [length]. destruct (decide (n ≤ length com)%nat) as [Hn|Hn].
    + rewrite reverse_snoc. cbn [prune]. rewrite (pool_has_snoc _ _ _ _ Hp).
      destruct (N.leb_spec (N.of_nat (length com + 1) + 1) (N.of_nat (length com) + 1)); [lia|].
      rewrite decide_True by lia. rewrite last_id_snoc, decide_True by done.
      by rewrite bool_decide_false by lia.
    + cbn. by rewrite bool_decide_true by lia.
  - rewrite (assoc_L (++)) in *. rewrite drop_ids_snoc. destruct (decide (n ≤ length (com ++ old))%nat) as [Hn|Hn].
    + rewrite reverse_snoc. cbn [prune]. rewrite (pool_has_snoc _ _ _ _ Hp), length_app.
      destruct (N.leb_spec (N.of_nat (length com) + 1) (N.of_nat (length com + length old) + 1)); [|lia].
      apply IH. by eapply pool_has_app_inv.
    + rewrite length_app in Hn. rewrite (drop_ge (blk_ids com)) by (rewrite length_blk_ids; lia).
      cbn. by rewrite bool_decide_true by lia.
Qed.

(** ** The chain is followed *)

(** The decision stage has committed (or skipped) the first [n] blocks of the
    chain [l] and holds the others as undecided. *)
Definition follows (d : BitcoinDecision) (l : list blk_rec) (n : nat) : Prop :=
  (n ≤ length l)%nat ∧ chain_tail d = drop n (blk_ids l) ∧ pool_has (block_pool d) l.

Lemma append_blocks_spec l new d n :
  chained (l ++ new) → (n ≤ length l)%nat → follows d l n →
  wp (append_blocks (N.of_nat (length l) + 1) new)
    (λ _ d', follows d' (l ++ new) n ∧ commit_len d' = commit_len d) (λ _ _, False) d.
Proof.
  revert l d. induction new as [|[b c] new IH]; intros l d Hc Hn Hf; cbn.
  { wp_steps. by rewrite app_nil_r. }
  wp_steps. replace (l ++ (b, c) :: new) with ((l ++ [(b, c)]) ++ new) in Hc |- *
    by (by rewrite <- (assoc_L (++))).
  replace (N.of_nat (length l) + 1 + 1) with (N.of_nat (length (l ++ [(b, c)])) + 1)
    by (rewrite length_app; cbn; lia).
  eapply wp_mono; [apply IH; [done|rewrite length_app; lia|]|done|done].
  destruct Hf as (_ & Ht & Hp). split_and!.
  - rewrite length_app. lia.
  - cbn. rewrite Ht, drop_ids_snoc. by rewrite decide_True.
  - intros i b' c' Hi. cbn. destruct (decide (i = length l)) as [->|Hne].
    + rewrite lookup_app_r, Nat.sub_diag in Hi by lia. injection Hi as -> ->. apply lookup_insert_eq.
    + assert (l !! i = Some (b', c')) as Hi'.
      { apply lookup_lt_Some in Hi as Hlt. rewrite length_app in Hlt. cbn in Hlt.
        by rewrite lookup_app_l in Hi by lia. }
      rewrite lookup_insert_ne; [by apply Hp|]. intros Heq.
      apply chained_app_inv, chained_nodup in Hc as [Hnd _]. rewrite blk_ids_app in Hnd.
      apply NoDup_app in Hnd as (_ & Hd & _). apply (Hd (bc_id c')); [|cbn; rewrite Heq; set_solver].
      unfold blk_ids. apply list_elem_of_fmap. exists (b', c'). split; [done|].
      by eapply list_elem_of_lookup_2.
Qed.

Lemma first_block_spec d com old b c new n :
  follows d (com ++ old) n → chained (com ++ old) → chained (com ++ (b, c) :: new) →
  first_block (block_pool d) b = Ok (last_id com, N.of_nat (length com) + 1).
Proof.
  intros (_ & _ & Hp) Hc1 Hc2. unfold first_block. rewrite (chained_first _ _ _ _ Hc2). cbn.
  apply chained_app_inv in Hc1. apply pool_has_app_inv in Hp.
  destruct com as [|[b' c'] com _] using rev_ind; [done|]. rewrite last_id_snoc.
  apply chained_nodup in Hc1 as [_ H0]. rewrite blk_ids_app in H0. cbn in H0.
  rewrite decide_False by set_solver. rewrite (pool_has_snoc _ _ _ _ Hp).
  f_equal. f_equal. rewrite length_app. cbn. lia.
Qed.

(** A switch from the branch [old] to the branch [new]. *)
Lemma new_tail_spec src d com old new n :
  follows d (com ++ old) n → chained (com ++ old) → chained (com ++ new) → new ≠ [] →
  wp (new_tail src new) (λ _ d', follows d' (com ++ new) (Nat.min n (length com)) ∧
    commit_len d' = commit_len d) (λ _ _, False) d.
Proof.
  intros Hf Hc1 Hc2 Hne. destruct new as [|[b c] new]; [done|]. unfold new_tail. wp_steps.
  eapply wp_lift; [by eapply first_block_spec|]. wp_steps. cbn [fst snd].
  pose proof Hf as (Hn & Ht & Hp). rewrite Ht.
  eapply wp_lift; [by apply prune_spec|]. wp_steps. cbn [fst snd]. rewrite reverse_involutive.
  eapply wp_mono; [apply (append_blocks_spec com ((b, c) :: new) _ (Nat.min n (length com)) Hc2)| |done].
  - lia.
  - split_and!; cbn; [lia| |by eapply pool_has_app_inv].
    destruct (decide (n ≤ length com)%nat); [by rewrite Nat.min_l by lia|].
    rewrite Nat.min_r by lia. rewrite !drop_ge by (rewrite length_blk_ids; lia). done.
  - by intros _ d' [? ?].
Qed.

Lemma next_to_commit_spec d l n b c :
  follows d l n → l !! n = Some (b, c) →
  (∃ proposer p root nonce, header b = HBitcoin proposer p root nonce) →
  ∃ d', next_to_commit d = (Ok (N.of_nat n + 1, txns b), d') ∧ follows d' l (S n) ∧
    commit_len d' = commit_len d.
Proof.
  intros (Hn & Ht & Hp) Hl (pr & p & root & nonce & Hh).
  assert (drop n (blk_ids l) = bc_id c :: drop (S n) (blk_ids l)) as Hd.
  { apply drop_S. unfold blk_ids. by rewrite list_lookup_fmap, Hl. }
  unfold next_to_commit, mbind, M_bind, gets, modify. rewrite Ht, Hd. cbn.
  rewrite (Hp _ _ _ Hl). cbn. rewrite Hh. eexists. split; [done|]. split; [|done].
  split_and!; [by apply lookup_lt_Some in Hl|done|done].
Qed.
