(* ===== verification/Samples.v ===== *)
(** * Concrete instances of the parameters

    Small computable stand-ins for the code outside the repository (hashing,
    serialization, the mailbox, the floating-point library), used to evaluate
    the model on concrete inputs. No theorem of the development depends on
    them; the witnesses do. *)

From S2P Require Import Prelude F64 Protocol Peers.
Local Open Scope N_scope.

(** Identifiers are read off the serialized bytes, least significant first. *)
Fixpoint sample_from_le (b : bytes) : N :=
  match b with [] => 0 | x :: b' => x + 256 * sample_from_le b' end.

#[local] Instance sample_externals : Externals := {|
  sha256_digest := λ b, b;
  u256_from_le := λ b, if decide (length b ≤ 32)%nat then Some (sample_from_le b) else None;
  u256_to_le := le_bytes 32;
  k256_gen_key_pair := λ seed, ([seed], [seed]);
  k256_sign := λ k b, inl k;
  k256_verify := λ k b s, inl (bool_decide (k = s));
  btc_stack_size := λ _, 100;
  avax_stack_size := λ _, 100;
  arc_get_size := λ _, 108;
|}.

#[local] Instance sample_bincode_btc : Bincode BitcoinTxn := {|
  serialize := λ t, match t with
    | BIncentive v r => inl [1; v]
    | BSend s ins r o rem _ _ _ _ => inl [2; o; rem]
    | BGrant v r => inl [3; v]
    end;
  deserialize := λ _, inr (mkErr "not needed");
|}.

#[local] Instance sample_bincode_header : Bincode BlockHeader := {|
  serialize := λ h, match h with
    | HBitcoin p prev root n => inl [4; p; n]
    | _ => inl [5]
    end;
  deserialize := λ _, inr (mkErr "not needed");
|}.

#[local] Instance sample_transport : Transport := {|
  hub_accepts := λ _ _, true;
  sample_peers := λ s n, take (N.to_nat n) (elements s);
|}.

#[local] Instance sample_channel : Channel := λ _ _, true.

(** The release profile. *)
#[local] Instance sample_profile : BuildProfile := false.

Definition sample_messenger : PeerMessenger := mkPeerMessenger 1 {[2; 3]} 0 [].
