(* ===== verification/BtcProps.v ===== *)
(** * Bitcoin: properties of block management *)

From S2P Require Import Prelude F64 Protocol Peers BtcMgmt BtcUtxo BtcChain BtcInv Samples.
Local Open Scope N_scope.

(** ** Adding transactions to the block under construction *)

Section Prepare.
Context `{Externals} `{!Bincode BitcoinTxn} `{!Bincode BlockHeader} `{BuildProfile}
  `{HashOrder} `{Transport} `{Libm}.
Context (rank : Hash → nat).

(** A pending transaction that cannot enter the block: its script fails, or one
    of its inputs is neither in the UTXO set nor made by the block. *)
Definition blocked (s : BitcoinBM) (h : Hash) : Prop :=
  ∃ t c, txn_pool s !! h = Some (t, c) ∧
    (∃ sender ins receiver out rem sig sb rt ok, t = TBitcoin (BSend sender ins receiver out rem sig sb rt ok)) ∧
    (txn_script_ok t = false ∨ ∃ k, k ∈ txn_inputs t ∧ k ∉ template_utxo s).

Lemma spendable_template s k : spendable s k = bool_decide (k ∈ template_utxo s).
Proof.
  unfold spendable, template_utxo. apply eq_true_iff_eq.
  rewrite andb_true_iff, orb_true_iff, negb_true_iff, !bool_decide_eq_true, bool_decide_eq_false.
  set_solver.
Qed.

Lemma try_add_blocked s h d r s' :
  blocked s h → try_add_txn h d s = (Ok r, s') →
  s' = s <| pending_txns ::= λ p, p ++ [h] |>.
Proof.
  intros (t & c & Hh & (sender & ins & receiver & out & rem & sig & sb & rt & ok & ->) & Hbl) Heq.
  unfold try_add_txn in Heq. apply M_bind_ok in Heq as (pool & s1 & [-> ->]%gets_ok & Heq).
  apply M_bind_ok in Heq as (e & s1 & [He ->]%unwrap_ok & Heq).
  rewrite Hh in He. injection He as <-. cbn [fst] in Heq.
  apply M_bind_ok in Heq as (valid & s1 & [-> ->]%gets_ok & Heq).
  apply M_bind_ok in Heq as (d' & s1 & Hd & Heq).
  assert (s1 = s) as ->.
  { destruct (forallb _ _); [by apply lift_ok in Hd as [_ ->]|by apply ret_ok in Hd as [_ ->]]. }
  destruct (forallb _ ins && ok) eqn:Hv; [|by m_inv].
  apply andb_prop in Hv as [Hv Hok]. destruct Hbl as [Hf|(k & Hk & Hnk)]; [cbn in Hf; congruence|].
  destruct Hnk. by eapply spendable_all.
Qed.

Lemma blocked_frame s s' h :
  txn_pool s' = txn_pool s → template_utxo s' = template_utxo s → blocked s h → blocked s' h.
Proof. unfold blocked. by intros -> ->. Qed.

Lemma prepare_loop_blocked fuel m d s r s' :
  block_size s ≤ MAX_BLOCK_SIZE → pending_txns s ≠ [] →
  (∀ h, h ∈ pending_txns s → blocked s h) → prepare_loop fuel m d s ≠ (Ok r, s').
Proof.
  revert m d s. induction fuel as [|fuel IH]; intros m d s Hsz Hne Hall Heq; [done|]. cbn in Heq.
  apply M_bind_ok in Heq as (size & s1 & [-> ->]%gets_ok & Heq).
  destruct (N.ltb_spec MAX_BLOCK_SIZE (block_size s)); [lia|].
  apply M_bind_ok in Heq as (pend & s1 & [-> ->]%gets_ok & Heq).
  destruct (pending_txns s) as [|h rest] eqn:Hp; [done|].
  apply M_bind_ok in Heq as (? & s1 & ->%modify_ok & Heq).
  apply M_bind_ok in Heq as (r1 & s1 & Hadd & Heq).
  apply try_add_blocked in Hadd; [|eapply blocked_frame; [done|done|apply Hall, list_elem_of_here]].
  subst s1. eapply IH; [| | |exact Heq]; cbn.
  - done.
  - by destruct rest.
  - intros y. rewrite elem_of_app, list_elem_of_singleton. intros Hy.
    eapply blocked_frame; [done|done|]. apply Hall, elem_of_cons. tauto.
Qed.

(** A transaction the reference accepts is added. *)
Lemma try_add_accepted s h t c d V :
  overflow_checks = false → txn_pool s !! h = Some (t, c) → tc_id c = h → clean_txn (t, c) →
  exec_txn (template_utxo s) (t, c) = Some V → d + txn_runtime t < duration_max →
  ∃ s', try_add_txn h d s = (Ok (true, d + txn_runtime t), s') ∧
    block_under_construction s' = block_under_construction s ++ [h] ∧
    pending_txns s' = pending_txns s ∧ txn_pool s' = txn_pool s.
Proof.
  intros Hov Hh Hid [[Hplain _] _] Hx Hrt.
  destruct (exec_txn_inv _ _ _ Hx) as (_ & Hin & Hok & _). cbn in Hin, Hok.
  destruct (u64_add_total (block_size s) (arc_get_size t) Hov) as [sz Hsz].
  unfold try_add_txn, mbind, M_bind, gets. rewrite Hh. cbn.
  destruct t as [|[|sender ins receiver out rem sig sb rt ok|v receiver]|]; try done.
  - cbn [txn_script_ok] in Hok. subst ok.
    assert (forallb (λ i, spendable s (i, sender)) ins = true) as ->.
    { apply forallb_forall. intros i Hi%list_elem_of_In. rewrite spendable_template.
      apply bool_decide_eq_true, Hin, list_elem_of_fmap. by exists i. }
    cbn. unfold lift_res, dur_add. cbn [txn_runtime] in Hrt.
    rewrite (proj2 (N.ltb_lt _ _) Hrt). cbn. rewrite Hsz.
    eexists. split; [done|]. done.
  - unfold lift_res. rewrite Hsz. cbn. rewrite N.add_0_r. eexists. split; [done|]. done.
Qed.
Lemma template_step s h t c V s' rest :
  btc_inv rank s → btc_inv rank s' → pending_txns s = h :: rest → txn_pool s !! h = Some (t, c) →
  block_under_construction s' = block_under_construction s ++ [h] →
  txn_pool s' = txn_pool s → utxo s' = utxo s →
  exec_txn (template_utxo s) (t, c) = Some V → template_utxo s' = V.
Proof.
  intros Hi Hi' Hp Hh Hb Ht Hu Hx.
  destruct (bi_template _ _ Hi) as (recs & Hl & Hex), (bi_template _ _ Hi') as (recs' & Hl' & Hex').
  rewrite Hb, Ht, (lookup_all_snoc _ _ _ _ _ Hl Hh) in Hl'. injection Hl' as <-.
  rewrite exec_txns_app, Hu, Hex in Hex'. cbn in Hex'. unfold template_utxo in *.
  rewrite Hx in Hex'. cbn in Hex'. rewrite Hu. by injection Hex' as ->.
Qed.

Lemma try_add_utxo h d s r s' : try_add_txn h d s = (Ok r, s') → utxo s' = utxo s.
Proof.
  intros Heq. unfold try_add_txn in Heq.
  apply M_bind_ok in Heq as (pool & s1 & [-> ->]%gets_ok & Heq).
  apply M_bind_ok in Heq as (e & s1 & [He ->]%unwrap_ok & Heq).
  destruct e as [[|[|sender ins receiver out rem sig sb rt ok|v receiver]|] c]; try done; cbn [fst] in Heq.
  - apply M_bind_ok in Heq as (valid & s1 & [-> ->]%gets_ok & Heq).
    apply M_bind_ok in Heq as (d' & s1 & Hd & Heq).
    assert (s1 = s) as ->.
    { destruct (forallb _ _); [by apply lift_ok in Hd as [_ ->]|by apply ret_ok in Hd as [_ ->]]. }
    destruct (_ && _); by m_inv.
  - by m_inv.
Qed.

Lemma prepare_loop_add fuel m d s h rest r s' :
  block_size s ≤ MAX_BLOCK_SIZE → pending_txns s = h :: rest →
  try_add_txn h d (s <| pending_txns := rest |>) = (Ok r, s') →
  prepare_loop (S fuel) m d s = prepare_loop fuel (m || r.1) r.2 s'.
Proof.
  intros Hsz Hp Hadd. cbn [prepare_loop]. unfold mbind, M_bind, gets, modify.
  destruct (N.ltb_spec MAX_BLOCK_SIZE (block_size s)); [lia|]. by rewrite Hp, Hadd.
Qed.

Lemma prepare_loop_accepts pend recs s m d V :
  overflow_checks = false → btc_inv rank s → pending_txns s = pend →
  lookup_all (txn_pool s) pend = Ok recs → exec_txns (template_utxo s) recs = Some V →
  d + total_runtime recs < duration_max →
  ∃ st m' d' s', prepare_loop (S (length pend)) m d s = (Ok (st, m', d'), s') ∧
    (st = EmptyMempool ∧ pending_txns s' = [] ∧
       block_under_construction s' = block_under_construction s ++ pend ∨
     st = Full ∧ MAX_BLOCK_SIZE < block_size s').
Proof.
  intros Hov. revert recs s m d. induction pend as [|h pend IH]; intros recs s m d Hinv Hp Hl Hx Hrt.
  - cbn. unfold mbind, M_bind, gets. destruct (N.ltb_spec MAX_BLOCK_SIZE (block_size s)).
    + do 4 eexists. split; [done|]. by right.
    + rewrite Hp. do 4 eexists. split; [done|]. left. by rewrite app_nil_r.
  - cbn [lookup_all] in Hl. destruct (txn_pool s !! h) as [[t c]|] eqn:Hh; [|done].
    apply res_bind_ok in Hl as (recs1 & Hl & [= <-]). cbn in Hx. cbn [total_runtime fst] in Hrt.
    apply bind_Some in Hx as (V1 & Hx1 & Hx).
    destruct (bi_txns _ _ Hinv _ _ _ Hh) as [Hid Hcl].
    set (s1 := s <| pending_txns := pend |>).
    destruct (try_add_accepted s1 h t c d V1) as (s2 & Hadd & Hb2 & Hp2 & Ht2);
      try done; [lia|].
    assert (btc_inv rank s2) as Hinv2 by (by eapply try_add_txn_inv).
    pose proof (try_add_utxo _ _ _ _ _ Hadd) as Hu2.
    assert (template_utxo s2 = V1) as HV1 
      by exact (template_step s h t c V1 s2 pend Hinv Hinv2 Hp Hh Hb2 Ht2 Hu2 Hx1).
    destruct (N.ltb_spec MAX_BLOCK_SIZE (block_size s)) as [Hfull|Hroom].
    { cbn. unfold mbind, M_bind, gets. rewrite (proj2 (N.ltb_lt _ _) Hfull).
      do 4 eexists. split; [done|]. by right. }
    cbn [length]. rewrite (prepare_loop_add _ _ _ _ _ _ _ _ Hroom Hp Hadd).
    destruct (IH recs1 s2 (m || true) (d + txn_runtime t)) as (st & m' & d' & s' & Heq & Hst); try done.
    + by rewrite Ht2.
    + by rewrite HV1.
    + lia.
    + do 4 eexists. split; [done|].
      destruct Hst as [(-> & -> & ->)|?]; [left|by right].
      rewrite Hb2. by rewrite <- (assoc_L (++)).
Qed.
End Prepare.

(** ** The values validate_txn compares *)

(** The value of an input for its spender, as the transaction pool gives it. *)
Definition input_of (pool : gmap Hash (Txn * TxnCtx)) (sender : PubKey) (h : Hash) : option N :=
  e ← pool !! h; match e.1 with TBitcoin t => utxo_value sender t | _ => None end.

Fixpoint sum_inputs (pool : gmap Hash (Txn * TxnCtx)) (sender : PubKey) (ins : list Hash) : option N :=
  match ins with
  | [] => Some 0
  | h :: ins' => v ← input_of pool sender h; w ← sum_inputs pool sender ins'; Some (v + w)
  end.

Section Values.
Context `{BuildProfile}.

Lemma input_value_sum pool sender ins acc :
  (∀ h t c, pool !! h = Some (t, c) → plain_txn t = true) →
  match sum_inputs pool sender ins with
  | Some v => acc + v < two64 → input_value pool sender ins acc = Ok (Some (acc + v))
  | None => overflow_checks = false → input_value pool sender ins acc = Ok None
  end.
Proof.
  intros Hpool. revert acc. induction ins as [|h ins IH]; intros acc; cbn.
  { intros _. by rewrite N.add_0_r. }
  unfold input_of. destruct (pool !! h) as [[t c]|] eqn:E; cbn; [|done].
  pose proof (Hpool _ _ _ E) as Hp. destruct t as [|t|]; try done.
  destruct (utxo_value sender t) as [v|]; cbn; [|done].
  destruct (sum_inputs pool sender ins) as [w|]; cbn.
  - intros Hlt. rewrite u64_add_ok by lia. cbn. rewrite N.add_assoc. apply IH. lia.
  - intros Hov. destruct (u64_add_total acc v Hov) as [n ->]. cbn. by apply IH.
Qed.

(** C31: as long as no sum leaves 64 bits, [validate_txn] accepts a payment
    exactly when every input is a known output that belongs to the sender and
    the inputs add up to the outputs. *)
Theorem validate_txn_correct pool sender ins receiver out rem sig sb rt ok :
  overflow_checks = false → (∀ h t c, pool !! h = Some (t, c) → plain_txn t = true) →
  out + rem < two64 → (∀ v, sum_inputs pool sender ins = Some v → v < two64) →
  validate_txn pool (BSend sender ins receiver out rem sig sb rt ok) =
  Ok (bool_decide (sum_inputs pool sender ins = Some (out + rem))).
Proof.
  intros Hov Hpool Hout Hin. pose proof (input_value_sum pool sender ins 0 Hpool) as Hsum. cbn.
  destruct (sum_inputs pool sender ins) as [v|].
  - rewrite Hsum by (cbn; by apply Hin). cbn. rewrite u64_add_ok by done. cbn.
    f_equal. apply bool_decide_ext. rewrite N.add_0_l. split; congruence.
  - rewrite Hsum by done. cbn. f_equal.
Qed.
End Values.

(** In the release profile the sums wrap around: a payment whose outputs
    exceed its inputs by 2^64 is accepted, so value is made from nothing. *)
Theorem validate_txn_mints `{Hp : BuildProfile} (pool : gmap Hash (Txn * TxnCtx)) sender v h c receiver sig sb rt ok :
  overflow_checks = false → pool !! h = Some (TBitcoin (BGrant v sender), c) → v < two64 →
  validate_txn pool (BSend sender [h] receiver (2 ^ 63 + v) (2 ^ 63) sig sb rt ok) = Ok true ∧
  sum_inputs pool sender [h] = Some v ∧ v < (2 ^ 63 + v) + 2 ^ 63.
Proof.
  intros Hov Hh Hv. split; [|split].
  - cbn -[N.add]. rewrite Hh. cbn -[N.add]. rewrite decide_True by done.
    rewrite (u64_add_ok 0 v) by (rewrite N.add_0_l; exact Hv). cbn -[N.add]. rewrite N.add_0_l. unfold u64_add.
    assert (2 ^ 63 + v + 2 ^ 63 = v + two64) as Heq by (unfold two64; lia).
    change 9223372036854775808 with (2 ^ 63). rewrite Heq.
    destruct (N.ltb_spec (v + two64) two64) as [?|_]; [lia|]. rewrite Hov. cbn -[N.add N.modulo].
    f_equal. apply bool_decide_eq_true.
    rewrite <- (N.mul_1_l two64) at 1. by rewrite N.Div0.mod_add, N.mod_small.
  - unfold sum_inputs, input_of. rewrite Hh. cbn. rewrite decide_True by done. cbn. f_equal. lia.
  - lia.
Qed.

(** ** Theorems on the component *)

Section Theorems.
Context `{Externals} `{!Bincode BitcoinTxn} `{!Bincode BlockHeader} `{BuildProfile}
  `{HashOrder} `{Transport} `{Libm}.

(** C1: in every state the component can reach, the UTXO set is the one obtained by
    running the transactions of the main chain one by one from genesis, no
    transaction occurs twice on that chain, and no transaction that is pending
    or in the block under construction is already on it. This is in the release
    profile, whatever the order of the calls and however often the chain is
    switched, for transactions with distinct inputs and distinct outputs, for blocks
    made of such transactions whose chains repeat none ([arriving]), and for own blocks
    with a fresh id: [btc_step] admits these. A payment to oneself with change
    has one key for two outputs, and there the replay and the UTXO set differ
    ([self_change_survives_switch]). *)
Theorem reachable_utxo_is_replay rank id d pm s :
  overflow_checks = false → rtc (btc_step rank) (new id d pm) s →
  ∃ l, is_path (block_pool s) (chain_tail s) l ∧ good_chain l ∧
    exec_txns ∅ (chain_recs l) = Some (utxo s) ∧
    ∀ h, h ∈ pending_txns s ++ block_under_construction s → h ∉ txn_ids (chain_recs l).
Proof.
  intros Hov Hsteps.
  destruct (btc_reachable_inv rank _ _ Hov Hsteps (btc_inv_new rank id d pm)) as [_ _ _ Hl _ _].
  destruct Hl as (l & ? & ? & ? & Hp & _). exists l. split_and!; try done. intros h Hh. by apply Hp.
Qed.

(** C2: in the release profile, from a state with the invariant of C1 and on a block
    that is [arriving] (a Bitcoin header, an id and a merkle tree that can be computed,
    clean transactions, chains free of repeated transactions; on other headers and
    transactions the code panics),
    [validate_block] returns (no panic: every [unwrap] and [assert!], the walks
    to the missing ancestor and to the fork point included), keeps the
    invariant, and follows the longest chain: either nothing moves, or the tail
    moves to a strictly longer chain, whose blocks above the fork point are
    exactly those returned, oldest first; after an error nothing has moved. *)
Theorem validate_block_longest_chain rank s b c :
  overflow_checks = false → btc_inv rank s → arriving rank s b c →
  ∃ s', btc_inv rank s' ∧
    ((∃ r, validate_block b c s = (Ok r, s') ∧ switched s r s') ∨
     (∃ e, validate_block b c s = (Err e, s') ∧ stays s s')).
Proof.
  intros Hov Hinv Har. pose proof (validate_block_wp rank s b c Hov Hinv Har) as Hwp.
  unfold wp in Hwp. destruct (validate_block b c s) as [[r|e| |] s']; try done.
  - destruct Hwp as [? ?]. exists s'. split; [done|]. left. by exists r.
  - destruct Hwp as [? ?]. exists s'. split; [done|]. right. by exists e.
Qed.

(** C25: the changes a switch computes with sets of created and spent outputs
    (undo the old branch backwards, apply the new one forwards) are exactly
    those of replaying the new chain from genesis: the switch is accepted if
    and only if the replay succeeds, the resulting UTXO set is the replayed
    one, and the transactions to drop from and to return to the pending ones
    are those of the new branch only and of the old branch only. This is for an old
    chain that replays, for chains whose transactions have distinct outputs and occur
    once, and for scripts whose total time a [Duration] can hold;
    [self_change_survives_switch] is a switch outside of it. *)
Theorem switch_matches_replay U common old new :
  exec_txns ∅ (chain_recs (common ++ old)) = Some U →
  good_chain (common ++ old) → good_chain (common ++ new) →
  total_runtime (chain_recs new) < duration_max →
  ∃ o, branch_switch U old new = Ok o ∧
  match o with
  | Some sw =>
    exec_txns ∅ (chain_recs (common ++ new)) = Some ((U ∪ sw_new_utxos sw) ∖ sw_utxos_spent sw) ∧
    sw_txns_applied sw = ids_of new ∖ ids_of old ∧ sw_undo_txns sw = ids_of old ∖ ids_of new
  | None => exec_txns ∅ (chain_recs (common ++ new)) = None
  end.
Proof.
  intros HU Ho Hn Hrt. destruct (branch_switch_spec U common old new HU Ho Hn Hrt) as (o & Heq & Hm).
  exists o. split; [done|]. destruct o; [|done]. by destruct Hm as (? & ? & ? & _).
Qed.

(** A proposed block extends the main chain by one block that holds exactly
    the transactions under construction, and running it leads to the new UTXO
    set; the invariant is kept and the block under construction is empty. *)
Theorem get_new_block_extends_chain rank s b c s' l :
  btc_inv rank s → is_path (block_pool s) (chain_tail s) l →
  get_new_block s = (Ok (b, c), s') → fresh_id rank s (bc_id c) →
  btc_inv rank s' ∧ is_path (block_pool s') (bc_id c) (l ++ [(b, c)]) ∧
  chain_tail s' = bc_id c ∧ exec_txns ∅ (chain_recs (l ++ [(b, c)])) = Some (utxo s').
Proof.
  intros Hinv Hl Heq Hf.
  destruct (get_new_block_inv rank s b c s' l Hinv Heq Hf Hl) as (Hinv' & Ht & Hl' & _).
  rewrite Ht in Hl'. split_and!; [done|done|done|].
  destruct (bi_chain _ _ Hinv') as (l2 & Hl2 & _ & Hx & _). rewrite Ht in Hl2.
  by rewrite (is_path_det rank _ _ (bi_pool _ _ Hinv') _ _ _ Hl' Hl2).
Qed.

(** C35: the loop of [prepare_new_block] ends, one round per pending transaction,
    when the pending transactions can run in their order after the block under
    construction: it then takes all of them, unless the block fills up. *)
Theorem prepare_loop_terminates rank s recs V :
  overflow_checks = false → btc_inv rank s →
  lookup_all (txn_pool s) (pending_txns s) = Ok recs →
  exec_txns (template_utxo s) recs = Some V → total_runtime recs < duration_max →
  ∃ st m d s', prepare_loop (S (length (pending_txns s))) false 0 s = (Ok (st, m, d), s') ∧
    (st = EmptyMempool ∧ pending_txns s' = [] ∧
       block_under_construction s' = block_under_construction s ++ pending_txns s ∨
     st = Full ∧ MAX_BLOCK_SIZE < block_size s').
Proof. intros. by eapply prepare_loop_accepts. Qed.

(** It never returns when the block is not full and no pending transaction
    can enter it: each is popped and pushed back, whatever the number of
    rounds. One transaction whose script fails, or whose input has not arrived,
    is enough. *)
Theorem prepare_loop_hangs s :
  block_size s ≤ MAX_BLOCK_SIZE → pending_txns s ≠ [] →
  (∀ h, h ∈ pending_txns s → blocked s h) →
  ∀ fuel r s', prepare_loop fuel false 0 s ≠ (Ok r, s').
Proof. intros Hsz Hne Hall fuel r s'. by apply prepare_loop_blocked. Qed.

Lemma apply_duplicate_input U sw V sender ins receiver out rem sig sb rt ok c :
  sw_rel U sw V → ¬ NoDup ins →
  apply_txn U (TBitcoin (BSend sender ins receiver out rem sig sb rt ok)) c sw = Ok None.
Proof.
  intros HV Hnd. cbn. pose proof (spend_inputs_rel U sender ins sw V HV) as Hsp.
  destruct (spend_inputs U sender ins sw) as [sw'|]; [|done].
  destruct (spend V _) as [V'|] eqn:E; [|done].
  apply spend_spec in E as (Hnd' & _). destruct Hnd. by apply NoDup_fmap_1 in Hnd'.
Qed.

(** A payment that names the same output twice is added to the block under
    construction, as each mention is checked against the same spent set, but a
    block that holds it is rejected by every node that applies it. *)
Theorem duplicate_input_mined_but_rejected s h sender ins receiver out rem sig sb rt c :
  overflow_checks = false →
  txn_pool s !! h = Some (TBitcoin (BSend sender ins receiver out rem sig sb rt true), c) →
  ¬ NoDup ins → (∀ i, i ∈ ins → (i, sender) ∈ template_utxo s) → rt < duration_max →
  (∃ s', try_add_txn h 0 s = (Ok (true, rt), s') ∧
     block_under_construction s' = block_under_construction s ++ [h]) ∧
  (∀ U sw V, sw_rel U sw V →
     apply_txn U (TBitcoin (BSend sender ins receiver out rem sig sb rt true)) c sw = Ok None).
Proof.
  intros Hov Hh Hnd Hin Hrt. split; [|intros U sw V HV; by eapply apply_duplicate_input].
  set (t := TBitcoin _) in *.
  destruct (u64_add_total (block_size s) (arc_get_size t) Hov) as [sz Hsz].
  unfold try_add_txn, mbind, M_bind, gets. rewrite Hh. cbn.
  assert (forallb (λ i, spendable s (i, sender)) ins = true) as ->.
  { apply forallb_forall. intros i Hi%list_elem_of_In. rewrite spendable_template.
    by apply bool_decide_eq_true, Hin. }
  cbn. unfold lift_res, dur_add. rewrite N.add_0_l, (proj2 (N.ltb_lt _ _) Hrt).
  cbn. fold t. rewrite Hsz. eexists. split; [done|]. done.
Qed.
End Theorems.

(** ** Concrete runs *)

#[local] Existing Instances sample_externals sample_bincode_btc sample_bincode_header
  sample_transport sample_profile canonical_order.
#[local] Instance sample_libm : Libm := {| f64_powf := λ x _, x; f64_log := λ x _, x |}.

(** A grant is submitted, mined and proposed. *)
Definition w_grant : Txn := TBitcoin (BGrant 50 [7]).
Definition w_grant_ctx : TxnCtx := mkTxnCtx 12803.
Definition w_s0 : BitcoinBM := new 1 1 sample_messenger.
Definition w_s1 : BitcoinBM := (record_new_txn w_grant w_grant_ctx w_s0).2.
Definition w_s2 : BitcoinBM := (prepare_new_block 2 99 0 f64_one w_s1).2.
Definition w_s3 : BitcoinBM := (get_new_block w_s2).2.
Definition w_blk : Block := mkBlock (HBitcoin 1 0 99 1) [w_grant].
Definition w_blk_ctx : BlkCtx := mkBlkCtx 65796 [w_grant_ctx].
Definition w_rank (h : Hash) : nat := if decide (h = 0) then 0%nat else 1%nat.

Lemma w_clean : clean_txn (w_grant, w_grant_ctx).
Proof. apply (bool_decide_unpack _). by vm_compute. Qed.

Lemma w_step1 : btc_step w_rank w_s0 w_s1.
Proof. eapply step_new_txn; [apply w_clean|]. by vm_compute. Qed.

Lemma w_step2 : btc_step w_rank w_s1 w_s2.
Proof. eapply (step_prepare _ _ 2 99 0 f64_one). by vm_compute. Qed.

Lemma w_fresh : fresh_id w_rank w_s2 65796.
Proof. split_and!; by vm_compute. Qed.

Lemma w_propose : get_new_block w_s2 = (Ok (w_blk, w_blk_ctx), w_s3).
Proof. by vm_compute. Qed.

Lemma w_step3 : btc_step w_rank w_s2 w_s3.
Proof. eapply step_propose; [apply w_propose|apply w_fresh]. Qed.

Lemma w_inv : btc_inv w_rank w_s2.
Proof.
  eapply btc_reachable_inv; [done| |apply btc_inv_new].
  eapply rtc_l; [apply w_step1|]. apply rtc_once, w_step2.
Qed.

Lemma reachable_utxo_is_replay_witness :
  rtc (btc_step w_rank) w_s0 w_s3 ∧
  ∃ l, is_path (block_pool w_s3) (chain_tail w_s3) l ∧ good_chain l ∧
    exec_txns ∅ (chain_recs l) = Some (utxo w_s3) ∧
    ∀ h, h ∈ pending_txns w_s3 ++ block_under_construction w_s3 → h ∉ txn_ids (chain_recs l).
Proof.
  assert (rtc (btc_step w_rank) w_s0 w_s3) as Hsteps.
  { eapply rtc_l; [apply w_step1|]. eapply rtc_l; [apply w_step2|]. apply rtc_once, w_step3. }
  split; [exact Hsteps|]. exact (reachable_utxo_is_replay w_rank 1 1 sample_messenger w_s3 eq_refl Hsteps).
Defined.

(** Another node receives that block first. *)
Lemma linked_first id b c h l :
  header_prev b = Ok 0 → id ≠ 0 → linked (<[id := (b, c)]> ∅) h l → l = [] ∨ l = [(b, c)].
Proof.
  intros Hp Hid. induction 1 as [|x b' c' p l Hx Hp' Hl IH]; [by left|right].
  apply lookup_insert_Some in Hx as [[_ [= <- <-]]|[_ Hx]]; [|by rewrite lookup_empty in Hx].
  assert (p = 0) as -> by congruence. inversion Hl as [|? ? ? ? l' Hx']; [done|].
  rewrite lookup_insert_ne, lookup_empty in Hx' by done. done.
Qed.

Lemma w_arriving : arriving w_rank w_s0 w_blk w_blk_ctx.
Proof.
  split.
  - exists 1, 0, 99, 1. split; [done|]. apply Nat.ltb_lt. by vm_compute.
  - done.
  - done.
  - apply (bool_decide_unpack _). by vm_compute.
  - intros h l Hl. change (fst <$> block_pool w_s0) with (∅ : gmap Hash blk_rec) in Hl.
    apply linked_first in Hl as [->| ->]; [..|done|done];
      (split; [apply (bool_decide_unpack _); by vm_compute|apply N.ltb_lt; by vm_compute]).
  - eexists. split; [by vm_compute|]. apply N.ltb_lt. by vm_compute.
Qed.

Lemma validate_block_longest_chain_witness :
  ∃ s', btc_inv w_rank s' ∧
    ((∃ r, validate_block w_blk w_blk_ctx w_s0 = (Ok r, s') ∧ switched w_s0 r s') ∨
     (∃ e, validate_block w_blk w_blk_ctx w_s0 = (Err e, s') ∧ stays w_s0 s')).
Proof.
  exact (validate_block_longest_chain w_rank w_s0 w_blk w_blk_ctx eq_refl
    (btc_inv_new w_rank 1 1 sample_messenger) w_arriving).
Defined.

Example w_block_accepted :
  (validate_block w_blk w_blk_ctx w_s0).1 = Ok [(w_blk, w_blk_ctx)].
Proof. by vm_compute. Qed.

Lemma get_new_block_extends_chain_witness :
  btc_inv w_rank w_s3 ∧ is_path (block_pool w_s3) 65796 [(w_blk, w_blk_ctx)] ∧
  chain_tail w_s3 = 65796 ∧ exec_txns ∅ (chain_recs [(w_blk, w_blk_ctx)]) = Some (utxo w_s3).
Proof.
  exact (get_new_block_extends_chain w_rank w_s2 w_blk w_blk_ctx w_s3 [] w_inv
    (path_nil _) w_propose w_fresh).
Defined.

Lemma prepare_loop_terminates_witness :
  lookup_all (txn_pool w_s1) (pending_txns w_s1) = Ok [(w_grant, w_grant_ctx)] ∧
  ∃ st m d s', prepare_loop 2 false 0 w_s1 = (Ok (st, m, d), s') ∧
    (st = EmptyMempool ∧ pending_txns s' = [] ∧
       block_under_construction s' = block_under_construction w_s1 ++ pending_txns w_s1 ∨
     st = Full ∧ MAX_BLOCK_SIZE < block_size s').
Proof.
  split; [by vm_compute|].
  eapply (prepare_loop_terminates w_rank w_s1 [(w_grant, w_grant_ctx)]); [done| |by vm_compute|by vm_compute|].
  - exact (btc_step_inv w_rank w_s0 w_s1 eq_refl w_step1 (btc_inv_new w_rank 1 1 sample_messenger)).
  - apply N.ltb_lt. by vm_compute.
Defined.

(** A payment whose script fails. *)
Definition w_bad : Txn := TBitcoin (BSend [7] [12803] [8] 30 20 [] 0 5 false).
Definition w_stuck : BitcoinBM := (record_new_txn w_bad (mkTxnCtx 77) w_s3).2.

Lemma prepare_loop_hangs_witness :
  blocked w_stuck 77 ∧ ∀ fuel r s', prepare_loop fuel false 0 w_stuck ≠ (Ok r, s').
Proof.
  assert (blocked w_stuck 77) as Hbl.
  { exists w_bad, (mkTxnCtx 77). split; [by vm_compute|]. split; [|by left].
    unfold w_bad. by do 9 eexists. }
  split; [exact Hbl|]. apply (prepare_loop_hangs w_stuck).
  - by vm_compute.
  - by vm_compute.
  - intros h. replace (pending_txns w_stuck) with [77] by by vm_compute.
    intros ->%list_elem_of_singleton. exact Hbl.
Defined.

Lemma validate_txn_correct_witness :
  validate_txn (txn_pool w_s3) (BSend [7] [12803] [8] 30 20 [] 0 5 false) =
  Ok (bool_decide (sum_inputs (txn_pool w_s3) [7] [12803] = Some (30 + 20))).
Proof.
  apply (validate_txn_correct (txn_pool w_s3) [7] [12803] [8] 30 20 [] 0 5 false); [done| |done|].
  - replace (txn_pool w_s3) with ({[12803 := (w_grant, w_grant_ctx)]} : gmap Hash (Txn * TxnCtx))
      by by vm_compute.
    by intros h t c [_ [= <- _]]%lookup_singleton_Some.
  - intros v. replace (sum_inputs _ _ _) with (Some 50) by by vm_compute. by intros [= <-].
Defined.

Lemma validate_txn_mints_witness :
  validate_txn (txn_pool w_s3) (BSend [7] [12803] [8] (2 ^ 63 + 50) (2 ^ 63) [] 0 5 true) = Ok true ∧
  sum_inputs (txn_pool w_s3) [7] [12803] = Some 50 ∧ 50 < (2 ^ 63 + 50) + 2 ^ 63.
Proof.
  exact (validate_txn_mints (txn_pool w_s3) [7] 50 12803 w_grant_ctx [8] [] 0 5 true
    eq_refl (ltac:(by vm_compute)) eq_refl).
Defined.

(** The same output is spent twice by one payment. *)
Definition w_dup : Txn := TBitcoin (BSend [7] [12803; 12803] [8] 60 40 [] 0 5 true).
Definition w_dup_s : BitcoinBM := (record_new_txn w_dup (mkTxnCtx 78) w_s3).2.

Lemma duplicate_input_mined_but_rejected_witness :
  (∃ s', try_add_txn 78 0 w_dup_s = (Ok (true, 5), s') ∧
     block_under_construction s' = block_under_construction w_dup_s ++ [78]) ∧
  (∀ U sw V, sw_rel U sw V → apply_txn U w_dup (mkTxnCtx 78) sw = Ok None).
Proof.
  apply (duplicate_input_mined_but_rejected w_dup_s 78 [7] [12803; 12803] [8] 60 40 [] 0 5 (mkTxnCtx 78)).
  - done.
  - by vm_compute.
  - intros Hnd. apply NoDup_cons in Hnd as [Hni _]. apply Hni, list_elem_of_here.
  - intros i Hi. assert (i = 12803) as -> by (by rewrite !elem_of_cons in Hi; destruct Hi as [|[|?%elem_of_nil]]).
    apply (bool_decide_unpack _). by vm_compute.
  - done.
Defined.

(** ** Chain switches on concrete branches *)

Definition w_at (id : Hash) (l : list txn_rec) : blk_rec :=
  (mkBlock HDummy l.*1, mkBlkCtx id l.*2).
Definition w_pay (id : Hash) (sender : PubKey) (ins : list Hash) (receiver : PubKey) (out rem : N) : txn_rec :=
  (TBitcoin (BSend sender ins receiver out rem [] 0 5 true), mkTxnCtx id).
Definition w_give (id : Hash) (receiver : PubKey) : txn_rec :=
  (TBitcoin (BGrant 50 receiver), mkTxnCtx id).

Definition w_common := [w_at 1 [w_give 101 [7]]].
Definition w_old := [w_at 2 [w_pay 102 [7] [101] [8] 30 20; w_pay 103 [8] [102] [9] 30 0]].
Definition w_new := [w_at 3 [w_pay 104 [7] [101] [9] 50 0]; w_at 4 [w_pay 105 [9] [104] [7] 10 40]].
Definition w_U : gset Utxo := default ∅ (exec_txns ∅ (chain_recs (w_common ++ w_old))).

Lemma switch_matches_replay_witness :
  ∃ o, branch_switch w_U w_old w_new = Ok o ∧
  match o with
  | Some sw =>
    exec_txns ∅ (chain_recs (w_common ++ w_new)) =
      Some ((w_U ∪ sw_new_utxos sw) ∖ sw_utxos_spent sw) ∧
    sw_txns_applied sw = ids_of w_new ∖ ids_of w_old ∧
    sw_undo_txns sw = ids_of w_old ∖ ids_of w_new
  | None => exec_txns ∅ (chain_recs (w_common ++ w_new)) = None
  end.
Proof.
  apply (switch_matches_replay w_U w_common w_old w_new).
  - by vm_compute.
  - apply (bool_decide_unpack _). by vm_compute.
  - apply (bool_decide_unpack _). by vm_compute.
  - apply N.ltb_lt. by vm_compute.
Defined.

Example w_switch_accepted :
  branch_switch w_U w_old w_new ≫= (λ o, Ok (bool_decide (o = None))) = Ok false.
Proof. by vm_compute. Qed.

(** A payment to oneself with change, on both branches, spent on the new one. *)
Definition w_self := w_pay 102 [7] [101] [7] 30 20.
Definition w_old2 := [w_at 2 [w_self]].
Definition w_new2 := [w_at 3 [w_self]; w_at 4 [w_pay 103 [7] [102] [9] 30 0]].
Definition w_U2 : gset Utxo := default ∅ (exec_txns ∅ (chain_recs (w_common ++ w_old2))).

(** Distinct outputs are needed above: when a payment whose receiver is its
    sender, with change, is on both branches of a switch, undoing and applying
    it leaves its one key both spent-from-new and unspent in the old set, so the
    output a later payment of the new branch consumes survives the switch and
    can be spent again, while the replay of the new chain has it spent. *)
Theorem self_change_survives_switch :
  exec_txns ∅ (chain_recs (w_common ++ w_old2)) = Some w_U2 ∧
  ∃ sw V, branch_switch w_U2 w_old2 w_new2 = Ok (Some sw) ∧
    exec_txns ∅ (chain_recs (w_common ++ w_new2)) = Some V ∧
    (102, [7]) ∉ V ∧ (102, [7]) ∈ (w_U2 ∪ sw_new_utxos sw) ∖ sw_utxos_spent sw.
Proof.
  split; [by vm_compute|].
  destruct (branch_switch w_U2 w_old2 w_new2) as [[sw|]| | |] eqn:E; [|by vm_compute in E..].
  destruct (exec_txns ∅ (chain_recs (w_common ++ w_new2))) as [V|] eqn:EV; [|by vm_compute in EV].
  exists sw, V. split_and!; [done|done| |].
  - assert (V = default ∅ (exec_txns ∅ (chain_recs (w_common ++ w_new2)))) as -> by by rewrite EV.
    apply (bool_decide_unpack _). by vm_compute.
  - assert (sw = match branch_switch w_U2 w_old2 w_new2 with Ok (Some sw) => sw
                 | _ => mkSwitch ∅ ∅ ∅ ∅ 0 end) as -> by by rewrite E.
    apply (bool_decide_unpack _). by vm_compute.
Qed.

(** [wait_to_propose] subtracts a millisecond before it converts to a duration:
    a proof of work shorter than that panics. *)
Lemma wait_to_propose_panics s start :
  pow_time s = Some (start, HEADER_HASH_TIME) → wait_to_propose 0 f64_one s = Panic.
Proof. intros Hp. unfold wait_to_propose. rewrite Hp. by vm_compute. Qed.
