(* ===== verification/BtcCompose.v ===== *)
(** * Bitcoin: block management and decision together

    Block management hands each change of its main chain to the decision stage.
    Here: what it hands over is what the decision stage needs, so that its list
    of undecided blocks is always the end of the main chain. *)

From S2P Require Import Prelude F64 Protocol Peers Config BtcMgmt BtcUtxo BtcChain BtcInv.
From S2P Require BtcDecide.
From S2P Require Import Samples BtcProps.
Import BtcDecide (chained, blk_ids, last_id, follows, pool_has).
Local Open Scope N_scope.

Section Paths.
Context (rank : Hash → nat) (pool : pool_t) (orph : orphans_t).
Context (Hinv : pool_inv rank ∅ ∅ pool orph).

Lemma path_ranks h l x : is_path pool h l → x ∈ blk_ids l → (rank x ≤ rank h)%nat ∧ x ≠ 0.
Proof.
  induction 1 as [|h b c p l Hh Hp Hl IH]; [set_solver|].
  destruct (pi_entry _ _ _ _ _ Hinv _ _ _ _ Hh) as (H0 & q & Hq & Hr).
  rewrite Hp in Hq. injection Hq as <-.
  rewrite BtcDecide.blk_ids_snoc, elem_of_app, list_elem_of_singleton. intros [Hx| ->].
  - destruct (IH Hx). split; [lia|done].
  - by rewrite (pi_id _ _ _ _ _ Hinv _ _ _ _ Hh).
Qed.

(** A path of the pool is a chain, and its last block is where it leads. *)
Lemma path_chained h l : is_path pool h l → chained l ∧ last_id l = h.
Proof.
  induction 1 as [|h b c p l Hh Hp Hl [IH1 IH2]]; [split; [constructor|done]|].
  pose proof (pi_id _ _ _ _ _ Hinv _ _ _ _ Hh) as Hid.
  destruct (pi_entry _ _ _ _ _ Hinv _ _ _ _ Hh) as (H0 & q & Hq & Hr).
  rewrite Hp in Hq. injection Hq as <-.
  split; [|by rewrite BtcDecide.last_id_snoc]. constructor; [done|by rewrite IH2|by rewrite Hid|].
  rewrite Hid. intros Hin. destruct (path_ranks _ _ _ Hl Hin). lia.
Qed.
End Paths.

Section Compose.
Context `{Externals} `{!Bincode BitcoinTxn} `{!Bincode BlockHeader} `{BuildProfile}
  `{HashOrder} `{Transport} `{Libm}.
Context (rank : Hash → nat).

(** The decision stage [d] holds the end of the main chain of [s], all but its
    first [n] blocks. *)
Definition in_step (s : BitcoinBM) (d : BtcDecide.BitcoinDecision) (n : nat) : Prop :=
  ∃ l, is_path (block_pool s) (chain_tail s) l ∧ follows d l n.

Lemma in_step_start id diff pm config :
  in_step (new id diff pm) (BtcDecide.new id config) 0.
Proof. exists []. split; [constructor|]. split_and!; [done|done|]. intros i b c. by rewrite lookup_nil. Qed.

(** C8: whatever a validated block does to the main chain (nothing, an extension,
    a switch to another branch with orphans connected), the decision stage takes
    the blocks reported without a panic and again holds exactly the end of the
    new main chain; the number of blocks it no longer holds changes only when
    the switch goes back behind them, and then to the fork point. *)
Theorem decision_follows_main_chain s d n b c r s' src :
  overflow_checks = false → btc_inv rank s → arriving rank s b c → in_step s d n →
  validate_block b c s = (Ok r, s') →
  ∃ d' n', BtcDecide.new_tail src r d = (Ok tt, d') ∧ in_step s' d' n' ∧ (n' ≤ n)%nat ∧
    (n' < n → r ≠ [] ∧ ∃ com, length com = n' ∧ is_path (block_pool s') (chain_tail s') (com ++ r))%nat.
Proof.
  intros Hov Hinv Har (l & Hl & Hf) Heq.
  pose proof (validate_block_wp rank s b c Hov Hinv Har) as Hwp. unfold wp in Hwp. rewrite Heq in Hwp.
  destruct Hwp as [Hinv' [[-> (Ht & _ & Hp)]|(com & old & Hlo & Hln & Hlen)]].
  - exists d, n. split; [done|]. split; [|split; [done|lia]]. exists l. rewrite Ht.
    split; [by apply Hp|done].
  - assert (l = com ++ old) as -> 
      by exact (is_path_det rank _ _ (bi_pool _ _ Hinv) _ _ _ Hl Hlo).
    destruct (path_chained rank _ _ (bi_pool _ _ Hinv) _ _ Hl) as [Hc1 _].
    destruct (path_chained rank _ _ (bi_pool _ _ Hinv') _ _ Hln) as [Hc2 _].
    assert (r ≠ []) as Hne by (by intros ->; cbn in Hlen; lia).
    pose proof (BtcDecide.new_tail_spec src d com old r n Hf Hc1 Hc2 Hne) as Hw.
    unfold wp in Hw. destruct (BtcDecide.new_tail src r d) as [[[]|e| |] d'] eqn:Hd; try done.
    destruct Hw as [Hf' _]. exists d', (Nat.min n (length com)).
    split; [done|]. split; [by exists (com ++ r)|]. split; [lia|].
    intros Hlt. split; [done|]. exists com. split; [lia|done].
Qed.

(** A block that block management proposes extends what the decision stage
    holds by that block. *)
Theorem decision_follows_proposal s d n b c s' src :
  btc_inv rank s → fresh_id rank s (bc_id c) → in_step s d n →
  get_new_block s = (Ok (b, c), s') →
  ∃ d', BtcDecide.new_tail src [(b, c)] d = (Ok tt, d') ∧ in_step s' d' n.
Proof.
  intros Hinv Hfresh (l & Hl & Hf) Heq.
  destruct (get_new_block_inv rank s b c s' l Hinv Heq Hfresh Hl) as (Hinv' & _ & Hl' & _).
  destruct (path_chained rank _ _ (bi_pool _ _ Hinv) _ _ Hl) as [Hc1 _].
  destruct (path_chained rank _ _ (bi_pool _ _ Hinv') _ _ Hl') as [Hc2 _].
  pose proof (BtcDecide.new_tail_spec src d l [] [(b, c)] n) as Hw. rewrite app_nil_r in Hw.
  specialize (Hw Hf Hc1 Hc2 ltac:(done)).
  unfold wp in Hw. destruct (BtcDecide.new_tail src [(b, c)] d) as [[[]|e| |] d'] eqn:Hd; try done.
  destruct Hw as [Hf' _]. exists d'. split; [done|]. exists (l ++ [(b, c)]). split; [done|].
  destruct Hf as (Hn & _). by rewrite Nat.min_l in Hf' by done.
Qed.

(** What the decision stage commits when it is ready. *)
Lemma ready_commits d l n :
  follows d l n → chained l → BtcDecide.commit_ready d = true →
  ∃ b c d', l !! n = Some (b, c) ∧ BtcDecide.commit_len d ≤ N.of_nat (length l - S n) ∧
    BtcDecide.next_to_commit d = (Ok (N.of_nat n + 1, txns b), d') ∧ follows d' l (S n).
Proof.
  intros Hf Hc Hready. pose proof Hf as (Hn & Ht & _).
  unfold BtcDecide.commit_ready in Hready. apply N.ltb_lt in Hready.
  rewrite Ht, length_drop, BtcDecide.length_blk_ids in Hready.
  destruct (lookup_lt_is_Some_2 l n) as [[b c] Hb]; [lia|].
  assert (∃ proposer p root nonce, header b = HBitcoin proposer p root nonce) as Hh.
  { assert (∃ p, header_prev b = Ok p) as [p Hp].
    { clear -Hc Hb. revert n Hb. induction Hc as [|l b' c' Hc IH Hp _ _]; intros n Hb; [done|].
      apply lookup_app_Some in Hb as [?|[_ Hb]]; [by eapply IH|].
      apply list_lookup_singleton_Some in Hb as [_ [= -> ->]]. by eauto. }
    unfold header_prev in Hp. destruct (header b); try done. by eauto. }
  destruct (BtcDecide.next_to_commit_spec d l n b c Hf Hb Hh) as (d' & Heq & Hf' & _).
  exists b, c, d'. split_and!; try done. lia.
Qed.

(** C9: when the decision stage is ready to commit, what it commits is the next
    block of the main chain, with its height, and that block is buried under at
    least [commit_len] others. *)
Theorem commits_buried_blocks_in_order s d n :
  btc_inv rank s → in_step s d n → BtcDecide.commit_ready d = true →
  ∃ l b c d', is_path (block_pool s) (chain_tail s) l ∧ l !! n = Some (b, c) ∧
    BtcDecide.commit_len d ≤ N.of_nat (length l - S n) ∧
    BtcDecide.next_to_commit d = (Ok (N.of_nat n + 1, txns b), d') ∧ in_step s d' (S n).
Proof.
  intros Hinv (l & Hl & Hf) Hready.
  destruct (path_chained rank _ _ (bi_pool _ _ Hinv) _ _ Hl) as [Hc _].
  destruct (ready_commits d l n Hf Hc Hready) as (b & c & d' & Hb & Hlen & Heq & Hf').
  exists l, b, c, d'. split_and!; try done. by exists l.
Qed.
End Compose.

(** ** Concrete runs *)

#[local] Existing Instances sample_externals sample_bincode_btc sample_bincode_header
  sample_transport sample_profile canonical_order sample_libm.

Definition w_d0 : BtcDecide.BitcoinDecision :=
  BtcDecide.new 1 (mkBitcoinBasicConfig 25 0 DGossip DGossip).
Definition w_d1 : BtcDecide.BitcoinDecision := (BtcDecide.new_tail 1 [(w_blk, w_blk_ctx)] w_d0).2.
Definition w_accepted : BitcoinBM := (validate_block w_blk w_blk_ctx w_s0).2.

Lemma w_in_step0 : in_step w_s0 w_d0 0.
Proof. apply in_step_start. Qed.

Lemma w_in_step2 : in_step w_s2 w_d0 0.
Proof. exists []. split; [constructor|]. split_and!; [done|done|]. intros i b c. by rewrite lookup_nil. Qed.

Lemma w_in_step3 : in_step w_s3 w_d1 0.
Proof.
  exists ([] ++ [(w_blk, w_blk_ctx)]). split.
  - apply (path_snoc _ _ _ _ 0); [by vm_compute|done|constructor].
  - split; [cbn; lia|]. split; [by vm_compute|]. intros [|[|i]] b c; cbn; [|done|done].
    intros [= <- <-]. by vm_compute.
Qed.

Lemma w_inv3 : btc_inv w_rank w_s3.
Proof. exact (btc_step_inv w_rank w_s2 w_s3 eq_refl w_step3 w_inv). Qed.

Lemma decision_follows_main_chain_witness :
  validate_block w_blk w_blk_ctx w_s0 = (Ok [(w_blk, w_blk_ctx)], w_accepted) ∧
  ∃ d' n', BtcDecide.new_tail 2 [(w_blk, w_blk_ctx)] w_d0 = (Ok tt, d') ∧
    in_step w_accepted d' n' ∧ (n' ≤ 0)%nat ∧
    (n' < 0 → [(w_blk, w_blk_ctx)] ≠ [] ∧ ∃ com, length com = n' ∧
      is_path (block_pool w_accepted) (chain_tail w_accepted) (com ++ [(w_blk, w_blk_ctx)]))%nat.
Proof.
  assert (validate_block w_blk w_blk_ctx w_s0 = (Ok [(w_blk, w_blk_ctx)], w_accepted)) as Heq
    by by vm_compute.
  split; [exact Heq|].
  exact (decision_follows_main_chain w_rank w_s0 w_d0 0 w_blk w_blk_ctx _ _ 2 eq_refl
    (btc_inv_new w_rank 1 1 sample_messenger) w_arriving w_in_step0 Heq).
Defined.

Lemma decision_follows_proposal_witness :
  ∃ d', BtcDecide.new_tail 1 [(w_blk, w_blk_ctx)] w_d0 = (Ok tt, d') ∧ in_step w_s3 d' 0.
Proof.
  exact (decision_follows_proposal w_rank w_s2 w_d0 0 w_blk w_blk_ctx w_s3 1 w_inv w_fresh
    w_in_step2 w_propose).
Defined.

Lemma commits_buried_blocks_in_order_witness :
  ∃ l b c d', is_path (block_pool w_s3) (chain_tail w_s3) l ∧ l !! 0%nat = Some (b, c) ∧
    BtcDecide.commit_len w_d1 ≤ N.of_nat (length l - 1) ∧
    BtcDecide.next_to_commit w_d1 = (Ok (N.of_nat 0 + 1, txns b), d') ∧ in_step w_s3 d' 1.
Proof.
  exact (commits_buried_blocks_in_order w_rank w_s3 w_d1 0 w_inv3 w_in_step3
    ltac:(by vm_compute)).
Defined.
