(* ===== verification/AvaProps.v ===== *)
(** * Avalanche decision: properties

    No transaction is committed twice, the recursive preference with its cache
    agrees with the definition on the DAG, the walk that invalidates the cache
    drops exactly the descendants, votes are counted per transaction, and what
    goes wrong when a preference flips. *)

From S2P Require Import Prelude F64 Protocol Peers Utils AvaDecide Samples.
Local Open Scope N_scope.

(** ** What the handlers do to the DAG, the pool and the commit queue *)

(** Nothing. *)
Definition same_dag (s s' : AvalancheDecision) : Prop :=
  txn_pool s' = txn_pool s ∧ commit_queue s' = commit_queue s ∧ txn_dag s' = txn_dag s.

(** The transactions of [l] leave the DAG, and maybe some no-ops. *)
Definition commits (s : AvalancheDecision) (l : list Hash) (s' : AvalancheDecision) : Prop :=
  txn_pool s' = txn_pool s ∧ commit_queue s' = commit_queue s ∧
  dom (txn_dag s') ⊆ dom (txn_dag s) ∧ NoDup l ∧
  ∀ x, x ∈ l → x ∈ dom (txn_dag s) ∧ x ∉ dom (txn_dag s').

Lemma same_dag_refl s : same_dag s s.
Proof. done. Qed.

Lemma same_dag_trans s1 s2 s3 : same_dag s1 s2 → same_dag s2 s3 → same_dag s1 s3.
Proof. intros (? & ? & ?) (? & ? & ?). split_and!; congruence. Qed.

Lemma commits_refl s : commits s [] s.
Proof. split_and!; try done; [constructor|set_solver]. Qed.

Lemma same_dag_commits s s' : same_dag s s' → commits s [] s'.
Proof.
  intros (Hp & Hq & Hd). split; [done|]. split; [done|]. rewrite Hd.
  split; [done|]. split; [constructor|set_solver].
Qed.

Lemma commits_trans s1 l1 s2 l2 s3 :
  commits s1 l1 s2 → commits s2 l2 s3 → commits s1 (l1 ++ l2) s3.
Proof.
  intros (P1 & Q1 & D1 & N1 & L1) (P2 & Q2 & D2 & N2 & L2).
  split; [congruence|]. split; [congruence|]. split; [by etrans|]. split.
  - apply NoDup_app. split; [done|]. split; [|done].
    intros x H1 H2. by destruct (L1 x H1), (L2 x H2).
  - intros x [H1|H2]%elem_of_app.
    + destruct (L1 x H1). split; [done|]. by intros ?%D2.
    + destruct (L2 x H2). split; [by apply D1|done].
Qed.

(** Calls that leave DAG, pool and queue alone, whatever their outcome. *)
Definition keeps_dag {A} (m : M AvalancheDecision A) : Prop :=
  ∀ s0 s, same_dag s0 s → wlp m (λ _, same_dag s0) (same_dag s0) s.

Definition does_commit (s0 : AvalancheDecision) (l0 : list Hash) (m : M AvalancheDecision (list Hash))
    (s : AvalancheDecision) : Prop :=
  wlp m (λ l s', commits s0 (l0 ++ l) s') (λ s', ∃ l, commits s0 l s') s.

Lemma keeps_dag_conflict_set fuel h c utxo acc : keeps_dag (vote_conflict_set fuel h c utxo acc).
Proof.
  intros s0 s Hs. unfold vote_conflict_set. wlp_steps; try done.
  case_decide; wlp_steps; try done. case_match; wlp_steps; try done.
Qed.

Lemma keeps_dag_conflict_sets fuel h c keys acc : keeps_dag (vote_conflict_sets fuel h c keys acc).
Proof.
  revert acc. induction keys as [|k keys IH]; intros acc s0 s Hs; cbn; wlp_steps; [done|].
  eapply wlp_mono; [by apply keeps_dag_conflict_set| |done]. intros acc' s' Hs'. by apply IH.
Qed.

Lemma keeps_dag_strongly fuel h : keeps_dag (is_strongly_preferred fuel h).
Proof.
  revert h. induction fuel as [|fuel IH]; intros h s0 s Hs; [done|]. cbn. wlp_steps.
  destruct (txn_dag _ !! h) as [node|]; wlp_steps; [|done].
  destruct (preference_cache _ !! h); wlp_steps; [done| |done].
  assert (∀ ps, keeps_dag (all_strongly_preferred (is_strongly_preferred fuel) ps)) as Hall.
  { induction ps as [|p ps IHps]; intros t0 t Ht; cbn; wlp_steps; [done|].
    eapply wlp_mono; [by apply IH| |done]. intros [] t' Ht'; [by apply IHps|done]. }
  case_match; wlp_steps; [|done].
  eapply wlp_mono; [by apply Hall| |done]. intros b s' Hs'. by wlp_steps.
Qed.

Lemma keeps_dag_reset_count utxo : keeps_dag (reset_count utxo).
Proof. intros s0 s Hs. unfold reset_count. by wlp_steps. Qed.

Lemma keeps_dag_mfor {A} (xs : list A) f : (∀ x, keeps_dag (f x)) → keeps_dag (mfor xs f).
Proof.
  intros Hf s0 s Hs. apply (wlp_mfor (λ _, same_dag s0)); [|done].
  intros x xs' s' Hs'. by apply Hf.
Qed.

Lemma keeps_dag_reset_counts fuel frontier dedup : keeps_dag (reset_counts fuel frontier dedup).
Proof.
  revert frontier dedup. induction fuel as [|fuel IH]; intros [|h rest] dedup s0 s Hs; cbn;
    wlp_steps; try done.
  case_decide; [by apply IH|]. wlp_steps.
  destruct (txn_dag s !! h) as [node|]; [|by apply IH]. wlp_steps; try done.
  apply (wlp_mono _ (λ _, same_dag s0) _ (same_dag s0)); [|intros ? s' Hs'; by apply IH|done].
  case_match; wlp_steps; try done. by apply keeps_dag_mfor; [intros x; apply keeps_dag_reset_count|].
Qed.

(** ** Votes commit each transaction of the DAG at most once *)

Lemma vote_txn_commits fuel h node s :
  h ∈ dom (txn_dag s) → does_commit s [] (vote_txn fuel h node) s.
Proof.
  intros Hh. unfold does_commit, vote_txn.
  assert (∀ s', same_dag s s' → ∃ l, commits s l s') as Hend.
  { intros s' Hs'. exists []. by apply same_dag_commits. }
  assert (∀ s', same_dag s s' → ∀ cs : bool * N, ∀ txn,
    wlp (accepted ← gets (λ s, is_accepted s (parents node) cs.1 cs.2);
         if (accepted : bool) then
           modify (λ s, s <| txn_dag ::= delete h |> <| preference_cache ::= delete h |>) ;;
           mret (if committable txn then [h] else [])
         else mret []) (λ l s', commits s l s') (λ s', ∃ l, commits s l s') s') as Hrest.
  { intros s' (Hp & Hq & Hd) cs txn. wlp_steps. case_match; wlp_steps.
    - split; [done|]. split; [done|]. cbn. rewrite dom_delete_L, Hd.
      split; [set_solver|]. case_match; (split; [|set_solver]);
        [apply NoDup_singleton|constructor].
    - by apply same_dag_commits. }
  wlp_steps; try by apply Hend.
  case_match; wlp_steps; try (by apply Hend).
  - apply (wlp_mono _ (λ _, same_dag s) _ (same_dag s)); [by apply keeps_dag_conflict_sets| |done].
    intros cs s' Hs'. by apply Hrest.
  - by apply Hrest.
  - by apply Hrest.
Qed.

(** The transactions already seen stay in the DAG. *)
Definition kept (s : AvalancheDecision) (seen : gset Hash) (s' : AvalancheDecision) : Prop :=
  ∀ x, x ∈ seen → x ∈ dom (txn_dag s) → x ∈ dom (txn_dag s').

Definition helper_commits (rec : Hash → gset Hash → M AvalancheDecision (list Hash * gset Hash)) : Prop :=
  ∀ h dedup s, wlp (rec h dedup)
    (λ r s', commits s r.1 s' ∧ dedup ⊆ r.2 ∧ kept s dedup s') (λ s', ∃ l, commits s l s') s.

Lemma vote_parents_commits rec ps acc dedup0 dedup s0 s :
  helper_commits rec → commits s0 acc s → dedup0 ⊆ dedup → kept s0 dedup0 s →
  wlp (vote_parents rec ps acc dedup)
    (λ r s', commits s0 r.1 s' ∧ dedup0 ⊆ r.2 ∧ kept s0 dedup0 s') (λ s', ∃ l, commits s0 l s') s.
Proof.
  intros Hrec. revert acc dedup s. induction ps as [|p ps IH]; intros acc dedup s Hs Hsub Hk; cbn;
    wlp_steps; [done|].
  eapply wlp_mono; [apply Hrec| |].
  - intros r s' (Hr & Hsub' & Hk'). apply IH; [by eapply commits_trans|set_solver|].
    intros x Hx Hd. apply Hk'; [by apply Hsub|by apply Hk].
  - intros s' [l Hl]. exists (acc ++ l). by eapply commits_trans.
Qed.

Lemma vote_txn_keeps fuel h node s seen :
  h ∉ seen → wlp (vote_txn fuel h node) (λ _, kept s seen) (λ _, True) s.
Proof.
  intros Hh. unfold vote_txn.
  assert (∀ s', same_dag s s' → ∀ cs : bool * N, ∀ txn,
    wlp (accepted ← gets (λ s, is_accepted s (parents node) cs.1 cs.2);
         if (accepted : bool) then
           modify (λ s, s <| txn_dag ::= delete h |> <| preference_cache ::= delete h |>) ;;
           mret (if committable txn then [h] else [])
         else mret []) (λ _, kept s seen) (λ _, True) s') as Hrest.
  { intros s' (_ & _ & Hd) cs txn. wlp_steps.
    case_match; wlp_steps; intros x Hx; [|by rewrite Hd]. cbn. rewrite dom_delete_L, Hd. set_solver. }
  wlp_steps; try done. case_match; wlp_steps; try done; try by apply Hrest.
  apply (wlp_mono _ (λ _, same_dag s) _ (same_dag s)); [by apply keeps_dag_conflict_sets| |done].
  intros cs s' Hs'. by apply Hrest.
Qed.

Lemma wlp_and {S A} (m : M S A) Q1 Q2 R1 R2 (s : S) :
  wlp m Q1 R1 s → wlp m Q2 R2 s → wlp m (λ a s', Q1 a s' ∧ Q2 a s') (λ s', R1 s' ∧ R2 s') s.
Proof. unfold wlp. by destruct (m s) as [[]]. Qed.

Lemma handle_votes_helper_commits fuel : helper_commits (handle_votes_helper fuel).
Proof.
  induction fuel as [|fuel IH]; intros h dedup s; cbn.
  { exists []. apply commits_refl. }
  case_decide as Hseen; [split_and!; [apply commits_refl|done|by intros x]|]. wlp_steps.
  destruct (txn_dag s !! h) as [node|] eqn:Hh; wlp_steps;
    [|split; [apply commits_refl|split; [set_solver|by intros x]]].
  eapply wlp_mono; [apply (vote_parents_commits _ _ _ ({[h]} ∪ dedup) _ s s IH);
    [apply commits_refl|done|by intros x]| |done].
  intros [l dd] s1 (Hs1 & Hsub & Hk). cbn [fst snd] in *. wlp_steps.
  assert (h ∈ dom (txn_dag s1)) as Hh1.
  { apply Hk; [set_solver|]. by apply elem_of_dom_2 in Hh. }
  eapply wlp_mono; [apply wlp_and; [by apply vote_txn_commits|by apply (vote_txn_keeps _ _ _ _ dedup)]| |].
  - intros own s2 [Hown Hk2]. wlp_steps. cbn [fst snd]. split_and!.
    + by eapply commits_trans.
    + set_solver.
    + intros x Hx Hd. apply Hk2; [done|]. apply Hk; [set_solver|done].
  - intros s2 [[own Hown] _]. exists (l ++ own). by eapply commits_trans.
Qed.

Lemma tally_commits fuel txns av acc s0 s :
  commits s0 acc s → wlp (tally fuel txns av acc) (commits s0) (λ s', ∃ l, commits s0 l s') s.
Proof.
  revert av acc s. induction txns as [|o txns IH]; intros av acc s Hs; cbn; [done|].
  assert (∀ s', same_dag s s' → commits s0 acc s') as Hsame.
  { intros s' Hs'. rewrite <- (app_nil_r acc). eapply commits_trans; [done|by apply same_dag_commits]. }
  destruct o as [h|], av as [|v av]; wlp_steps; try by eauto. case_match; wlp_steps.
  - eapply wlp_mono; [apply handle_votes_helper_commits| |].
    + intros [l dd] s1 (Hl & _). cbn [fst snd] in *. wlp_steps.
      assert (commits s0 (acc ++ l) s1) as Hl1.
      { eapply commits_trans; [|exact Hl]. by apply Hsame. }
      case_decide; wlp_steps; by apply IH.
    + intros s1 [l Hl]. exists (acc ++ l). eapply commits_trans; [by apply Hsame|done].
  - apply (wlp_mono _ (λ _, same_dag s) _ (same_dag s)); [by apply keeps_dag_reset_counts| |by eauto].
    intros _ s1 Hs1. apply IH. by apply Hsame.
Qed.

(** ** No transaction is committed twice *)

Definition committed (hist : list Hash) (s : AvalancheDecision) : list Hash :=
  hist ++ concat (commit_queue s).*2.

(** [hist]: the hashes handed out so far. *)
Definition commit_once (hist : list Hash) (s : AvalancheDecision) : Prop :=
  NoDup (committed hist s) ∧ dom (txn_dag s) ⊆ dom (txn_pool s) ∧
  ∀ x, x ∈ committed hist s → x ∈ dom (txn_pool s) ∧ x ∉ dom (txn_dag s).

Lemma commit_once_same hist s s' : same_dag s s' → commit_once hist s → commit_once hist s'.
Proof. intros (Hp & Hq & Hd). unfold commit_once, committed. by rewrite Hp, Hq, Hd. Qed.

(** Dropping from the DAG what is not queued yet. *)
Lemma commit_once_drop hist s l s' : commits s l s' → commit_once hist s → commit_once hist s'.
Proof.
  intros (Hp & Hq & Hd & _) (Hnd & Hsub & Hin). unfold commit_once, committed in *. rewrite Hp, Hq.
  split; [done|]. split; [by etrans|]. intros x Hx. destruct (Hin x Hx). split; [done|].
  by intros ?%Hd.
Qed.

Lemma commit_once_push hist s l s' blk :
  commits s l s' → commit_once hist s →
  commit_once hist (s' <| commit_total ::= λ c, c + N.of_nat (length l) |>
                       <| commit_queue ::= λ q, q ++ [(blk, l)] |>).
Proof.
  intros (Hp & Hq & Hd & Hnl & Hl) (Hnd & Hsub & Hin). unfold commit_once, committed in *. cbn.
  rewrite Hp, Hq, fmap_app, concat_app. cbn. rewrite app_nil_r, (assoc_L (++)).
  split; [|split; [by etrans|]].
  - apply NoDup_app. split; [done|]. split; [|done]. intros x Hx Hx'.
    by destruct (Hin x Hx), (Hl x Hx').
  - intros x [Hx|Hx]%elem_of_app.
    + destruct (Hin x Hx). split; [done|]. by intros ?%Hd.
    + destruct (Hl x Hx). split; [by apply Hsub|done].
Qed.

Section Once.
Context `{Externals} `{!Bincode (N * list bool)} `{!Bincode VoteMsg} `{Transport} `{Channel}.
Context (hist : list Hash).

Definition once_ok {A} (m : M AvalancheDecision A) : Prop :=
  ∀ s, commit_once hist s → wlp m (λ _, commit_once hist) (commit_once hist) s.

Lemma once_handle_votes fuel blk : once_ok (handle_votes fuel blk).
Proof.
  intros s Hs. unfold handle_votes. wlp_steps.
  destruct (query_pool s !! blk) as [txns|]; wlp_steps; try done.
  match goal with |- wlp _ _ _ ?s1 => assert (commit_once hist s1) as Hs1 by done end.
  eapply wlp_mono; [apply tally_commits, commits_refl| |].
  - intros l s2 Hl. unfold feedback. wlp_steps.
    pose proof (commit_once_push hist _ _ _ blk Hl Hs1) as Hp.
    apply wlp_chan_send; (eapply commit_once_same; [|exact Hp]); done.
  - intros s2 [l Hl]. by eapply commit_once_drop.
Qed.

Lemma once_record_votes fuel blk src vs : once_ok (record_votes fuel blk src vs).
Proof.
  intros s Hs. unfold record_votes. wlp_steps. case_decide; wlp_steps; [done| |done].
  case_match; wlp_steps; [|done]. by apply once_handle_votes.
Qed.

Lemma dom_add_to_dag h ps dag : dom (add_to_dag h ps dag) = {[h]} ∪ dom dag.
Proof.
  unfold add_to_dag. rewrite <- (dom_insert_L dag h (mkDagNode ps [])).
  generalize (<[h := mkDagNode ps []]> dag) as d. induction ps as [|p ps IH]; intros d; cbn; [done|].
  rewrite IH. unfold add_child. destruct (d !! p) eqn:E; [|done].
  rewrite dom_insert_L. apply elem_of_dom_2 in E. set_solver.
Qed.

Lemma once_record_txn txn ctx ps keys : once_ok (record_txn txn ctx ps keys).
Proof.
  intros s (Hnd & Hsub & Hin). unfold record_txn. wlp_steps.
  destruct (txn_pool s !! tc_id ctx) as [x|] eqn:E; wlp_steps; [done|].
  unfold commit_once, committed in *. cbn. rewrite dom_add_to_dag, dom_insert_L.
  apply not_elem_of_dom in E. split; [done|]. split; [set_solver|].
  intros y Hy. destruct (Hin y Hy). split; [set_solver|]. set_solver.
Qed.

Lemma once_same {A} (m : M AvalancheDecision A) : keeps_dag m → once_ok m.
Proof.
  intros Hm s Hs. eapply wlp_mono; [apply (Hm s s), same_dag_refl| |]; cbn beta.
  - intros _ s' Hs'. by eapply commit_once_same.
  - intros s' Hs'. by eapply commit_once_same.
Qed.

Lemma once_vote_on fuel txn ctx : once_ok (vote_on fuel txn ctx).
Proof.
  intros s Hs. unfold vote_on.
  assert (∀ ps keys (k : M AvalancheDecision (bool * option Hash)), once_ok k →
    wlp (record_txn txn ctx ps keys ;; k) (λ _, commit_once hist) (commit_once hist) s) as Hrec.
  { intros ps keys k Hk. wlp_steps. eapply wlp_mono; [by apply once_record_txn| |done].
    intros ? s' Hs'. by apply Hk. }
  assert (∀ h, once_ok (v ← query_txn fuel h; mret (v, Some h))) as Hq.
  { intros h s' Hs'. unfold query_txn. wlp_steps.
    eapply wlp_mono; [apply (once_same _ (keeps_dag_strongly fuel h)); done| |done].
    intros v s2 Hs2. by wlp_steps. }
  assert (∀ (b : bool) (o : option Hash), once_ok (mret (b, o))) as Hret
    by (intros b o s' Hs'; by wlp_steps).
  destruct txn as [|t|[]]; try done; by apply Hrec.
Qed.

Lemma once_vote_batch fuel ts cs : once_ok (vote_batch fuel ts cs).
Proof.
  revert cs. induction ts as [|t ts IH]; intros [|c cs] s Hs; cbn; try done. wlp_steps.
  eapply wlp_mono; [by apply once_vote_on| |done]. intros v s1 Hs1. wlp_steps.
  eapply wlp_mono; [by apply IH| |done]. intros vs s2 Hs2. by wlp_steps.
Qed.

Lemma once_send_votes proposer blk vs : once_ok (send_votes proposer blk vs).
Proof.
  intros s Hs. unfold send_votes. wlp_steps; try done.
  unfold pm_delayed_send, wlp, hub. by destruct (hub_accepts _ _).
Qed.

Lemma once_new_tail fuel now src tail : once_ok (new_tail fuel now src tail).
Proof.
  intros s Hs. destruct tail as [|[b c] [|]]; cbn; wlp_steps; try done.
  destruct (header b); try done. wlp_steps; try done.
  eapply wlp_mono; [by apply once_vote_batch| |done]. intros vs s1 Hs1. wlp_steps.
  destruct (decide (proposer = ad_id s1)); wlp_steps;
    [by apply once_record_votes|by apply once_send_votes].
Qed.

Lemma once_handle_timeout fuel : once_ok (handle_timeout fuel).
Proof.
  intros s Hs. unfold handle_timeout. wlp_steps; try done.
  case_decide; wlp_steps; [done|by apply once_handle_votes].
Qed.

Lemma once_handle_peer_msg fuel src content : once_ok (handle_peer_msg fuel src content).
Proof.
  intros s Hs. unfold handle_peer_msg. wlp_steps; try done. case_decide; wlp_steps; try done.
  case_match; wlp_steps; [by apply once_record_votes|done].
Qed.

Lemma next_to_commit_queue s r s' :
  next_to_commit s = (r, s') →
  commit_queue s = [] ∧ s' = s ∨
  ∃ b hs q, commit_queue s = (b, hs) :: q ∧ s' = s <| commit_queue := q |> ∧
    ∀ txns, r = Ok (b, txns) → ∃ es, lookup_all (txn_pool s) hs = Ok es ∧ txns = es.*1.
Proof.
  unfold next_to_commit, mbind, M_bind, gets.
  destruct (commit_queue s) as [|[b hs] q]; [intros [= _ <-]; by left|].
  unfold modify, lift_res. cbn. intros Heq. right. exists b, hs, q. split; [done|].
  destruct (lookup_all (txn_pool s) hs) as [es|e| |]; cbn in Heq; injection Heq as <- <-;
    (split; [done|]; intros txns Hr; try done).
  injection Hr as <-. by exists es.
Qed.
End Once.

(** The calls of the decision thread, with any outcome; the history records what
    is handed to the commit stage. *)
Inductive decide_step `{Externals} `{!Bincode (N * list bool)} `{!Bincode VoteMsg} `{Transport} `{Channel} :
    AvalancheDecision * list Hash → AvalancheDecision * list Hash → Prop :=
| dstep_new_tail s hist fuel now src tail r s' :
  new_tail fuel now src tail s = (r, s') → decide_step (s, hist) (s', hist)
| dstep_timeout s hist fuel r s' :
  handle_timeout fuel s = (r, s') → decide_step (s, hist) (s', hist)
| dstep_peer_msg s hist fuel src content r s' :
  handle_peer_msg fuel src content s = (r, s') → decide_step (s, hist) (s', hist)
| dstep_commit s hist b hs q r s' :
  commit_queue s = (b, hs) :: q → next_to_commit s = (r, s') →
  decide_step (s, hist) (s', hist ++ hs).

Section OnceTheorem.
Context `{Externals} `{!Bincode (N * list bool)} `{!Bincode VoteMsg} `{Transport} `{Channel}.

Lemma decide_step_once x y :
  decide_step x y → commit_once x.2 x.1 → commit_once y.2 y.1.
Proof.
  intros Hstep Hs.
  destruct Hstep as [s hist fuel now src tail r s' Heq|s hist fuel r s' Heq
    |s hist fuel src content r s' Heq|s hist b hs q r s' Hq Heq]; cbn [fst snd] in *.
  - pose proof (wlp_state _ _ _ (once_new_tail hist fuel now src tail s Hs)) as Hw. by rewrite Heq in Hw.
  - pose proof (wlp_state _ _ _ (once_handle_timeout hist fuel s Hs)) as Hw. by rewrite Heq in Hw.
  - pose proof (wlp_state _ _ _ (once_handle_peer_msg hist fuel src content s Hs)) as Hw.
    by rewrite Heq in Hw.
  - apply next_to_commit_queue in Heq as [[? _]|(b' & hs' & q' & Hq' & -> & _)]; [congruence|].
    rewrite Hq in Hq'. injection Hq' as <- <- <-. destruct Hs as (Hnd & Hsub & Hin).
    unfold commit_once, committed in *. rewrite Hq in *. cbn in *. by rewrite <- (assoc_L (++)).
Qed.

Lemma commit_once_start s : txn_dag s = ∅ → commit_queue s = [] → commit_once [] s.
Proof.
  intros Hd Hq. unfold commit_once, committed. rewrite Hd, Hq. cbn. rewrite dom_empty_L.
  split; [constructor|]. set_solver.
Qed.

(** C3: over every run of the decision stage, whatever batches, votes, forged
    messages and timeouts arrive and whatever errors they end in, the hashes
    handed to the commit stage never repeat. *)
Theorem no_double_commit s0 s hist :
  txn_dag s0 = ∅ → commit_queue s0 = [] → rtc decide_step (s0, []) (s, hist) → NoDup hist.
Proof.
  intros Hd Hq Hsteps.
  assert (commit_once hist s) as (Hnd & _).
  { apply (rtc_ind_r (λ y, commit_once y.2 y.1) (s0, [])) in Hsteps; [done| |].
    - by apply commit_once_start.
    - intros y z _ Hyz Hy. by eapply decide_step_once. }
  by apply NoDup_app in Hnd as (? & _).
Qed.
End OnceTheorem.

(** ** Preference, with its cache *)

(** [p] is a parent of [h] still in the DAG. *)
Definition parent_of (dag : gmap Hash DagNode) (h p : Hash) : Prop :=
  ∃ node, dag !! h = Some node ∧ p ∈ parents node ∧ is_Some (dag !! p).

(** The definition: the transaction and all its ancestors that are still
    undecided are preferred in each of their conflict sets. *)
Definition strongly_preferred (s : AvalancheDecision) (h : Hash) : Prop :=
  ∀ a, rtc (parent_of (txn_dag s)) h a → is_Some (txn_dag s !! a) →
    is_preferred (txn_pool s) (conflict_sets s) a = Ok true.

(** Every undecided transaction is known, with its conflict sets. *)
Definition dag_ok (rank : Hash → nat) (s : AvalancheDecision) : Prop :=
  (∀ h, is_Some (txn_dag s !! h) → ∃ b, is_preferred (txn_pool s) (conflict_sets s) h = Ok b) ∧
  (∀ h p, parent_of (txn_dag s) h p → (rank p < rank h)%nat).

(** Cached answers of undecided transactions are right. *)
Definition cache_ok (s : AvalancheDecision) : Prop :=
  ∀ h v, preference_cache s !! h = Some v → is_Some (txn_dag s !! h) →
    (v = true ↔ strongly_preferred s h).

Lemma strongly_preferred_accepted s h : txn_dag s !! h = None → strongly_preferred s h.
Proof.
  intros Hh a Ha [node Hn]. apply rtc_inv in Ha as [<-|(p & (n & Hp & _) & _)]; congruence.
Qed.

Lemma strongly_preferred_step s h node :
  txn_dag s !! h = Some node →
  strongly_preferred s h ↔
  is_preferred (txn_pool s) (conflict_sets s) h = Ok true ∧
  ∀ p, p ∈ parents node → strongly_preferred s p.
Proof.
  intros Hh. split.
  - intros Hs. split; [apply Hs; [done|by eauto]|]. intros p Hp a Ha Hsome.
    destruct (decide (is_Some (txn_dag s !! p))) as [Hps|Hps].
    + apply Hs; [|done]. eapply rtc_l; [|done]. by exists node.
    + assert (txn_dag s !! p = None) as Hn by (by apply eq_None_not_Some).
      by eapply (strongly_preferred_accepted s p Hn).
  - intros [Hp Hps] a Ha Hsome. apply rtc_inv in Ha as [<-|(p & (n & Hn & Hin & _) & Ha)]; [done|].
    rewrite Hh in Hn. injection Hn as <-. by eapply Hps.
Qed.

(** Only the cache and a counter change. *)
Definition only_cache (s s' : AvalancheDecision) : Prop :=
  ∃ c n, s' = s <| preference_cache := c |> <| is_preferred_checks := n |>.

Lemma only_cache_refl s : only_cache s s.
Proof. exists (preference_cache s), (is_preferred_checks s). by destruct s. Qed.

Lemma only_cache_trans s1 s2 s3 : only_cache s1 s2 → only_cache s2 s3 → only_cache s1 s3.
Proof. intros (c1 & n1 & ->) (c2 & n2 & ->). by exists c2, n2. Qed.

Lemma only_cache_strongly s s' h :
  only_cache s s' → strongly_preferred s' h ↔ strongly_preferred s h.
Proof. by intros (c & n & ->). Qed.

Lemma only_cache_dag_ok rank s s' : only_cache s s' → dag_ok rank s → dag_ok rank s'.
Proof. by intros (c & n & ->). Qed.

(** Fuel that suffices: one more than the rank, plus one for the last call. *)
Definition fuel_ok (rank : Hash → nat) (fuel : nat) (s : AvalancheDecision) (h : Hash) : Prop :=
  (0 < fuel)%nat ∧ (is_Some (txn_dag s !! h) → S (rank h) < fuel)%nat.

Definition answers (rank : Hash → nat) (fuel : nat) (rec : Hash → M AvalancheDecision bool) : Prop :=
  ∀ h s, dag_ok rank s → cache_ok s → fuel_ok rank fuel s h →
    wp (rec h) (λ b s', (b = true ↔ strongly_preferred s h) ∧ cache_ok s' ∧ only_cache s s')
      (λ _ _, False) s.

Lemma all_strongly_preferred_wp rank fuel rec ps s :
  answers rank fuel rec → dag_ok rank s → cache_ok s →
  (∀ p, p ∈ ps → fuel_ok rank fuel s p) →
  wp (all_strongly_preferred rec ps)
    (λ b s', (b = true ↔ ∀ p, p ∈ ps → strongly_preferred s p) ∧ cache_ok s' ∧ only_cache s s')
    (λ _ _, False) s.
Proof.
  intros Hrec. revert s. induction ps as [|p ps IH]; intros s Hd Hc Hps; cbn; wp_steps.
  { split; [|split; [done|apply only_cache_refl]]. split; [set_solver|done]. }
  eapply wp_mono; [apply Hrec; try done; apply Hps, list_elem_of_here| |done].
  intros b s1 (Hb & Hc1 & Ho). cbn beta. destruct b.
  - eapply wp_mono; [apply IH; [by eapply only_cache_dag_ok|done|]| |done].
    + intros q Hq. destruct Ho as (c & n & ->). apply Hps. by apply list_elem_of_further.
    + intros b s2 (Hb2 & Hc2 & Ho2). split; [|split; [done|by eapply only_cache_trans]].
      rewrite Hb2. setoid_rewrite (only_cache_strongly _ _ _ Ho). setoid_rewrite elem_of_cons.
      split; [|by auto]. intros Hall q [->|Hq]; [by apply Hb|by apply Hall].
  - wp_steps. split; [|done]. split; [done|]. intros Hall.
    apply Hb, Hall, list_elem_of_here.
Qed.

Lemma cache_ok_set s h b :
  cache_ok s → (b = true ↔ strongly_preferred s h) →
  cache_ok (s <| preference_cache ::= <[h := b]> |>).
Proof.
  intros Hc Hb x v. cbn. rewrite lookup_insert_Some. intros [[<- <-]|[_ Hx]] Hs; [done|by apply Hc].
Qed.

Lemma is_strongly_preferred_wp rank fuel : answers rank fuel (is_strongly_preferred fuel).
Proof.
  induction fuel as [|fuel IH]; intros h s Hd Hc [Hf Hfh]; [lia|]. cbn. wp_steps.
  match goal with |- wp _ _ _ ?x => set (s1 := x) end.
  assert (only_cache s s1) as Ho1 by (exists (preference_cache s), (N.succ (is_preferred_checks s)); done).
  destruct (txn_dag s1 !! h) as [node|] eqn:Hh; wp_steps.
  2: { split; [|done]. split; [|done]. intros _. by apply (strongly_preferred_accepted s h). }
  destruct (preference_cache s1 !! h) as [v|] eqn:Hv; wp_steps.
  { split; [|done]. apply (Hc h v Hv). by exists node. }
  destruct Hd as [Hpref Hrank]. destruct (Hpref h ltac:(by exists node)) as [b Hb].
  eapply wp_lift; [exact Hb|]. wp_steps.
  assert (∀ (r : bool) s2, (r = true ↔ strongly_preferred s h) → cache_ok s2 → only_cache s s2 →
    wp (modify (λ s, s <| preference_cache ::= <[h := r]> |>) ;; mret r)
      (λ b s', (b = true ↔ strongly_preferred s h) ∧ cache_ok s' ∧ only_cache s s') (λ _ _, False) s2)
    as Hend.
  { intros r s2 Hr Hc2 Ho2. wp_steps. split; [done|]. split.
    - apply cache_ok_set; [done|]. by rewrite (only_cache_strongly _ _ _ Ho2).
    - destruct Ho2 as (c & n & ->). by do 2 eexists. }
  assert (strongly_preferred s h ↔ b = true ∧ ∀ p, p ∈ parents node → strongly_preferred s p) as Hstep.
  { rewrite (strongly_preferred_step s h node Hh). change (txn_pool s1) with (txn_pool s) in Hb.
    change (conflict_sets s1) with (conflict_sets s) in Hb. rewrite Hb. naive_solver. }
  destruct b; wp_steps; [|by apply Hend; [rewrite Hstep; naive_solver|done|done]].
  eapply wp_mono; [apply (all_strongly_preferred_wp rank fuel); [exact IH|done|done|]| |done].
  - intros p Hp. specialize (Hfh ltac:(by exists node)). split; [lia|]. intros Hps.
    assert (rank p < rank h)%nat; [|lia]. apply Hrank. by exists node.
  - intros r s2 (Hr & Hc2 & Ho2). cbn beta. apply Hend; [|done|exact (only_cache_trans _ _ _ Ho1 Ho2)].
    rewrite Hr, Hstep. setoid_rewrite (only_cache_strongly _ _ _ Ho1). naive_solver.
Qed.

(** C29: [is_strongly_preferred] returns, on every transaction of a well-formed acyclic
    DAG and with a right cache, and its answer is the definition's: the transaction and
    all its undecided ancestors are preferred in their conflict sets. It leaves the cache
    right. ([stale_preference] has a step of the code that does not.) *)
Theorem strongly_preferred_correct rank fuel h s :
  dag_ok rank s → cache_ok s → (S (rank h) < fuel)%nat →
  ∃ b s', is_strongly_preferred fuel h s = (Ok b, s') ∧
    (b = true ↔ strongly_preferred s h) ∧ cache_ok s' ∧ only_cache s s'.
Proof.
  intros Hd Hc Hf.
  pose proof (is_strongly_preferred_wp rank fuel h s Hd Hc ltac:(split; [lia|done])) as Hwp.
  unfold wp in Hwp. destruct (is_strongly_preferred fuel h s) as [[b|e| |] s']; try done.
  by exists b, s'.
Qed.

(** ** Invalidation *)

Definition child_of (dag : gmap Hash DagNode) (h c : Hash) : Prop :=
  ∃ node, dag !! h = Some node ∧ c ∈ dag_children node.

(** A transaction of the frontier or below one. *)
Definition below (dag : gmap Hash DagNode) (frontier : list Hash) (x : Hash) : Prop :=
  ∃ t, t ∈ frontier ∧ rtc (child_of dag) t x.

Fixpoint weight (w : Hash → nat) (l : list Hash) : nat :=
  match l with [] => 0 | h :: l' => w h + weight w l' end.

Lemma weight_app w l1 l2 : weight w (l1 ++ l2) = (weight w l1 + weight w l2)%nat.
Proof. induction l1 as [|h l1 IH]; cbn; [done|]. rewrite IH. lia. Qed.

(** [w] counts at least the paths below a transaction: the DAG has no cycle. *)
Definition weighs (w : Hash → nat) (dag : gmap Hash DagNode) : Prop :=
  (∀ h, (1 ≤ w h)%nat) ∧
  ∀ h node, dag !! h = Some node → (weight w (dag_children node) < w h)%nat.

Definition children_of (dag : gmap Hash DagNode) (h : Hash) : list Hash :=
  match dag !! h with Some node => dag_children node | None => [] end.

Lemma elem_of_children_of dag h c : c ∈ children_of dag h ↔ child_of dag h c.
Proof.
  unfold children_of, child_of. destruct (dag !! h) as [node|]; [|set_solver].
  split; [by eauto|]. by intros (? & [= <-] & ?).
Qed.

Lemma below_cons dag h rest x :
  below dag (h :: rest) x ↔ x = h ∨ below dag (rest ++ children_of dag h) x.
Proof.
  unfold below. setoid_rewrite elem_of_cons. setoid_rewrite elem_of_app.
  setoid_rewrite elem_of_children_of. split.
  - intros (t & [->|Ht] & Hr); [|right; by eauto].
    apply rtc_inv in Hr as [->|(c & Hc & Hr)]; [by left|right; by eauto].
  - intros [->|(t & [Ht|Hc] & Hr)]; [exists h; split; [by left|done]|by eauto|].
    exists h. split; [by left|]. by eapply rtc_l.
Qed.

Lemma invalidate_ok w dag fuel frontier cache :
  weighs w dag → (weight w frontier ≤ fuel)%nat →
  ∃ cache', invalidate fuel dag frontier cache = Ok cache' ∧
    ∀ x, (below dag frontier x → cache' !! x = None) ∧
         (¬ below dag frontier x → cache' !! x = cache !! x).
Proof.
  intros [Hw1 Hw]. revert frontier cache.
  induction fuel as [|fuel IH]; intros [|h rest] cache Hf; cbn in Hf.
  - exists cache. split; [done|]. intros x. split; [|done]. intros (t & Ht & _). set_solver.
  - pose proof (Hw1 h). lia.
  - exists cache. split; [done|]. intros x. split; [|done]. intros (t & Ht & _). set_solver.
  - cbn. fold (children_of dag h).
    destruct (IH (rest ++ children_of dag h) (delete h cache)) as (cache' & Heq & Hx).
    { rewrite weight_app. unfold children_of. pose proof (Hw1 h).
      destruct (dag !! h) as [node|] eqn:Hh; cbn; [specialize (Hw h node Hh)|]; lia. }
    exists cache'. split; [done|]. intros x. destruct (Hx x) as [H1 H2]. rewrite below_cons. split.
    + intros [->|Hb]; [|by apply H1]. destruct (cache' !! h) as [v|] eqn:Hv; [|done].
      rewrite lookup_delete_eq in H2. apply H2. intros Hb. by specialize (H1 Hb).
    + intros Hn. rewrite H2 by tauto. apply lookup_delete_ne. intros ->. tauto.
Qed.

(** The walk that invalidates the cache ends on a DAG without cycles, and
    drops the answers of exactly the transactions it starts from and of those
    below them. *)
Theorem invalidate_drops_descendants w dag fuel frontier cache :
  weighs w dag → (weight w frontier ≤ fuel)%nat →
  ∃ cache', invalidate fuel dag frontier cache = Ok cache' ∧
    ∀ x, (below dag frontier x → cache' !! x = None) ∧
         (¬ below dag frontier x → cache' !! x = cache !! x).
Proof. apply invalidate_ok. Qed.

Lemma all_prefer_false cts h keys :
  (∀ k, k ∈ keys → is_Some (cts !! k)) →
  (∃ k ct, k ∈ keys ∧ cts !! k = Some ct ∧ pref ct ≠ h) → all_prefer cts h keys = Ok false.
Proof.
  intros Hsome (k & ct & Hk & Hct & Hp).
  assert (∃ b, all_prefer cts h keys = Ok b ∧ (b = true → pref ct = h)) as ([] & -> & Hb);
    [|by destruct Hp; apply Hb|done].
  induction keys as [|k' keys IH]; [set_solver|]. cbn.
  destruct (Hsome k' ltac:(apply list_elem_of_here)) as [ct' Hct']. rewrite Hct'.
  assert (∀ ks, (∀ k, k ∈ ks → is_Some (cts !! k)) → ∃ b, all_prefer cts h ks = Ok b) as Htot.
  { clear. induction ks as [|k ks IH]; intros Hs; cbn; [by eauto|].
    destruct (Hs k ltac:(apply list_elem_of_here)) as [ct ->].
    destruct IH as [b ->]; [|by eauto]. intros x Hx. by apply Hs, list_elem_of_further. }
  destruct (Htot keys) as [b Hb]; [intros x Hx; by apply Hsome, list_elem_of_further|].
  rewrite Hb. cbn. eexists. split; [done|]. intros [Hp' Hb']%andb_prop.
  apply elem_of_cons in Hk as [->|Hk].
  - rewrite Hct' in Hct. injection Hct as ->. by apply bool_decide_eq_true in Hp'.
  - destruct IH as (b' & Heq & Himp); [intros x Hx; by apply Hsome, list_elem_of_further|done|].
    rewrite Hb in Heq. injection Heq as <-. by apply Himp.
Qed.

(** When a vote moves the preference of a conflict set from [old] to [h],
    the set is overwritten before the frontier of the invalidation is built, so
    the frontier holds [h] twice and [old] not at all: an answer "strongly
    preferred" cached for [old] survives although [old] is no longer preferred,
    and [is_strongly_preferred] keeps returning it. *)
Theorem stale_preference w fuel h old utxo ct n score acc s sender ins rc ot rm sg c node :
  weighs w (txn_dag s) → (2 * w h ≤ fuel)%nat →
  conflict_sets s !! utxo = Some ct → pref ct = old → old ≠ h →
  confidence s !! old = Some n → n < score →
  txn_pool s !! old = Some (TAvalanche (ASend sender ins rc ot rm sg), c) →
  utxo ∈ input_keys sender ins → (∀ k, k ∈ input_keys sender ins → is_Some (conflict_sets s !! k)) →
  txn_dag s !! old = Some node → preference_cache s !! old = Some true →
  ¬ below (txn_dag s) [h] old →
  ∃ r s', vote_conflict_set fuel h score utxo acc s = (Ok r, s') ∧
    is_preferred (txn_pool s') (conflict_sets s') old = Ok false ∧
    ∃ s'', is_strongly_preferred 1 old s' = (Ok true, s'').
Proof.
  intros Hw Hf Hct Hpref Hne Hconf Hlt Hpool Hin Hall Hdag Hcache Hb.
  destruct (invalidate_ok w (txn_dag s) fuel [h; h] (preference_cache s) Hw) as (cache' & Hinv & Hx).
  { cbn. lia. }
  assert (cache' !! old = Some true) as Hstale.
  { rewrite (proj2 (Hx old)); [done|]. intros (t & Ht & Hr). apply Hb. exists t.
    split; [|done]. set_solver. }
  unfold vote_conflict_set, mbind, M_bind, gets, unwrap. rewrite Hct. cbn -[invalidate].
  rewrite decide_False by (by rewrite Hpref). rewrite Hpref, Hconf. cbn -[invalidate].
  rewrite (proj2 (N.ltb_lt _ _) Hlt). cbn -[invalidate]. unfold lift_res. rewrite Hinv.
  eexists _, _. split; [done|]. cbn. split.
  - unfold is_preferred. cbn. rewrite Hpool. cbn. apply all_prefer_false.
    + intros k Hk. destruct (decide (k = utxo)) as [->|Hku].
      * rewrite lookup_insert_eq. by eauto.
      * rewrite lookup_insert_ne by done. by apply Hall.
    + eexists utxo, _. split; [done|]. split; [apply lookup_insert_eq|].
      case_decide; cbn; congruence.
  - unfold mbind, M_bind, gets, modify. cbn. rewrite Hdag. cbn. rewrite Hstale. by eexists.
Qed.

(** ** Counting votes *)

(** How many of the votes accept the transaction at a position. *)
Definition count_at (vss : list (list bool)) (i : nat) : N :=
  N.of_nat (length (filter (λ vs : list bool, vs !! i = Some true) vss)).
Definition counts (vss : list (list bool)) (m : nat) : list N := count_at vss <$> seq 0 m.

Lemma length_counts vss m : length (counts vss m) = m.
Proof. unfold counts. by rewrite length_fmap, length_seq. Qed.

Lemma counts_nil m : counts [] m = replicate m 0.
Proof.
  apply list_eq. intros i. unfold counts. rewrite list_lookup_fmap.
  destruct (decide (i < m)%nat).
  - by rewrite lookup_seq_lt, lookup_replicate_2.
  - rewrite lookup_seq_ge by lia. symmetry. apply lookup_replicate_None. lia.
Qed.

Lemma add_votes_counts vss vs m :
  length vs = m → add_votes vs (counts vss m) = counts (vss ++ [vs]) m.
Proof.
  intros Hlen. apply list_eq. intros i. unfold add_votes, counts.
  rewrite lookup_zip_with, !list_lookup_fmap.
  destruct (decide (i < m)%nat) as [Hi|Hi].
  - rewrite !lookup_seq_lt by done. destruct (lookup_lt_is_Some_2 vs i) as [v Hv]; [lia|].
    rewrite Hv. cbn. unfold count_at. rewrite filter_app, length_app. cbn.
    destruct v; [rewrite decide_True by done|rewrite decide_False by congruence]; cbn; f_equal; lia.
  - rewrite !lookup_seq_ge by lia. by destruct (vs !! i).
Qed.

Section Votes.
Context `{Externals} `{!Bincode (N * list bool)} `{!Bincode VoteMsg} `{Transport} `{Channel}.

Lemma record_votes_eq fuel blk src vs s n acc :
  blk ∉ finished_query s → default (0, replicate (length vs) 0) (votes s !! blk) = (n, acc) →
  length acc = length vs →
  record_votes fuel blk src vs s =
  let s' := s <| votes ::= <[blk := (n + 1, add_votes vs acc)]> |> in
  if (ad_k s <=? n + 1)%N then handle_votes fuel blk s' else (Ok tt, s').
Proof.
  intros Hf Hv Hlen. unfold record_votes, mbind, M_bind, gets, modify, massert.
  rewrite decide_False by done. cbn -[handle_votes]. rewrite Hv. cbn -[handle_votes].
  rewrite bool_decide_true by done. cbn -[handle_votes]. rewrite insert_insert_eq. by case_match.
Qed.

(** C26: votes on a batch are counted per transaction: while fewer than [k] have
    arrived they only accumulate, and with the [k]-th the batch is tallied on
    the number of votes that accept each of its transactions. *)
Theorem votes_counted fuel blk m (ballots : list (NodeId * list bool)) src vs s :
  blk ∉ finished_query s → votes s !! blk = None →
  Forall (λ b, length b.2 = m) ballots → length vs = m →
  N.of_nat (length ballots) + 1 = ad_k s →
  ∃ s1, mfor ballots (λ b, record_votes fuel blk b.1 b.2) s = (Ok tt, s1) ∧
    query_pool s1 = query_pool s ∧ finished_query s1 = finished_query s ∧
    record_votes fuel blk src vs s1 = handle_votes fuel blk
      (s1 <| votes ::= <[blk := (ad_k s, counts (ballots.*2 ++ [vs]) m)]> |>).
Proof.
  intros Hf Hv Hall Hlen Hk.
  assert (∃ s1, mfor ballots (λ b, record_votes fuel blk b.1 b.2) s = (Ok tt, s1) ∧
    query_pool s1 = query_pool s ∧ finished_query s1 = finished_query s ∧ ad_k s1 = ad_k s ∧
    default (0, replicate m 0) (votes s1 !! blk)
      = (N.of_nat (length ballots), counts ballots.*2 m)) as (s1 & Heq & Hq & Hfin & Hk1 & Hv1).
  { assert (N.of_nat (length ballots) < ad_k s) as Hlt by lia. clear Hk.
    induction ballots as [|b ballots IH] using rev_ind.
    { exists s. rewrite Hv, counts_nil. by split_and!. }
    apply Forall_app in Hall as [Hall [Hb _]%Forall_cons]. rewrite length_app in Hlt. cbn in Hlt.
    destruct (IH Hall ltac:(lia)) as (s1 & Heq & Hq & Hfin & Hk1 & Hv1).
    assert (mfor (ballots ++ [b]) (λ b, record_votes fuel blk b.1 b.2) s =
      record_votes fuel blk b.1 b.2 s1) as ->.
    { clear -Heq. revert s Heq. induction ballots as [|b' bs IH]; intros s Heq; cbn in *.
      - injection Heq as ->. unfold mbind, M_bind.
        by destruct (record_votes fuel blk b.1 b.2 s1) as [[[]|e| |] s2].
      - unfold mbind, M_bind in *. destruct (record_votes fuel blk b'.1 b'.2 s) as [[[]|e| |] s2];
          try done. by apply IH. }
    rewrite (record_votes_eq _ _ _ _ _ (N.of_nat (length ballots)) (counts ballots.*2 m)).
    - cbn -[handle_votes]. rewrite (proj2 (N.leb_gt _ _)) by lia. eexists. split; [done|].
      cbn. split_and!; try done. rewrite lookup_insert_eq. cbn.
      rewrite length_app, fmap_app. cbn. rewrite add_votes_counts by done. f_equal. lia.
    - by rewrite Hfin.
    - by rewrite Hb.
    - by rewrite length_counts. }
  exists s1. split_and!; try done.
  rewrite (record_votes_eq _ _ _ _ _ (N.of_nat (length ballots)) (counts ballots.*2 m)).
  - cbn -[handle_votes]. rewrite (proj2 (N.leb_le _ _)) by lia.
    by rewrite add_votes_counts, Hk.
  - by rewrite Hfin.
  - by rewrite Hlen.
  - by rewrite length_counts.
Qed.

(** A vote vector of another length than the first one received panics. *)
Lemma wrong_length_vote_panics fuel blk src vs s n acc :
  blk ∉ finished_query s → votes s !! blk = Some (n, acc) → length acc ≠ length vs →
  (record_votes fuel blk src vs s).1 = Panic.
Proof.
  intros Hf Hv Hlen. unfold record_votes, mbind, M_bind, gets, modify, massert.
  rewrite decide_False by done. cbn. rewrite Hv. cbn. by rewrite bool_decide_false.
Qed.
End Votes.

(** ** Concrete runs *)

#[local] Existing Instances sample_externals sample_transport sample_channel.
#[local] Instance sample_bincode_ballot : Bincode (N * list bool) :=
  {| serialize := λ b, inl [b.1]; deserialize := λ _, inr (mkErr "not needed") |}.
#[local] Instance sample_bincode_vote : Bincode VoteMsg :=
  {| serialize := λ v, inl [round v]; deserialize := λ _, inr (mkErr "not needed") |}.

(** A node that queries alone: one vote decides, and confidence 1 commits. *)
Definition a_s0 : AvalancheDecision :=
  mkAvalancheDecision 1 CSDummy 1 1 1 2 ∅ ∅ ∅ ∅ 1000 ∅ ∅ ∅ tq_new ∅ [] sample_messenger ∅ [] [] 0 0 0 0 0
    f64_zero.
Definition a_grant : Txn := TAvalanche (AGrant 50 [7] 0).
Definition a_blk : Block := mkBlock (HAvalanche 1 5 0) [a_grant].
Definition a_ctx : BlkCtx := mkBlkCtx 99 [mkTxnCtx 101].
Definition a_s1 : AvalancheDecision := (new_tail 5 0 1 [(a_blk, a_ctx)] a_s0).2.
Definition a_s2 : AvalancheDecision := (next_to_commit a_s1).2.

Lemma no_double_commit_witness : rtc decide_step (a_s0, []) (a_s2, [101]) ∧ NoDup [101].
Proof.
  assert (rtc decide_step (a_s0, []) (a_s2, [101])) as Hsteps.
  { eapply rtc_l.
    - eapply (dstep_new_tail a_s0 [] 5 0 1 [(a_blk, a_ctx)] _ a_s1). by vm_compute.
    - apply rtc_once. apply (dstep_commit a_s1 [] 5 [101] [] (Ok (5, [a_grant])) a_s2); by vm_compute. }
  split; [exact Hsteps|]. exact (no_double_commit a_s0 a_s2 [101] eq_refl eq_refl Hsteps).
Defined.

(** A grant spent by two conflicting payments. *)
Definition a_pay (r : PubKey) : Txn := TAvalanche (ASend [7] [101] r 50 0 []).
Definition a_pool : gmap Hash (Txn * TxnCtx) :=
  list_to_map [(101, (a_grant, mkTxnCtx 101)); (102, (a_pay [8], mkTxnCtx 102));
               (103, (a_pay [9], mkTxnCtx 103))].
Definition a_dag : gmap Hash DagNode :=
  list_to_map [(101, mkDagNode [] [102; 103]); (102, mkDagNode [101] []); (103, mkDagNode [101] [])].
Definition a_conflict : AvalancheDecision :=
  a_s0 <| txn_pool := a_pool |> <| txn_dag := a_dag |>
       <| conflict_sets := {[(101, [7]) := mkConflictSet true 102 (Some 102) 1]} |>
       <| confidence := list_to_map [(101, 1); (102, 1); (103, 2)] |>
       <| preference_cache := {[102 := true]} |>.
Definition a_weight (h : Hash) : nat := if decide (h = 101) then 3%nat else 1%nat.

Lemma a_weighs : weighs a_weight a_dag.
Proof.
  split; [intros h; unfold a_weight; case_decide; lia|].
  assert (map_Forall (λ h node, (weight a_weight (dag_children node) < a_weight h)%nat) a_dag) as Hall
    by (apply (bool_decide_unpack _); by vm_compute).
  intros h node Hh. by apply Hall.
Qed.

Lemma a_dag_ok : dag_ok (λ h, N.to_nat (h - 101)) a_conflict.
Proof.
  assert (map_Forall (λ h node,
    (∃ b, is_preferred a_pool (conflict_sets a_conflict) h = Ok b) ∧
    Forall (λ p, (N.to_nat (p - 101) < N.to_nat (h - 101))%nat) (parents node)) a_dag) as Hall.
  { apply map_Forall_lookup. intros h node Hh.
    assert (h = 101 ∨ h = 102 ∨ h = 103) as Hc.
    { apply elem_of_dom_2 in Hh. revert Hh. replace (dom a_dag) with ({[101; 102; 103]} : gset N)
        by (by vm_compute). set_solver. }
    destruct Hc as [->|[->| ->]]; vm_compute in Hh; injection Hh as <-;
      (split; [eexists; by vm_compute|apply (bool_decide_unpack _); by vm_compute]). }
  split.
  - intros h [node Hh]. by apply (Hall h node).
  - intros h p (node & Hh & Hp & _). destruct (Hall h node Hh) as [_ Hf].
    rewrite Forall_forall in Hf. by apply Hf.
Qed.

Lemma a_cache_ok : cache_ok (a_conflict <| preference_cache := ∅ |>).
Proof. intros h v Hh. cbn in Hh. by rewrite lookup_empty in Hh. Qed.

Lemma strongly_preferred_correct_witness :
  ∃ b s', is_strongly_preferred 5 103 (a_conflict <| preference_cache := ∅ |>) = (Ok b, s') ∧
    (b = true ↔ strongly_preferred (a_conflict <| preference_cache := ∅ |>) 103) ∧
    cache_ok s' ∧ only_cache (a_conflict <| preference_cache := ∅ |>) s'.
Proof.
  apply (strongly_preferred_correct (λ h, N.to_nat (h - 101)) 5 103).
  - exact a_dag_ok.
  - exact a_cache_ok.
  - vm_compute. lia.
Defined.

Lemma invalidate_drops_descendants_witness :
  ∃ cache', invalidate 5 a_dag [101] {[102 := true]} = Ok cache' ∧
    ∀ x, (below a_dag [101] x → cache' !! x = None) ∧
         (¬ below a_dag [101] x → cache' !! x = ({[102 := true]} : gmap Hash bool) !! x).
Proof.
  apply (invalidate_drops_descendants a_weight a_dag 5 [101] {[102 := true]} a_weighs).
  vm_compute. lia.
Defined.

Lemma a_not_below : ¬ below a_dag [103] 102.
Proof.
  intros (t & ->%list_elem_of_singleton & Hr).
  apply rtc_inv in Hr as [?|(c & (node & Hn & Hc) & _)]; [done|].
  vm_compute in Hn. injection Hn as <-. by apply elem_of_nil in Hc.
Qed.

Lemma stale_preference_witness :
  ∃ r s', vote_conflict_set 5 103 2 (101, [7]) (false, 2) a_conflict = (Ok r, s') ∧
    is_preferred (txn_pool s') (conflict_sets s') 102 = Ok false ∧
    ∃ s'', is_strongly_preferred 1 102 s' = (Ok true, s'').
Proof.
  eapply (stale_preference a_weight 5 103 102 (101, [7]) _ 1 2 (false, 2) a_conflict
    [7] [101] [8] 50 0 [] (mkTxnCtx 102)).
  - exact a_weighs.
  - vm_compute. lia.
  - by vm_compute.
  - done.
  - done.
  - by vm_compute.
  - done.
  - by vm_compute.
  - apply list_elem_of_here.
  - intros k ->%list_elem_of_singleton. by eexists.
  - by vm_compute.
  - by vm_compute.
  - exact a_not_below.
Defined.

Lemma votes_counted_witness :
  ∃ s1, mfor [(2, [true])] (λ b, record_votes 5 9 b.1 b.2) (a_s0 <| ad_k := 2 |>) = (Ok tt, s1) ∧
    query_pool s1 = query_pool a_s0 ∧ finished_query s1 = finished_query a_s0 ∧
    record_votes 5 9 3 [false] s1 = handle_votes 5 9
      (s1 <| votes ::= <[9 := (2, counts ([(2, [true])].*2 ++ [[false]]) 1)]> |>).
Proof.
  pose proof (votes_counted 5 9 1 [(2, [true])] 3 [false] (a_s0 <| ad_k := 2 |>)) as Hv.
  cbv zeta beta in Hv. cbn [ad_k query_pool finished_query a_s0] in Hv. apply Hv; try done.
  by apply Forall_singleton.
Defined.
