(* ===== verification/VoteLog.v ===== *)
(** * A log of votes

    The two Avalanche decision stages (AvaDecide.v, Blizzard.v) are refinements of one
    abstract machine: a log of what reaches a node and of what it makes of it. Batches
    arrive, some of them are asked about, ballots come in and deadlines pass; when [k]
    ballots for a batch are in, or its deadline passes, they are counted: each of its
    transactions is polled, with the number of ballots for it. A poll with enough votes
    counts for the transaction and every undecided ancestor, and reaches the outputs each
    of them spends, one with too few resets these outputs; a transaction is accepted, by a
    rule that reads the log.

    [fair] says which logs are such; [rest], that nothing is left to be done. The rule, [k]
    and the votes a poll needs are [Terms]. VoteLedger.v relates a log to the fields of a
    stage, VoteStage.v to its calls. *)

From S2P Require Import Prelude F64 Protocol Peers Utils Config AvaDecide.
Local Open Scope N_scope.

(** ** The log *)

Inductive vote_event :=
(* what reaches the node *)
| Batch (ts : list (Hash * Txn))
| Ask (blk : N) (qs : list (option Hash))    (* the batch is its own: who is asked about *)
| Ballot (blk : N) (bits : list bool)
| Expire (blk : N)
(* what it makes of it *)
| Seen (h : Hash) (ps : list Hash) (keys : list Utxo)   (* with its parents and inputs *)
| Tally (blk : N)                                       (* the ballots are counted *)
| Poll (h : Hash) (v : N)                               (* [v] ballots are for [h] *)
| Gain (h : Hash)                                       (* the poll succeeds: a vote for [h] *)
| Touch (u : Utxo) (h : Hash)                           (* which reaches an input of [h] *)
| Reset (u : Utxo)                                      (* the poll fails: for an input *)
| Accept (h : Hash).

(** What a transaction spends, and whom it follows. *)
Definition txn_keys (t : Txn) : list Utxo :=
  match t with TAvalanche (ASend sender in_utxo _ _ _ _) => input_keys sender in_utxo | _ => [] end.
Definition txn_parents (t : Txn) : list Hash :=
  match t with
  | TAvalanche (ASend _ in_utxo _ _ _ _) => in_utxo
  | TAvalanche (ANoop ps) => ps
  | _ => []
  end.
Definition placeholder (t : Txn) : Prop := t = TAvalanche APlaceHolder.

(** *** Ballots: the log has the latest event first *)

(** What reached the node. *)
Definition is_input (e : vote_event) : bool :=
  match e with Batch _ | Ask _ _ | Ballot _ _ | Expire _ => true | _ => false end.
Fixpoint inputs (H : list vote_event) : list vote_event :=
  match H with [] => [] | e :: H => if is_input e then e :: inputs H else inputs H end.

Fixpoint ask (blk : N) (H : list vote_event) : option (list (option Hash)) :=
  match H with
  | [] => None
  | Ask b qs :: H => if decide (b = blk) then Some qs else ask blk H
  | _ :: H => ask blk H
  end.
Fixpoint ballots (blk : N) (H : list vote_event) : list (list bool) :=
  match H with
  | [] => []
  | Ballot b bits :: H => if decide (b = blk) then bits :: ballots blk H else ballots blk H
  | _ :: H => ballots blk H
  end.

(** Of the ballots, those for the first transaction of the batch; for each of [n]. *)
Fixpoint yeses (bs : list (list bool)) : N :=
  match bs with [] => 0 | (true :: _) :: bs => yeses bs + 1 | _ :: bs => yeses bs end.
Fixpoint columns (n : nat) (bs : list (list bool)) : list N :=
  match n with O => [] | S n => yeses bs :: columns n (tail <$> bs) end.

(** The polls of a batch. *)
Fixpoint owed (qs : list (option Hash)) (bs : list (list bool)) : list (Hash * N) :=
  match qs with
  | [] => []
  | Some h :: qs => (h, yeses bs) :: owed qs (tail <$> bs)
  | None :: qs => owed qs (tail <$> bs)
  end.

(** The polls still to come. *)
Fixpoint due (H : list vote_event) : list (Hash * N) :=
  match H with
  | [] => []
  | Tally blk :: H => owed (default [] (ask blk H)) (ballots blk H)
  | Poll _ _ :: H => tail (due H)
  | _ :: H => due H
  end.

(** The last poll, what happened since, and the log before it. *)
Fixpoint poll_of (H : list vote_event) : option (Hash * N) :=
  match H with [] => None | Poll h v :: _ => Some (h, v) | _ :: H => poll_of H end.
Fixpoint since (H : list vote_event) : list vote_event :=
  match H with [] => [] | Poll _ _ :: _ => [] | e :: H => e :: since H end.
Fixpoint before (H : list vote_event) : list vote_event :=
  match H with [] => [] | Poll _ _ :: H => H | _ :: H => before H end.

(** *** Votes *)

(** The successful votes for [h]. *)
Fixpoint gains (h : Hash) (H : list vote_event) : N :=
  match H with
  | [] => 0
  | Gain h' :: H => (if decide (h' = h) then 1 else 0) + gains h H
  | _ :: H => gains h H
  end.

(** The votes that reached an output: all of them, those for [h], those for others. *)
Fixpoint rounds (u : Utxo) (H : list vote_event) : N :=
  match H with
  | [] => 0
  | Touch u' _ :: H => (if decide (u' = u) then 1 else 0) + rounds u H
  | _ :: H => rounds u H
  end.
Fixpoint touches (h : Hash) (u : Utxo) (H : list vote_event) : N :=
  match H with
  | [] => 0
  | Touch u' h' :: H => (if decide (u' = u) then if decide (h' = h) then 1 else 0 else 0) + touches h u H
  | _ :: H => touches h u H
  end.
Fixpoint others (h : Hash) (u : Utxo) (H : list vote_event) : N :=
  match H with
  | [] => 0
  | Touch u' h' :: H => (if decide (u' = u) then if decide (h' = h) then 0 else 1 else 0) + others h u H
  | _ :: H => others h u H
  end.

Definition seen (H : list vote_event) (h : Hash) : Prop := ∃ ps keys, Seen h ps keys ∈ H.
Definition undecided (H : list vote_event) (h : Hash) : Prop := seen H h ∧ Accept h ∉ H.
Definition spent (H : list vote_event) (h : Hash) (u : Utxo) : Prop :=
  ∃ ps keys, Seen h ps keys ∈ H ∧ u ∈ keys.

(** Nothing else that has been seen spends an input of [h]. *)
Definition no_rivals (H : list vote_event) (h : Hash) (keys : list Utxo) : Prop :=
  ∀ u h', u ∈ keys → spent H h' u → h' = h.

(** What both rules ask for the smaller bound: parents decided and no rivals. *)
Definition early (H : list vote_event) (h : Hash) (ps : list Hash) (keys : list Utxo) : Prop :=
  (∀ p, p ∈ ps → ¬ undecided H p) ∧ no_rivals H h keys.

(** A poll of [h] is one of [x] if [x] is undecided and [h] leads to it through undecided
    transactions. *)
Definition visit (H : list vote_event) (x y : Hash) : Prop :=
  undecided H x ∧ ∃ ps keys, Seen x ps keys ∈ H ∧ y ∈ ps.
Definition polled (H : list vote_event) (h x : Hash) : Prop := rtc (visit H) h x ∧ undecided H x.

(** ** Fair logs *)

(** The rule, [k], the votes a poll needs, and whether a failed one resets the outputs. *)
Record Terms := mkTerms {
  tm_accept : list vote_event → Hash → Prop;
  tm_k : N;
  tm_thresh : N;
  tm_resets : bool;
}.

(** The last poll, which succeeded or not, was one of [x]. *)
Definition in_poll (t : N) (ok : bool) (H : list vote_event) (x : Hash) : Prop :=
  ∃ h v, poll_of H = Some (h, v) ∧ (t <=? v) = ok ∧ polled (before H) h x.

(** The ballots for [blk] are to be counted now, should they have been asked for. *)
Definition ripe (k : N) (H : list vote_event) (blk : N) : Prop :=
  match H with
  | Expire b :: _ => b = blk
  | Ballot b _ :: _ => b = blk ∧ k ≤ N.of_nat (length (ballots blk H))
  | _ => False
  end.

Section Fair.
Context (T : Terms).

(** The last poll has counted for all it was of. *)
Definition settled (H : list vote_event) : Prop := ∀ h v x,
  poll_of H = Some (h, v) → polled (before H) h x →
  if tm_thresh T <=? v then Gain x ∈ since H
  else tm_resets T = true → ∀ u, spent (before H) x u → Reset u ∈ since H.

(** What the batches hold has been seen. *)
Definition noted (H : list vote_event) : Prop := ∀ ts h t,
  Batch ts ∈ H → (h, t) ∈ ts → placeholder t ∨ seen H h.

(** Nothing is left to be done. *)
Definition rest (H : list vote_event) : Prop :=
  due H = [] ∧ settled H ∧ noted H ∧ ∀ blk, ripe (tm_k T) H blk → ask blk H ≠ None → Tally blk ∈ H.

(** What may happen: something reaches the node while it is at rest; a transaction of a
    batch is seen; the ballots of a batch are counted, once; its next transaction is
    polled; the poll counts once for each it is of; transactions are accepted by the rule
    when they have got a vote, once, and gain nothing afterwards. *)
Definition fair_event (H : list vote_event) (e : vote_event) : Prop :=
  match e with
  | Batch _ | Ask _ _ | Ballot _ _ | Expire _ => rest H
  | Seen h ps keys =>
    ¬ seen H h ∧ ∃ ts t, Batch ts ∈ H ∧ (h, t) ∈ ts ∧ ps = txn_parents t ∧ keys = txn_keys t
  | Tally blk => ripe (tm_k T) H blk ∧ ask blk H ≠ None ∧ Tally blk ∉ H
  | Poll h v => settled H ∧ head (due H) = Some (h, v)
  | Gain h => in_poll (tm_thresh T) true H h ∧ undecided H h ∧ Gain h ∉ since H
  | Touch u h => Gain h ∈ since H ∧ undecided H h ∧ spent H h u
  | Reset u => ∃ h, in_poll (tm_thresh T) false H h ∧ spent H h u
  | Accept h => tm_accept T H h ∧ undecided H h ∧ Gain h ∈ since H
  end.

Fixpoint fair (H : list vote_event) : Prop :=
  match H with [] => True | e :: H => fair_event H e ∧ fair H end.
End Fair.

(** *** Events that mark no transaction as seen or accepted, those that count no vote
    either, those after a poll, and those about an output *)

Definition vote_only (e : vote_event) : Prop :=
  match e with Seen _ _ _ | Accept _ => False | _ => True end.
Definition silent (e : vote_event) : Prop :=
  match e with Seen _ _ _ | Gain _ | Touch _ _ | Reset _ | Accept _ => False | _ => True end.
Definition counting (e : vote_event) : Prop :=
  match e with Gain _ | Touch _ _ | Reset _ | Accept _ => True | _ => False end.
Definition about (u : Utxo) (e : vote_event) : Prop :=
  match e with Touch u' _ | Reset u' => u' = u | _ => False end.
Definition untouched (u : Utxo) (H : list vote_event) : Prop := ∀ h, Touch u h ∉ H.

Lemma silent_vote e : silent e → vote_only e.
Proof. by destruct e. Qed.

Lemma rounds_split h u H : rounds u H = touches h u H + others h u H.
Proof. induction H as [|[] H IH]; cbn; try done. repeat case_decide; lia. Qed.

Lemma touches_others h h' u H : h' ≠ h → touches h' u H ≤ others h u H.
Proof. intros Hne. induction H as [|[] H IH]; cbn; try done. repeat case_decide; subst; try done; lia. Qed.

Lemma untouched_rounds u H : untouched u H → rounds u H = 0.
Proof.
  intros Hu. induction H as [|e H IH]; [done|]. assert (untouched u H) as Hu'.
  { intros h Hh. apply (Hu h). by right. }
  destruct e; cbn; try by apply IH. rewrite decide_False; [by apply IH|]. intros ->. apply (Hu h). by left.
Qed.

Lemma gains_cons e H h : gains h H ≤ gains h (e :: H).
Proof. destruct e; cbn; try done. case_decide; lia. Qed.
Lemma rounds_cons e H u : rounds u H ≤ rounds u (e :: H).
Proof. destruct e; cbn; try done. case_decide; lia. Qed.

Lemma gains_app H1 H2 h : gains h H1 ≤ gains h (H2 ++ H1).
Proof. induction H2 as [|e H2 IH]; cbn [app]; [done|]. etrans; [exact IH|apply gains_cons]. Qed.
Lemma rounds_app H1 H2 u : rounds u H1 ≤ rounds u (H2 ++ H1).
Proof. induction H2 as [|e H2 IH]; cbn [app]; [done|]. etrans; [exact IH|apply rounds_cons]. Qed.

Lemma seen_cons e H h : seen H h → seen (e :: H) h.
Proof. intros (ps & keys & Hs). exists ps, keys. by right. Qed.

Lemma spent_cons e H h u : spent H h u → spent (e :: H) h u.
Proof. intros (ps & keys & Hs & Hu). exists ps, keys. split; [by right|done]. Qed.

Lemma spent_seen H h u : spent H h u → seen H h.
Proof. intros (ps & keys & Hs & Hu). by exists ps, keys. Qed.

Lemma seen_vote e H h ps keys : vote_only e → Seen h ps keys ∈ e :: H ↔ Seen h ps keys ∈ H.
Proof. intros He. rewrite elem_of_cons. split; [intros [<-|]; done|by right]. Qed.

Lemma undecided_vote e H h : vote_only e → undecided (e :: H) h ↔ undecided H h.
Proof.
  intros He. unfold undecided, seen. setoid_rewrite (seen_vote e H); [|done..].
  rewrite not_elem_of_cons. destruct e; naive_solver.
Qed.

Lemma untouched_cons u e H : ¬ about u e → untouched u H → untouched u (e :: H).
Proof. intros He Hu h [<-|Hh]%elem_of_cons; [by apply He|by apply (Hu h)]. Qed.

Lemma suffix_in {A} (l1 l2 : list A) x : l1 `suffix_of` l2 → x ∈ l1 → x ∈ l2.
Proof. intros [k ->] Hx. apply elem_of_app. by right. Qed.

Section FairLemmas.
Context (T : Terms).
Implicit Types (H : list vote_event) (h : Hash).

Lemma fair_app H1 H2 : fair T (H2 ++ H1) → fair T H1.
Proof. induction H2 as [|e H2 IH]; [done|]. intros Hf. by eapply IH, Hf. Qed.

Lemma fair_seen H h : fair T H → Accept h ∈ H → seen H h.
Proof.
  intros Hf Hin. induction H as [|e H IH]; [by apply elem_of_nil in Hin|]. apply seen_cons.
  apply elem_of_cons in Hin as [<-|Hin]; [apply Hf|by apply IH; [apply Hf|]].
Qed.

(** Once accepted, a transaction gains nothing and touches nothing. *)
Lemma fair_frozen H1 H2 h u :
  fair T (H2 ++ H1) → Accept h ∈ H1 → gains h (H2 ++ H1) = gains h H1 ∧ touches h u (H2 ++ H1) = touches h u H1.
Proof.
  intros Hf Hin. induction H2 as [|e H2 IH]; [done|]. cbn [app] in *.
  destruct IH as [Hg Ht]; [apply Hf|]. assert (¬ undecided (H2 ++ H1) h) as Hno.
  { intros [_ Hn]. apply Hn, elem_of_app. by right. }
  split; destruct e; cbn; try done.
  - rewrite decide_False; [by rewrite Hg|]. intros ->. apply Hno, Hf.
  - case_decide; [|done]. rewrite decide_False; [done|]. intros ->. apply Hno, Hf.
Qed.

(** Of two accepted transactions, one is accepted when the other is. *)
Lemma fair_later H h1 h2 :
  fair T H → Accept h1 ∈ H → Accept h2 ∈ H → h1 ≠ h2 →
  ∃ h h' H1 H2, (h = h1 ∧ h' = h2 ∨ h = h2 ∧ h' = h1) ∧ H = H2 ++ Accept h :: H1 ∧ Accept h' ∈ H1 ∧ tm_accept T H1 h.
Proof.
  intros Hf Hin1 Hin2 Hne. induction H as [|e H IH]; [by apply elem_of_nil in Hin1|].
  pose proof (proj2 Hf) as Hf'. apply elem_of_cons in Hin1 as [He1|Hin1]; apply elem_of_cons in Hin2 as [He2|Hin2];
    try subst e; [congruence|..].
  - exists h1, h2, H, []. split; [by left|]. split; [done|]. split; [done|apply Hf].
  - exists h2, h1, H, []. split; [by right|]. split; [done|]. split; [done|apply Hf].
  - destruct (IH Hf' Hin1 Hin2) as (h & h' & H1 & H2 & Hh & -> & ? & ?). by exists h, h', H1, (e :: H2).
Qed.

Lemma fair_touch H h u : fair T H → Touch u h ∈ H → spent H h u.
Proof.
  induction H as [|e H IH]; intros Hf Hin; [by apply elem_of_nil in Hin|]. apply spent_cons.
  apply elem_of_cons in Hin as [<-|Hin]; [apply Hf|by apply IH; [apply Hf|]].
Qed.
End FairLemmas.

(** *** Ballots *)

Lemma add_votes_columns bits bs : add_votes bits (columns (length bits) bs) = columns (length bits) (bits :: bs).
Proof.
  revert bs. induction bits as [|b bits IH]; intros bs; [done|]. cbn. unfold add_votes in IH |- *. cbn.
  rewrite IH. destruct b; done.
Qed.

Lemma columns_nil n : columns n [] = replicate n 0.
Proof. induction n as [|n IH]; cbn; [done|]. by rewrite IH. Qed.

Lemma length_columns n bs : length (columns n bs) = n.
Proof. revert bs. induction n as [|n IH]; intros bs; cbn; [done|]. by rewrite IH. Qed.

(** *** After a poll *)

Section AfterPoll.
Context (E B : list vote_event) (h : Hash) (v : N) (HE : Forall counting E).
Let L := E ++ Poll h v :: B.

Local Ltac after := unfold L; induction HE as [|[] E' He HE' IH]; cbn in *; try done; by rewrite ?IH.

Lemma after_poll_of : poll_of L = Some (h, v).
Proof. after. Qed.
Lemma after_since : since L = E.
Proof. after. Qed.
Lemma after_before : before L = B.
Proof. after. Qed.
Lemma after_due : due L = tail (due B).
Proof. after. Qed.
Lemma after_inputs : inputs L = inputs B.
Proof. after. Qed.
Lemma after_ask blk : ask blk L = ask blk B.
Proof. after. Qed.
Lemma after_ripe k blk : ¬ ripe k L blk.
Proof. unfold L. destruct HE as [|[] E' He HE']; cbn; tauto. Qed.

Lemma after_in e : ¬ counting e → e ∈ L ↔ e = Poll h v ∨ e ∈ B.
Proof.
  intros Hne. unfold L. rewrite elem_of_app, elem_of_cons. split; [|tauto]. intros [Hin|?]; [|done].
  destruct Hne. by eapply Forall_forall.
Qed.

Lemma after_seen x ps keys : Seen x ps keys ∈ L ↔ Seen x ps keys ∈ B.
Proof. rewrite after_in by tauto. naive_solver. Qed.

Lemma after_undecided x : undecided L x → undecided B x.
Proof.
  intros [(ps & keys & Hs%after_seen) Hn]. split; [by exists ps, keys|]. intros Ha. apply Hn. unfold L.
  rewrite elem_of_app, elem_of_cons. tauto.
Qed.

(** What is not accepted stays undecided, and only what gains is accepted. *)
Lemma after_stays T x : fair T L → undecided B x → Gain x ∉ E → undecided L x.
Proof.
  clear -HE. intros Hf [(ps & keys & Hs) Hn] Hg. split.
  { exists ps, keys. unfold L. rewrite elem_of_app, elem_of_cons. tauto. }
  unfold L in *. intros [Ha|[|Ha]%elem_of_cons]%elem_of_app; try done.
  apply list_elem_of_split in Ha as (E2 & E1 & ->). rewrite <- (assoc_L (++)) in Hf. cbn in Hf.
  apply fair_app in Hf as [(_ & _ & Hin) _]. apply Forall_app in HE as [_ [_ HE1]%Forall_cons].
  assert (since (E1 ++ Poll h v :: B) = E1) as Hsi.
  { clear -HE1. induction HE1 as [|[] E' He HE' IH]; cbn in *; try done; by rewrite IH. }
  rewrite Hsi in Hin. apply Hg, elem_of_app. right. by right.
Qed.
End AfterPoll.

(** *** A vote reaches the outputs of [h], one after the other *)

Fixpoint touch_all (h : Hash) (keys : list Utxo) (H : list vote_event) : list vote_event :=
  match keys with [] => H | u :: keys => touch_all h keys (Touch u h :: H) end.

Section TouchAll.
Context (h : Hash).
Implicit Types (keys : list Utxo) (H : list vote_event).

Lemma touch_all_gains keys H h' : gains h' (touch_all h keys H) = gains h' H.
Proof. revert H. induction keys as [|u keys IH]; intros H; cbn; [done|]. by rewrite IH. Qed.

Lemma touch_all_others keys H u : others h u (touch_all h keys H) = others h u H.
Proof.
  revert H. induction keys as [|u' keys IH]; intros H; cbn; [done|]. rewrite IH. cbn.
  rewrite (decide_True (P := h = h)) by done. by case_decide.
Qed.

Lemma touch_all_rounds keys H u : rounds u H ≤ rounds u (touch_all h keys H).
Proof.
  revert H. induction keys as [|u' keys IH]; intros H; cbn; [done|]. etrans; [|apply IH]. apply (rounds_cons (Touch u' h)).
Qed.

Lemma touch_all_app keys H1 H2 : touch_all h keys (H1 ++ H2) = touch_all h keys H1 ++ H2.
Proof. revert H1. induction keys as [|u keys IH]; intros H1; cbn; [done|]. apply (IH (Touch u h :: H1)). Qed.

Lemma touch_all_counting keys H : Forall counting H → Forall counting (touch_all h keys H).
Proof. revert H. induction keys as [|u keys IH]; intros H HF; cbn; [done|]. apply IH. by constructor. Qed.

Lemma touch_all_in keys H e : (∀ u, e ≠ Touch u h) → e ∈ touch_all h keys H ↔ e ∈ H.
Proof.
  intros He. revert H. induction keys as [|u keys IH]; intros H; cbn; [done|]. rewrite IH, elem_of_cons. naive_solver.
Qed.

Lemma touch_all_suffix keys H : H `suffix_of` touch_all h keys H.
Proof. rewrite <- (app_nil_l H) at 2. rewrite touch_all_app. by eexists. Qed.
End TouchAll.
