(* ===== verification/VoteLedger.v ===== *)
(** * What a stage keeps of the log of votes

    A [ledger] is the fields of an Avalanche decision stage that voting is about:
    transactions, the DAG, confidences, conflict sets, queries and ballots. [VoteRule] is
    what a kind of conflict set and its rule have to say of themselves; [logs] relates a
    log of VoteLog.v to a ledger: everything kept is a function of the log. Each event
    changes the ledger in one way ([logs_record], [logs_gain], [tracks_touch], ...). *)

From S2P Require Import Prelude F64 Protocol Peers Utils Config AvaDecide VoteLog.
From S2P Require AvaProps.
Local Open Scope N_scope.

(** How often [u] is among the inputs: a payment may name an output twice. *)
Fixpoint occ (u : Utxo) (keys : list Utxo) : N :=
  match keys with [] => 0 | k :: keys => (if decide (k = u) then 1 else 0) + occ u keys end.

Lemma occ_in u keys : u ∈ keys → 1 ≤ occ u keys.
Proof. induction 1; cbn; [rewrite decide_True by done; lia|lia]. Qed.

(** The fields of a stage that voting is about; [C] is its conflict set. *)
Record ledger (C : Type) := mkLedger {
  lg_thresh : N;
  lg_beta1 : N;
  lg_beta2 : N;
  lg_k : N;
  lg_pool : gmap Hash (Txn * TxnCtx);
  lg_dag : gmap Hash DagNode;
  lg_conf : gmap Hash N;
  lg_sets : gmap Utxo C;
  lg_finished : gset N;
  lg_query : gmap N (list (option Hash));
  lg_votes : gmap N (N * list N);
}.
Arguments mkLedger {C}.
Arguments lg_thresh {C}. Arguments lg_beta1 {C}. Arguments lg_beta2 {C}. Arguments lg_k {C}.
Arguments lg_pool {C}. Arguments lg_dag {C}. Arguments lg_conf {C}. Arguments lg_sets {C}.
Arguments lg_finished {C}. Arguments lg_query {C}. Arguments lg_votes {C}.

Section Setters.
Context {C : Type}.
Implicit Types (l : ledger C).
Definition set_sets (cts : gmap Utxo C) l : ledger C :=
  mkLedger (lg_thresh l) (lg_beta1 l) (lg_beta2 l) (lg_k l) (lg_pool l) (lg_dag l) (lg_conf l) cts
    (lg_finished l) (lg_query l) (lg_votes l).
Definition set_conf (c : gmap Hash N) l : ledger C :=
  mkLedger (lg_thresh l) (lg_beta1 l) (lg_beta2 l) (lg_k l) (lg_pool l) (lg_dag l) c (lg_sets l)
    (lg_finished l) (lg_query l) (lg_votes l).
Definition set_dag (d : gmap Hash DagNode) l : ledger C :=
  mkLedger (lg_thresh l) (lg_beta1 l) (lg_beta2 l) (lg_k l) (lg_pool l) d (lg_conf l) (lg_sets l)
    (lg_finished l) (lg_query l) (lg_votes l).
Definition set_books (fin : gset N) (q : gmap N (list (option Hash))) (vs : gmap N (N * list N)) l : ledger C :=
  mkLedger (lg_thresh l) (lg_beta1 l) (lg_beta2 l) (lg_k l) (lg_pool l) (lg_dag l) (lg_conf l) (lg_sets l)
    fin q vs.
End Setters.

(** The conflict sets of a stage: whether one has conflicts, whom it prefers, what its
    counters say of the log; a new one, and one that gets a second member. [vr_accept]
    is the rule, for [beta1] and [beta2]; [vr_resets], whether a failed poll resets them. *)
Class VoteRule (C : Type) := {
  vr_conflicts : C → bool;
  vr_pref : C → Hash;
  vr_counts : list vote_event → Utxo → C → Prop;
  vr_accept : N → N → list vote_event → Hash → Prop;
  vr_resets : bool;
  vr_fresh : Hash → C;
  vr_mark : C → C;
  vr_fresh_ok h : vr_conflicts (vr_fresh h) = false ∧ vr_pref (vr_fresh h) = h;
  vr_mark_ok ct : vr_conflicts (vr_mark ct) = true ∧ vr_pref (vr_mark ct) = vr_pref ct;
  vr_counts_fresh H u h : untouched u H → vr_counts H u (vr_fresh h);
  vr_counts_mark H u ct : vr_counts H u ct → vr_counts H u (vr_mark ct);
  vr_counts_other e H u ct : ¬ about u e → vr_counts H u ct → vr_counts (e :: H) u ct;
}.
#[global] Hint Mode VoteRule ! : typeclass_instances.

(** The stage of a state, and its queue of batches to commit. *)
Class Stage (S C : Type) := {
  st_ledger : S → ledger C;
  st_queue : S → list (N * list Hash);
}.
#[global] Hint Mode Stage ! - : typeclass_instances.

Section Ledger.
Context `{VoteRule C}.
Implicit Types (L : list vote_event) (l : ledger C) (ct : C).

Definition spends (l : ledger C) (h : Hash) (u : Utxo) : Prop :=
  ∃ e, lg_pool l !! h = Some e ∧ u ∈ txn_keys e.1.

Definition terms_of (l : ledger C) : Terms :=
  mkTerms (vr_accept (C:=C) (lg_beta1 l) (lg_beta2 l)) (lg_k l) (lg_thresh l) (vr_resets (C:=C)).

(** The ballots of a batch that is not counted yet, and whom it asks about. *)
Definition books L (fin : gset N) (q : gmap N (list (option Hash))) (vs : gmap N (N * list N)) : Prop :=
  ∀ blk, (blk ∈ fin ↔ Tally blk ∈ L) ∧
    (Tally blk ∉ L → q !! blk = ask blk L ∧
      match vs !! blk with
      | None => ballots blk L = []
      | Some v => ∃ n, v = (N.of_nat (length (ballots blk L)), columns n (ballots blk L))
      end).

(** The ledger is what the log says, ... *)
Record tracks L l : Prop := {
  tr_fair : fair (terms_of l) L;
  tr_books : books L (lg_finished l) (lg_query l) (lg_votes l);
  tr_batch : ∀ h e, lg_pool l !! h = Some e → ∃ ts, Batch ts ∈ L ∧ (h, e.1) ∈ ts;
  tr_pool : ∀ h e, lg_pool l !! h = Some e → Seen h (txn_parents e.1) (txn_keys e.1) ∈ L;
  tr_seen : ∀ h ps keys, Seen h ps keys ∈ L →
    ∃ e, lg_pool l !! h = Some e ∧ ps = txn_parents e.1 ∧ keys = txn_keys e.1;
  tr_dag : ∀ h node, lg_dag l !! h = Some node → ∃ keys, Seen h (parents node) keys ∈ L;
  tr_undecided : ∀ h, undecided L h ↔ is_Some (lg_dag l !! h);
  tr_confidence : ∀ h, lg_conf l !! h = (λ _, gains h L) <$> lg_pool l !! h;
  tr_unseen : ∀ h, lg_pool l !! h = None → gains h L = 0 ∧ ∀ u, touches h u L = 0;
  tr_set : ∀ u ct, lg_sets l !! u = Some ct → spends l (vr_pref ct) u ∧ vr_counts L u ct;
  tr_no_set : ∀ u, lg_sets l !! u = None → untouched u L;
  tr_member : ∀ u h, spends l h u →
    ∃ ct, lg_sets l !! u = Some ct ∧ (vr_conflicts ct = false → vr_pref ct = h);
}.

(** ... the preferred transaction of an output has the most votes, and each vote
    reaches each input; one more vote for [h] has yet to reach the outputs [rest]. *)
Record pending (h : Hash) (rest : list Utxo) L l : Prop := {
  pd_pref : ∀ u ct x, lg_sets l !! u = Some ct → spends l x u →
    gains x L ≤ gains (vr_pref ct) L + (if decide (x = h ∧ u ∈ rest) then 1 else 0);
  pd_reach : ∀ x u e, lg_pool l !! x = Some e →
    touches x u L + (if decide (x = h) then occ u rest else 0) = gains x L * occ u (txn_keys e.1);
}.

Definition logs L l : Prop := tracks L l ∧ ∀ h, pending h [] L l.

Lemma pending_nil h h' L l : pending h [] L l → pending h' [] L l.
Proof.
  intros [Hp Hr]. split.
  - intros u ct x Hu Hs. specialize (Hp u ct x Hu Hs). assert (∀ y, ¬ (x = y ∧ u ∈ [])) as Hno by (by intros y [_ ?%elem_of_nil]).
    by rewrite decide_False in Hp by apply Hno; rewrite decide_False by apply Hno.
  - intros x u e He. specialize (Hr x u e He). cbn in *. repeat case_decide; lia.
Qed.

Lemma spends_spent L l h u : tracks L l → spends l h u → spent L h u.
Proof. intros Ht (e & He & Hu). eexists _, _. split; [by eapply tr_pool|done]. Qed.

Lemma spent_spends L l h u : tracks L l → spent L h u → spends l h u.
Proof. intros Ht (ps & keys & Hs & Hu). destruct (tr_seen _ _ Ht _ _ _ Hs) as (e & He & _ & ->). by exists e. Qed.

Lemma spends_alone L l h u ct :
  tracks L l → spends l h u → lg_sets l !! u = Some ct → vr_conflicts ct = false → vr_pref ct = h.
Proof. intros Ht Hs Hu Hf. destruct (tr_member _ _ Ht _ _ Hs) as (ct1 & ? & Hp). simplify_eq. by apply Hp. Qed.

(** Each vote has reached each input. *)
Lemma logs_reach L l h u : logs L l → spends l h u → gains h L ≤ touches h u L.
Proof.
  intros [_ Hp] (e & He & Hu). pose proof (pd_reach _ _ _ _ (Hp h) h u e He) as Hr. cbn in Hr.
  rewrite decide_True in Hr by done. pose proof (occ_in _ _ Hu). nia.
Qed.

(** Other events leave queries and ballots as they were. *)
Definition bookless (e : vote_event) : Prop :=
  match e with Ask _ _ | Ballot _ _ | Tally _ => False | _ => True end.

Lemma books_other e L fin q vs : bookless e → books L fin q vs → books (e :: L) fin q vs.
Proof.
  intros He Hb blk. destruct (Hb blk) as [Hf Hq]. rewrite elem_of_cons.
  assert (ask blk (e :: L) = ask blk L ∧ ballots blk (e :: L) = ballots blk L) as [-> ->] by (by destruct e).
  assert (Tally blk ≠ e) by (by destruct e). tauto.
Qed.

(** The fields that an event about votes leaves as they were. *)
Local Ltac kept Ht :=
  let Hx := fresh in
  solve [ apply books_other; [done|exact (tr_books _ _ Ht)]
  | exact (tr_confidence _ _ Ht) | exact (tr_unseen _ _ Ht) | exact (tr_member _ _ Ht)
  | intros ? ? Hx; destruct (tr_batch _ _ Ht _ _ Hx) as (? & ? & ?); eexists; split; [by right|done]
  | intros ? ? Hx; right; exact (tr_pool _ _ Ht _ _ Hx)
  | intros ? ? ? Hx; apply seen_vote in Hx; [|done]; exact (tr_seen _ _ Ht _ _ _ Hx)
  | intros ? ? Hx; destruct (tr_dag _ _ Ht _ _ Hx) as [? ?]; eexists; by right
  | intros ?; rewrite undecided_vote by done; apply (tr_undecided _ _ Ht)
  | intros ? ? Hx; destruct (tr_set _ _ Ht _ _ Hx); split; [done|apply vr_counts_other; [by intros []|done]]
  | intros ? Hx; apply untouched_cons; [by intros []|by apply (tr_no_set _ _ Ht)] ].

(** *** An output's set changes as the event says *)

Lemma tracks_set e L l u ct ct' :
  tracks L l → vote_only e → bookless e → fair (terms_of l) (e :: L) →
  (∀ h, gains h (e :: L) = gains h L) →
  (∀ h u', lg_pool l !! h = None → touches h u' (e :: L) = touches h u' L) →
  (∀ u', u' ≠ u → ¬ about u' e) →
  lg_sets l !! u = Some ct → spends l (vr_pref ct') u →
  (vr_conflicts ct' = false → vr_conflicts ct = false ∧ vr_pref ct' = vr_pref ct) →
  vr_counts (e :: L) u ct' → tracks (e :: L) (set_sets (<[u := ct']> (lg_sets l)) l).
Proof.
  intros Ht He Hbk Hf Hg Hto Hab Hu Hpref Hno Hc.
  split; cbn [set_sets lg_pool lg_dag lg_conf lg_sets lg_finished lg_query lg_votes]; [exact Hf|kept Ht|kept Ht|kept Ht|kept Ht|kept Ht|kept Ht|..].
  - intros h. rewrite Hg. exact (tr_confidence _ _ Ht h).
  - intros h Hh. rewrite Hg. split; [exact (proj1 (tr_unseen _ _ Ht h Hh))|]. intros u'. rewrite Hto by done. by apply (tr_unseen _ _ Ht).
  - intros u' ct1 [[<- <-]|[Hne Hu']]%lookup_insert_Some; [by split|].
    destruct (tr_set _ _ Ht _ _ Hu') as [? Hs]. split; [done|]. apply vr_counts_other; [by apply Hab|done].
  - intros u' [Hu' Hne]%lookup_insert_None. apply untouched_cons; [by apply Hab|]. by apply (tr_no_set _ _ Ht).
  - intros u' h Hs. destruct (decide (u' = u)) as [->|Hne].
    + exists ct'. split; [by apply lookup_insert_eq|]. intros [Hf0 ->]%Hno. by apply (spends_alone L l h u).
    + destruct (tr_member _ _ Ht _ _ Hs) as (ct1 & ? & ?). exists ct1. by rewrite lookup_insert_ne.
Qed.

(** A vote for [h], who may become the preferred transaction. *)
Lemma tracks_touch L l h u ct ct' :
  tracks L l → Gain h ∈ since L → undecided L h → spends l h u → lg_sets l !! u = Some ct →
  vr_conflicts ct' = vr_conflicts ct → vr_pref ct' = vr_pref ct ∨ vr_pref ct' = h →
  vr_counts (Touch u h :: L) u ct' → tracks (Touch u h :: L) (set_sets (<[u := ct']> (lg_sets l)) l).
Proof.
  intros Ht Hgain Hund Hs Hu Hc Hp Hcnt. eapply tracks_set; try done; cbn.
  - split; [|apply Ht]. split; [done|]. split; [done|]. by eapply spends_spent.
  - intros x u' Hx. case_decide; [|done]. rewrite decide_False; [done|]. intros ->. destruct Hs as (? & ? & _). congruence.
  - intros u' Hne Heq. by apply Hne.
  - destruct Hp as [->| ->]; [by eapply tr_set|done].
  - rewrite Hc. intros Hf. split; [done|]. destruct Hp as [->| ->]; [done|]. symmetry. by apply (spends_alone L l h u).
Qed.

Lemma pending_touch L l h u rest ct' :
  pending h (u :: rest) L l → (∀ x, spends l x u → gains x L ≤ gains (vr_pref ct') L) →
  pending h rest (Touch u h :: L) (set_sets (<[u := ct']> (lg_sets l)) l).
Proof.
  intros [Hp Hr] Hmax. split; cbn [set_sets lg_sets lg_pool gains].
  - intros u' ct1 x [[<- <-]|[Hne Hu']]%lookup_insert_Some Hs; [specialize (Hmax x Hs); lia|].
    specialize (Hp u' ct1 x Hu' Hs). revert Hp. clear -Hne.
    destruct (decide (x = h ∧ u' ∈ u :: rest)) as [[Hh Hin]|_], (decide (x = h ∧ u' ∈ rest)) as [_|Hn]; try lia.
    apply elem_of_cons in Hin as [->|?]; [done|tauto].
  - intros x u' e He. specialize (Hr x u' e He). rewrite <- Hr. cbn. clear. repeat case_decide; subst; try done; lia.
Qed.

(** *** The other events *)

Lemma logs_gain L l h e :
  logs L l → in_poll (lg_thresh l) true L h → undecided L h → Gain h ∉ since L → lg_pool l !! h = Some e →
  let l' := set_conf (<[h := gains h (Gain h :: L)]> (lg_conf l)) l in
  tracks (Gain h :: L) l' ∧ pending h (txn_keys e.1) (Gain h :: L) l'.
Proof.
  intros [Ht Hp] Hpoll Hund Hnew Hh.
  split; [split|split]; cbn [set_conf lg_thresh lg_beta1 lg_beta2 lg_k lg_pool lg_dag lg_conf lg_sets lg_finished lg_query lg_votes]; try kept Ht.
  - split; [by split_and!|apply Ht].
  - intros h'. destruct (decide (h = h')) as [->|Hne]; [by rewrite lookup_insert_eq, Hh|].
    rewrite lookup_insert_ne, (tr_confidence _ _ Ht) by done. cbn. by rewrite decide_False.
  - intros h' Hh'. destruct (tr_unseen _ _ Ht _ Hh') as [Hg Hto]. split; [|exact Hto]. cbn.
    rewrite decide_False by congruence. by rewrite Hg.
  - intros u ct x Hu Hs. pose proof (pd_pref _ _ _ _ (Hp x) u ct x Hu Hs) as Hpx.
    rewrite decide_False in Hpx by (intros [_ []%elem_of_nil]). cbn.
    destruct (decide (h = x)) as [<-|]; [|case_decide; lia].
    rewrite (decide_True (P := h = h ∧ _)); [case_decide; lia|]. split; [done|].
    destruct Hs as (e' & He' & Hin). cbn in He'. congruence.
  - intros x u e' He'. pose proof (pd_reach _ _ _ _ (Hp x) x u e' He') as Hr. cbn in Hr |- *. destruct (decide (h = x)) as [<-|Hne].
    + rewrite decide_True in Hr |- * by done. assert (e' = e) as -> by congruence. lia.
    + rewrite decide_False by done. rewrite decide_True in Hr by done. lia.
Qed.

Lemma logs_accept L l h :
  logs L l → vr_accept (C:=C) (lg_beta1 l) (lg_beta2 l) L h → undecided L h → Gain h ∈ since L →
  logs (Accept h :: L) (set_dag (delete h (lg_dag l)) l).
Proof.
  intros [Ht Hp] Hacc Hund Hgain.
  assert (∀ h' ps keys, Seen h' ps keys ∈ Accept h :: L ↔ Seen h' ps keys ∈ L) as Hin.
  { intros. rewrite elem_of_cons. split; [intros [|]; done|by right]. }
  split; [split|]; cbn [set_dag lg_thresh lg_beta1 lg_beta2 lg_k lg_pool lg_dag lg_conf lg_sets lg_finished lg_query lg_votes]; try kept Ht.
  - split; [by split|apply Ht].
  - intros h' ps keys ?%Hin. by eapply (tr_seen _ _ Ht).
  - intros h' node [_ Hn]%lookup_delete_Some. destruct (tr_dag _ _ Ht _ _ Hn) as [keys ?]. exists keys. by right.
  - intros h'. rewrite lookup_delete_is_Some, <- (tr_undecided _ _ Ht). unfold undecided, seen. setoid_rewrite Hin.
    rewrite not_elem_of_cons. split; [intros (? & Hne & ?); split; [congruence|done]|].
    intros (Hne & ? & ?). split; [done|]. split; [congruence|done].
  - intros x. destruct (Hp x). by split.
Qed.

(** What comes before the votes: ballots and queries are entered in the books. *)
Lemma logs_silent e L l fin q vs :
  logs L l → silent e → fair_event (terms_of l) L e → books (e :: L) fin q vs → logs (e :: L) (set_books fin q vs l).
Proof.
  intros [Ht Hp] He Hf Hb. assert (vote_only e) as Hv by (by apply silent_vote).
  assert ((∀ h, gains h (e :: L) = gains h L) ∧ ∀ h u, touches h u (e :: L) = touches h u L) as [Hg Hto]
    by (by destruct e).
  assert (∀ u, ¬ about u e) as Hab by (intros u; by destruct e; intros ?).
  split; [split|]; cbn [set_books lg_thresh lg_beta1 lg_beta2 lg_k lg_pool lg_dag lg_conf lg_sets lg_finished lg_query lg_votes];
    try kept Ht.
  - by split; [|apply Ht].
  - done.
  - intros h. rewrite Hg. apply (tr_confidence _ _ Ht).
  - intros h Hh. rewrite Hg. setoid_rewrite Hto. by apply (tr_unseen _ _ Ht).
  - intros u ct Hu. destruct (tr_set _ _ Ht _ _ Hu). split; [done|by apply vr_counts_other].
  - intros u Hu. apply untouched_cons; [done|by apply (tr_no_set _ _ Ht)].
  - intros x. destruct (Hp x) as [Hpx Hr]. split; cbn [set_books lg_sets lg_pool].
    + intros u ct y. rewrite !Hg. apply Hpx.
    + intros y u e'. rewrite Hg, Hto. apply Hr.
Qed.

Lemma logs_other e L l : logs L l → silent e → bookless e → fair_event (terms_of l) L e → logs (e :: L) l.
Proof.
  intros Hl He Hb Hf. destruct (logs_silent e L l (lg_finished l) (lg_query l) (lg_votes l)) as [Ht Hp]; [done..| |].
  - apply books_other; [done|apply Hl].
  - by destruct l.
Qed.

(** A batch of the node's own. *)
Lemma logs_ask L l blk qs :
  logs L l → rest (terms_of l) L →
  logs (Ask blk qs :: L) (set_books (lg_finished l) (<[blk := qs]> (lg_query l)) (lg_votes l) l).
Proof.
  intros Hl Hr. apply logs_silent; [done..|]. intros b. destruct (tr_books _ _ (proj1 Hl) b) as [Hf Hq]. cbn.
  assert (Tally b ∈ Ask blk qs :: L ↔ Tally b ∈ L) as -> by (rewrite elem_of_cons; naive_solver).
  split; [done|]. intros [Hqb Hv]%Hq. split; [|done]. case_decide; [subst; by rewrite lookup_insert_eq|by rewrite lookup_insert_ne].
Qed.

(** A ballot, for a batch that is counted already, or for one that is not. *)
Lemma logs_ballot_late L l blk bits :
  logs L l → rest (terms_of l) L → Tally blk ∈ L → logs (Ballot blk bits :: L) l.
Proof.
  intros Hl Hr Hin. assert (books (Ballot blk bits :: L) (lg_finished l) (lg_query l) (lg_votes l)) as Hb.
  { intros b. destruct (tr_books _ _ (proj1 Hl) b) as [Hf Hq]. cbn.
    assert (Tally b ∈ Ballot blk bits :: L ↔ Tally b ∈ L) as -> by (rewrite elem_of_cons; naive_solver).
    split; [done|]. intros Hno. rewrite decide_False by (by intros ->). by apply Hq. }
  destruct (logs_silent (Ballot blk bits) L l _ _ _ Hl I Hr Hb) as [Ht Hp]. by destruct l.
Qed.

Lemma logs_ballot L l blk bits v :
  logs L l → rest (terms_of l) L → Tally blk ∉ L →
  v = default (0, replicate (length bits) 0) (lg_votes l !! blk) → length v.2 = length bits →
  v.1 = N.of_nat (length (ballots blk L)) ∧
  logs (Ballot blk bits :: L)
    (set_books (lg_finished l) (lg_query l) (<[blk := (v.1 + 1, add_votes bits v.2)]> (lg_votes l)) l).
Proof.
  intros Hl Hr Hin Hv Hlen. destruct (tr_books _ _ (proj1 Hl) blk) as [_ [_ Hvb]]; [done|].
  assert (v = (N.of_nat (length (ballots blk L)), columns (length bits) (ballots blk L))) as ->.
  { destruct (lg_votes l !! blk) as [v'|]; cbn in Hv; [|by rewrite Hv, Hvb, columns_nil].
    destruct Hvb as (n & ->). subst v. cbn in Hlen. rewrite length_columns in Hlen. by subst n. }
  split; [done|]. apply logs_silent; [done..|]. intros b. destruct (tr_books _ _ (proj1 Hl) b) as [Hf Hq]. cbn.
  assert (Tally b ∈ Ballot blk bits :: L ↔ Tally b ∈ L) as -> by (rewrite elem_of_cons; naive_solver).
  split; [done|]. intros [Hqb Hvb']%Hq. split; [done|]. destruct (decide (blk = b)) as [<-|Hne].
  - rewrite lookup_insert_eq. exists (length bits). rewrite add_votes_columns. cbn. f_equal. lia.
  - by rewrite lookup_insert_ne.
Qed.

(** The ballots are counted. *)
Lemma logs_tally L l blk :
  logs L l → ripe (lg_k l) L blk → ask blk L ≠ None → Tally blk ∉ L →
  logs (Tally blk :: L)
    (set_books ({[blk]} ∪ lg_finished l) (delete blk (lg_query l)) (delete blk (lg_votes l)) l).
Proof.
  intros Hl Hr Ha Hin. apply logs_silent; [done..|]. intros b. destruct (tr_books _ _ (proj1 Hl) b) as [Hf Hq]. cbn.
  rewrite elem_of_union, elem_of_singleton, Hf, elem_of_cons. split; [naive_solver|].
  intros Hno. rewrite !lookup_delete_ne by naive_solver. apply Hq. naive_solver.
Qed.

Lemma logs_reset L l h u ct ct' :
  logs L l → in_poll (lg_thresh l) false L h → spent L h u → lg_sets l !! u = Some ct →
  vr_conflicts ct' = vr_conflicts ct → vr_pref ct' = vr_pref ct → vr_counts (Reset u :: L) u ct' →
  logs (Reset u :: L) (set_sets (<[u := ct']> (lg_sets l)) l).
Proof.
  intros [Ht Hp] Hpoll Hsp Hu Hc Hpr Hcnt. split.
  - eapply tracks_set; try done; cbn.
    + split; [by exists h|apply Ht].
    + intros u' Hne Heq. by apply Hne.
    + rewrite Hpr. by eapply tr_set.
    + by rewrite Hc.
  - intros x. destruct (Hp x) as [Hpx Hr]. split; cbn [set_sets lg_sets lg_pool gains touches]; [|exact Hr].
    intros u' ct1 y [[<- <-]|[_ Hu']]%lookup_insert_Some; [rewrite Hpr|]; by apply Hpx.
Qed.

(** Of two accepted transactions that spend the same output, the one accepted later had
    a rival. *)
Lemma rivals_later L l h1 h2 u :
  tracks L l → Accept h1 ∈ L → Accept h2 ∈ L → h1 ≠ h2 → spends l h1 u → spends l h2 u →
  ∃ h h' L1 L2, (h = h1 ∧ h' = h2 ∨ h = h2 ∧ h' = h1) ∧ L = L2 ++ Accept h :: L1 ∧ Accept h' ∈ L1 ∧
    vr_accept (C:=C) (lg_beta1 l) (lg_beta2 l) L1 h ∧ spent L1 h' u ∧
    ∀ ps keys, Seen h ps keys ∈ L1 → u ∈ keys ∧ ∃ e, lg_pool l !! h = Some e ∧ keys = txn_keys e.1.
Proof.
  intros Ht Hin1 Hin2 Hne Hs1 Hs2.
  destruct (fair_later _ _ h1 h2 (tr_fair _ _ Ht)) as (h & h' & L1 & L2 & Hh & -> & Hin' & Hr); [done..|].
  assert (spends l h u ∧ spends l h' u) as [(e & He & Hu) (e' & He' & Hu')] by naive_solver.
  assert (∀ x ps keys, Seen x ps keys ∈ L1 → Seen x ps keys ∈ L2 ++ Accept h :: L1) as Hmono
    by (intros x ps keys Hx; apply elem_of_app; right; by right).
  exists h, h', L1, L2. split_and!; [done..| |].
  - pose proof (tr_fair _ _ Ht) as Hf. apply fair_app, proj2 in Hf.
    destruct (fair_seen _ L1 h' Hf Hin') as (ps & keys & Hseen). exists ps, keys. split; [done|].
    destruct (tr_seen _ _ Ht h' ps keys) as (e2 & He2 & _ & ->); [by apply Hmono|congruence].
  - intros ps keys Hseen. destruct (tr_seen _ _ Ht h ps keys) as (e2 & He2 & _ & ->); [by apply Hmono|].
    split; [congruence|by exists e2].
Qed.

(** *** A transaction is seen *)

Definition join (h : Hash) (cts : gmap Utxo C) (u : Utxo) : gmap Utxo C :=
  match cts !! u with None => <[u := vr_fresh h]> cts | Some ct => <[u := vr_mark ct]> cts end.

(** One set is another, marked any number of times. *)
Definition marks : C → C → Prop := rtc (λ a b, b = vr_mark a).

Lemma marks_ok L u ct ct' : marks ct ct' → vr_pref ct' = vr_pref ct ∧ (vr_counts L u ct → vr_counts L u ct').
Proof.
  induction 1 as [|a b c -> _ [Hp Hc]]; [done|]. split; [rewrite Hp; apply vr_mark_ok|].
  intros Ha. by apply Hc, vr_counts_mark.
Qed.

Lemma marks_conflicts ct ct' : marks (vr_mark ct) ct' → vr_conflicts ct' = true.
Proof. intros [<-|(b & _ & ->)]%rtc_inv_r; apply vr_mark_ok. Qed.

Lemma join_lookup h keys cts (u : Utxo) :
  let cts' := foldl (join h) cts keys in
  if decide (u ∈ keys)
  then ∃ ct', cts' !! u = Some ct' ∧ marks (default (vr_fresh h) (cts !! u)) ct' ∧
    (is_Some (cts !! u) → vr_conflicts ct' = true)
  else cts' !! u = cts !! u.
Proof.
  revert cts. induction keys as [|k keys IH]; intros cts; [done|]. cbn [foldl]. cbv zeta.
  specialize (IH (join h cts k)). cbv zeta in IH. destruct (decide (u = k)) as [->|Hne].
  - rewrite (decide_True (P := k ∈ k :: keys)) by apply list_elem_of_here.
    assert (join h cts k !! k = Some (match cts !! k with None => vr_fresh h | Some ct => vr_mark ct end)) as Hj
      by (unfold join; destruct (cts !! k); by rewrite lookup_insert_eq).
    assert (∀ ct', marks (match cts !! k with None => vr_fresh h | Some ct => vr_mark ct end) ct' →
      marks (default (vr_fresh h) (cts !! k)) ct' ∧ (is_Some (cts !! k) → vr_conflicts ct' = true)) as Hm.
    { intros ct' Hm. destruct (cts !! k) as [ct|]; cbn; [|split; [done|by intros []]].
      split; [by eapply rtc_l|]. intros _. by eapply marks_conflicts. }
    rewrite Hj in IH. destruct (decide (k ∈ keys)).
    + destruct IH as (ct' & Hct & Hm' & _). exists ct'. split; [done|]. by apply Hm.
    + eexists. split; [exact IH|]. apply Hm. apply rtc_refl.
  - assert (join h cts k !! u = cts !! u) as Hj by (unfold join; destruct (cts !! k); by rewrite lookup_insert_ne).
    rewrite Hj in IH. destruct (decide (u ∈ keys)) as [Hin|Hin]; [rewrite decide_True by (by right); done|].
    rewrite decide_False; [done|]. by intros [?|?]%elem_of_cons.
Qed.

Lemma add_to_dag_parents h ps dag x node :
  add_to_dag h ps dag !! x = Some node →
  x = h ∧ parents node = ps ∨ ∃ n0, dag !! x = Some n0 ∧ parents node = parents n0.
Proof.
  unfold add_to_dag. assert (∀ qs d, foldl (λ d p, add_child h p d) d qs !! x = Some node →
    ∃ n0, d !! x = Some n0 ∧ parents node = parents n0) as Hfold.
  { induction qs as [|p qs IH]; intros d; cbn; [by exists node|]. intros (n1 & Hn1 & Hp)%IH. unfold add_child in Hn1.
    destruct (d !! p) as [n2|] eqn:E; [|by exists n1].
    apply lookup_insert_Some in Hn1 as [[<- <-]|[_ ?]]; [by exists n2|by exists n1]. }
  intros (n0 & Hn0 & Hp)%Hfold. apply lookup_insert_Some in Hn0 as [[<- <-]|[_ ?]]; [by left|right; by exists n0].
Qed.

(** The ledger with a transaction never seen before in it. *)
Definition recording (txn : Txn) (ctx : TxnCtx) (ps : list Hash) (keys : list Utxo) (l : ledger C) : ledger C :=
  let h := tc_id ctx in
  mkLedger (lg_thresh l) (lg_beta1 l) (lg_beta2 l) (lg_k l) (<[h := (txn, ctx)]> (lg_pool l))
    (add_to_dag h ps (lg_dag l)) (<[h := 0]> (lg_conf l)) (foldl (join h) (lg_sets l) keys)
    (lg_finished l) (lg_query l) (lg_votes l).

Section Record.
Context (L : list vote_event) (l : ledger C) (txn : Txn) (ctx : TxnCtx) (ts : list (Hash * Txn)).
Context (Hs : logs L l) (Hnew : lg_pool l !! tc_id ctx = None).
Context (Hin_L : Batch ts ∈ L) (Hin_ts : (tc_id ctx, txn) ∈ ts).
Let h := tc_id ctx.
Let ps := txn_parents txn.
Let keys := txn_keys txn.
Let l' := recording txn ctx ps keys l.
Let L' := Seen h ps keys :: L.

Lemma record_spends x u : spends l' x u ↔ spends l x u ∨ x = h ∧ u ∈ keys.
Proof.
  unfold spends. change (lg_pool l') with (<[h := (txn, ctx)]> (lg_pool l)). setoid_rewrite lookup_insert_Some. split.
  - intros (e & [[<- <-]|[Hne He]] & Hu); [by right|left; by exists e].
  - intros [(e & He & Hu)|[-> Hu]]; [exists e; split; [right|done]|eexists; split; [by left|done]].
    split; [unfold h; congruence|done].
Qed.

(** The set of an output, old or new, and who spends it. *)
Lemma record_set u ct :
  lg_sets l' !! u = Some ct →
  (∃ ct0, lg_sets l !! u = Some ct0 ∧ marks ct0 ct) ∨ lg_sets l !! u = None ∧ u ∈ keys ∧ marks (vr_fresh h) ct.
Proof.
  change (lg_sets l') with (foldl (join h) (lg_sets l) keys). intros Hu.
  pose proof (join_lookup h keys (lg_sets l) u) as Hj. cbv zeta in Hj. destruct (decide (u ∈ keys)) as [Hin|Hin].
  - destruct Hj as (ct' & Hct & Hm & _). assert (ct' = ct) as -> by congruence.
    destruct (lg_sets l !! u) as [ct0|]; [left; by exists ct0|by right].
  - left. exists ct. split; [by rewrite <- Hj|apply rtc_refl].
Qed.

Lemma record_no_set u : lg_sets l' !! u = None → lg_sets l !! u = None.
Proof.
  change (lg_sets l') with (foldl (join h) (lg_sets l) keys). intros Hu.
  pose proof (join_lookup h keys (lg_sets l) u) as Hj. cbv zeta in Hj.
  destruct (decide (u ∈ keys)); [destruct Hj as (? & ? & _)|]; congruence.
Qed.

Lemma record_member u x :
  spends l' x u → ∃ ct, lg_sets l' !! u = Some ct ∧ (vr_conflicts ct = false → vr_pref ct = x).
Proof.
  change (lg_sets l') with (foldl (join h) (lg_sets l) keys).
  pose proof (join_lookup h keys (lg_sets l) u) as Hj. cbv zeta in Hj.
  intros [Hsp|[-> Hin]]%record_spends.
  - destruct (tr_member _ _ (proj1 Hs) _ _ Hsp) as (ct & Hct & Hno). rewrite Hct in Hj.
    destruct (decide (u ∈ keys)); [|exists ct; by rewrite Hj]. destruct Hj as (ct' & -> & _ & Hc).
    eexists. split; [done|]. by rewrite Hc.
  - rewrite decide_True in Hj by done. destruct Hj as (ct' & -> & Hm & Hc). eexists. split; [done|].
    destruct (lg_sets l !! u) eqn:E; [by rewrite Hc|]. intros _.
    rewrite (proj1 (marks_ok L u _ _ Hm)). apply vr_fresh_ok.
Qed.

Lemma record_undecided x : undecided L' x ↔ is_Some (lg_dag l' !! x).
Proof.
  destruct Hs as [Ht _]. change (lg_dag l') with (add_to_dag h ps (lg_dag l)).
  rewrite <- elem_of_dom, AvaProps.dom_add_to_dag, elem_of_union, elem_of_singleton, elem_of_dom, <- (tr_undecided _ _ Ht).
  unfold undecided, L'. rewrite not_elem_of_cons. destruct (decide (x = h)) as [->|Hne].
  - split; [by left|]. intros _. split; [eexists _, _; by left|]. split; [done|].
    intros (ps' & keys' & Hsn)%(fair_seen _ _ _ (tr_fair _ _ Ht)).
    destruct (tr_seen _ _ Ht _ _ _ Hsn) as (e & He & _). unfold h in He. congruence.
  - split; [|intros [?|[? ?]]; [done|by split_and!; [apply seen_cons|..]]].
    intros [(ps' & keys' & [[=]|Hsn]%elem_of_cons) [_ Ha]]; [done|]. right. split; [by exists ps', keys'|done].
Qed.

Lemma record_tracks : tracks L' l'.
Proof.
  destruct Hs as [Ht _]. assert (Hpool : lg_pool l' = <[h := (txn, ctx)]> (lg_pool l)) by done. split.
  - split; [|apply Ht]. split; [|by exists ts, txn].
    intros (ps' & keys' & (e & He & _)%(tr_seen _ _ Ht)). unfold h in He. congruence.
  - apply books_other; [done|apply Ht].
  - intros x e He. rewrite Hpool in He. apply lookup_insert_Some in He as [[<- <-]|[_ He]].
    + exists ts. split; [by right|done].
    + destruct (tr_batch _ _ Ht _ _ He) as (ts' & ? & ?). exists ts'. split; [by right|done].
  - intros x e He. rewrite Hpool in He. apply lookup_insert_Some in He as [[<- <-]|[_ He]]; [by left|].
    right. by eapply tr_pool.
  - intros x ps' keys' [[= -> -> ->]|Hin]%elem_of_cons; rewrite Hpool; [exists (txn, ctx); by rewrite lookup_insert_eq|].
    destruct (tr_seen _ _ Ht _ _ _ Hin) as (e & He & -> & ->). exists e. by rewrite lookup_insert_ne by (unfold h; congruence).
  - intros x node [[-> <-]|(n0 & Hn0 & ->)]%add_to_dag_parents; [eexists; by left|].
    destruct (tr_dag _ _ Ht _ _ Hn0) as [keys' ?]. exists keys'. by right.
  - apply record_undecided.
  - intros x. rewrite Hpool. change (lg_conf l') with (<[h := 0]> (lg_conf l)). cbn.
    destruct (decide (h = x)) as [<-|Hne]; [rewrite !lookup_insert_eq; cbn; by rewrite (proj1 (tr_unseen _ _ Ht h Hnew))|].
    rewrite !lookup_insert_ne by done. apply (tr_confidence _ _ Ht).
  - intros x Hx. rewrite Hpool in Hx. apply lookup_insert_None in Hx as [Hx _]. by apply (tr_unseen _ _ Ht).
  - intros u ct [(ct0 & Hu & Hm)|(Hu & Hin & Hm)]%record_set; destruct (marks_ok L' u _ _ Hm) as [-> Hc].
    + destruct (tr_set _ _ Ht _ _ Hu) as [? ?]. split; [apply record_spends; by left|].
      apply Hc, vr_counts_other; [by intros []|done].
    + split; [apply record_spends; right; split; [apply vr_fresh_ok|done]|].
      apply Hc, vr_counts_fresh, untouched_cons; [by intros []|]. by apply (tr_no_set _ _ Ht).
  - intros u Hu%record_no_set. apply untouched_cons; [by intros []|]. by apply (tr_no_set _ _ Ht).
  - intros u x. apply record_member.
Qed.

Lemma logs_record : logs L' l'.
Proof.
  split; [apply record_tracks|]. destruct Hs as [Ht Hp]. intros y. split.
  - intros u ct x Hu Hx. change (gains x L ≤ gains (vr_pref ct) L + (if decide (x = y ∧ u ∈ []) then 1 else 0)).
    apply record_spends in Hx as [Hx|[-> _]]; [|rewrite (proj1 (tr_unseen _ _ Ht h Hnew)); lia].
    apply record_set in Hu as [(ct0 & Hu & Hm)|(Hu & _)].
    + rewrite (proj1 (marks_ok L u _ _ Hm)). exact (pd_pref _ _ _ _ (Hp y) u ct0 x Hu Hx).
    + destruct (tr_member _ _ Ht _ _ Hx) as (? & ? & _). congruence.
  - intros x u e He. change (<[h := (txn, ctx)]> (lg_pool l) !! x = Some e) in He.
    apply lookup_insert_Some in He as [[<- <-]|[_ He]]; [|exact (pd_reach _ _ _ _ (Hp y) x u e He)].
    destruct (tr_unseen _ _ Ht h Hnew) as [Hg Hto]. cbn. rewrite Hg, Hto. by case_decide.
Qed.
End Record.
End Ledger.
