(* ===== verification/VoteStage.v ===== *)
(** * The calls of an Avalanche decision stage, against the log of votes

    [Stage] reads the state of a stage as a ledger and a queue of batches to commit. A
    poll that counts is [polling], the polls of a batch are [counted] one after the other,
    between calls the stage is [recorded]: its log is at rest and says what has been handed
    to the commit stage. The lemmas here are about the walk over the ancestors both stages
    share, and about what the calls enter in the log; [run_step] is a call of the decision
    thread, which adds to a run what the call heard. *)

From S2P Require Import Prelude F64 Protocol Peers Utils Config AvaDecide VoteLog VoteLedger.
Local Open Scope N_scope.

(** The stage of a state, and its queue of batches to commit. *)
Class Stage (S C : Type) := {
  st_ledger : S → ledger C;
  st_queue : S → list (N * list Hash);
}.
#[global] Hint Mode Stage ! - : typeclass_instances.

(** *** What is handed to the commit stage, in the order it was accepted in *)

Definition handed (pool : gmap Hash (Txn * TxnCtx)) (h : Hash) : bool :=
  match pool !! h with Some (TAvalanche t, _) => committable t | _ => false end.
Fixpoint commits (pool : gmap Hash (Txn * TxnCtx)) (L : list vote_event) : list Hash :=
  match L with
  | [] => []
  | Accept h :: L => commits pool L ++ (if handed pool h then [h] else [])
  | _ :: L => commits pool L
  end.

Lemma commits_vote pool e L : vote_only e → commits pool (e :: L) = commits pool L.
Proof. by destruct e. Qed.

Lemma commits_touch_all pool h keys L : commits pool (touch_all h keys L) = commits pool L.
Proof. revert L. induction keys as [|u keys IH]; intros L; cbn; [done|]. by rewrite IH. Qed.

Lemma commits_in pool L h : h ∈ commits pool L → Accept h ∈ L.
Proof.
  induction L as [|e L IH]; cbn; [by intros ?%elem_of_nil|]. destruct e; try (right; auto; fail).
  intros [Hh|Hh]%elem_of_app; [right; auto|]. destruct (handed _ _); [|by apply elem_of_nil in Hh].
  apply list_elem_of_singleton in Hh as ->. by left.
Qed.

Lemma commits_insert pool L h e :
  pool !! h = None → (∀ x, Accept x ∈ L → is_Some (pool !! x)) → commits (<[h := e]> pool) L = commits pool L.
Proof.
  intros Hh Hin. induction L as [|ev L IH]; [done|]. assert (commits (<[h := e]> pool) L = commits pool L) as IH'.
  { apply IH. intros x Hx. apply Hin. by right. }
  destruct ev as [| | | | | | | | | |x]; cbn; try done. rewrite IH'. f_equal. unfold handed.
  rewrite lookup_insert_ne; [done|]. intros ->. destruct (Hin x) as [? ?]; [by left|congruence].
Qed.

(** *** The transactions of a batch, and those it asks about *)

Definition batch_items (ts : list Txn) (cs : list TxnCtx) : list (Hash * Txn) :=
  zip_with (λ t c, (tc_id c, t)) ts cs.
Definition asked_about (t : Txn) (c : TxnCtx) : option Hash :=
  match t with TAvalanche APlaceHolder => None | _ => Some (tc_id c) end.

Section Stages.
Context `{VoteRule C} {S : Type} `{!Stage S C}.
Implicit Types (L B E : list vote_event) (s : S) (G D : gset Hash) (R : gset Utxo).

(** What a vote leaves alone while it reaches the inputs. *)
Definition vote_frame (s : S) : ledger C * list (N * list Hash) := (set_sets ∅ (st_ledger s), st_queue s).

Lemma frame_spends s s' h u : vote_frame s' = vote_frame s → spends (st_ledger s') h u ↔ spends (st_ledger s) h u.
Proof. intros Hf. injection Hf as _ _ _ _ Hp _ _ _ _ _ _. unfold spends. by rewrite Hp. Qed.

Lemma seen_unique L l h ps keys ps' keys' :
  logs (C := C) L l → Seen h ps keys ∈ L → Seen h ps' keys' ∈ L → ps' = ps ∧ keys' = keys.
Proof.
  intros [Ht _] (e & He & -> & ->)%(tr_seen _ _ Ht) (e' & He' & -> & ->)%(tr_seen _ _ Ht).
  by assert (e' = e) as -> by congruence.
Qed.

(** ** A poll counts *)

Section Poll.
Context (B : list vote_event) (h0 : Hash) (v : N) (ok : bool) (q : list (N * list Hash)).

(** The poll of [h0] with [v] votes, which succeeded or not, has counted for [G], and has
    reset the outputs of [R]; so far, [out] is accepted. *)
Definition polling G R (out : list Hash) s : Prop :=
  ∃ E, Forall counting E ∧ logs (E ++ Poll h0 v :: B) (st_ledger s) ∧
    (lg_thresh (st_ledger s) <=? v) = ok ∧ st_queue s = q ∧
    commits (lg_pool (st_ledger s)) (E ++ Poll h0 v :: B) = out ∧
    (∀ x, Gain x ∈ E ↔ x ∈ G) ∧ (∀ u, u ∈ R → Reset u ∈ E).

Lemma counting_in_poll E t x :
  Forall counting E → (t <=? v) = ok → polled B h0 x → in_poll t ok (E ++ Poll h0 v :: B) x.
Proof.
  intros HE Hok Hx. exists h0, v. rewrite after_poll_of, after_before by done. done.
Qed.

Lemma polling_view G R out s s' :
  st_ledger s' = st_ledger s → st_queue s' = st_queue s → polling G R out s → polling G R out s'.
Proof. unfold polling. by intros -> ->. Qed.

Lemma polling_undecided G R out s x :
  polling G R out s → (is_Some (lg_dag (st_ledger s) !! x) → undecided B x) ∧
    (undecided B x → x ∉ G → is_Some (lg_dag (st_ledger s) !! x)).
Proof.
  intros (E & HE & Hl & _ & _ & _ & HG & _). rewrite <- (tr_undecided _ _ (proj1 Hl)).
  split; [by apply after_undecided|]. intros Hu Hx. eapply after_stays; [done|apply Hl|done|by rewrite HG].
Qed.

Lemma polling_dag G R out s x node :
  polling G R out s → lg_dag (st_ledger s) !! x = Some node →
  (∃ keys, Seen x (parents node) keys ∈ B) ∧ ∀ y, visit B x y ↔ y ∈ parents node.
Proof.
  intros Hs Hn. assert (undecided B x) as Hu by (eapply polling_undecided; [done|by eexists]).
  destruct Hs as (E & HE & Hl & _). destruct (tr_dag _ _ (proj1 Hl) _ _ Hn) as [keys Hk].
  split; [exists keys; by eapply after_seen|]. intros y. split.
  - intros [_ (ps & keys' & Hs & Hy)]. assert (ps = parents node) as <-; [|done].
    eapply seen_unique; [done..|]. by eapply after_seen.
  - intros Hy. split; [done|]. exists (parents node), keys. split; [by eapply after_seen|done].
Qed.
End Poll.

(** ** The walk over the ancestors, given the vote for one transaction *)

Section Walk.
Context (dag : S → gmap Hash DagNode) (vote_txn : nat → Hash → DagNode → M S (list Hash)).

Fixpoint walk_parents (rec : Hash → gset Hash → M S (list Hash * gset Hash)) (ps : list Hash)
    (commit_list : list Hash) (dedup : gset Hash) : M S (list Hash * gset Hash) :=
  match ps with
  | [] => mret (commit_list, dedup)
  | p :: ps' => r ← rec p dedup; walk_parents rec ps' (commit_list ++ r.1) r.2
  end.

Fixpoint walk (fuel : nat) (txn_id : Hash) (dedup : gset Hash) : M S (list Hash * gset Hash) :=
  match fuel with
  | O => out_of_fuel
  | Datatypes.S fuel' =>
    if decide (txn_id ∈ dedup) then mret ([], dedup)
    else
      let dedup := {[txn_id]} ∪ dedup in
      d ← gets dag;
      match d !! txn_id with
      | None => mret ([], dedup)
      | Some dag_node =>
        r ← walk_parents (walk fuel') (parents dag_node) [] dedup;
        own ← vote_txn fuel' txn_id dag_node;
        mret (r.1 ++ own, r.2)
      end
  end.

(** What is asked of the vote for one transaction. *)
Definition vote_ok : Prop := ∀ fuel B h0 v q G out x node keys s,
  polling B h0 v true q G ∅ out s → polled B h0 x → x ∉ G → Seen x (parents node) keys ∈ B →
  wpe (vote_txn fuel x node) (λ l, polling B h0 v true q ({[x]} ∪ G) ∅ (out ++ l)) (λ _, False) s.

Section Visited.
Context (B : list vote_event) (h0 : Hash) (v : N) (q : list (N * list Hash)).
Local Notation polling := (polling B h0 v true q).

(** From [D0] to [D]: what is visited has its vote, and its parents are visited. *)
Definition covered D0 D G : Prop := ∀ x,
  x ∈ D → x ∉ D0 → undecided B x → x ∈ G ∧ ∀ y, visit B x y → y ∈ D.

Definition visited D0 G0 (xs : list Hash) D G : Prop :=
  D0 ⊆ D ∧ (∀ x, x ∈ xs → x ∈ D) ∧ G0 ⊆ G ∧ (∀ x, x ∈ G → x ∈ G0 ∨ x ∉ D0 ∧ x ∈ D) ∧ covered D0 D G.

Lemma visited_trans D0 G0 D1 G1 D2 G2 x xs :
  visited D0 G0 [x] D1 G1 → visited D1 G1 xs D2 G2 → visited D0 G0 (x :: xs) D2 G2.
Proof.
  intros (Hd1 & Hx1 & Hg1 & Hn1 & Hc1) (Hd2 & Hx2 & Hg2 & Hn2 & Hc2). split_and!; [set_solver|..].
  - intros y [->|Hy]%elem_of_cons; [|by apply Hx2]. apply Hd2, Hx1, list_elem_of_here.
  - set_solver.
  - intros y [Hy|[? ?]]%Hn2; [|right; set_solver]. apply Hn1 in Hy as [?|[? ?]]; [by left|right; set_solver].
  - intros y Hy Hy0 Hu. destruct (decide (y ∈ D1)) as [Hin|Hin].
    + destruct (Hc1 y Hin Hy0 Hu) as [? Hv]. split; [by apply Hg2|]. intros z Hz. by apply Hd2, Hv.
    + by apply Hc2.
Qed.

Definition walk_ok (rec : Hash → gset Hash → M S (list Hash * gset Hash)) : Prop := ∀ x D G out s,
  rtc (visit B) h0 x → polling G ∅ out s → G ⊆ D →
  wpe (rec x D) (λ r s', ∃ G', polling G' ∅ (out ++ r.1) s' ∧ visited D G [x] r.2 G') (λ _, False) s.

Lemma walk_parents_ok rec ps : walk_ok rec → ∀ acc D G out s,
  (∀ x, x ∈ ps → rtc (visit B) h0 x) → polling G ∅ (out ++ acc) s → G ⊆ D →
  wpe (walk_parents rec ps acc D) (λ r s', ∃ G', polling G' ∅ (out ++ r.1) s' ∧ visited D G ps r.2 G') (λ _, False) s.
Proof.
  intros Hrec. induction ps as [|x ps IH]; intros acc D G out s Hps Hs HG; cbn.
  { exists G. split; [done|]. split_and!; [done|by intros ? ?%elem_of_nil|done|by left|by intros ? ?]. }
  apply wpe_bind. eapply wpe_mono; [apply (Hrec x D G); [apply Hps, list_elem_of_here|done|done]| |done]; cbn beta.
  intros r s1 (G1 & Hs1 & Hv1). rewrite <- (assoc_L (++)) in Hs1.
  eapply wpe_mono; [apply (IH _ _ G1 out); [|exact Hs1|]| |done]; cbn beta.
  - intros y Hy. apply Hps. by right.
  - destruct Hv1 as (? & _ & _ & Hn & _). intros y Hy. destruct (Hn y Hy) as [?|[_ ?]]; [set_solver|done].
  - intros r2 s2 (G2 & Hs2 & Hv2). exists G2. split; [done|]. by eapply visited_trans.
Qed.

Context (Hdag : ∀ s, dag s = lg_dag (st_ledger s)) (Hvote : vote_ok).

Lemma walk_visits fuel : walk_ok (walk fuel).
Proof.
  induction fuel as [|fuel IH]; intros x D G out s Hx Hs HG; cbn; [done|]. case_decide as Hin.
  { exists G. cbn. rewrite app_nil_r. split; [done|]. split_and!; [done| |done|by left|by intros ? ?].
    by intros ? ->%list_elem_of_singleton. }
  wpe_steps. rewrite Hdag. destruct (polling_undecided _ _ _ _ _ _ _ _ _ x Hs) as [Hu1 Hu2].
  destruct (lg_dag (st_ledger s) !! x) as [node|] eqn:Hn; wpe_steps.
  - destruct (polling_dag _ _ _ _ _ _ _ _ _ _ _ Hs Hn) as [[keys Hseen] Hvis].
    eapply wpe_mono; [apply (walk_parents_ok _ _ IH [] ({[x]} ∪ D) G out); [|by rewrite app_nil_r|set_solver]| |done]; cbn beta.
    { intros y Hy%Hvis. by eapply rtc_r. }
    intros r s1 (G1 & Hs1 & Hd & Hps & Hg & Hn1 & Hc). apply wpe_bind.
    assert (x ∉ G1) as HxG by (intros [?|[? _]]%Hn1; set_solver).
    eapply wpe_mono; [eapply (Hvote fuel B h0 v q G1); [exact Hs1|split; [done|by apply Hu1]|done|exact Hseen]| |done]; cbn beta.
    intros own s2 Hs2. wpe_steps. exists ({[x]} ∪ G1). cbn. rewrite (assoc_L (++)). split; [done|].
    split_and!; [set_solver| |set_solver|intros y [->%elem_of_singleton|[?|[? ?]]%Hn1]%elem_of_union; set_solver|].
    + intros y ->%list_elem_of_singleton. set_solver.
    + intros y Hy HyD Hu. destruct (decide (y = x)) as [->|Hne]; [split; [set_solver|]; intros z Hz%Hvis; by apply Hps|].
      destruct (Hc y) as [? ?]; [done|set_solver|done|]. split; [set_solver|done].
  - exists G. cbn. rewrite app_nil_r. split; [done|]. split_and!; [set_solver| |done|by left|].
    + intros y ->%list_elem_of_singleton. set_solver.
    + intros y Hy HyD Hu. assert (y = x) as -> by set_solver. destruct Hu2 as [? ?]; [done|set_solver|done].
Qed.

(** The poll counts for all it is of. *)
Lemma walk_polls fuel out s :
  polling ∅ ∅ out s →
  wpe (walk fuel h0 ∅) (λ r s', ∃ G, polling G ∅ (out ++ r.1) s' ∧ ∀ x, polled B h0 x → x ∈ G) (λ _, False) s.
Proof.
  intros Hs. eapply wpe_mono; [apply (walk_visits fuel h0 ∅ ∅ out); [done|done|done]| |done]; cbn beta.
  intros r s' (G & Hs' & _ & Hr & _ & _ & Hc). exists G. split; [done|]. intros x [Hx Hu].
  apply Hc; [|set_solver|done]. revert Hx. apply (rtc_ind_r (λ y, y ∈ r.2)); [apply Hr, list_elem_of_here|].
  intros y z _ Hyz Hy. apply (Hc y); [done|set_solver|apply Hyz|done].
Qed.
End Visited.
End Walk.

(** ** The polls of a batch, one after the other *)

Definition counted (ds : list (Hash * N)) (ins : list vote_event) (out : list Hash) q s : Prop :=
  ∃ L, logs L (st_ledger s) ∧ st_queue s = q ∧ commits (lg_pool (st_ledger s)) L = out ∧ due L = ds ∧
    settled (terms_of (st_ledger s)) L ∧ noted L ∧ inputs L = ins ∧ ∀ blk, ¬ ripe (lg_k (st_ledger s)) L blk.

Lemma counted_view ds ins out q s s' :
  st_ledger s' = st_ledger s → st_queue s' = st_queue s → counted ds ins out q s → counted ds ins out q s'.
Proof. unfold counted. by intros -> ->. Qed.

(** The next poll, ... *)
Lemma poll_start h v ds ins out q s :
  counted ((h, v) :: ds) ins out q s → ∃ B, due B = (h, v) :: ds ∧ noted B ∧ inputs B = ins ∧
    polling B h v (lg_thresh (st_ledger s) <=? v) q ∅ ∅ out s.
Proof.
  intros (L & Hl & Hq & Hc & Hd & Hst & Hn & Hi & _). exists L. split_and!; [done..|].
  exists []. cbn. split_and!; [done| |done..| |set_solver].
  - apply logs_other; [done..|]. split; [done|]. by rewrite Hd.
  - intros x. split; [by intros ?%elem_of_nil|set_solver].
Qed.

Lemma noted_mono B L : (∀ ts, Batch ts ∈ L → Batch ts ∈ B) → B ⊆ L → noted B → noted L.
Proof.
  intros Hb Hsub Hn ts h t Hts Ht. destruct (Hn ts h t) as [?|(ps & keys & ?)]; [by apply Hb|done|by left|].
  right. exists ps, keys. by apply Hsub.
Qed.

(** ... which has counted for all it is of. *)
Lemma poll_end B h v ok ds ins out q G R s :
  due B = (h, v) :: ds → noted B → inputs B = ins → polling B h v ok q G R out s →
  (∀ x, polled B h x → if ok then x ∈ G else vr_resets (C := C) = true → ∀ u, spent B x u → u ∈ R) →
  counted ds ins out q s.
Proof.
  intros Hd Hn Hi (E & HE & Hl & Hok & Hq & Hc & HG & HR) Hall. exists (E ++ Poll h v :: B).
  split_and!; [done..| | | | |].
  - by rewrite after_due, Hd.
  - intros h' v' x. rewrite after_poll_of, after_before, after_since by done. intros [= <- <-] Hx%Hall. cbn.
    rewrite Hok. destruct ok; [by apply HG|]. intros Hr u Hu. by apply HR, Hx.
  - apply (noted_mono B); [intros ts Hts; apply after_in in Hts as [|]; done || tauto| |done].
    intros e He. rewrite elem_of_app, elem_of_cons. by right; right.
  - by rewrite after_inputs.
  - intros blk. by apply after_ripe.
Qed.

(** ** Between calls *)

(** [hist]: the hashes handed out so far; [ins]: what has reached the node, latest first. *)
Definition recorded (hist : list Hash) (ins : list vote_event) s : Prop :=
  ∃ L, logs L (st_ledger s) ∧ rest (terms_of (st_ledger s)) L ∧ inputs L = ins ∧
    commits (lg_pool (st_ledger s)) L = hist ++ concat (st_queue s).*2.

(** Just when the ballots for [blk] are to be counted. *)
Definition ringing (blk : N) hist ins s : Prop :=
  ∃ L, logs L (st_ledger s) ∧ due L = [] ∧ settled (terms_of (st_ledger s)) L ∧ noted L ∧ inputs L = ins ∧
    commits (lg_pool (st_ledger s)) L = hist ++ concat (st_queue s).*2 ∧
    ripe (lg_k (st_ledger s)) L blk ∧ Tally blk ∉ L.

(** While the transactions [todo] of the last batch are still to be seen. *)
Definition noting (todo : list (Hash * Txn)) hist ins s : Prop :=
  ∃ L, logs L (st_ledger s) ∧ due L = [] ∧ settled (terms_of (st_ledger s)) L ∧ inputs L = ins ∧
    commits (lg_pool (st_ledger s)) L = hist ++ concat (st_queue s).*2 ∧
    (∀ blk, ¬ ripe (lg_k (st_ledger s)) L blk) ∧
    (∀ x, x ∈ todo → ∃ ts, Batch ts ∈ L ∧ x ∈ ts) ∧
    ∀ ts h t, Batch ts ∈ L → (h, t) ∈ ts → placeholder t ∨ seen L h ∨ (h, t) ∈ todo.

Definition view (s : S) : ledger C * list (N * list Hash) := (st_ledger s, st_queue s).

Lemma recorded_view hist ins s s' : view s' = view s → recorded hist ins s → recorded hist ins s'.
Proof. intros Hv. unfold recorded. injection Hv as Hl Hq. by rewrite Hq, Hl. Qed.

Lemma noting_view todo hist ins s s' : view s' = view s → noting todo hist ins s → noting todo hist ins s'.
Proof. intros Hv. unfold noting. injection Hv as Hl Hq. by rewrite Hq, Hl. Qed.

(** An event that is no poll leaves the last one as it was. *)
Lemma settled_cons T e L : ¬ (∃ h v, e = Poll h v) → settled T L → settled T (e :: L).
Proof.
  intros He Hs h v x.
  assert (poll_of (e :: L) = poll_of L ∧ before (e :: L) = before L ∧ since (e :: L) = e :: since L) as (-> & -> & ->)
    by (destruct e; try done; naive_solver).
  intros Hp Hx. specialize (Hs h v x Hp Hx). destruct (tm_thresh T <=? v); [by right|].
  intros Hr u Hu. right. by apply Hs.
Qed.

Lemma noted_cons e L : ¬ (∃ ts, e = Batch ts) → noted L → noted (e :: L).
Proof.
  intros He. apply noted_mono; [|by apply list_subseteq_cons]. intros ts [<-|]%elem_of_cons; [naive_solver|done].
Qed.

(** A batch that has been counted is pushed to the queue. *)
Lemma counted_push hist ins l b s s' :
  counted [] ins (hist ++ concat (st_queue s).*2 ++ l) (st_queue s) s → st_ledger s' = st_ledger s →
  st_queue s' = st_queue s ++ [(b, l)] → recorded hist ins s'.
Proof.
  intros (L & Hl & _ & Hc & Hd & Hst & Hn & Hi & Hr) Hl' Hq'. exists L. rewrite Hl', Hq'. split_and!; [done| |done|].
  - split_and!; [done..|]. intros blk Hb. by apply Hr in Hb.
  - rewrite fmap_app, concat_app. cbn. by rewrite app_nil_r.
Qed.

(** *** Ballots and deadlines *)

Section Heard.
Context (hist : list Hash) (ins : list vote_event) (s s' : S) (blk : N).
Context (Hs : recorded hist ins s) (Hqueue : st_queue s' = st_queue s).
Local Notation l := (st_ledger s).

Lemma heard_ask qs :
  st_ledger s' = set_books (lg_finished l) (<[blk := qs]> (lg_query l)) (lg_votes l) l →
  recorded hist (Ask blk qs :: ins) s'.
Proof.
  destruct Hs as (L & Hl & Hr & Hi & Hc). intros Hl'. exists (Ask blk qs :: L). rewrite Hl', Hqueue.
  split; [by apply logs_ask|]. split; [|cbn; by rewrite Hi]. destruct Hr as (Hd & Hst & Hn & _).
  split_and!; [done|apply settled_cons; [naive_solver|done]|apply noted_cons; [naive_solver|done]|done].
Qed.

Lemma heard_late bits : blk ∈ lg_finished l → recorded hist (Ballot blk bits :: ins) s.
Proof.
  destruct Hs as (L & Hl & Hr & Hi & Hc). intros Hin%(proj1 (tr_books _ _ (proj1 Hl) blk)).
  exists (Ballot blk bits :: L). split; [by apply logs_ballot_late|]. split; [|cbn; by rewrite Hi].
  destruct Hr as (Hd & Hst & Hn & _).
  split_and!; [done|apply settled_cons; [naive_solver|done]|apply noted_cons; [naive_solver|done]|].
  intros b [<- _] _. by right.
Qed.

Lemma heard_ballot bits v :
  blk ∉ lg_finished l → v = default (0, replicate (length bits) 0) (lg_votes l !! blk) → length v.2 = length bits →
  st_ledger s' = set_books (lg_finished l) (lg_query l) (<[blk := (v.1 + 1, add_votes bits v.2)]> (lg_votes l)) l →
  if lg_k l <=? v.1 + 1 then ringing blk hist (Ballot blk bits :: ins) s' else recorded hist (Ballot blk bits :: ins) s'.
Proof.
  destruct Hs as (L & Hl & Hr & Hi & Hc). intros Hin Hv Hlen Hl'.
  assert (Tally blk ∉ L) as Hno by (by rewrite <- (proj1 (tr_books _ _ (proj1 Hl) blk))).
  destruct (logs_ballot L l blk bits v Hl Hr Hno Hv Hlen) as [Hv1 Hlogs]. destruct Hr as (Hd & Hst & Hn & _).
  assert (settled (terms_of l) (Ballot blk bits :: L)) as Hst' by (apply settled_cons; [naive_solver|done]).
  assert (noted (Ballot blk bits :: L)) as Hn' by (apply noted_cons; [naive_solver|done]).
  destruct (N.leb_spec (lg_k l) (v.1 + 1)); exists (Ballot blk bits :: L); rewrite Hl', Hqueue; cbn [inputs is_input]; rewrite Hi.
  - split_and!; [done..| |by intros [|?]%elem_of_cons]. cbn. split; [done|]. rewrite decide_True by done. cbn. lia.
  - split_and!; [done| |done..]. split_and!; [done..|]. intros b [<- Hk]. cbn in Hk. rewrite decide_True in Hk by done.
    cbn in Hk. lia.
Qed.

Lemma heard_expire : if decide (blk ∈ lg_finished l) then recorded hist (Expire blk :: ins) s else ringing blk hist (Expire blk :: ins) s.
Proof.
  destruct Hs as (L & Hl & Hr & Hi & Hc). pose proof (proj1 (tr_books _ _ (proj1 Hl) blk)) as Hfin.
  assert (logs (Expire blk :: L) l) as Hlogs by (by apply logs_other). destruct Hr as (Hd & Hst & Hn & _).
  assert (settled (terms_of l) (Expire blk :: L)) as Hst' by (apply settled_cons; [naive_solver|done]).
  assert (noted (Expire blk :: L)) as Hn' by (apply noted_cons; [naive_solver|done]).
  case_decide as Hin; exists (Expire blk :: L); cbn [inputs is_input]; rewrite Hi; split_and!; try done.
  - split_and!; [done..|]. intros b <- _. right. by apply Hfin.
  - intros [|Ht]%elem_of_cons; [done|]. by apply Hin, Hfin.
Qed.

Lemma heard_batch ts : noting ts hist (Batch ts :: ins) s.
Proof.
  destruct Hs as (L & Hl & Hr & Hi & Hc). exists (Batch ts :: L). pose proof Hr as (Hd & Hst & Hn & _).
  split_and!; [by apply logs_other|done|apply settled_cons; [naive_solver|done]|cbn; by rewrite Hi|done|by intros ? ?|..].
  - intros x Hx. exists ts. split; [by left|done].
  - intros ts' h t [[= ->]|Hts]%elem_of_cons Ht; [by right; right|].
    destruct (Hn ts' h t Hts Ht); [by left|right; left; by apply seen_cons].
Qed.
End Heard.

Lemma ringing_unasked blk hist ins s :
  ringing blk hist ins s → lg_query (st_ledger s) !! blk = None → recorded hist ins s.
Proof.
  intros (L & Hl & Hd & Hst & Hn & Hi & Hc & Hr & Hno) Hq. exists L. split_and!; [done| |done..].
  split_and!; [done..|]. intros b Hb. destruct (tr_books _ _ (proj1 Hl) blk) as [_ [Ha _]]; [done|].
  assert (b = blk) as ->; [|by rewrite <- Ha]. destruct L as [|[] L]; cbn in Hr, Hb; try done; naive_solver.
Qed.

Lemma ringing_tally blk hist ins s s' qs v :
  ringing blk hist ins s → lg_query (st_ledger s) !! blk = Some qs → lg_votes (st_ledger s) !! blk = Some v →
  length qs = length v.2 → st_queue s' = st_queue s →
  st_ledger s' = set_books ({[blk]} ∪ lg_finished (st_ledger s)) (delete blk (lg_query (st_ledger s)))
    (delete blk (lg_votes (st_ledger s))) (st_ledger s) →
  ∃ bs, v.2 = columns (length qs) bs ∧ counted (owed qs bs) ins (hist ++ concat (st_queue s).*2) (st_queue s) s'.
Proof.
  intros (L & Hl & Hd & Hst & Hn & Hi & Hc & Hr & Hno) Hq Hv Hlen Hqueue Hl'.
  destruct (tr_books _ _ (proj1 Hl) blk) as [_ [Ha Hb]]; [done|]. rewrite Hv in Hb. destruct Hb as (n & ->).
  cbn in Hlen. rewrite length_columns in Hlen. subst n. exists (ballots blk L). split; [done|].
  exists (Tally blk :: L). rewrite Hl', Hqueue. split_and!; try done.
  - apply logs_tally; [done|done|by rewrite <- Ha, Hq|done].
  - cbn. by rewrite <- Ha, Hq.
  - apply settled_cons; [naive_solver|done].
  - apply noted_cons; [naive_solver|done].
  - by intros b Hb.
Qed.

(** *** The transactions of a batch *)

Lemma noting_done hist ins s : noting [] hist ins s → recorded hist ins s.
Proof.
  intros (L & Hl & Hd & Hst & Hi & Hc & Hr & _ & Hn). exists L. split_and!; [done| |done..].
  split_and!; [done|done| |]; [|intros blk Hb; by apply Hr in Hb].
  intros ts h t Hts Ht. destruct (Hn ts h t Hts Ht) as [?|[?|[]%elem_of_nil]]; [by left|by right].
Qed.

(** One that need not be recorded, because it is a placeholder or known; ... *)
Lemma noting_skip h t todo hist ins s :
  noting ((h, t) :: todo) hist ins s → placeholder t ∨ is_Some (lg_pool (st_ledger s) !! h) → noting todo hist ins s.
Proof.
  intros (L & Hl & Hd & Hst & Hi & Hc & Hr & Hin & Hn) Hskip. exists L. split_and!; [done..| |].
  - intros x Hx. apply Hin. by right.
  - intros ts h' t' Hts Ht. destruct (Hn ts h' t' Hts Ht) as [?|[?|[[= -> ->]|?]%elem_of_cons]]; [by left|by right; left| |by right; right].
    destruct Hskip as [?|[e He]]; [by left|]. right. left. eexists _, _. by apply (tr_pool _ _ (proj1 Hl)).
Qed.

(** ... and a new one. *)
Lemma noting_record txn ctx todo hist ins s s' :
  noting ((tc_id ctx, txn) :: todo) hist ins s → lg_pool (st_ledger s) !! tc_id ctx = None →
  st_ledger s' = recording txn ctx (txn_parents txn) (txn_keys txn) (st_ledger s) → st_queue s' = st_queue s →
  noting todo hist ins s'.
Proof.
  intros (L & Hl & Hd & Hst & Hi & Hc & Hr & Hin & Hn) Hpool Hl' Hq'.
  destruct (Hin _ (list_elem_of_here _ _)) as (ts & Hts & Hx).
  exists (Seen (tc_id ctx) (txn_parents txn) (txn_keys txn) :: L). rewrite Hl', Hq'.
  split_and!; [by eapply logs_record|done|apply settled_cons; [naive_solver|done]|done| |by intros ? ?|..].
  - cbn [commits]. rewrite <- Hc. apply (commits_insert (lg_pool (st_ledger s)) L); [done|].
    intros x (ps & keys & (e & He & _)%(tr_seen _ _ (proj1 Hl)))%(fair_seen _ _ _ (tr_fair _ _ (proj1 Hl))). by eexists.
  - intros x Hx'. destruct (Hin x) as (ts' & ? & ?); [by right|]. exists ts'. split; [by right|done].
  - intros ts' h t [|Hts']%elem_of_cons Ht; [done|].
    destruct (Hn ts' h t Hts' Ht) as [?|[?|[[= -> ->]|?]%elem_of_cons]]; [by left| | |by right; right]; right; left.
    + by apply seen_cons.
    + eexists _, _. apply list_elem_of_here.
Qed.

(** ** Runs *)

(** A call that may come to nothing, given what it hears; [m] keeps what is recorded,
    unless it panics. *)
Definition hearing_ok {A} (hist : list Hash) (hear : S → list vote_event) (m : M S A) : Prop :=
  ∀ ins s, recorded hist ins s → let Q := recorded hist (hear s ++ ins) in wpe m (λ _, Q) Q s.
Definition recording_ok {A} (hist : list Hash) (m : M S A) : Prop :=
  ∀ ins s, recorded hist ins s → wpe m (λ _, recorded hist ins) (recorded hist ins) s.

Lemma recording_keeps {A} hist (m : M S A) : keeps view m → recording_ok hist m.
Proof.
  intros Hm ins s Hs. assert (∀ s', view s' = view s → recorded hist ins s') as Hv by (intros s' Hv; by apply (recorded_view _ _ s)).
  eapply wpe_mono; [apply (wpe_keeps view), Hm|intros ?; exact Hv|exact Hv].
Qed.

(** The call has returned to the decision thread, which goes on. *)
Definition returned {A} (r : res A) : Prop := match r with Ok _ | Err _ => True | _ => False end.

(** The calls of the decision thread, until one panics: a handler, with what it hears, or
    the next batch is handed to the commit stage. *)
Inductive run_step {A} (handler : M S unit → (S → list vote_event) → Prop) (next_to_commit : M S A) :
    S * list Hash * list vote_event → S * list Hash * list vote_event → Prop :=
| run_call m hear s hist ins r s' :
  handler m hear → m s = (r, s') → returned r →
  run_step handler next_to_commit (s, hist, ins) (s', hist, hear s ++ ins)
| run_commit s hist ins b hs q r s' :
  st_queue s = (b, hs) :: q → next_to_commit s = (r, s') → returned r →
  run_step handler next_to_commit (s, hist, ins) (s', hist ++ hs, ins).

Lemma run_recorded {A} handler (next : M S A) s0 s hist ins :
  (∀ m hear hist, handler m hear → hearing_ok hist hear m) →
  (∀ s b hs q, st_queue s = (b, hs) :: q → st_ledger (next s).2 = st_ledger s ∧ st_queue (next s).2 = q) →
  recorded [] [] s0 → rtc (run_step handler next) (s0, [], []) (s, hist, ins) → recorded hist ins s.
Proof.
  intros Hh Hn H0 Hsteps. apply (rtc_ind_r (λ y, recorded y.1.2 y.2 y.1.1) (s0, [], [])) in Hsteps; [done|done|].
  intros _ _ _ [m hear s1 h1 i1 r s1' Hm Heq Hr|s1 h1 i1 b hs q r s1' Hq Heq Hr] Hs1; cbn [fst snd] in *.
  - specialize (Hh m hear h1 Hm i1 s1 Hs1). unfold wpe in Hh. rewrite Heq in Hh. by destruct r.
  - destruct (Hn s1 b hs q Hq) as [Hl Hq']. rewrite Heq in Hl, Hq'. cbn in Hl, Hq'.
    destruct Hs1 as (L & Hs & Hrest & Hi & Hc). exists L. rewrite Hl. split_and!; [done..|].
    rewrite Hc, Hq, Hq'. cbn. by rewrite <- (assoc_L (++)).
Qed.

Definition empty_ledger t b1 b2 k : ledger C := mkLedger t b1 b2 k ∅ ∅ ∅ ∅ ∅ ∅ ∅.

Lemma logs_start t b1 b2 k : logs [] (empty_ledger t b1 b2 k).
Proof.
  split; [split|]; try done.
  - intros blk. split; [split; [set_solver|by intros ?%elem_of_nil]|done].
  - intros ? ? ? []%elem_of_nil.
  - intros x. split; [by intros [(? & ? & []%elem_of_nil) _]|by intros [? ?]].
  - intros u _ h []%elem_of_nil.
  - by intros u x (? & ? & _).
Qed.

Lemma recorded_start s t b1 b2 k : st_ledger s = empty_ledger t b1 b2 k → st_queue s = [] → recorded [] [] s.
Proof.
  intros Hl Hq. exists []. rewrite Hl, Hq. split; [apply logs_start|]. split_and!; [|done..].
  split_and!; [done|by intros ? ? ?|by intros ? ? ? ?%elem_of_nil|done].
Qed.
End Stages.

Lemma invalidate_no_err fuel dag : ∀ frontier cache e, invalidate fuel dag frontier cache ≠ Err e.
Proof. induction fuel as [|fuel IH]; intros [|t rest] cache e; cbn; done || apply IH. Qed.
