(* ===== verification/AvaSnowball.v ===== *)
(** * Avalanche decision against Snowball

    The decision stage of AvaDecide.v refines the log of votes of VoteLog.v with the rule
    of Snowball: a conflict set counts the votes one transaction gets in a row, and a
    transaction is accepted when it has [beta2] of them on each of its inputs, or
    [beta1] when its parents are decided and it has no rivals. A panic ends a run.

    The theorems are at the end, with a run in which a double spend commits: a payment
    whose rival is accepted stays in the DAG, so [beta2] votes commit it too. *)

From S2P Require Import Prelude F64 Protocol Peers Utils Config AvaDecide AvaProps VoteLog VoteLedger VoteStage Samples.
Local Open Scope N_scope.

(** ** The rule *)

(** The votes for [h] in a row on an output: since the last one for another
    transaction, and since the last failure. *)
Fixpoint streak (h : Hash) (u : Utxo) (L : list vote_event) : N :=
  match L with
  | [] => 0
  | Touch u' h' :: L =>
    if decide (u' = u) then if decide (h' = h) then streak h u L + 1 else 0 else streak h u L
  | Reset u' :: L => if decide (u' = u) then 0 else streak h u L
  | _ :: L => streak h u L
  end.

(** [n] votes for [h], [n] in a row on each of its inputs, where [n] is at least [b2], or
    [b1] when its parents are decided and it has no rivals. *)
Definition snowball_accepts (b1 b2 : N) (L : list vote_event) (h : Hash) : Prop :=
  ∃ ps keys n, Seen h ps keys ∈ L ∧ n ≤ gains h L ∧ (∀ u, u ∈ keys → n ≤ streak h u L) ∧
    (b2 ≤ n ∨ b1 ≤ n ∧ early L h ps keys).

(** What the counters of a conflict set say. *)
Definition streaks (L : list vote_event) (u : Utxo) (ct : ConflictSet) : Prop :=
  ∀ h, streak h u L = if decide (last ct = Some h) then count ct else 0.

Lemma streak_untouched L u h : untouched u L → streak h u L = 0.
Proof.
  intros Hu. induction L as [|e L IH]; [done|]. assert (untouched u L) as Hu' by (intros x Hx; apply (Hu x); by right).
  specialize (IH Hu'). destruct e as [| | | | | | | |u' h'|u'|]; cbn; try done; destruct (decide (u' = u)) as [->|]; try done.
  rewrite decide_False; [done|]. intros ->. apply (Hu h). by left.
Qed.

Lemma streak_other e L u h : ¬ about u e → streak h u (e :: L) = streak h u L.
Proof. intros He. destruct e; cbn in *; try done; by rewrite decide_False. Qed.

#[export] Program Instance snowball_rule : VoteRule ConflictSet := {|
  vr_conflicts := has_conflicts;
  vr_pref := pref;
  vr_counts := streaks;
  vr_accept := snowball_accepts;
  vr_resets := true;
  vr_fresh h := mkConflictSet false h None 0;
  vr_mark ct := ct <| has_conflicts := true |>;
|}.
Next Obligation. done. Qed.
Next Obligation. done. Qed.
Next Obligation. intros L u h Hu h'. rewrite streak_untouched by done. by case_decide. Qed.
Next Obligation. done. Qed.
Next Obligation. intros e L u ct He Hc h. rewrite streak_other by done. apply Hc. Qed.

#[export] Instance ava_stage : Stage AvalancheDecision ConflictSet := {|
  st_ledger s := mkLedger (vote_thresh s) (beta1 s) (beta2 s) (ad_k s) (txn_pool s) (txn_dag s) (confidence s)
    (conflict_sets s) (finished_query s) (query_pool s) (votes s);
  st_queue := commit_queue;
|}.

Lemma touch_all_streak h keys L u : streak h u L ≤ streak h u (touch_all h keys L).
Proof.
  revert L. induction keys as [|u' keys IH]; intros L; cbn; [done|]. etrans; [|apply IH].
  cbn. case_decide; [|done]. rewrite decide_True by done. lia.
Qed.

(** ** A vote reaches the inputs *)

(** What [vote_conflict_set] returns: whether a set has conflicts, the lowest streak. *)
Definition touched (h : Hash) (keys : list Utxo) (L : list vote_event) (s : AvalancheDecision)
    (acc acc' : bool * N) (s' : AvalancheDecision) : Prop :=
  vote_frame s' = vote_frame s ∧ acc'.2 ≤ acc.2 ∧ (∀ u, u ∈ keys → acc'.2 ≤ streak h u L) ∧
  (acc'.1 = false → acc.1 = false ∧ ∀ u h', u ∈ keys → spends (st_ledger s) h' u → h' = h).

(** A vote for [h] counts, and has yet to reach [rest]. *)
Definition voting (h : Hash) (rest : list Utxo) (L : list vote_event) (s : AvalancheDecision) : Prop :=
  let l := st_ledger s in
  tracks L l ∧ pending h rest L l ∧ Gain h ∈ since L ∧ undecided L h ∧ (∀ u, u ∈ rest → spends l h u).

(** The end of the update, once the preference is settled. *)
Definition count_vote (h : Hash) (u : Utxo) (acc : bool * N) (ct1 : ConflictSet) :
    M AvalancheDecision (bool * N) :=
  let ct2 := if decide (last ct1 = Some h) then ct1 <| count ::= N.succ |>
             else ct1 <| last := Some h |> <| count := 1 |> in
  modify (λ s, s <| conflict_sets ::= <[u := ct2]> |>) ;;
  mret (acc.1 || has_conflicts ct2, if (count ct2 <? acc.2)%N then count ct2 else acc.2).

Lemma count_vote_logged h u rest acc L s ct p :
  voting h (u :: rest) L s → conflict_sets s !! u = Some ct →
  p = pref ct ∨ p = h → (∀ x, spends (st_ledger s) x u → gains x L ≤ gains p L) →
  wpe (count_vote h u acc (ct <| pref := p |>))
    (λ acc' s', voting h rest (Touch u h :: L) s' ∧ touched h [u] (Touch u h :: L) s acc acc' s') (λ _, False) s.
Proof.
  intros (Ht & Hp & Hpoll & Hund & Hs) Hct Hpp Hmax. unfold count_vote. cbv zeta. set (ct2 := if decide _ then _ else _).
  assert (ct2 = mkConflictSet (has_conflicts ct) p (Some h)
    (if decide (last ct = Some h) then N.succ (count ct) else 1)) as ->.
  { unfold ct2. cbn. destruct (decide (last ct = Some h)) as [Hl|]; [|done]. destruct ct; cbn in *. by rewrite Hl. }
  set (ct' := mkConflictSet _ _ _ _). wpe_steps.
  assert (spends (st_ledger s) h u) as Hsu by apply Hs, list_elem_of_here.
  destruct (tr_set _ _ Ht u ct Hct) as [_ Hst].
  assert (streaks (Touch u h :: L) u ct') as Hst'.
  { intros x. cbn. rewrite decide_True by done. destruct (decide (h = x)) as [->|Hne].
    - rewrite (decide_True (P := Some x = Some x)) by done. rewrite (Hst x). case_decide; lia.
    - by rewrite decide_False by congruence. }
  assert (tracks (Touch u h :: L) (set_sets (<[u := ct']> (lg_sets (st_ledger s))) (st_ledger s))) as Ht2
    by (by apply (tracks_touch L (st_ledger s) h u ct ct')).
  specialize (Hst' h) as Hcount. rewrite (decide_True (P := last ct' = Some h)) in Hcount by done.
  split.
  - split; [exact Ht2|]. split; [exact (pending_touch L (st_ledger s) h u rest ct' Hp Hmax)|]. split; [by right|].
    split; [by apply undecided_vote|]. intros x Hx. apply Hs. by right.
  - split_and!; [done|cbn [snd]; destruct (N.ltb_spec (count ct') acc.2); lia|..].
    + intros x ->%list_elem_of_singleton. rewrite Hcount. cbn [snd]. destruct (N.ltb_spec (count ct') acc.2); lia.
    + intros [Ha Hno]%orb_false_iff. split; [done|]. intros x h' ->%list_elem_of_singleton Hs'.
      by rewrite <- (spends_alone _ _ _ _ _ Ht Hs' Hct Hno), <- (spends_alone _ _ _ _ _ Ht Hsu Hct Hno).
Qed.

Lemma vote_conflict_set_logged fuel h u rest acc L s :
  voting h (u :: rest) L s →
  wpe (vote_conflict_set fuel h (gains h L) u acc)
    (λ acc' s', voting h rest (Touch u h :: L) s' ∧ touched h [u] (Touch u h :: L) s acc acc' s') (λ _, False) s.
Proof.
  intros Hv. pose proof Hv as (Ht & Hp & _). unfold vote_conflict_set. wpe_steps.
  match goal with Hu : conflict_sets s !! u = Some ?x |- _ => rename x into ct, Hu into Hct end.
  assert (∀ x, spends (st_ledger s) x u → gains x L ≤ gains (pref ct) L + (if decide (x = h) then 1 else 0)) as Hmax.
  { intros x Hx. pose proof (pd_pref _ _ _ _ Hp u ct x Hct Hx) as Hle. cbn in Hle. etrans; [exact Hle|].
    repeat case_decide; lia || naive_solver. }
  case_decide as Hpref; wpe_steps.
  - replace ct with (ct <| pref := pref ct |>) by (by destruct ct). apply count_vote_logged; [done|done|by left|].
    intros x Hx. specialize (Hmax x Hx). case_decide; [by subst|lia].
  - match goal with Hc : confidence s !! _ = Some ?x |- _ => rename x into c, Hc into Hconf end.
    assert (c = gains (pref ct) L) as ->.
    { pose proof (tr_confidence _ _ Ht (pref ct)) as Hc. cbn in Hc. rewrite Hconf in Hc.
      by destruct (txn_pool s !! pref ct); simplify_eq/=. }
    destruct (N.ltb_spec (gains (pref ct) L) (gains h L)); wpe_steps.
    + refine (count_vote_logged h u rest acc L _ ct h Hv Hct (or_intror eq_refl) _).
      intros x Hx. specialize (Hmax x Hx). case_decide; [by subst|lia].
    + match goal with He : invalidate _ _ _ _ = Err _ |- _ => by apply invalidate_no_err in He end.
    + replace ct with (ct <| pref := pref ct |>) by (by destruct ct). apply count_vote_logged; [done|done|by left|].
      intros x Hx. specialize (Hmax x Hx). case_decide; [by subst|lia].
Qed.

Lemma vote_conflict_sets_logged fuel h keys acc L s :
  voting h keys L s →
  wpe (vote_conflict_sets fuel h (gains h L) keys acc)
    (λ acc' s', voting h [] (touch_all h keys L) s' ∧ touched h keys (touch_all h keys L) s acc acc' s')
    (λ _, False) s.
Proof.
  revert acc L s. induction keys as [|u keys IH]; intros acc L s Hv; cbn [vote_conflict_sets touch_all].
  { split; [done|]. split_and!; [done|done|by intros ? ?%elem_of_nil|].
    intros Ha. split; [done|]. by intros ? ? ?%elem_of_nil. }
  apply wpe_bind. eapply wpe_mono; [by apply vote_conflict_set_logged| |done].
  cbn beta. intros acc1 s1 [Hv1 (Hf1 & Hle1 & Hst1 & Hno1)].
  eapply wpe_mono; [apply (IH acc1 (Touch u h :: L) s1 Hv1)| |done].
  cbn beta. intros acc2 s2 [Hv2 (Hf2 & Hle2 & Hst2 & Hno2)]. split; [done|]. split_and!; [congruence|lia|..].
  - intros u' [->|Hu']%elem_of_cons; [|by apply Hst2].
    specialize (Hst1 u (list_elem_of_here _ _)). pose proof (touch_all_streak h keys (Touch u h :: L) u). lia.
  - intros [[Ha Hn1]%Hno1 Hn2]%Hno2. split; [done|].
    intros u' h' [->|Hu']%elem_of_cons Hs'; [by apply (Hn1 u); [apply list_elem_of_here|]|].
    apply (Hn2 u'); [done|]. by apply (frame_spends _ _ _ _ Hf1).
Qed.

(** ** A transaction gains a vote, and may be accepted *)

(** What [is_accepted] decides. *)
Lemma is_accepted_rule L s h ps keys b n :
  tracks L (st_ledger s) → Seen h ps keys ∈ L → n ≤ gains h L → (∀ u, u ∈ keys → n ≤ streak h u L) →
  (b = false → ∀ u h', u ∈ keys → spends (st_ledger s) h' u → h' = h) →
  is_accepted s ps b n = true → snowball_accepts (beta1 s) (beta2 s) L h.
Proof.
  intros Ht Hseen Hg Hst Hno Hacc. exists ps, keys, n. split_and!; [done..|]. unfold is_accepted in Hacc.
  destruct (forallb _ ps) eqn:Hps; cbn in Hacc; [|left; by apply N.leb_le].
  destruct b; cbn in Hacc; [left; by apply N.leb_le|]. right. split; [by apply N.leb_le|]. split.
  - intros p Hp Hu%(tr_undecided _ _ Ht). rewrite forallb_forall in Hps.
    apply list_elem_of_In, Hps, bool_decide_eq_true in Hp. cbn in Hu. by rewrite Hp in Hu; destruct Hu.
  - intros u h' Hu Hs. apply (Hno eq_refl u); [done|]. by eapply spent_spends.
Qed.

(** The end of [vote_txn]. *)
Definition accept_txn (h : Hash) (node : DagNode) (avax_txn : AvalancheTxn) (r : bool * N) :
    M AvalancheDecision (list Hash) :=
  accepted ← gets (λ s, is_accepted s (parents node) r.1 r.2);
  if (accepted : bool) then
    modify (λ s, s <| txn_dag ::= delete h |> <| preference_cache ::= delete h |>) ;;
    mret (if committable avax_txn then [h] else [])
  else mret [].

Lemma accept_txn_polls B h0 v G x node keys avax_txn r E s1 s :
  let L := E ++ Poll h0 v :: B in
  Forall counting E → voting x [] L s → Seen x (parents node) keys ∈ L → (∀ y, Gain y ∈ E ↔ y ∈ G) →
  (vote_thresh s1 <=? v) = true → handed (txn_pool s1) x = committable avax_txn →
  touched x keys L s1 (false, gains x L) r s →
  wpe (accept_txn x node avax_txn r)
    (λ l, polling B h0 v true (commit_queue s1) G ∅ (commits (txn_pool s1) L ++ l)) (λ _, False) s.
Proof.
  intros L HE (Ht & Hp & Hgain & Hund & _) Hseen HG Hok Hcm (Hf & Hle & Hst & Hno).
  assert (logs L (st_ledger s)) as Hs by (split; [done|]; intros ?; by eapply pending_nil).
  injection Hf as Hth _ _ _ Hpool _ _ _ _ _ Hq. rewrite <- Hth in Hok. unfold accept_txn. wpe_steps.
  destruct (is_accepted _ _ _ _) eqn:Hacc; wpe_steps.
  - exists (Accept x :: E). split_and!; [by constructor| |done|done| | |set_solver].
    + refine (logs_accept L (st_ledger s) x Hs _ Hund Hgain). eapply is_accepted_rule; [done|done|exact Hle|done| |done].
      intros [_ Hb]%Hno u h' Hu Hs'. apply (Hb u); [done|]. unfold spends. cbn. by rewrite <- Hpool.
    + cbn. by rewrite Hpool, Hcm.
    + intros y. rewrite <- HG, elem_of_cons. naive_solver.
  - exists E. rewrite app_nil_r. split_and!; [done..| |done|set_solver]. cbn. by rewrite Hpool.
Qed.

Lemma vote_txn_ok : vote_ok vote_txn.
Proof.
  intros fuel B h0 v q G out x node keys s (E & HE & Hsnow & Hok & <- & <- & HG & _) Hpoll HxG Hseen.
  set (L := E ++ Poll h0 v :: B) in *.
  assert (undecided L x) as Hund by (apply (after_stays _ _ _ _ HE (terms_of (st_ledger s))); [apply Hsnow|apply Hpoll|by rewrite HG]).
  assert (Gain x ∉ since L) as Hnew by (unfold L; by rewrite after_since, HG).
  apply (counting_in_poll _ _ _ _ E _ _ HE Hok) in Hpoll. apply (after_seen E B h0 v HE) in Hseen.
  destruct (tr_seen _ _ (proj1 Hsnow) _ _ _ Hseen) as (e & He & _ & ->). cbn in He.
  pose proof (tr_confidence _ _ (proj1 Hsnow) x) as Hc. cbn in Hc. rewrite He in Hc. cbn in Hc.
  unfold vote_txn. apply wpe_bind, wpe_gets. rewrite Hc. apply wpe_bind, wpe_ret. cbn zeta.
  replace (gains x L + 1) with (gains x (Gain x :: L)) by (cbn; rewrite decide_True by done; lia).
  destruct (logs_gain L (st_ledger s) x e Hsnow Hpoll Hund Hnew He) as [Ht1 Hp1]. apply wpe_bind, wpe_modify.
  set (s1 := s <| confidence ::= _ |>) in *. set (L1 := Gain x :: L) in *.
  assert (voting x (txn_keys e.1) L1 s1) as Hv1.
  { split; [exact Ht1|]. split; [exact Hp1|]. split; [by left|]. split; [by apply undecided_vote|].
    intros u Hu. by exists e. }
  apply wpe_bind, wpe_gets. change (txn_pool s1) with (txn_pool s). rewrite He. apply wpe_bind, wpe_ret.
  assert (∀ r s2 avax_txn keys', let L2 := touch_all x keys' L1 in voting x [] L2 s2 →
    handed (txn_pool s) x = committable avax_txn → touched x (txn_keys e.1) L2 s1 (false, gains x L1) r s2 →
    wpe (accept_txn x node avax_txn r)
      (λ l, polling B h0 v true (commit_queue s) ({[x]} ∪ G) ∅ (commits (txn_pool s) L ++ l)) (λ _, False) s2) as Hrest.
  { intros r s2 avax_txn keys' L2 Hv2 Hcm Hto. set (E2 := touch_all x keys' (Gain x :: E)).
    assert (L2 = E2 ++ Poll h0 v :: B) as HL2 by exact (touch_all_app x keys' (Gain x :: E) (Poll h0 v :: B)).
    assert (commits (txn_pool s) L = commits (txn_pool s) L2) as ->.
    { unfold L2. by rewrite commits_touch_all. }
    rewrite HL2 in Hv2, Hto |- *. apply (accept_txn_polls B h0 v _ x node (txn_keys e.1) avax_txn r E2 s1 s2).
    - apply touch_all_counting. by constructor.
    - done.
    - rewrite <- HL2. eapply suffix_in; [apply touch_all_suffix|]. by right.
    - intros y. unfold E2. rewrite touch_all_in by done. rewrite elem_of_cons, HG. set_solver.
    - done.
    - done.
    - rewrite <- HL2. unfold L2 at 2. rewrite touch_all_gains. by rewrite HL2. }
  apply wpe_bind, wpe_lift; [|by destruct e as [[]]]. intros avax_txn Havax.
  apply wpe_bind. destruct e as [[| |t] ctx]; cbn in Havax; try discriminate. injection Havax as <-.
  assert (handed (txn_pool s) x = committable t) as Hcm by (unfold handed; by rewrite He).
  assert (txn_keys (TAvalanche t) = [] → wpe (accept_txn x node t (false, gains x L1))
      (λ l, polling B h0 v true (commit_queue s) ({[x]} ∪ G) ∅ (commits (txn_pool s) L ++ l)) (λ _, False) s1) as Hnil.
  { intros Hk. cbn [fst] in Hrest, Hv1. rewrite Hk in Hrest, Hv1. apply (Hrest _ s1 t []); [done|done|].
    split_and!; [done..|by intros ? ?%elem_of_nil|]. intros _. split; [done|]. by intros ? ? ?%elem_of_nil. }
  destruct t as [sender in_utxo rc o rm sg|val rc nonce|ps|]; [|apply wpe_ret; by apply Hnil..|done].
  eapply wpe_mono; [by apply vote_conflict_sets_logged|intros r s2 [Hv2 Hto]|done]. by eapply Hrest.
Qed.

(** The recursion over the ancestors is that of VoteStage.v. *)
Lemma handle_votes_helper_walk : handle_votes_helper = walk txn_dag vote_txn.
Proof. reflexivity. Qed.

(** ** A failed vote *)

Section Reset.
Context (B : list vote_event) (h0 : Hash) (v : N) (q : list (N * list Hash)) (out : list Hash).
Local Notation polling := (polling B h0 v false q ∅).

Lemma reset_count_ok R x u s :
  polled B h0 x → spent B x u → polling R out s →
  wpe (reset_count u) (λ _, polling ({[u]} ∪ R) out) (λ _, False) s.
Proof.
  intros Hx (ps & keys & Hseen & Hu) (E & HE & Hl & Hok & Hq & Hout & HG & HR).
  unfold reset_count. wpe_steps.
  match goal with Hu : conflict_sets s !! u = Some ?x |- _ => rename x into ct, Hu into Hct end.
  destruct (tr_set _ _ (proj1 Hl) u ct Hct) as [_ Hst]. exists (Reset u :: E). split_and!; [by constructor| |done..| |].
  - refine (logs_reset _ (st_ledger s) x u ct (ct <| count := 0 |>) Hl _ _ Hct _ _ _); [by apply counting_in_poll| |done|done|].
    + exists ps, keys. split; [by apply after_seen|done].
    + intros h'. cbn. rewrite decide_True by done. by case_decide.
  - intros y. rewrite <- HG, elem_of_cons. naive_solver.
  - intros y [->%elem_of_singleton|Hy%HR]%elem_of_union; [by left|by right].
Qed.

Lemma reset_inputs_ok x us : ∀ R s,
  polled B h0 x → (∀ u, u ∈ us → spent B x u) → polling R out s →
  wpe (mfor us reset_count) (λ _ s', ∃ R', polling R' out s' ∧ R ⊆ R' ∧ ∀ u, u ∈ us → u ∈ R') (λ _, False) s.
Proof.
  induction us as [|u us IH]; intros R s Hx Hus Hs; cbn; [exists R; split_and!; [done|done|by intros ? ?%elem_of_nil]|].
  apply wpe_bind. eapply wpe_mono; [apply (reset_count_ok R x u); [done|apply Hus, list_elem_of_here|done]| |done]; cbn beta.
  intros _ s1 Hs1. eapply wpe_mono; [eapply (IH _ s1 Hx); [|exact Hs1]| |done]; cbn beta.
  - intros y Hy. apply Hus. by right.
  - intros _ s2 (R' & Hs2 & Hsub & Hin). exists R'. split; [done|]. split; [set_solver|].
    intros y [->|Hy]%elem_of_cons; [set_solver|by apply Hin].
Qed.

(** What is visited is reset, and its parents are visited or will be. *)
Definition resets (D : gset Hash) (frontier : list Hash) (R : gset Utxo) : Prop := ∀ x,
  x ∈ D → undecided B x → (∀ u, spent B x u → u ∈ R) ∧ ∀ y, visit B x y → y ∈ D ∨ y ∈ frontier.

Lemma reset_counts_ok fuel : ∀ frontier D R s,
  (∀ x, x ∈ frontier → rtc (visit B) h0 x) → resets D frontier R → polling R out s →
  wpe (reset_counts fuel frontier D) (λ _ s', ∃ R' D', polling R' out s' ∧
    (∀ x, x ∈ D ∨ x ∈ frontier → x ∈ D') ∧ resets D' [] R') (λ _, False) s.
Proof.
  induction fuel as [|fuel IH]; intros [|x rest] D R s Hfr HD Hs; cbn; try done.
  1, 2: by exists R, D; split_and!; [|intros y [?|?%elem_of_nil]|].
  assert (∀ y, y ∈ rest → rtc (visit B) h0 y) as Hrest by (intros y Hy; apply Hfr; by right).
  case_decide as Hin.
  { eapply wpe_mono; [apply (IH rest D R s); [done| |done]| |done]; cbn beta.
    - intros y Hy Hu. destruct (HD y Hy Hu) as [? Hv]. split; [done|]. intros z Hz. destruct (Hv z Hz) as [?|[->|?]%elem_of_cons]; tauto.
    - intros _ s' (R' & D' & ? & HD' & ?). exists R', D'. split_and!; [done| |done].
      intros y [?|[->|?]%elem_of_cons]; apply HD'; tauto. }
  wpe_steps. destruct (polling_undecided _ _ _ _ _ _ _ _ _ x Hs) as [Hu1 Hu2]. cbn in Hu1, Hu2.
  assert (∀ R' fr s', R ⊆ R' → polling R' out s' → (∀ y, y ∈ fr → rtc (visit B) h0 y) → (∀ y, y ∈ rest → y ∈ fr) →
    (undecided B x → (∀ u, spent B x u → u ∈ R') ∧ ∀ y, visit B x y → y ∈ fr) →
    wpe (reset_counts fuel fr ({[x]} ∪ D)) (λ _ s', ∃ R' D', polling R' out s' ∧
      (∀ y, y ∈ D ∨ y ∈ x :: rest → y ∈ D') ∧ resets D' [] R') (λ _, False) s') as Hgo.
  { intros R' fr s' HR Hs' Hfr' Hsub Hx. eapply wpe_mono; [apply (IH fr _ R' s'); [done| |done]| |done]; cbn beta.
    - intros y [->%elem_of_singleton|Hy]%elem_of_union Hu; [destruct (Hx Hu) as [? Hv]; split; [done|]; intros z Hz; right; by apply Hv|].
      destruct (HD y Hy Hu) as [? Hv]. split; [intros u ?; by apply HR; auto|]. intros z Hz.
      destruct (Hv z Hz) as [?|[->|?]%elem_of_cons]; [left; set_solver|left; set_solver|right; auto].
    - intros _ s2 (R2 & D2 & ? & HD2 & ?). exists R2, D2. split_and!; [done| |done].
      intros y [?|[->|?]%elem_of_cons]; apply HD2; [left; set_solver|left; set_solver|right; auto]. }
  destruct (txn_dag s !! x) as [node|] eqn:Hn.
  2: { apply (Hgo R); [done..|]. intros Hu. destruct (Hu2 Hu) as [? ?]; [set_solver|done]. }
  destruct (polling_dag _ _ _ _ _ _ _ _ _ _ _ Hs Hn) as [[keys Hseen] Hvis].
  assert (polled B h0 x) as Hx by (split; [apply Hfr, list_elem_of_here|by apply Hu1; eexists]).
  pose proof Hs as (E & HE & Hl & _). pose proof Hseen as Hseen'. apply (after_seen E B h0 v HE) in Hseen'.
  destruct (tr_seen _ _ (proj1 Hl) _ _ _ Hseen') as (e & He & _ & ->). cbn in He.
  assert (∀ u, spent B x u → u ∈ txn_keys e.1) as Hkeys.
  { intros u (ps' & keys' & Hs' & Hu). apply (after_seen E B h0 v HE) in Hs'.
    by destruct (seen_unique _ _ _ _ _ _ _ Hl Hseen' Hs') as [_ <-]. }
  apply wpe_bind, wpe_gets. rewrite He. apply wpe_bind, wpe_ret.
  apply wpe_bind, wpe_lift; [intros t Ht|by destruct e as [[]]].
  assert (∀ R' s', R ⊆ R' → polling R' out s' → (∀ u, u ∈ txn_keys e.1 → u ∈ R') →
    wpe (reset_counts fuel (rest ++ parents node) ({[x]} ∪ D)) (λ _ s', ∃ R' D', polling R' out s' ∧
      (∀ y, y ∈ D ∨ y ∈ x :: rest → y ∈ D') ∧ resets D' [] R') (λ _, False) s') as Hnext.
  { intros R' s' HR Hs' Hall. apply (Hgo R'); [done|done| |intros y ?; apply elem_of_app; by left|].
    - intros y [Hy|Hy%Hvis]%elem_of_app; [by apply Hrest|]. eapply rtc_r; [apply Hx|done].
    - intros _. split; [intros u ?; by apply Hall, Hkeys|]. intros y Hy%Hvis. apply elem_of_app. by right. }
  apply wpe_bind. destruct e as [[| |ax] ctx]; cbn in Ht; try discriminate. injection Ht as <-.
  destruct ax; [|apply wpe_ret; apply (Hnext R); [done|done|by intros ? ?%elem_of_nil]..].
  eapply wpe_mono; [apply (reset_inputs_ok x _ R s Hx); [|done]| |done]; cbn beta.
  - intros u Hu. eexists _, _. by split.
  - intros _ s1 (R' & Hs1 & HR & Hall). by apply (Hnext R').
Qed.

(** The poll resets all it is of. *)
Lemma reset_polls fuel s :
  polling ∅ out s →
  wpe (reset_counts fuel [h0] ∅) (λ _ s', ∃ R, polling R out s' ∧ ∀ x, polled B h0 x → ∀ u, spent B x u → u ∈ R)
    (λ _, False) s.
Proof.
  intros Hs. eapply wpe_mono; [apply (reset_counts_ok fuel [h0] ∅ ∅ s); [|by intros ? ?|done]| |done]; cbn beta.
  - by intros x ->%list_elem_of_singleton.
  - intros _ s' (R & D & Hs' & Hin & Hc). exists R. split; [done|]. intros x [Hx Hu]. apply Hc; [|done]. revert Hx.
    apply (rtc_ind_r (λ y, y ∈ D)); [apply Hin; right; apply list_elem_of_here|]. intros y z _ Hyz Hy.
    destruct (proj2 (Hc y Hy (proj1 Hyz)) z Hyz) as [?|?%elem_of_nil]; done.
Qed.
End Reset.

(** ** The handlers *)

Lemma tally_ok fuel ins base q qs : ∀ bs acc s,
  counted (owed qs bs) ins (base ++ acc) q s →
  wpe (tally fuel qs (columns (length qs) bs) acc) (λ l, counted [] ins (base ++ l) q) (λ _, False) s.
Proof.
  induction qs as [|[h|] qs IH]; intros bs acc s Hs; [done| |by apply (IH (tail <$> bs))].
  cbn [length columns owed tally] in *. wpe_steps.
  apply (counted_view _ _ _ _ s (s <| txn_query_count ::= N.succ |>)) in Hs; [|done..].
  destruct (poll_start _ _ _ _ _ _ _ Hs) as (B & Hd & Hn & Hi & Hs1).
  change (lg_thresh _) with (vote_thresh s) in Hs1. change (vote_thresh (s <| txn_query_count ::= N.succ |>)) with (vote_thresh s).
  destruct (vote_thresh s <=? yeses bs); apply wpe_bind.
  - rewrite handle_votes_helper_walk. eapply wpe_mono; [eapply walk_polls; [done|apply vote_txn_ok|exact Hs1]| |done]; cbn beta.
    intros r s2 (G & Hs2 & Hall). apply (poll_end _ _ _ _ _ _ _ _ _ _ _ Hd Hn Hi) in Hs2; [|done].
    rewrite <- (assoc_L (++)) in Hs2. case_decide; wpe_steps; apply IH; [by apply (counted_view _ _ _ _ s2)|done].
  - eapply wpe_mono; [apply reset_polls, Hs1| |done]; cbn beta.
    intros _ s2 (R & Hs2 & Hall). apply IH. eapply poll_end; [done..|exact Hs2|]. intros x Hx _. by apply Hall.
Qed.

Lemma is_preferred_no_err pool cts h e : is_preferred pool cts h ≠ Err e.
Proof.
  unfold is_preferred. destruct (pool !! h) as [[[| |t] ctx]|]; try done. destruct t as [sender ins| | |]; try done. cbn.
  generalize (input_keys sender ins). intros keys. induction keys as [|k keys IH]; cbn; [done|].
  destruct (cts !! k); [|done]. by destruct (all_prefer cts h keys).
Qed.

(** A node's own preference is looked up without changing what is recorded. *)
Lemma strongly_preferred_ok fuel : ∀ h s, wpe (is_strongly_preferred fuel h) (λ _ s', view s' = view s) (λ _, False) s.
Proof.
  induction fuel as [|fuel IH]; intros h s; cbn; [done|].
  assert (∀ ps s, wpe (all_strongly_preferred (is_strongly_preferred fuel) ps) (λ _ s', view s' = view s) (λ _, False) s) as Hall.
  { induction ps as [|p ps IHps]; intros s'; cbn; [done|]. apply wpe_bind. eapply wpe_mono; [apply IH| |done]; cbn beta.
    intros [] s1 Hs1; [|done]. eapply wpe_mono; [apply IHps| |done]; cbn beta. intros _ s2 Hs2. congruence. }
  wpe_steps. destruct (_ !! h); wpe_steps; [|done]. destruct (_ !! h); wpe_steps; [done|..].
  - match goal with |- wpe (if ?b then _ else _) _ _ _ => destruct b end; [|by wpe_steps].
    eapply wpe_mono; [apply Hall| |done]; cbn beta. intros b s1 Hs1. by wpe_steps.
  - by eapply is_preferred_no_err.
Qed.

Lemma record_txn_ok txn ctx todo hist ins s :
  noting ((tc_id ctx, txn) :: todo) hist ins s →
  wpe (record_txn txn ctx (txn_parents txn) (txn_keys txn)) (λ _, noting todo hist ins) (λ _, False) s.
Proof.
  intros Hs. unfold record_txn. wpe_steps. destruct (txn_pool s !! tc_id ctx) eqn:E; wpe_steps.
  - eapply noting_skip; [done|]. right. by eexists.
  - by eapply noting_record.
Qed.

Lemma vote_on_ok fuel txn ctx todo hist ins s :
  noting ((tc_id ctx, txn) :: todo) hist ins s →
  wpe (vote_on fuel txn ctx) (λ r s', noting todo hist ins s' ∧ r.2 = asked_about txn ctx) (λ _, False) s.
Proof.
  intros Hs. pose proof (record_txn_ok _ _ _ _ _ _ Hs) as Hrec.
  assert (∀ s', noting todo hist ins s' →
    wpe (v ← query_txn fuel (tc_id ctx); mret (v, Some (tc_id ctx)))
      (λ r s', noting todo hist ins s' ∧ r.2 = Some (tc_id ctx)) (λ _, False) s') as Hquery.
  { intros s' Hs'. unfold query_txn. wpe_steps. eapply wpe_mono; [apply strongly_preferred_ok| |done]; cbn beta.
    intros v s2 Hs2. apply wpe_ret. split; [by apply (noting_view _ _ _ s')|done]. }
  destruct txn as [|t|[sender rs| |ps|]]; cbn; try done.
  - apply wpe_bind. eapply wpe_mono; [exact Hrec| |done]; cbn beta; intros _ s1 Hs1. by apply Hquery.
  - apply wpe_bind. eapply wpe_mono; [exact Hrec| |done]; cbn beta; intros _ s1 Hs1. by apply wpe_ret.
  - apply wpe_bind. eapply wpe_mono; [exact Hrec| |done]; cbn beta; intros _ s1 Hs1. by apply Hquery.
  - split; [|done]. eapply noting_skip; [done|by left].
Qed.

Lemma vote_batch_ok fuel hist ins ts : ∀ cs s,
  length ts = length cs → noting (batch_items ts cs) hist ins s →
  wpe (vote_batch fuel ts cs) (λ vs s', recorded hist ins s' ∧ vs.*2 = zip_with asked_about ts cs) (λ _, False) s.
Proof.
  induction ts as [|t ts IH]; intros [|c cs] s Hlen Hs; try done; cbn.
  { split; [by apply noting_done|done]. }
  apply wpe_bind. eapply wpe_mono; [by apply vote_on_ok| |done]; cbn beta. intros r s1 [Hs1 Hr].
  apply wpe_bind. eapply wpe_mono; [apply (IH cs); [by injection Hlen|done]| |done]; cbn beta. intros vs s2 [Hs2 Hvs].
  apply wpe_ret. cbn. by rewrite Hr, Hvs.
Qed.

(** The node stays who it is. *)
Lemma vote_batch_id fuel ts cs : keeps ad_id (vote_batch fuel ts cs).
Proof.
  assert (∀ h, keeps ad_id (is_strongly_preferred fuel h)) as Hp.
  { induction fuel as [|fuel IH]; intros h; cbn; [apply keeps_out_of_fuel|].
    assert (∀ ps, keeps ad_id (all_strongly_preferred (is_strongly_preferred fuel) ps)) as Hall by (induction ps; cbn; keeps_auto).
    keeps_auto. }
  assert (∀ txn ctx ps keys, keeps ad_id (record_txn txn ctx ps keys)) as Hr by (intros; unfold record_txn; keeps_auto).
  assert (∀ t c, keeps ad_id (vote_on fuel t c)) as Hv by (intros; unfold vote_on, query_txn; keeps_auto).
  revert cs. induction ts as [|t ts IH]; intros [|c cs]; cbn; keeps_auto.
Qed.

Section Handlers.
Context `{Externals} `{!Bincode (N * list bool)} `{!Bincode VoteMsg} `{Transport} `{Channel}.
Context (hist : list Hash).

Lemma handle_votes_ok fuel blk ins s :
  ringing blk hist ins s → wpe (handle_votes fuel blk) (λ _, recorded hist ins) (recorded hist ins) s.
Proof.
  intros Hs. unfold handle_votes. wpe_steps. destruct (query_pool s !! blk) as [qs|] eqn:Hq; wpe_steps.
  2: by eapply ringing_unasked.
  match goal with Hv : _ !! blk = Some ?x, Hb : bool_decide _ = true |- _ =>
    rename x into v, Hv into Hvotes, Hb into Hlen; apply bool_decide_eq_true in Hlen end.
  match goal with |- wpe _ _ _ ?s1 =>
    destruct (ringing_tally blk hist ins s s1 qs v Hs Hq Hvotes Hlen) as (bs & Hv & Hs1); [done..|] end.
  rewrite Hv. rewrite <- (app_nil_r (hist ++ _)) in Hs1.
  eapply wpe_mono; [apply tally_ok, Hs1| |done]; cbn beta. intros l s2 Hs2.
  assert (commit_queue s2 = commit_queue s) as Hq2 by (by destruct Hs2 as (? & _ & ? & _)).
  wpe_steps. apply recording_keeps; [unfold feedback, chan_send; keeps_auto|].
  apply (counted_push _ _ l blk s2); [|done|done]. cbn. rewrite Hq2. by rewrite <- (assoc_L (++)) in Hs2.
Qed.

Lemma record_votes_ok fuel blk src vs : hearing_ok hist (λ _, [Ballot blk vs]) (record_votes fuel blk src vs).
Proof.
  intros ins s Hs. cbn zeta. unfold record_votes. wpe_steps. case_decide as Hfin; wpe_steps; [by apply heard_late|].
  match goal with Hb : bool_decide _ = true |- _ => apply bool_decide_eq_true in Hb; rename Hb into Hlen end.
  match goal with |- wpe _ _ _ ?s1 =>
    pose proof (heard_ballot hist ins s s1 blk Hs eq_refl vs _ Hfin eq_refl Hlen) as Hs1 end.
  specialize (Hs1 ltac:(cbn; by rewrite insert_insert_eq)).
  change (lg_k (st_ledger s)) with (ad_k s) in Hs1. cbn in Hs1 |- *.
  destruct (ad_k s <=? _); [by apply handle_votes_ok|done].
Qed.

Lemma send_votes_keeps proposer blk vs : keeps view (send_votes proposer blk vs).
Proof. unfold send_votes, pm_delayed_send. keeps_auto. Qed.

(** What a call hears: a batch, with the node's own ballot if it is the node's own; ... *)
Definition hear_tail (fuel : nat) (tail : list (Block * BlkCtx)) (s : AvalancheDecision) : list vote_event :=
  match tail with
  | [(blk, ctx)] =>
    match header blk, (vote_batch fuel (txns blk) (bc_txn_ctx ctx) s).1 with
    | HAvalanche proposer blk_id _, Ok vs =>
      (if decide (proposer = ad_id s)
       then [Ballot blk_id vs.*1; Ask blk_id (zip_with asked_about (txns blk) (bc_txn_ctx ctx))] else []) ++
      [Batch (batch_items (txns blk) (bc_txn_ctx ctx))]
    | _, _ => []
    end
  | _ => []
  end.
(** ... a deadline; the ballot of a peer, if its signature holds. *)
Definition hear_timeout (s : AvalancheDecision) : list vote_event :=
  match (tq_pop (vote_time_queue s)).1 with Some blk => [Expire blk] | None => [] end.
Definition hear_peer (src : NodeId) (content : bytes) (s : AvalancheDecision) : list vote_event :=
  let heard :=
    msg ← of_result (deserialize content);
    signed ← of_result (serialize (round msg, vote_bits msg));
    v ← verify (ad_crypto_scheme s) (default (gen_key_pair (ad_crypto_scheme s) src).1 (neighbor_pks s !! src))
          signed (signature msg);
    Ok (if (v.1 : bool) then [Ballot (round msg) (vote_bits msg)] else []) in
  match heard with Ok e => e | _ => [] end.

Lemma new_tail_ok fuel now src tail : hearing_ok hist (hear_tail fuel tail) (new_tail fuel now src tail).
Proof.
  intros ins s Hs. unfold hear_tail. destruct tail as [|[b c] [|]]; cbn; [done| |done].
  destruct (header b) as [| |proposer blk_id depth|]; try done. wpe_steps.
  match goal with Hb : bool_decide (length _ = _) = true |- _ => apply bool_decide_eq_true in Hb; rename Hb into Hlen end.
  pose proof (vote_batch_ok fuel hist _ (txns b) (bc_txn_ctx c) s Hlen (heard_batch hist ins s Hs _)) as Hvb.
  apply (wpe_result ad_id) in Hvb; [|apply vote_batch_id].
  eapply wpe_mono; [exact Hvb| |done]. cbn beta. intros vs s1 ([Hs1 Hvs] & Hres & Hid). rewrite Hres. wpe_steps.
  rewrite Hid. destruct (decide (proposer = ad_id s)); [|exact (recording_keeps hist _ (send_votes_keeps _ _ _) _ s1 Hs1)]. wpe_steps. rewrite Hvs.
  apply (record_votes_ok fuel blk_id (ad_id s) vs.*1 (_ :: _ :: ins)). by apply (heard_ask hist _ s1).
Qed.

Lemma handle_timeout_ok fuel : hearing_ok hist hear_timeout (handle_timeout fuel).
Proof.
  intros ins s Hs. unfold handle_timeout, hear_timeout. wpe_steps.
  destruct (tq_pop (vote_time_queue s)) as [[blk'|] q]; cbn in *; simplify_eq.
  match goal with |- wpe (if _ then _ else handle_votes fuel ?blk) _ _ ?s1 =>
    apply (recorded_view _ _ s s1) in Hs; [|done]; pose proof (heard_expire hist ins s1 blk Hs) as Hs1 end.
  change (lg_finished _) with (finished_query s) in Hs1. cbn.
  case_decide; [done|]. by apply handle_votes_ok.
Qed.

Lemma handle_peer_msg_ok fuel src content : hearing_ok hist (hear_peer src content) (handle_peer_msg fuel src content).
Proof.
  intros ins s Hs. cbv zeta. unfold handle_peer_msg, hear_peer.
  apply wpe_bind, wpe_lift; [intros msg ->|intros e ->; done]. cbn. wpe_steps.
  set (heard := match _ with Ok e => e | _ => [] end).
  assert (round msg ∈ finished_query s → recorded hist (heard ++ ins) s) as Hlate.
  { intros Hin. assert (heard = [] ∨ heard = [Ballot (round msg) (vote_bits msg)]) as [-> | ->]; [|done|by apply heard_late].
    unfold heard. destruct (of_result _); cbn; try (by left). destruct (verify _ _ _ _) as [[[] ?]| | |]; cbn; auto. }
  case_decide as Hfin; wpe_steps; [by apply Hlate|..]; unfold heard.
  - match goal with H1 : of_result _ = Ok _, H2 : verify _ _ _ _ = Ok _ |- _ => rewrite H1; cbn; rewrite H2; cbn end.
    match goal with |- wpe (if ?x then _ else _) _ _ ?s1 => destruct x;
      apply (recorded_view _ _ s s1) in Hs; [|done| |done] end; [by apply record_votes_ok|by apply wpe_ret].
  - match goal with H1 : of_result _ = Ok _, H2 : verify _ _ _ _ = Err _ |- _ => rewrite H1; cbn; rewrite H2; cbn end.
    by apply (recorded_view _ _ s).
  - match goal with H1 : of_result _ = Err _ |- _ => rewrite H1; cbn end. by apply (recorded_view _ _ s).
Qed.
End Handlers.

(** ** Runs *)

Section Runs.
Context `{Externals} `{!Bincode (N * list bool)} `{!Bincode VoteMsg} `{Transport} `{Channel}.

Inductive ava_handler : M AvalancheDecision unit → (AvalancheDecision → list vote_event) → Prop :=
| ah_new_tail fuel now src tail : ava_handler (new_tail fuel now src tail) (hear_tail fuel tail)
| ah_timeout fuel : ava_handler (handle_timeout fuel) hear_timeout
| ah_peer_msg fuel src content : ava_handler (handle_peer_msg fuel src content) (hear_peer src content).

(** The calls of the decision thread; the run records what is handed out and what has
    reached the node. *)
Definition stage_step := run_step ava_handler next_to_commit.

Lemma stage_recorded id scheme config pm s0 s hist ins :
  ad_new id scheme config pm = Ok s0 → rtc stage_step (s0, [], []) (s, hist, ins) → recorded hist ins s.
Proof.
  intros Hnew. apply run_recorded.
  - intros m hear h []; [apply new_tail_ok|apply handle_timeout_ok|apply handle_peer_msg_ok].
  - intros s1 b hs q Hq. destruct (next_to_commit s1) as [r s1'] eqn:Heq.
    apply next_to_commit_queue in Heq as [[? _]|(b' & hs' & q' & Hq' & -> & _)]; cbn in *; [congruence|].
    split; [done|congruence].
  - unfold ad_new in Hnew. apply res_bind_ok in Hnew as (to & _ & [= <-]). by eapply recorded_start.
Qed.
End Runs.

(** A transaction with a rival already seen is accepted after [b2] votes. *)
Lemma rival_accepted b1 b2 L h h' u :
  snowball_accepts b1 b2 L h → spent L h' u → h' ≠ h → (∀ ps keys, Seen h ps keys ∈ L → u ∈ keys) → b2 ≤ gains h L.
Proof.
  intros (ps & keys & n & Hs & Hg & _ & Hr) Hs' Hne Hu. destruct Hr as [?|(_ & _ & Hno)]; [lia|].
  destruct Hne. apply (Hno u h'); [by eapply Hu|done].
Qed.

Section Theorems.
Context `{Externals} `{!Bincode (N * list bool)} `{!Bincode VoteMsg} `{Transport} `{Channel}.

(** C5: the decision stage is Snowball: from what reaches a new stage, the batches, the
    ballots of the peers whose signature holds, the node's own, and the deadlines
    ([ins]), a log is made in which nothing is left open. Each batch the node asks about
    is counted once, as soon as [k] ballots are in or its deadline passes, and each of its
    transactions is polled with the number of these ballots that are for it. A poll with
    [vote_thresh] votes is a vote for the transaction and each undecided ancestor, which
    reaches every input of theirs; any other resets the counters of these inputs. What is
    accepted follows the rule, and is handed to the commit stage in this order. The pool,
    the DAG, the confidence of every transaction, the counter of every conflict set and
    the preferences are what the log says they are. A panic ends the run. *)
Theorem decides_by_snowball id scheme config pm s0 s hist ins :
  ad_new id scheme config pm = Ok s0 → rtc stage_step (s0, [], []) (s, hist, ins) →
  ∃ L, logs L (st_ledger s) ∧ rest (terms_of (st_ledger s)) L ∧ inputs L = ins ∧
    commits (txn_pool s) L = hist ++ concat (commit_queue s).*2.
Proof. apply stage_recorded. Qed.

(** C22: when two payments that spend the same output are both handed to the commit
    stage, one of them has been voted for at least [beta2] times: [beta1] is not
    enough once a rival is known. *)
Theorem double_spend_needs_beta2 id scheme config pm s0 s hist ins h1 h2 u :
  ad_new id scheme config pm = Ok s0 → rtc stage_step (s0, [], []) (s, hist, ins) →
  h1 ∈ hist → h2 ∈ hist → h1 ≠ h2 → spends (st_ledger s) h1 u → spends (st_ledger s) h2 u →
  ∃ h c, (h = h1 ∨ h = h2) ∧ confidence s !! h = Some c ∧ beta2 s ≤ c.
Proof.
  intros Hnew Hrun Hin1 Hin2 Hne Hs1 Hs2.
  destruct (stage_recorded _ _ _ _ _ _ _ _ Hnew Hrun) as (L & [Ht _] & _ & _ & Hout).
  assert (∀ x, x ∈ hist → Accept x ∈ L) as Hacc
    by (intros x Hx; eapply commits_in; rewrite Hout; apply elem_of_app; by left).
  destruct (rivals_later L (st_ledger s) h1 h2 u) as (h & h' & L1 & L2 & Hh & -> & _ & Hr & Hsp & Hu);
    [done|by apply Hacc..|done|done|done|].
  assert (spends (st_ledger s) h u ∧ h' ≠ h) as [(e & He & _) Hne'] by naive_solver.
  assert (beta2 s ≤ gains h L1) as Hb by (apply (rival_accepted _ _ L1 h h' u Hr Hsp Hne'); intros; by eapply Hu).
  exists h, (gains h (L2 ++ Accept h :: L1)). split; [naive_solver|].
  pose proof (tr_confidence _ _ Ht h) as Hc. rewrite He in Hc. split; [exact Hc|].
  etrans; [exact Hb|]. etrans; [apply (gains_cons (Accept h))|apply gains_app].
Qed.
End Theorems.

(** ** A concrete run: both payments of a double spend commit *)

#[local] Existing Instances sample_externals sample_transport sample_channel.
#[local] Instance sn_bincode_ballot : Bincode (N * list bool) :=
  {| serialize := λ b, inl [b.1]; deserialize := λ _, inr (mkErr "not needed") |}.
(** A vote for a batch of one transaction: the batch. *)
#[local] Instance sn_bincode_vote : Bincode VoteMsg :=
  {| serialize := λ v, inl [round v];
     deserialize := λ b, match b with [r] => inl (mkVoteMsg r [true] []) | _ => inr (mkErr "vote") end |}.

Definition sn_config : AvalancheBasicConfig :=
  mkAvalancheBasicConfig 1 2 (f64_lit 1 2) 1 2 (f64_of_N 5) (f64_of_N 5) 4 DBroadcast.
Definition sn_new : AvalancheDecision :=
  match ad_new 1 CSDummy sn_config sample_messenger with Ok s => s | _ => a_s0 end.

(** A batch of one transaction, with this node's vote and that of node 2. *)
Definition sn_batch (blk h : N) (t : Txn) : list (Block * BlkCtx) :=
  [(mkBlock (HAvalanche 1 blk 0) [t], mkBlkCtx blk [mkTxnCtx h])].
Definition sn_ask (blk h : N) (t : Txn) (s : AvalancheDecision) : AvalancheDecision :=
  (new_tail 9 0 1 (sn_batch blk h t) s).2.
Definition sn_vote (blk : N) (s : AvalancheDecision) : AvalancheDecision := (handle_peer_msg 9 2 [blk] s).2.
Definition sn_take (s : AvalancheDecision) : AvalancheDecision := (next_to_commit s).2.

(** What the node hears in such a round. *)
Definition sn_heard (blk h : N) (t : Txn) (own : bool) : list vote_event :=
  [Ballot blk [true]; Ballot blk [own]; Ask blk [Some h]; Batch [(h, t)]].

Lemma sn_round blk h t own hs s hist ins :
  hear_tail 9 (sn_batch blk h t) s = [Ballot blk [own]; Ask blk [Some h]; Batch [(h, t)]] →
  hear_peer 2 [blk] (sn_ask blk h t s) = [Ballot blk [true]] →
  returned (new_tail 9 0 1 (sn_batch blk h t) s).1 → returned (handle_peer_msg 9 2 [blk] (sn_ask blk h t s)).1 →
  returned (next_to_commit (sn_vote blk (sn_ask blk h t s))).1 →
  commit_queue (sn_vote blk (sn_ask blk h t s)) = [(blk, hs)] →
  rtc stage_step (s, hist, ins) (sn_take (sn_vote blk (sn_ask blk h t s)), hist ++ hs, sn_heard blk h t own ++ ins).
Proof.
  intros Ht Hp H1 H2 H3 Hq. eapply rtc_l; [eapply run_call; [apply ah_new_tail|apply surjective_pairing|exact H1]|].
  eapply rtc_l; [eapply run_call; [apply ah_peer_msg|apply surjective_pairing|exact H2]|].
  rewrite Ht. fold (sn_ask blk h t s). rewrite Hp.
  apply rtc_once. eapply run_commit; [exact Hq|apply surjective_pairing|exact H3].
Qed.

Definition sn_s1 : AvalancheDecision := sn_take (sn_vote 5 (sn_ask 5 101 a_grant sn_new)).
Definition sn_s2 : AvalancheDecision := sn_take (sn_vote 6 (sn_ask 6 102 (a_pay [8]) sn_s1)).
Definition sn_s3 : AvalancheDecision := sn_take (sn_vote 7 (sn_ask 7 103 (a_pay [9]) sn_s2)).
Definition sn_s4 : AvalancheDecision := sn_take (sn_vote 8 (sn_ask 8 103 (a_pay [9]) sn_s3)).

Definition sn_ins : list vote_event :=
  sn_heard 8 103 (a_pay [9]) false ++ sn_heard 7 103 (a_pay [9]) false ++ sn_heard 6 102 (a_pay [8]) true ++
  sn_heard 5 101 a_grant true.

Lemma sn_run : rtc stage_step (sn_new, [], []) (sn_s4, [101; 102; 103], sn_ins).
Proof.
  etrans; [apply (sn_round 5 101 a_grant true [101]); by vm_compute|].
  etrans; [apply (sn_round 6 102 (a_pay [8]) true [102]); by vm_compute|].
  etrans; [apply (sn_round 7 103 (a_pay [9]) false []); by vm_compute|].
  apply (sn_round 8 103 (a_pay [9]) false [103]); by vm_compute.
Qed.

Lemma sn_new_ok : ad_new 1 CSDummy sn_config sample_messenger = Ok sn_new.
Proof. by vm_compute. Qed.

Lemma decides_by_snowball_witness :
  ∃ L, logs L (st_ledger sn_s4) ∧ rest (terms_of (st_ledger sn_s4)) L ∧ inputs L = sn_ins ∧
    commits (txn_pool sn_s4) L = [101; 102; 103] ++ concat (commit_queue sn_s4).*2.
Proof. exact (decides_by_snowball 1 CSDummy sn_config sample_messenger sn_new sn_s4 _ _ sn_new_ok sn_run). Defined.

Lemma sn_spends h r : txn_pool sn_s4 !! h = Some (a_pay r, mkTxnCtx h) → spends (st_ledger sn_s4) h (101, [7]).
Proof. intros Hh. exists (a_pay r, mkTxnCtx h). split; [done|]. apply list_elem_of_here. Qed.

Lemma double_spend_needs_beta2_witness :
  ∃ h c, (h = 102 ∨ h = 103) ∧ confidence sn_s4 !! h = Some c ∧ beta2 sn_s4 ≤ c.
Proof.
  apply (double_spend_needs_beta2 1 CSDummy sn_config sample_messenger sn_new sn_s4 [101; 102; 103] sn_ins 102 103 (101, [7])).
  - exact sn_new_ok.
  - exact sn_run.
  - by apply (bool_decide_unpack _).
  - by apply (bool_decide_unpack _).
  - done.
  - apply (sn_spends 102 [8]). by vm_compute.
  - apply (sn_spends 103 [9]). by vm_compute.
Defined.
