(* ===== verification/BlizzardProps.v ===== *)
(** * Blizzard: what it takes to be accepted *)

From S2P Require Import Prelude F64 Protocol Peers Utils Config.
From S2P Require AvaDecide AvaProps.
From S2P Require Import Blizzard Samples.
Local Open Scope N_scope.

(** The rounds the other transactions of a conflict set won: all rounds less
    those of a transaction with confidence [n]. *)
Definition rivals (cts : gmap Utxo ConflictSet) (n : N) (k : Utxo) : N :=
  match cts !! k with Some ct => total_rounds ct - n | None => 0 end.

Fixpoint total_rivals (cts : gmap Utxo ConflictSet) (n : N) (keys : list Utxo) : N :=
  match keys with [] => 0 | k :: keys' => rivals cts n k + total_rivals cts n keys' end.

Definition any_conflicts (cts : gmap Utxo ConflictSet) (keys : list Utxo) : bool :=
  existsb (λ k, match cts !! k with Some ct => has_conflicts ct | None => false end) keys.

(** The conflict sets of a transaction with confidence [n] are known, count at
    least its own rounds, and prefer known transactions. *)
Definition sets_ok (s : BlizzardDecision) (n : N) (keys : list Utxo) : Prop :=
  ∀ k, k ∈ keys → ∃ ct, conflict_sets s !! k = Some ct ∧ n ≤ total_rounds ct ∧
    is_Some (confidence s !! pref ct).

(** What voting changes, besides the conflict sets and the cache: nothing. *)
Definition vote_frame (s s' : BlizzardDecision) : Prop :=
  ∃ cts c, s' = s <| conflict_sets := cts |> <| preference_cache := c |>.

Lemma total_rivals_ext cts cts' n keys :
  (∀ k, k ∈ keys → cts' !! k = cts !! k) → total_rivals cts' n keys = total_rivals cts n keys.
Proof.
  induction keys as [|k keys IH]; intros Heq; cbn; [done|]. unfold rivals.
  rewrite (Heq k) by apply list_elem_of_here. f_equal. apply IH. intros x Hx.
  by apply Heq, list_elem_of_further.
Qed.

Lemma any_conflicts_ext cts cts' keys :
  (∀ k, k ∈ keys → cts' !! k = cts !! k) → any_conflicts cts' keys = any_conflicts cts keys.
Proof.
  induction keys as [|k keys IH]; intros Heq; cbn; [done|].
  rewrite (Heq k) by apply list_elem_of_here. f_equal. apply IH. intros x Hx.
  by apply Heq, list_elem_of_further.
Qed.

Section Blizzard.
Context `{BuildProfile}.

Lemma vote_conflict_set_wp w fuel h n k acc s ct :
  AvaProps.weighs w (txn_dag s) → (2 * w h ≤ fuel)%nat → conflict_sets s !! k = Some ct →
  n ≤ total_rounds ct → is_Some (confidence s !! pref ct) → is_Some (confidence s !! h) →
  acc.2 + (total_rounds ct - n) < two64 →
  wp (vote_conflict_set fuel h (n + 1) k acc)
    (λ r s', r = (acc.1 || has_conflicts ct, acc.2 + (total_rounds ct - n)) ∧ vote_frame s s' ∧
      (∀ k', k' ≠ k → conflict_sets s' !! k' = conflict_sets s !! k') ∧
      ∃ ct', conflict_sets s' !! k = Some ct' ∧ total_rounds ct' = total_rounds ct + 1 ∧
        is_Some (confidence s !! pref ct'))
    (λ _ _, False) s.
Proof.
  intros Hw Hf Hct Hn [m Hm] Hh Hlt. unfold vote_conflict_set. wp_steps.
  eapply wp_unwrap; [done|]. wp_steps.
  assert (∀ ct1 s1, vote_frame s s1 → conflict_sets s1 = conflict_sets s →
    total_rounds ct1 = total_rounds ct → has_conflicts ct1 = has_conflicts ct →
    is_Some (confidence s !! pref ct1) →
    wp (let ct2 := ct1 <| total_rounds ::= N.succ |> in
        modify (λ s, s <| conflict_sets ::= <[k := ct2]> |>) ;;
        rivals ← lift_res (u64_sub (total_rounds ct2) (n + 1));
        conflict_count ← lift_res (u64_add acc.2 rivals);
        mret (acc.1 || has_conflicts ct2, conflict_count))
      (λ r s', r = (acc.1 || has_conflicts ct, acc.2 + (total_rounds ct - n)) ∧ vote_frame s s' ∧
        (∀ k', k' ≠ k → conflict_sets s' !! k' = conflict_sets s !! k') ∧
        ∃ ct', conflict_sets s' !! k = Some ct' ∧ total_rounds ct' = total_rounds ct + 1 ∧
          is_Some (confidence s !! pref ct'))
      (λ _ _, False) s1) as Hrest.
  { intros ct1 s1 (cts & c & ->) Hcts Hr Hc Hpr. cbn in Hcts. subst cts. cbn zeta. wp_steps.
    eapply wp_lift; [apply u64_sub_ok; cbn; lia|]. wp_steps.
    eapply wp_lift; [apply u64_add_ok; cbn; lia|]. wp_steps. split_and!.
    - cbn. rewrite Hc. f_equal. lia.
    - by do 2 eexists.
    - intros k' Hk'. cbn. by rewrite lookup_insert_ne.
    - eexists. cbn. rewrite lookup_insert_eq. split; [done|]. cbn. split; [lia|done]. }
  assert (vote_frame s s) as Hs by (exists (conflict_sets s), (preference_cache s); by destruct s).
  destruct (decide (pref ct = h)); [apply wp_ret; by apply Hrest; eauto|]. wp_steps.
  eapply wp_unwrap; [done|]. cbn beta. destruct (m <? n + 1)%N; [|apply wp_ret; by apply Hrest; eauto].
  wp_steps.
  destruct (AvaProps.invalidate_ok w (txn_dag s) fuel [h; h] (preference_cache s) Hw)
    as (cache & Hinv & _); [cbn; lia|].
  eapply wp_lift; [exact Hinv|]. wp_step. wp_step. apply wp_ret. apply Hrest; try done.
  exists (conflict_sets s), cache. by destruct s.
Qed.

Lemma vote_conflict_sets_wp w fuel h n keys acc s :
  AvaProps.weighs w (txn_dag s) → (2 * w h ≤ fuel)%nat → NoDup keys → sets_ok s n keys →
  is_Some (confidence s !! h) → acc.2 + total_rivals (conflict_sets s) n keys < two64 →
  wp (vote_conflict_sets fuel h (n + 1) keys acc)
    (λ r s', r = (acc.1 || any_conflicts (conflict_sets s) keys,
                  acc.2 + total_rivals (conflict_sets s) n keys) ∧ vote_frame s s' ∧
      (∀ k, k ∉ keys → conflict_sets s' !! k = conflict_sets s !! k) ∧
      sets_ok s' (n + 1) keys) (λ _ _, False) s.
Proof.
  intros Hw Hf. revert acc s Hw. induction keys as [|k keys IH]; intros acc s Hw Hnd Hok Hh Hlt; cbn.
  { wp_steps. split_and!; [|exists (conflict_sets s), (preference_cache s); by destruct s|done|
      by intros k ?%elem_of_nil]. destruct acc. cbn. by rewrite orb_false_r, N.add_0_r. }
  apply NoDup_cons in Hnd as [Hni Hnd]. cbn in Hlt. unfold rivals in Hlt |- *.
  destruct (Hok k) as (ct & Hct & Hn & Hp); [apply list_elem_of_here|]. rewrite Hct in Hlt |- *.
  wp_steps. eapply wp_mono; [eapply (vote_conflict_set_wp w fuel h n k acc s ct); try done; lia| |done].
  intros acc' s1 (-> & (cts & c & ->) & Hother & ct' & Hct' & Hr' & Hp'). cbn in Hother, Hct'.
  assert (∀ x, x ∈ keys → cts !! x = conflict_sets s !! x) as Hsame.
  { intros x Hx. apply Hother. by intros ->. }
  eapply wp_mono; [apply IH| |done]; cbn.
  - done.
  - done.
  - intros x Hx. cbn. rewrite Hsame by done. by apply Hok, list_elem_of_further.
  - done.
  - rewrite (total_rivals_ext (conflict_sets s)) by done. lia.
  - intros r s2 (-> & (cts2 & c2 & ->) & Hother2 & Hok2). cbn in Hother2. cbn. split_and!.
    + rewrite (total_rivals_ext (conflict_sets s)), (any_conflicts_ext (conflict_sets s)) by done.
      f_equal; [by rewrite orb_assoc|lia].
    + by do 2 eexists.
    + intros x Hx. rewrite not_elem_of_cons in Hx. destruct Hx.
      rewrite Hother2 by done. by apply Hother.
    + intros x [->|Hx]%elem_of_cons; [|by apply Hok2].
      exists ct'. cbn. rewrite Hother2 by done. split_and!; [done|lia|done].
Qed.

(** The bound the confidence of a payment is held against. *)
Definition acceptance_bound (s : BlizzardDecision) (node : DagNode) (n : N) (keys : list Utxo) : N :=
  (if forallb (λ p, bool_decide (txn_dag s !! p = None)) (parents node) &&
      negb (any_conflicts (conflict_sets s) keys)
   then beta1 s else beta2 s) + total_rivals (conflict_sets s) n keys.

(** C28: a vote for a payment with distinct inputs, in an acyclic DAG and with conflict
    sets whose rounds are at least its confidence, ends, the subtraction of its
    confidence from the rounds of a conflict set does not underflow, and keeps
    not underflowing afterwards; as long as the bound fits in 64 bits, the payment is
    accepted, and leaves the DAG, exactly when its confidence reaches beta1, or beta2
    when it has conflicts or undecided parents, plus the rounds its rivals won over all
    its inputs. *)
Theorem blizzard_acceptance w fuel h n node s sender ins rc ot rm sg c :
  AvaProps.weighs w (txn_dag s) → (2 * w h ≤ fuel)%nat →
  confidence s !! h = Some n →
  txn_pool s !! h = Some (TAvalanche (ASend sender ins rc ot rm sg), c) →
  NoDup ins → sets_ok s n (input_keys sender ins) →
  acceptance_bound s node n (input_keys sender ins) < two64 →
  let accepted := (acceptance_bound s node n (input_keys sender ins) <=? n + 1)%N in
  ∃ s', vote_txn fuel h node s = (Ok (if accepted then [h] else []), s') ∧
    confidence s' !! h = Some (n + 1) ∧ sets_ok s' (n + 1) (input_keys sender ins) ∧
    txn_dag s' = if accepted then delete h (txn_dag s) else txn_dag s.
Proof.
  intros Hw Hf Hc Hpool Hnd Hok Hb. set (keys := input_keys sender ins) in *.
  set (acc := (acceptance_bound s node n keys <=? n + 1)%N). cbn zeta.
  assert (wp (vote_txn fuel h node) (λ l s', l = (if acc then [h] else []) ∧
    confidence s' !! h = Some (n + 1) ∧ sets_ok s' (n + 1) keys ∧
    txn_dag s' = if acc then delete h (txn_dag s) else txn_dag s) (λ _ _, False) s) as Hwp.
  { unfold vote_txn. wp_steps. eapply wp_unwrap; [done|]. wp_steps.
    eapply wp_unwrap; [done|]. wp_steps. eapply wp_lift; [done|]. wp_steps. fold keys.
    unfold acceptance_bound in Hb.
    assert (NoDup keys) as Hndk by (by apply NoDup_fmap_2; [intros ?? [=]|]).
    eapply wp_mono; [apply (vote_conflict_sets_wp w fuel h n keys (false, 0) _)| |done]; cbn.
    - done.
    - done.
    - done.
    - intros k Hk. destruct (Hok k Hk) as (ct & Hct & Hle & [m Hm]). exists ct. cbn.
      split_and!; [done|done|]. destruct (decide (h = pref ct)) as [<-|].
      + rewrite lookup_insert_eq. by eauto.
      + rewrite lookup_insert_ne by done. by eauto.
    - rewrite lookup_insert_eq. by eauto.
    - lia.
    - intros r s1 (-> & (cts & ch & ->) & _ & Hok1). cbn [fst snd]. wp_steps.
      eapply (wp_lift _ acc).
      { unfold is_accepted. cbn -[N.add]. unfold acc, acceptance_bound.
        rewrite u64_add_ok by (rewrite N.add_0_l; exact Hb). by rewrite N.add_0_l. }
      destruct acc; wp_steps; cbn; by rewrite lookup_insert_eq. }
  unfold wp in Hwp. destruct (vote_txn fuel h node s) as [[l|e| |] s']; try done.
  destruct Hwp as (-> & ? & ? & ?). by exists s'.
Qed.
End Blizzard.

(** ** A concrete vote *)

#[local] Existing Instance sample_profile.

Definition b_node : DagNode := AvaDecide.mkDagNode [101] [].
Definition b_dag : gmap Hash DagNode := {[103 := b_node]}.
Definition b_s : BlizzardDecision :=
  mkBlizzardDecision 1 CSDummy 1 1 1 2
    {[103 := (TAvalanche (ASend [7] [101] [9] 50 0 []), mkTxnCtx 103)]} b_dag
    {[(101, [7]) := mkConflictSet true 102 3]} (list_to_map [(102, 1); (103, 2)])
    1000 ∅ ∅ ∅ tq_new ∅ [] sample_messenger ∅ [] [] 0 0 0 0 0 f64_zero.

Lemma b_weighs : AvaProps.weighs (λ _, 1%nat) b_dag.
Proof.
  split; [done|]. intros h node. unfold b_dag. intros [_ <-]%lookup_singleton_Some. cbn. lia.
Qed.

Lemma blizzard_acceptance_witness :
  acceptance_bound b_s b_node 2 (input_keys [7] [101]) = 3 ∧
  ∃ s', vote_txn 5 103 b_node b_s = (Ok [103], s') ∧
    confidence s' !! 103 = Some (2 + 1) ∧ sets_ok s' (2 + 1) (input_keys [7] [101]) ∧
    txn_dag s' = delete 103 (txn_dag b_s).
Proof.
  split; [by vm_compute|].
  apply (blizzard_acceptance (λ _, 1%nat) 5 103 2 b_node b_s [7] [101] [9] 50 0 [] (mkTxnCtx 103)).
  - exact b_weighs.
  - lia.
  - by vm_compute.
  - by vm_compute.
  - apply NoDup_singleton.
  - intros k ->%list_elem_of_singleton. exists (mkConflictSet true 102 3).
    split; [by vm_compute|]. split; [cbn; lia|]. exists 1. by vm_compute.
  - apply N.ltb_lt. by vm_compute.
Defined.
