(* ===== verification/BlizzardLog.v ===== *)
(** * Blizzard against the log of votes

    The decision stage of Blizzard.v refines the log of VoteLog.v with a rule of its own:
    a conflict set counts the votes of all its transactions, and a transaction is accepted
    when its votes exceed those of its rivals, over all its inputs, by [beta2], or by
    [beta1] when its parents are decided and it has no rivals. The sums are on u64: when
    they do not fit, the rule promises nothing. A panic ends a run.

    The comment on [total_rounds] in the code, that it is the sum of the confidences of
    the transactions of the set, is a theorem at the end, with the number of times each of
    them names the output; and so is the distance between two accepted rivals. *)

From S2P Require Import Prelude F64 Protocol Peers Utils Config VoteLog VoteLedger VoteStage.
From S2P Require AvaDecide AvaProps AvaSnowball.
From S2P Require Import Blizzard Samples.
Local Open Scope N_scope.

(** ** Sums *)

Fixpoint sum_of {A} (f : A → N) (l : list A) : N :=
  match l with [] => 0 | a :: l => f a + sum_of f l end.

Lemma sum_of_ext {A} (f g : A → N) l : (∀ a, a ∈ l → f a = g a) → sum_of f l = sum_of g l.
Proof.
  induction l as [|a l IH]; intros Hfg; cbn; [done|]. rewrite (Hfg a), IH; [done| |apply list_elem_of_here].
  intros b Hb. apply Hfg. by right.
Qed.

Lemma sum_of_mono {A} (f g : A → N) l : (∀ a, a ∈ l → f a ≤ g a) → sum_of f l ≤ sum_of g l.
Proof.
  induction l as [|a l IH]; intros Hfg; cbn; [done|]. apply N.add_le_mono; [apply Hfg, list_elem_of_here|].
  apply IH. intros b Hb. apply Hfg. by right.
Qed.

Lemma sum_of_add {A} (f g : A → N) l : sum_of (λ a, f a + g a) l = sum_of f l + sum_of g l.
Proof. induction l as [|a l IH]; cbn; [done|]. rewrite IH. lia. Qed.

Lemma sum_of_fmap {A B} (f : B → N) (g : A → B) l : sum_of f (g <$> l) = sum_of (λ a, f (g a)) l.
Proof. induction l as [|a l IH]; cbn; [done|]. by rewrite <- IH. Qed.

Lemma sum_of_zero {A} (f : A → N) l : (∀ a, a ∈ l → f a = 0) → sum_of f l = 0.
Proof.
  induction l as [|a l IH]; intros Hf; cbn; [done|]. rewrite (Hf a), IH; [done| |apply list_elem_of_here].
  intros b Hb. apply Hf. by right.
Qed.

Lemma sum_of_one `{EqDecision A} (x : A) l : NoDup l → x ∈ l → sum_of (λ a, if decide (x = a) then 1 else 0) l = 1.
Proof.
  induction 1 as [|a l Ha Hl IH]; intros Hx; [by apply elem_of_nil in Hx|]. cbn.
  destruct (decide (x = a)) as [->|Hne].
  - rewrite sum_of_zero; [done|]. intros b Hb. rewrite decide_False; [done|]. by intros ->.
  - apply elem_of_cons in Hx as [?|Hx]; [done|]. by rewrite IH.
Qed.

Lemma sum_of_in {A} (f : A → N) l a : a ∈ l → f a ≤ sum_of f l.
Proof. induction 1; cbn; lia. Qed.

(** The votes an output saw are those of the transactions that touched it. *)
Lemma rounds_sum u L hs :
  NoDup hs → (∀ h, Touch u h ∈ L → h ∈ hs) → rounds u L = sum_of (λ h, touches h u L) hs.
Proof.
  intros Hnd Hin. induction L as [|e L IH]; [by rewrite sum_of_zero|].
  assert (∀ h, Touch u h ∈ L → h ∈ hs) as Hin' by (intros h Hh; apply Hin; by right). specialize (IH Hin').
  destruct e as [| | | | | | | |u' h'| |]; cbn; try done. destruct (decide (u' = u)) as [->|]; [|exact IH].
  rewrite sum_of_add, sum_of_one, IH; [done|done|]. apply Hin. by left.
Qed.

(** ** The rule *)

Definition blizzard_accepts (b1 b2 : N) (L : list vote_event) (h : Hash) : Prop :=
  ∃ ps keys b, Seen h ps keys ∈ L ∧ (b = b2 ∨ b = b1 ∧ early L h ps keys) ∧
    (b + sum_of (λ u, others h u L) keys ≤ gains h L ∨ two64 ≤ b + sum_of (λ u, rounds u L) keys).

Lemma rounds_other e L u : ¬ about u e → rounds u (e :: L) = rounds u L.
Proof. intros He. destruct e; cbn in *; try done. by rewrite decide_False. Qed.

#[export] Program Instance blizzard_rule : VoteRule ConflictSet := {|
  vr_conflicts := has_conflicts;
  vr_pref := pref;
  vr_counts L u ct := total_rounds ct = rounds u L;
  vr_accept := blizzard_accepts;
  vr_resets := false;
  vr_fresh h := mkConflictSet false h 0;
  vr_mark ct := ct <| has_conflicts := true |>;
|}.
Next Obligation. done. Qed.
Next Obligation. done. Qed.
Next Obligation. intros L u h Hu. cbn. by rewrite untouched_rounds. Qed.
Next Obligation. done. Qed.
Next Obligation. intros e L u ct He Hc. cbn beta. by rewrite rounds_other. Qed.

#[export] Instance blizzard_stage : Stage BlizzardDecision ConflictSet := {|
  st_ledger s := mkLedger (vote_thresh s) (beta1 s) (beta2 s) (bd_k s) (txn_pool s) (txn_dag s) (confidence s)
    (conflict_sets s) (finished_query s) (query_pool s) (votes s);
  st_queue := commit_queue;
|}.

(** ** A vote reaches the inputs *)

(** [n] is the sum [x], unless that does not fit. *)
Definition wraps (n x : N) : Prop := n = x ∨ two64 ≤ x.

Lemma u64_add_wraps `{BuildProfile} a b n x : wraps a x → u64_add a b = Ok n → wraps n (x + b).
Proof.
  intros [->|Hx] Hn; [|right; lia]. apply u64_add_inv in Hn as [[-> _]|(_ & Hlt & _)]; [by left|by right].
Qed.

(** What [vote_conflict_set] returns: whether a set has conflicts, the votes for rivals. *)
Definition touched (h : Hash) (keys : list Utxo) (L : list vote_event) (s : BlizzardDecision)
    (acc acc' : bool * N) (s' : BlizzardDecision) : Prop :=
  vote_frame s' = vote_frame s ∧
  (∀ x, wraps acc.2 x → ∃ y, wraps acc'.2 y ∧
    x + sum_of (λ u, others h u L) keys ≤ y ≤ x + sum_of (λ u, rounds u L) keys) ∧
  (acc'.1 = false → acc.1 = false ∧ ∀ u h', u ∈ keys → spends (st_ledger s) h' u → h' = h).

(** A vote for [h] counts, and has yet to reach [rest]. *)
Definition voting (h : Hash) (rest : list Utxo) (L : list vote_event) (s : BlizzardDecision) : Prop :=
  let l := st_ledger s in
  tracks L l ∧ pending h rest L l ∧ Gain h ∈ since L ∧ undecided L h ∧
  ∃ e, lg_pool l !! h = Some e ∧ rest `suffix_of` txn_keys e.1.

Lemma occ_app u l1 l2 : occ u (l1 ++ l2) = occ u l1 + occ u l2.
Proof. induction l1 as [|k l1 IH]; cbn; [done|]. rewrite IH. lia. Qed.

(** The rounds of a set are at least the votes of a transaction that reached it: the
    subtraction does not underflow. *)
Lemma voting_rounds h u rest L s :
  voting h (u :: rest) L s → gains h L + others h u (Touch u h :: L) ≤ rounds u (Touch u h :: L).
Proof.
  intros (_ & Hp & _ & _ & e & He & [k Hk]). rewrite (rounds_split h).
  pose proof (pd_reach _ _ _ _ Hp h u e He) as Hr. rewrite decide_True in Hr by done.
  assert (occ u (u :: rest) ≤ occ u (txn_keys e.1)) as Hle by (rewrite Hk, occ_app; lia).
  cbn in Hr, Hle |- *. rewrite !(decide_True (P := u = u)), !(decide_True (P := h = h)) in * by done. nia.
Qed.

Section Profile.
Context `{BuildProfile}.

(** The end of the update, once the preference is settled. *)
Definition count_round (h : Hash) (u : Utxo) (n : N) (acc : bool * N) (ct1 : ConflictSet) :
    M BlizzardDecision (bool * N) :=
  let ct2 := ct1 <| total_rounds ::= N.succ |> in
  modify (λ s, s <| conflict_sets ::= <[u := ct2]> |>) ;;
  rivals ← lift_res (u64_sub (total_rounds ct2) n);
  conflict_count ← lift_res (u64_add acc.2 rivals);
  mret (acc.1 || has_conflicts ct2, conflict_count).

Lemma count_round_logged h u rest acc L s ct p :
  voting h (u :: rest) L s → conflict_sets s !! u = Some ct →
  p = pref ct ∨ p = h → (∀ x, spends (st_ledger s) x u → gains x L ≤ gains p L) →
  wpe (count_round h u (gains h L) acc (ct <| pref := p |>))
    (λ acc' s', voting h rest (Touch u h :: L) s' ∧ touched h [u] (Touch u h :: L) s acc acc' s') (λ _, False) s.
Proof.
  intros Hv Hct Hpp Hmax. pose proof (voting_rounds _ _ _ _ _ Hv) as Hrounds.
  destruct Hv as (Ht & Hp & Hpoll & Hund & e & He & [k Hk]). unfold count_round. cbv zeta.
  set (ct' := ct <| pref := p |> <| total_rounds ::= N.succ |>).
  assert (spends (st_ledger s) h u) as Hsu by (exists e; split; [done|]; rewrite Hk; apply elem_of_app; right; apply list_elem_of_here).
  destruct (tr_set _ _ Ht u ct Hct) as [_ Hcnt]. cbn in Hcnt.
  assert (total_rounds ct' = rounds u (Touch u h :: L)) as Hcnt' by (cbn; rewrite decide_True by done; lia).
  assert (tracks (Touch u h :: L) (set_sets (<[u := ct']> (lg_sets (st_ledger s))) (st_ledger s))) as Ht2
    by (by apply (tracks_touch L (st_ledger s) h u ct ct')).
  apply wpe_bind, wpe_modify. rewrite Hcnt'. rewrite u64_sub_ok by lia.
  apply wpe_bind, wpe_ret, wpe_bind, wpe_lift; [intros n Hn|intros er Her; unfold u64_add in Her; by repeat case_match].
  apply wpe_ret. split.
  - split; [exact Ht2|]. split; [exact (pending_touch L (st_ledger s) h u rest ct' Hp Hmax)|]. split; [by right|].
    split; [by apply undecided_vote|]. exists e. split; [done|]. exists (k ++ [u]). by rewrite <- (assoc_L (++)).
  - split_and!; [done| |].
    + intros x Hx. eexists. split; [by eapply u64_add_wraps|]. cbn [sum_of]. lia.
    + intros [Ha Hno]%orb_false_iff. split; [done|]. intros x h' ->%list_elem_of_singleton Hs'.
      by rewrite <- (spends_alone _ _ _ _ _ Ht Hs' Hct Hno), <- (spends_alone _ _ _ _ _ Ht Hsu Hct Hno).
Qed.
End Profile.

Section Votes.
Context `{BuildProfile}.

Lemma bl_vote_conflict_set_logged fuel h u rest acc L s :
  voting h (u :: rest) L s →
  wpe (vote_conflict_set fuel h (gains h L) u acc)
    (λ acc' s', voting h rest (Touch u h :: L) s' ∧ touched h [u] (Touch u h :: L) s acc acc' s') (λ _, False) s.
Proof.
  intros Hv. pose proof Hv as (Ht & Hp & _). unfold vote_conflict_set.
  apply wpe_bind, wpe_gets, wpe_bind, wpe_unwrap. intros ct Hct.
  assert (∀ x, spends (st_ledger s) x u → gains x L ≤ gains (pref ct) L + (if decide (x = h) then 1 else 0)) as Hmax.
  { intros x Hx. pose proof (pd_pref _ _ _ _ Hp u ct x Hct Hx) as Hle. cbn in Hle. etrans; [exact Hle|].
    repeat case_decide; lia || naive_solver. }
  apply wpe_bind. case_decide as Hpref.
  - apply wpe_ret. replace ct with (ct <| pref := pref ct |>) by (by destruct ct).
    apply (count_round_logged h u rest acc L s ct); [done|done|by left|].
    intros x Hx. specialize (Hmax x Hx). case_decide; [by subst|lia].
  - apply wpe_bind, wpe_gets, wpe_bind, wpe_unwrap. intros c Hconf.
    assert (c = gains (pref ct) L) as ->.
    { pose proof (tr_confidence _ _ Ht (pref ct)) as Hc. cbn in Hc. rewrite Hconf in Hc.
      by destruct (txn_pool s !! pref ct); simplify_eq/=. }
    destruct (N.ltb_spec (gains (pref ct) L) (gains h L)).
    + cbv zeta. apply wpe_bind, wpe_gets, wpe_bind, wpe_lift; [intros cache _|intros e He; by apply invalidate_no_err in He].
      apply wpe_bind, wpe_modify, wpe_ret.
      change (voting h (u :: rest) L (s <| preference_cache := cache |>)) in Hv.
      apply (count_round_logged h u rest acc L _ ct h Hv Hct); [by right|].
      intros x Hx. specialize (Hmax x Hx). case_decide; [by subst|lia].
    + apply wpe_ret. replace ct with (ct <| pref := pref ct |>) by (by destruct ct).
      apply (count_round_logged h u rest acc L s ct); [done|done|by left|].
      intros x Hx. specialize (Hmax x Hx). case_decide; [by subst|lia].
Qed.

Lemma bl_vote_conflict_sets_logged fuel h keys acc L s :
  voting h keys L s →
  wpe (vote_conflict_sets fuel h (gains h L) keys acc)
    (λ acc' s', voting h [] (touch_all h keys L) s' ∧ touched h keys (touch_all h keys L) s acc acc' s')
    (λ _, False) s.
Proof.
  revert acc L s. induction keys as [|u keys IH]; intros acc L s Hv; cbn [vote_conflict_sets touch_all].
  { split; [done|]. split_and!; [done| |].
    - intros x Hx. exists x. split; [done|]. cbn. lia.
    - intros Ha. split; [done|]. by intros ? ? ?%elem_of_nil. }
  apply wpe_bind. eapply wpe_mono; [by apply bl_vote_conflict_set_logged| |done].
  cbn beta. intros acc1 s1 [Hv1 (Hf1 & Hw1 & Hno1)].
  eapply wpe_mono; [apply (IH acc1 (Touch u h :: L) s1 Hv1)| |done].
  cbn beta. intros acc2 s2 [Hv2 (Hf2 & Hw2 & Hno2)]. split; [done|]. split_and!; [congruence| |].
  - intros x Hx. destruct (Hw1 x Hx) as (y & Hy & Hle1), (Hw2 y Hy) as (z & Hz & Hle2). exists z. split; [done|].
    cbn in Hle1 |- *. rewrite touch_all_others. cbn. rewrite !(decide_True (P := u = u)), !(decide_True (P := h = h)) in * by done.
    pose proof (touch_all_rounds h keys (Touch u h :: L) u) as Hr. cbn in Hr. rewrite decide_True in Hr by done. lia.
  - intros [[Ha Hn1]%Hno1 Hn2]%Hno2. split; [done|].
    intros u' h' [->|Hu']%elem_of_cons Hs'; [by apply (Hn1 u); [apply list_elem_of_here|]|].
    apply (Hn2 u'); [done|]. by apply (frame_spends _ _ _ _ Hf1).
Qed.

(** ** A transaction gains a vote, and may be accepted *)

(** What [is_accepted] decides. *)
Lemma bl_is_accepted_rule L s h ps keys b n y :
  tracks L (st_ledger s) → Seen h ps keys ∈ L → wraps n y →
  sum_of (λ u, others h u L) keys ≤ y ≤ sum_of (λ u, rounds u L) keys →
  (b = false → ∀ u h', u ∈ keys → spends (st_ledger s) h' u → h' = h) →
  is_accepted s ps b (gains h L) n = Ok true → blizzard_accepts (beta1 s) (beta2 s) L h.
Proof.
  intros Ht Hseen Hn Hy Hno Hacc. unfold is_accepted in Hacc. cbv zeta in Hacc. apply res_bind_ok in Hacc as (bd & Hbd & [= Hle%N.leb_le]).
  match type of Hbd with u64_add (if ?c then _ else _) _ = _ => destruct c eqn:Hc end.
  2: exists ps, keys, (beta2 s). 1: exists ps, keys, (beta1 s).
  all: split; [done|]; split; [|destruct Hn as [->|Hn]; [|right; lia];
    apply u64_add_inv in Hbd as [[-> _]|(_ & Hlt & _)]; [left|right]; lia].
  - right. split; [done|]. apply andb_true_iff in Hc as [Hps Hb%negb_true_iff]. split.
    + intros p Hp Hu%(tr_undecided _ _ Ht). rewrite forallb_forall in Hps.
      apply list_elem_of_In, Hps, bool_decide_eq_true in Hp. cbn in Hu. by rewrite Hp in Hu; destruct Hu.
    + intros u h' Hu Hs. apply (Hno Hb u); [done|]. by eapply spent_spends.
  - by left.
Qed.

(** The end of [vote_txn]. *)
Definition accept_txn (h : Hash) (node : DagNode) (n : N) (avax_txn : AvalancheTxn) (r : bool * N) :
    M BlizzardDecision (list Hash) :=
  s ← gets (λ s, s);
  accepted ← lift_res (is_accepted s (parents node) r.1 n r.2);
  if (accepted : bool) then
    modify (λ s, s <| txn_dag ::= delete h |> <| preference_cache ::= delete h |>) ;;
    mret (if committable avax_txn then [h] else [])
  else mret [].

Lemma bl_accept_txn_polls B h0 v G x node keys avax_txn r E s1 s :
  let L := E ++ Poll h0 v :: B in
  Forall counting E → voting x [] L s → Seen x (parents node) keys ∈ L → (∀ y, Gain y ∈ E ↔ y ∈ G) →
  (vote_thresh s1 <=? v) = true → handed (txn_pool s1) x = committable avax_txn →
  touched x keys L s1 (false, 0) r s →
  wpe (accept_txn x node (gains x L) avax_txn r)
    (λ l, polling B h0 v true (commit_queue s1) G ∅ (commits (txn_pool s1) L ++ l)) (λ _, False) s.
Proof.
  intros L HE (Ht & Hp & Hgain & Hund & _) Hseen HG Hok Hcm (Hf & Hw & Hno).
  assert (logs L (st_ledger s)) as Hs by (split; [done|]; intros ?; by eapply pending_nil).
  injection Hf as Hth _ _ _ Hpool _ _ _ _ _ Hq. rewrite <- Hth in Hok.
  unfold accept_txn. apply wpe_bind, wpe_gets, wpe_bind, wpe_lift; [intros accepted Hacc|intros e He].
  2: { unfold is_accepted in He. cbv zeta in He. unfold u64_add in He. by repeat case_match; simplify_eq/=. }
  destruct accepted; wpe_steps.
  - exists (Accept x :: E). split_and!; [by constructor| |done|done| | |set_solver].
    + refine (logs_accept L (st_ledger s) x Hs _ Hund Hgain). destruct (Hw 0) as (y & Hy & Hle); [by left|].
      eapply bl_is_accepted_rule; [done|done|exact Hy|exact Hle| |done].
      intros [_ Hb]%Hno u h' Hu Hs'. apply (Hb u); [done|]. unfold spends. cbn. by rewrite <- Hpool.
    + cbn. by rewrite Hpool, Hcm.
    + intros y. rewrite <- HG, elem_of_cons. naive_solver.
  - exists E. rewrite app_nil_r. split_and!; [done..| |done|set_solver]. cbn. by rewrite Hpool.
Qed.

Lemma bl_vote_txn_ok : vote_ok vote_txn.
Proof.
  intros fuel B h0 v q G out x node keys s (E & HE & Hsnow & Hok & <- & <- & HG & _) Hpoll HxG Hseen.
  set (L := E ++ Poll h0 v :: B) in *.
  assert (undecided L x) as Hund by (apply (after_stays _ _ _ _ HE (terms_of (st_ledger s))); [apply Hsnow|apply Hpoll|by rewrite HG]).
  assert (Gain x ∉ since L) as Hnew by (unfold L; by rewrite after_since, HG).
  apply (counting_in_poll _ _ _ _ E _ _ HE Hok) in Hpoll. apply (after_seen E B h0 v HE) in Hseen.
  destruct (tr_seen _ _ (proj1 Hsnow) _ _ _ Hseen) as (e & He & _ & ->). cbn in He.
  pose proof (tr_confidence _ _ (proj1 Hsnow) x) as Hc. cbn in Hc. rewrite He in Hc. cbn in Hc.
  unfold vote_txn. apply wpe_bind, wpe_gets. rewrite Hc. apply wpe_bind, wpe_ret. cbn zeta.
  replace (gains x L + 1) with (gains x (Gain x :: L)) by (cbn; rewrite decide_True by done; lia).
  destruct (logs_gain L (st_ledger s) x e Hsnow Hpoll Hund Hnew He) as [Ht1 Hp1]. apply wpe_bind, wpe_modify.
  set (s1 := s <| confidence ::= _ |>) in *. set (L1 := Gain x :: L) in *.
  assert (voting x (txn_keys e.1) L1 s1) as Hv1.
  { split; [exact Ht1|]. split; [exact Hp1|]. split; [by left|]. split; [by apply undecided_vote|].
    by exists e. }
  apply wpe_bind, wpe_gets. change (txn_pool s1) with (txn_pool s). rewrite He. apply wpe_bind, wpe_ret.
  assert (∀ r s2 avax_txn keys', let L2 := touch_all x keys' L1 in voting x [] L2 s2 →
    handed (txn_pool s) x = committable avax_txn → touched x (txn_keys e.1) L2 s1 (false, 0) r s2 →
    wpe (accept_txn x node (gains x L1) avax_txn r)
      (λ l, polling B h0 v true (commit_queue s) ({[x]} ∪ G) ∅ (commits (txn_pool s) L ++ l)) (λ _, False) s2) as Hrest.
  { intros r s2 avax_txn keys' L2 Hv2 Hcm Hto. set (E2 := touch_all x keys' (Gain x :: E)).
    assert (L2 = E2 ++ Poll h0 v :: B) as HL2 by exact (touch_all_app x keys' (Gain x :: E) (Poll h0 v :: B)).
    assert (commits (txn_pool s) L = commits (txn_pool s) L2) as ->.
    { unfold L2. by rewrite commits_touch_all. }
    replace (gains x L1) with (gains x L2) by apply touch_all_gains. rewrite HL2 in Hv2, Hto |- *. apply (bl_accept_txn_polls B h0 v _ x node (txn_keys e.1) avax_txn r E2 s1 s2).
    - apply touch_all_counting. by constructor.
    - done.
    - rewrite <- HL2. eapply suffix_in; [apply touch_all_suffix|]. by right.
    - intros y. unfold E2. rewrite touch_all_in by done. rewrite elem_of_cons, HG. set_solver.
    - done.
    - done.
    - done. }
  apply wpe_bind, wpe_lift; [|by destruct e as [[]]]. intros avax_txn Havax.
  apply wpe_bind. destruct e as [[| |t] ctx]; cbn in Havax; try discriminate. injection Havax as <-.
  assert (handed (txn_pool s) x = committable t) as Hcm by (unfold handed; by rewrite He).
  assert (txn_keys (TAvalanche t) = [] → wpe (accept_txn x node (gains x L1) t (false, 0))
      (λ l, polling B h0 v true (commit_queue s) ({[x]} ∪ G) ∅ (commits (txn_pool s) L ++ l)) (λ _, False) s1) as Hnil.
  { intros Hk. cbn [fst] in Hrest, Hv1. rewrite Hk in Hrest, Hv1. apply (Hrest _ s1 t []); [done|done|].
    split_and!; [done| |].
    - intros y Hy. exists y. split; [done|]. cbn. lia.
    - intros _. split; [done|]. by intros ? ? ?%elem_of_nil. }
  destruct t as [sender in_utxo rc o rm sg|val rc nonce|ps|]; [|apply wpe_ret; by apply Hnil..|done].
  eapply wpe_mono; [by apply bl_vote_conflict_sets_logged|intros r s2 [Hv2 Hto]|done]. by eapply Hrest.
Qed.

(** The recursion over the ancestors is that of VoteStage.v. *)
Lemma bl_handle_votes_helper_walk : handle_votes_helper = walk txn_dag vote_txn.
Proof. reflexivity. Qed.
End Votes.

(** ** The handlers: a failed poll changes nothing *)

Lemma bl_tally_ok `{BuildProfile} fuel ins base q qs : ∀ bs acc s,
  counted (owed qs bs) ins (base ++ acc) q s →
  wpe (tally fuel qs (columns (length qs) bs) acc) (λ l, counted [] ins (base ++ l) q) (λ _, False) s.
Proof.
  induction qs as [|[h|] qs IH]; intros bs acc s Hs; [done| |by apply (IH (tail <$> bs))].
  cbn [length columns owed tally] in *. wpe_steps.
  apply (counted_view _ _ _ _ s (s <| txn_query_count ::= N.succ |>)) in Hs; [|done..].
  destruct (poll_start _ _ _ _ _ _ _ Hs) as (B & Hd & Hn & Hi & Hs1).
  change (lg_thresh _) with (vote_thresh s) in Hs1. change (vote_thresh (s <| txn_query_count ::= N.succ |>)) with (vote_thresh s).
  destruct (vote_thresh s <=? yeses bs).
  - apply wpe_bind. rewrite bl_handle_votes_helper_walk. eapply wpe_mono; [eapply walk_polls; [done|apply bl_vote_txn_ok|exact Hs1]| |done]; cbn beta.
    intros r s2 (G & Hs2 & Hall). apply (poll_end _ _ _ _ _ _ _ _ _ _ _ Hd Hn Hi) in Hs2; [|done].
    rewrite <- (assoc_L (++)) in Hs2. case_decide; wpe_steps; apply IH; [by apply (counted_view _ _ _ _ s2)|done].
  - apply IH. eapply poll_end; [done..|exact Hs1|]. by intros x _ [=].
Qed.

Lemma bl_is_preferred_no_err pool cts h e : is_preferred pool cts h ≠ Err e.
Proof.
  unfold is_preferred. destruct (pool !! h) as [[[| |t] ctx]|]; try done. destruct t as [sender ins| | |]; try done. cbn.
  generalize (input_keys sender ins). intros keys. induction keys as [|k keys IH]; cbn; [done|].
  destruct (cts !! k); [|done]. by destruct (all_prefer cts h keys).
Qed.

(** A node's own preference is looked up without changing what is recorded. *)
Lemma bl_strongly_preferred_ok fuel : ∀ h s, wpe (is_strongly_preferred fuel h) (λ _ s', view s' = view s) (λ _, False) s.
Proof.
  induction fuel as [|fuel IH]; intros h s; cbn; [done|].
  assert (∀ ps s, wpe (all_strongly_preferred (is_strongly_preferred fuel) ps) (λ _ s', view s' = view s) (λ _, False) s) as Hall.
  { induction ps as [|p ps IHps]; intros s'; cbn; [done|]. apply wpe_bind. eapply wpe_mono; [apply IH| |done]; cbn beta.
    intros [] s1 Hs1; [|done]. eapply wpe_mono; [apply IHps| |done]; cbn beta. intros _ s2 Hs2. congruence. }
  wpe_steps. destruct (_ !! h); wpe_steps; [|done]. destruct (_ !! h); wpe_steps; [done|..].
  - match goal with |- wpe (if ?b then _ else _) _ _ _ => destruct b end; [|by wpe_steps].
    eapply wpe_mono; [apply Hall| |done]; cbn beta. intros b s1 Hs1. by wpe_steps.
  - by eapply bl_is_preferred_no_err.
Qed.

Lemma bl_record_txn_ok txn ctx todo hist ins s :
  noting ((tc_id ctx, txn) :: todo) hist ins s →
  wpe (record_txn txn ctx (txn_parents txn) (txn_keys txn)) (λ _, noting todo hist ins) (λ _, False) s.
Proof.
  intros Hs. unfold record_txn. wpe_steps. destruct (txn_pool s !! tc_id ctx) eqn:E; wpe_steps.
  - eapply noting_skip; [done|]. right. by eexists.
  - by eapply noting_record.
Qed.

Lemma bl_vote_on_ok fuel txn ctx todo hist ins s :
  noting ((tc_id ctx, txn) :: todo) hist ins s →
  wpe (vote_on fuel txn ctx) (λ r s', noting todo hist ins s' ∧ r.2 = asked_about txn ctx) (λ _, False) s.
Proof.
  intros Hs. pose proof (bl_record_txn_ok _ _ _ _ _ _ Hs) as Hrec.
  assert (∀ s', noting todo hist ins s' →
    wpe (v ← query_txn fuel (tc_id ctx); mret (v, Some (tc_id ctx)))
      (λ r s', noting todo hist ins s' ∧ r.2 = Some (tc_id ctx)) (λ _, False) s') as Hquery.
  { intros s' Hs'. unfold query_txn. wpe_steps. eapply wpe_mono; [apply bl_strongly_preferred_ok| |done]; cbn beta.
    intros v s2 Hs2. apply wpe_ret. split; [by apply (noting_view _ _ _ s')|done]. }
  destruct txn as [|t|[sender rs| |ps|]]; cbn; try done.
  - apply wpe_bind. eapply wpe_mono; [exact Hrec| |done]; cbn beta; intros _ s1 Hs1. by apply Hquery.
  - apply wpe_bind. eapply wpe_mono; [exact Hrec| |done]; cbn beta; intros _ s1 Hs1. by apply wpe_ret.
  - apply wpe_bind. eapply wpe_mono; [exact Hrec| |done]; cbn beta; intros _ s1 Hs1. by apply Hquery.
  - split; [|done]. eapply noting_skip; [done|by left].
Qed.

Lemma bl_vote_batch_ok fuel hist ins ts : ∀ cs s,
  length ts = length cs → noting (batch_items ts cs) hist ins s →
  wpe (vote_batch fuel ts cs) (λ vs s', recorded hist ins s' ∧ vs.*2 = zip_with asked_about ts cs) (λ _, False) s.
Proof.
  induction ts as [|t ts IH]; intros [|c cs] s Hlen Hs; try done; cbn.
  { split; [by apply noting_done|done]. }
  apply wpe_bind. eapply wpe_mono; [by apply bl_vote_on_ok| |done]; cbn beta. intros r s1 [Hs1 Hr].
  apply wpe_bind. eapply wpe_mono; [apply (IH cs); [by injection Hlen|done]| |done]; cbn beta. intros vs s2 [Hs2 Hvs].
  apply wpe_ret. cbn. by rewrite Hr, Hvs.
Qed.

(** The node stays who it is. *)
Lemma bl_vote_batch_id fuel ts cs : keeps bd_id (vote_batch fuel ts cs).
Proof.
  assert (∀ h, keeps bd_id (is_strongly_preferred fuel h)) as Hp.
  { induction fuel as [|fuel IH]; intros h; cbn; [apply keeps_out_of_fuel|].
    assert (∀ ps, keeps bd_id (all_strongly_preferred (is_strongly_preferred fuel) ps)) as Hall by (induction ps; cbn; keeps_auto).
    keeps_auto. }
  assert (∀ txn ctx ps keys, keeps bd_id (record_txn txn ctx ps keys)) as Hr by (intros; unfold record_txn; keeps_auto).
  assert (∀ t c, keeps bd_id (vote_on fuel t c)) as Hv by (intros; unfold vote_on, query_txn; keeps_auto).
  revert cs. induction ts as [|t ts IH]; intros [|c cs]; cbn; keeps_auto.
Qed.

Section Handlers.
Context `{BuildProfile} `{Externals} `{!Bincode (N * list bool)} `{!Bincode AvaDecide.VoteMsg} `{Transport} `{Channel}.
Context (hist : list Hash).

Lemma bl_handle_votes_ok fuel blk ins s :
  ringing blk hist ins s → wpe (handle_votes fuel blk) (λ _, recorded hist ins) (recorded hist ins) s.
Proof.
  intros Hs. unfold handle_votes. wpe_steps. destruct (query_pool s !! blk) as [qs|] eqn:Hq; wpe_steps.
  2: by eapply ringing_unasked.
  match goal with Hv : _ !! blk = Some ?x, Hb : bool_decide _ = true |- _ =>
    rename x into v, Hv into Hvotes, Hb into Hlen; apply bool_decide_eq_true in Hlen end.
  match goal with |- wpe _ _ _ ?s1 =>
    destruct (ringing_tally blk hist ins s s1 qs v Hs Hq Hvotes Hlen) as (bs & Hv & Hs1); [done..|] end.
  rewrite Hv. rewrite <- (app_nil_r (hist ++ _)) in Hs1.
  eapply wpe_mono; [apply bl_tally_ok, Hs1| |done]; cbn beta. intros l s2 Hs2.
  assert (commit_queue s2 = commit_queue s) as Hq2 by (by destruct Hs2 as (? & _ & ? & _)).
  wpe_steps. apply recording_keeps; [unfold feedback, chan_send; keeps_auto|].
  apply (counted_push _ _ l blk s2); [|done|done]. cbn. rewrite Hq2. by rewrite <- (assoc_L (++)) in Hs2.
Qed.

Lemma bl_record_votes_ok fuel blk src vs : hearing_ok hist (λ _, [Ballot blk vs]) (record_votes fuel blk src vs).
Proof.
  intros ins s Hs. cbn zeta. unfold record_votes. wpe_steps. case_decide as Hfin; wpe_steps; [by apply heard_late|].
  match goal with Hb : bool_decide _ = true |- _ => apply bool_decide_eq_true in Hb; rename Hb into Hlen end.
  match goal with |- wpe _ _ _ ?s1 =>
    pose proof (heard_ballot hist ins s s1 blk Hs eq_refl vs _ Hfin eq_refl Hlen) as Hs1 end.
  specialize (Hs1 ltac:(cbn; by rewrite insert_insert_eq)).
  change (lg_k (st_ledger s)) with (bd_k s) in Hs1. cbn in Hs1 |- *.
  destruct (bd_k s <=? _); [by apply bl_handle_votes_ok|done].
Qed.

Lemma bl_send_votes_keeps proposer blk vs : keeps view (send_votes proposer blk vs).
Proof. unfold send_votes, pm_delayed_send. keeps_auto. Qed.

(** What a call hears: a batch, with the node's own ballot if it is the node's own; ... *)
Definition bl_hear_tail (fuel : nat) (tail : list (Block * BlkCtx)) (s : BlizzardDecision) : list vote_event :=
  match tail with
  | [(blk, ctx)] =>
    match header blk, (vote_batch fuel (txns blk) (bc_txn_ctx ctx) s).1 with
    | HAvalanche proposer blk_id _, Ok vs =>
      (if decide (proposer = bd_id s)
       then [Ballot blk_id vs.*1; Ask blk_id (zip_with asked_about (txns blk) (bc_txn_ctx ctx))] else []) ++
      [Batch (batch_items (txns blk) (bc_txn_ctx ctx))]
    | _, _ => []
    end
  | _ => []
  end.
(** ... a deadline; the ballot of a peer, if its signature holds. *)
Definition bl_hear_timeout (s : BlizzardDecision) : list vote_event :=
  match (tq_pop (vote_time_queue s)).1 with Some blk => [Expire blk] | None => [] end.
Definition bl_hear_peer (src : NodeId) (content : bytes) (s : BlizzardDecision) : list vote_event :=
  let heard :=
    msg ← of_result (deserialize content);
    signed ← of_result (serialize (AvaDecide.round msg, AvaDecide.vote_bits msg));
    v ← verify (bd_crypto_scheme s) (default (gen_key_pair (bd_crypto_scheme s) src).1 (neighbor_pks s !! src))
          signed (AvaDecide.signature msg);
    Ok (if (v.1 : bool) then [Ballot (AvaDecide.round msg) (AvaDecide.vote_bits msg)] else []) in
  match heard with Ok e => e | _ => [] end.

Lemma bl_new_tail_ok fuel now src tail : hearing_ok hist (bl_hear_tail fuel tail) (new_tail fuel now src tail).
Proof.
  intros ins s Hs. unfold bl_hear_tail. destruct tail as [|[b c] [|]]; cbn; [done| |done].
  destruct (header b) as [| |proposer blk_id depth|]; try done. wpe_steps.
  match goal with Hb : bool_decide (length _ = _) = true |- _ => apply bool_decide_eq_true in Hb; rename Hb into Hlen end.
  pose proof (bl_vote_batch_ok fuel hist _ (txns b) (bc_txn_ctx c) s Hlen (heard_batch hist ins s Hs _)) as Hvb.
  apply (wpe_result bd_id) in Hvb; [|apply bl_vote_batch_id].
  eapply wpe_mono; [exact Hvb| |done]. cbn beta. intros vs s1 ([Hs1 Hvs] & Hres & Hid). rewrite Hres. wpe_steps.
  rewrite Hid. destruct (decide (proposer = bd_id s)); [|exact (recording_keeps hist _ (bl_send_votes_keeps _ _ _) _ s1 Hs1)]. wpe_steps. rewrite Hvs.
  apply (bl_record_votes_ok fuel blk_id (bd_id s) vs.*1 (_ :: _ :: ins)). by apply (heard_ask hist _ s1).
Qed.

Lemma bl_handle_timeout_ok fuel : hearing_ok hist bl_hear_timeout (handle_timeout fuel).
Proof.
  intros ins s Hs. unfold handle_timeout, bl_hear_timeout. wpe_steps.
  destruct (tq_pop (vote_time_queue s)) as [[blk'|] q]; cbn in *; simplify_eq.
  match goal with |- wpe (if _ then _ else handle_votes fuel ?blk) _ _ ?s1 =>
    apply (recorded_view _ _ s s1) in Hs; [|done]; pose proof (heard_expire hist ins s1 blk Hs) as Hs1 end.
  change (lg_finished _) with (finished_query s) in Hs1. cbn.
  case_decide; [done|]. by apply bl_handle_votes_ok.
Qed.

Lemma bl_handle_peer_msg_ok fuel src content : hearing_ok hist (bl_hear_peer src content) (handle_peer_msg fuel src content).
Proof.
  intros ins s Hs. cbv zeta. unfold handle_peer_msg, bl_hear_peer.
  apply wpe_bind, wpe_lift; [intros msg ->|intros e ->; done]. cbn. wpe_steps.
  set (heard := match _ with Ok e => e | _ => [] end).
  assert (AvaDecide.round msg ∈ finished_query s → recorded hist (heard ++ ins) s) as Hlate.
  { intros Hin. assert (heard = [] ∨ heard = [Ballot (AvaDecide.round msg) (AvaDecide.vote_bits msg)]) as [-> | ->]; [|done|by apply heard_late].
    unfold heard. destruct (of_result _); cbn; try (by left). destruct (verify _ _ _ _) as [[[] ?]| | |]; cbn; auto. }
  case_decide as Hfin; wpe_steps; [by apply Hlate|..]; unfold heard.
  - match goal with H1 : of_result _ = Ok _, H2 : verify _ _ _ _ = Ok _ |- _ => rewrite H1; cbn; rewrite H2; cbn end.
    match goal with |- wpe (if ?x then _ else _) _ _ ?s1 => destruct x;
      apply (recorded_view _ _ s s1) in Hs; [|done| |done] end; [by apply bl_record_votes_ok|by apply wpe_ret].
  - match goal with H1 : of_result _ = Ok _, H2 : verify _ _ _ _ = Err _ |- _ => rewrite H1; cbn; rewrite H2; cbn end.
    by apply (recorded_view _ _ s).
  - match goal with H1 : of_result _ = Err _ |- _ => rewrite H1; cbn end. by apply (recorded_view _ _ s).
Qed.
End Handlers.

(** ** Runs *)

Section Runs.
Context `{BuildProfile} `{Externals} `{!Bincode (N * list bool)} `{!Bincode AvaDecide.VoteMsg} `{Transport} `{Channel}.

Inductive bliz_handler : M BlizzardDecision unit → (BlizzardDecision → list vote_event) → Prop :=
| bh_new_tail fuel now src tail : bliz_handler (new_tail fuel now src tail) (bl_hear_tail fuel tail)
| bh_timeout fuel : bliz_handler (handle_timeout fuel) bl_hear_timeout
| bh_peer_msg fuel src content : bliz_handler (handle_peer_msg fuel src content) (bl_hear_peer src content).

(** The calls of the decision thread; the run records what is handed out and what has
    reached the node. *)
Definition stage_step := run_step bliz_handler next_to_commit.

Lemma bl_stage_recorded id scheme config pm s0 s hist ins :
  bd_new id scheme config pm = Ok s0 → rtc stage_step (s0, [], []) (s, hist, ins) → recorded hist ins s.
Proof.
  intros Hnew. apply run_recorded.
  - intros m hear h []; [apply bl_new_tail_ok|apply bl_handle_timeout_ok|apply bl_handle_peer_msg_ok].
  - intros s1 b hs q Hq. cbn in Hq. unfold next_to_commit, mbind, M_bind, gets, modify, lift_res. rewrite Hq. cbn.
    by destruct (lookup_all (txn_pool s1) hs).
  - unfold bd_new in Hnew. apply res_bind_ok in Hnew as (to & _ & [= <-]). by eapply recorded_start.
Qed.
End Runs.

(** ** What the counters are *)

(** The votes of the transactions that spend [u], each as often as it names [u]. *)
Definition votes_on (s : BlizzardDecision) (u : Utxo) : N :=
  sum_of (λ x : Hash * (Txn * TxnCtx), occ u (txn_keys x.2.1) * default 0 (confidence s !! x.1)) (map_to_list (txn_pool s)).

Lemma rounds_votes L s u : logs L (st_ledger s) → rounds u L = votes_on s u.
Proof.
  intros [Ht Hp]. rewrite (rounds_sum u L (map_to_list (txn_pool s)).*1).
  - unfold votes_on. rewrite sum_of_fmap. apply sum_of_ext. intros [h e] He%elem_of_map_to_list. cbn [fst snd].
    pose proof (tr_confidence _ _ Ht h) as Hc. cbn in Hc. rewrite He in Hc. rewrite Hc. cbn.
    pose proof (pd_reach _ _ _ _ (Hp h) h u e He) as Hr. cbn in Hr. rewrite decide_True in Hr by done. lia.
  - apply NoDup_fst_map_to_list.
  - intros h Hh. destruct (spent_spends _ _ _ _ Ht (fair_touch _ _ _ _ (tr_fair _ _ Ht) Hh)) as (e & He & _).
    apply list_elem_of_fmap. exists (h, e). split; [done|]. by apply elem_of_map_to_list.
Qed.

(** The rounds of an output, 0 when nothing spends it. *)
Definition rounds_at (s : BlizzardDecision) (u : Utxo) : N :=
  match conflict_sets s !! u with Some ct => total_rounds ct | None => 0 end.

Lemma rounds_at_log L s u : logs L (st_ledger s) → rounds_at s u = rounds u L.
Proof.
  intros [Ht _]. unfold rounds_at. destruct (conflict_sets s !! u) as [ct|] eqn:E; [by apply (tr_set _ _ Ht)|].
  symmetry. apply untouched_rounds. by apply (tr_no_set _ _ Ht).
Qed.

(** A transaction accepted after a rival [h'] of it has [b2] votes more than [h'] has on
    the output they share. *)
Lemma blizzard_margin b1 b2 L h h' u :
  blizzard_accepts b1 b2 L h → spent L h' u → h' ≠ h → (∀ ps keys, Seen h ps keys ∈ L → u ∈ keys) →
  (∀ ps keys, Seen h ps keys ∈ L → b2 + sum_of (λ u, rounds u L) keys < two64) → b2 + touches h' u L ≤ gains h L.
Proof.
  intros (ps & keys & b & Hs & Hb & Hr) Hsp Hne Hu Hfit. specialize (Hu _ _ Hs). specialize (Hfit _ _ Hs).
  assert (b = b2) as ->. { destruct Hb as [?|(_ & _ & Hno)]; [done|]. destruct Hne. by apply (Hno u h'). }
  destruct Hr as [Hr|]; [|lia]. pose proof (sum_of_in (λ u, others h u L) keys u Hu) as Hin. cbn in Hin.
  pose proof (touches_others h h' u L Hne). lia.
Qed.

Section Theorems.
Context `{BuildProfile} `{Externals} `{!Bincode (N * list bool)} `{!Bincode AvaDecide.VoteMsg} `{Transport} `{Channel}.

(** C6: the Blizzard decision stage refines the log of votes: from what reaches a new
    stage, the batches, the ballots of the peers whose signature holds, the node's own,
    and the deadlines ([ins]), a log is made in which nothing is left open. Each batch the
    node asks about is counted once, as soon as [k] ballots are in or its deadline passes,
    and each of its transactions is polled with the number of these ballots that are for
    it. A poll with [vote_thresh] votes is a vote for the transaction and each undecided
    ancestor, which reaches every input of theirs; any other changes nothing. What is
    accepted has its votes and those of its rivals at the distance the rule asks for (or
    the sums do not fit in 64 bits), and is handed to the commit stage in this order. The
    pool, the DAG, the confidence of every transaction, the rounds of every conflict set
    and the preferences are what the log says they are. A panic ends the run. *)
Theorem decides_by_blizzard id scheme config pm s0 s hist ins :
  bd_new id scheme config pm = Ok s0 → rtc stage_step (s0, [], []) (s, hist, ins) →
  ∃ L, logs L (st_ledger s) ∧ rest (terms_of (st_ledger s)) L ∧ inputs L = ins ∧
    commits (txn_pool s) L = hist ++ concat (commit_queue s).*2.
Proof. apply bl_stage_recorded. Qed.

(** C24: in every reachable state the rounds of a conflict set are the sum of the
    confidences of the transactions that spend the output, each counted as often as it
    names it: with distinct inputs, what the comment on the field says. So the
    confidence of none of them exceeds it, and the subtraction in the rule never
    underflows. *)
Theorem rounds_are_confidences id scheme config pm s0 s hist ins u ct :
  bd_new id scheme config pm = Ok s0 → rtc stage_step (s0, [], []) (s, hist, ins) → conflict_sets s !! u = Some ct →
  total_rounds ct = votes_on s u ∧
  ∀ h e c, txn_pool s !! h = Some e → u ∈ txn_keys e.1 → confidence s !! h = Some c → c ≤ total_rounds ct.
Proof.
  intros Hnew Hrun Hct. destruct (bl_stage_recorded _ _ _ _ _ _ _ _ Hnew Hrun) as (L & Hs & _).
  destruct (tr_set _ _ (proj1 Hs) u ct Hct) as [_ Hcnt]. cbn in Hcnt. rewrite Hcnt.
  split; [by apply rounds_votes|]. intros h e c He Hu Hc.
  pose proof (tr_confidence _ _ (proj1 Hs) h) as Hg. cbn in Hg. rewrite He, Hc in Hg. injection Hg as ->.
  assert (gains h L ≤ touches h u L) as Hle by (apply (logs_reach _ _ _ _ Hs); by exists e).
  rewrite (rounds_split h). lia.
Qed.

(** C23: when two payments that spend the same output are both handed to the commit
    stage, the confidence of one exceeds that of the other by [beta2] at least, as long
    as the sums of the rule fit in 64 bits. *)
Theorem double_spend_margin id scheme config pm s0 s hist ins h1 h2 u :
  bd_new id scheme config pm = Ok s0 → rtc stage_step (s0, [], []) (s, hist, ins) →
  h1 ∈ hist → h2 ∈ hist → h1 ≠ h2 → spends (st_ledger s) h1 u → spends (st_ledger s) h2 u →
  (∀ h e, h = h1 ∨ h = h2 → txn_pool s !! h = Some e → beta2 s + sum_of (rounds_at s) (txn_keys e.1) < two64) →
  ∃ c1 c2, confidence s !! h1 = Some c1 ∧ confidence s !! h2 = Some c2 ∧ (beta2 s + c1 ≤ c2 ∨ beta2 s + c2 ≤ c1).
Proof.
  intros Hnew Hrun Hin1 Hin2 Hne Hs1 Hs2 Hfit.
  destruct (bl_stage_recorded _ _ _ _ _ _ _ _ Hnew Hrun) as (L & Hl & _ & _ & Hout).
  assert (∀ x, x ∈ hist → Accept x ∈ L) as Hacc
    by (intros x Hx; eapply commits_in; rewrite Hout; apply elem_of_app; by left).
  assert (∀ x, spends (st_ledger s) x u → confidence s !! x = Some (gains x L)) as Hconf.
  { intros x (e & He & _). pose proof (tr_confidence _ _ (proj1 Hl) x) as Hc. by rewrite He in Hc. }
  exists (gains h1 L), (gains h2 L). split; [by apply Hconf|]. split; [by apply Hconf|].
  destruct (rivals_later L (st_ledger s) h1 h2 u (proj1 Hl)) as (h & h' & L1 & L2 & Hh & HL & Hin' & Hr & Hsp & Hu);
    [by apply Hacc..|done|done|done|].
  assert (spends (st_ledger s) h' u ∧ h' ≠ h ∧ (h = h1 ∨ h = h2)) as (Hsp' & Hne' & Hh12) by naive_solver.
  assert (beta2 s + touches h' u L1 ≤ gains h L1) as Hm.
  { apply (blizzard_margin _ _ _ _ _ _ Hr Hsp Hne'); [intros; by eapply Hu|].
    intros ps keys Hseen. destruct (Hu _ _ Hseen) as (_ & e & He & ->). eapply N.le_lt_trans; [|by apply (Hfit h e)].
    apply N.add_le_mono_l, sum_of_mono. intros x _. rewrite (rounds_at_log L) by done. rewrite HL.
    etrans; [apply (rounds_cons (Accept h))|apply rounds_app]. }
  assert (gains h' L ≤ touches h' u L1) as Hle.
  { etrans; [exact (logs_reach _ _ _ _ Hl Hsp')|]. rewrite HL. pose proof (tr_fair _ _ (proj1 Hl)) as Hf. rewrite HL in Hf.
    destruct (fair_frozen _ (Accept h :: L1) L2 h' u Hf) as [_ ->]; [by right|done]. }
  assert (gains h L1 ≤ gains h L) as Hge by (rewrite HL; etrans; [apply (gains_cons (Accept h))|apply gains_app]).
  destruct Hh as [[-> ->]|[-> ->]]; [right|left]; lia.
Qed.
End Theorems.

(** ** A concrete run: two rivals commit, the second three votes later *)

#[local] Existing Instances sample_profile sample_externals sample_transport sample_channel.
#[local] Existing Instances AvaSnowball.sn_bincode_ballot AvaSnowball.sn_bincode_vote.

Definition bl_new : BlizzardDecision :=
  match bd_new 1 CSDummy AvaSnowball.sn_config sample_messenger with
  | Ok s => s
  | _ => mkBlizzardDecision 1 CSDummy 1 1 1 2 ∅ ∅ ∅ ∅ 1000 ∅ ∅ ∅ tq_new ∅ [] sample_messenger ∅ [] [] 0 0 0 0 0 f64_zero
  end.

(** A batch of one transaction, with this node's vote and that of node 2. *)
Definition bl_ask (blk h : N) (t : Txn) (s : BlizzardDecision) : BlizzardDecision :=
  (new_tail 9 0 1 (AvaSnowball.sn_batch blk h t) s).2.
Definition bl_vote (blk : N) (s : BlizzardDecision) : BlizzardDecision := (handle_peer_msg 9 2 [blk] s).2.
Definition bl_take (s : BlizzardDecision) : BlizzardDecision := (next_to_commit s).2.

Lemma bl_round blk h t own hs s hist ins :
  bl_hear_tail 9 (AvaSnowball.sn_batch blk h t) s = [Ballot blk [own]; Ask blk [Some h]; Batch [(h, t)]] →
  bl_hear_peer 2 [blk] (bl_ask blk h t s) = [Ballot blk [true]] →
  returned (new_tail 9 0 1 (AvaSnowball.sn_batch blk h t) s).1 → returned (handle_peer_msg 9 2 [blk] (bl_ask blk h t s)).1 →
  returned (next_to_commit (bl_vote blk (bl_ask blk h t s))).1 →
  commit_queue (bl_vote blk (bl_ask blk h t s)) = [(blk, hs)] →
  rtc stage_step (s, hist, ins)
    (bl_take (bl_vote blk (bl_ask blk h t s)), hist ++ hs, AvaSnowball.sn_heard blk h t own ++ ins).
Proof.
  intros Ht Hp H1 H2 H3 Hq. eapply rtc_l; [eapply run_call; [apply bh_new_tail|apply surjective_pairing|exact H1]|].
  eapply rtc_l; [eapply run_call; [apply bh_peer_msg|apply surjective_pairing|exact H2]|].
  rewrite Ht. fold (bl_ask blk h t s). rewrite Hp.
  apply rtc_once. eapply run_commit; [exact Hq|apply surjective_pairing|exact H3].
Qed.

Definition bl_s1 : BlizzardDecision := bl_take (bl_vote 5 (bl_ask 5 101 AvaProps.a_grant bl_new)).
Definition bl_s2 : BlizzardDecision := bl_take (bl_vote 6 (bl_ask 6 102 (AvaProps.a_pay [8]) bl_s1)).
Definition bl_s3 : BlizzardDecision := bl_take (bl_vote 7 (bl_ask 7 103 (AvaProps.a_pay [9]) bl_s2)).
Definition bl_s4 : BlizzardDecision := bl_take (bl_vote 8 (bl_ask 8 103 (AvaProps.a_pay [9]) bl_s3)).
Definition bl_s5 : BlizzardDecision := bl_take (bl_vote 9 (bl_ask 9 103 (AvaProps.a_pay [9]) bl_s4)).

Definition bl_ins : list vote_event :=
  AvaSnowball.sn_heard 9 103 (AvaProps.a_pay [9]) true ++ AvaSnowball.sn_ins.

Lemma bl_run : rtc stage_step (bl_new, [], []) (bl_s5, [101; 102; 103], bl_ins).
Proof.
  etrans; [apply (bl_round 5 101 AvaProps.a_grant true [101]); by vm_compute|].
  etrans; [apply (bl_round 6 102 (AvaProps.a_pay [8]) true [102]); by vm_compute|].
  etrans; [apply (bl_round 7 103 (AvaProps.a_pay [9]) false []); by vm_compute|].
  etrans; [apply (bl_round 8 103 (AvaProps.a_pay [9]) false []); by vm_compute|].
  apply (bl_round 9 103 (AvaProps.a_pay [9]) true [103]); by vm_compute.
Qed.

Lemma bl_new_ok : bd_new 1 CSDummy AvaSnowball.sn_config sample_messenger = Ok bl_new.
Proof. by vm_compute. Qed.

Lemma decides_by_blizzard_witness :
  ∃ L, logs L (st_ledger bl_s5) ∧ rest (terms_of (st_ledger bl_s5)) L ∧ inputs L = bl_ins ∧
    commits (txn_pool bl_s5) L = [101; 102; 103] ++ concat (commit_queue bl_s5).*2.
Proof. exact (decides_by_blizzard 1 CSDummy AvaSnowball.sn_config sample_messenger bl_new bl_s5 _ _ bl_new_ok bl_run). Defined.

Definition bl_set : ConflictSet := mkConflictSet true 103 4.

Lemma rounds_are_confidences_witness :
  total_rounds bl_set = votes_on bl_s5 (101, [7]) ∧
  ∀ h e c, txn_pool bl_s5 !! h = Some e → (101, [7]) ∈ txn_keys e.1 → confidence bl_s5 !! h = Some c → c ≤ total_rounds bl_set.
Proof.
  apply (rounds_are_confidences 1 CSDummy AvaSnowball.sn_config sample_messenger bl_new bl_s5 [101; 102; 103] bl_ins (101, [7]) bl_set).
  - exact bl_new_ok.
  - exact bl_run.
  - by vm_compute.
Defined.

Lemma bl_spends h r : txn_pool bl_s5 !! h = Some (AvaProps.a_pay r, mkTxnCtx h) → spends (st_ledger bl_s5) h (101, [7]).
Proof. intros Hh. exists (AvaProps.a_pay r, mkTxnCtx h). split; [done|]. apply list_elem_of_here. Qed.

Lemma double_spend_margin_witness :
  ∃ c1 c2, confidence bl_s5 !! 102 = Some c1 ∧ confidence bl_s5 !! 103 = Some c2 ∧
    (beta2 bl_s5 + c1 ≤ c2 ∨ beta2 bl_s5 + c2 ≤ c1).
Proof.
  apply (double_spend_margin 1 CSDummy AvaSnowball.sn_config sample_messenger bl_new bl_s5 [101; 102; 103] bl_ins 102 103 (101, [7])).
  - exact bl_new_ok.
  - exact bl_run.
  - by apply (bool_decide_unpack _).
  - by apply (bool_decide_unpack _).
  - done.
  - apply (bl_spends 102 [8]). by vm_compute.
  - apply (bl_spends 103 [9]). by vm_compute.
  - intros h e [-> | ->] He; vm_compute in He; injection He as <-; apply N.ltb_lt; by vm_compute.
Defined.
