(* ===== verification/TxnValidation.v ===== *)
(** * Transaction validation

    src/src/stage/txn_validation/{bitcoin,avalanche}/basic.rs, dummy.rs and
    avalanche/vote_no.rs. The Bitcoin and the Avalanche validators are the same
    text up to the type of transactions: [validate_inner] is written once against
    the interface [TxnCheck] and instantiated with each chain's [validate_txn].
    The client theorems are proved from the laws [TxnCheckLaws]; both chains'
    checks satisfy them. [CopycatError]s do not arise: the only failures are
    panics.

    The reference behaviour is [accepts]: a validator that is handed the
    transactions in an order in which nothing is ever missing. *)

From S2P Require Import Prelude F64 Protocol Peers Config.
Local Open Scope N_scope.

Abbreviation Pool := (gmap Hash (Txn * TxnCtx)) (only parsing).
Abbreviation Received := (NodeId * (Txn * TxnCtx))%type (only parsing).

(** [BitcoinTxnValidation] and [AvalancheTxnValidation] (the fields are the same;
    [_id] is not read). *)
Record TxnVal := mkTxnVal {
  tv_pool : gmap Hash (Txn * TxnCtx);
  tv_pending : gmap Hash (gmap Hash ((Txn * TxnCtx) * NodeId));
}.
#[export] Instance TxnVal_eta : Eta TxnVal := λ r, mkTxnVal (tv_pool r) (tv_pending r).

Definition btc_val_new : TxnVal := mkTxnVal ∅ ∅.
Definition avax_val_new : TxnVal := mkTxnVal ∅ ∅.

(** ** The interface: [validate_txn] of a chain *)

(** [Ok (inl valid)] is [Ok(valid)], [Ok (inr missing)] is [Err(missing_deps)]. *)
Class TxnCheck := check_txn : gmap Hash (Txn * TxnCtx) → Txn → res (bool + list Hash).

(** What [validate_inner] relies on: the missing inputs are reported, a verdict
    needs all of them and does not depend on what else is in the pool. *)
Class TxnCheckLaws (C : TxnCheck) (txn_inputs : Txn → list Hash) : Prop := {
  check_missing : ∀ pool t ms, check_txn pool t = Ok (inr ms) →
    ms ≠ [] ∧ ∀ m, m ∈ ms ↔ m ∈ txn_inputs t ∧ pool !! m = None;
  check_inputs : ∀ pool t b, check_txn pool t = Ok (inl b) →
    ∀ m, m ∈ txn_inputs t → is_Some (pool !! m);
  check_stable : ∀ pool pool' t b, pool ⊆ pool' →
    check_txn pool t = Ok (inl b) → check_txn pool' t = Ok (inl b);
}.

(** ** Bitcoin: [validate_txn] *)

Section Checks.
Context `{BuildProfile}.

(** The parents found in the pool, and the hashes of those that are not. *)
Fixpoint btc_collect (pool : gmap Hash (Txn * TxnCtx)) (in_utxo : list Hash) :
    res (list BitcoinTxn * list Hash) :=
  match in_utxo with
  | [] => Ok ([], [])
  | in_utxo_hash :: rest =>
    match pool !! in_utxo_hash with
    | Some (TBitcoin txn, _) => r ← btc_collect pool rest; Ok (txn :: r.1, r.2)
    | Some _ => Panic
    | None => r ← btc_collect pool rest; Ok (r.1, in_utxo_hash :: r.2)
    end
  end.

(** The value of the output that belongs to the sender, [None] when none does. *)
Definition btc_owned (sender : PubKey) (utxo : BitcoinTxn) : option N :=
  match utxo with
  | BGrant out_utxo receiver => if decide (receiver = sender) then Some out_utxo else None
  | BIncentive out_utxo receiver => if decide (receiver = sender) then Some out_utxo else None
  | BSend parent_sender _ parent_recver parent_out parent_remainder _ _ _ _ =>
    if decide (parent_recver = sender) then Some parent_out
    else if decide (parent_sender = sender) then Some parent_remainder
    else None
  end.

Fixpoint btc_sum (sender : PubKey) (utxos : list BitcoinTxn) (input_value : N) : res (option N) :=
  match utxos with
  | [] => Ok (Some input_value)
  | utxo :: rest =>
    match btc_owned sender utxo with
    | None => Ok None
    | Some value => v ← u64_add input_value value; btc_sum sender rest v
    end
  end.

Definition btc_validate_txn (pool : gmap Hash (Txn * TxnCtx)) (btc_txn : BitcoinTxn) :
    res (bool + list Hash) :=
  match btc_txn with
  | BSend sender in_utxo _ out_utxo remainder _ _ _ _ =>
    r ← btc_collect pool in_utxo;
    if decide (r.2 = []) then
      iv ← btc_sum sender r.1 0;
      match iv with
      | None => Ok (inl false)
      | Some input_value =>
        out ← u64_add out_utxo remainder; Ok (inl (bool_decide (input_value = out)))
      end
    else Ok (inr r.2)
  | BGrant _ _ => Ok (inl true)
  | BIncentive _ _ => Panic
  end.

(** ** Avalanche: [validate_txn] *)

Fixpoint avax_collect (pool : gmap Hash (Txn * TxnCtx)) (in_utxo : list Hash) :
    res (list AvalancheTxn * list Hash) :=
  match in_utxo with
  | [] => Ok ([], [])
  | in_utxo_hash :: rest =>
    match pool !! in_utxo_hash with
    | Some (TAvalanche txn, _) => r ← avax_collect pool rest; Ok (txn :: r.1, r.2)
    | Some _ => Panic
    | None => r ← avax_collect pool rest; Ok (r.1, in_utxo_hash :: r.2)
    end
  end.

Definition avax_owned (sender : PubKey) (utxo : AvalancheTxn) : res (option N) :=
  match utxo with
  | AGrant out_utxo receiver _ => Ok (if decide (receiver = sender) then Some out_utxo else None)
  | ASend parent_sender _ parent_recver parent_out parent_remainder _ =>
    Ok (if decide (parent_recver = sender) then Some parent_out
        else if decide (parent_sender = sender) then Some parent_remainder
        else None)
  | ANoop _ | APlaceHolder => Panic
  end.

Fixpoint avax_sum (sender : PubKey) (utxos : list AvalancheTxn) (input_value : N) :
    res (option N) :=
  match utxos with
  | [] => Ok (Some input_value)
  | utxo :: rest =>
    o ← avax_owned sender utxo;
    match o with
    | None => Ok None
    | Some value => v ← u64_add input_value value; avax_sum sender rest v
    end
  end.

Definition avax_validate_txn (pool : gmap Hash (Txn * TxnCtx)) (avax_txn : AvalancheTxn) :
    res (bool + list Hash) :=
  match avax_txn with
  | ASend sender in_utxo _ out_utxo remainder _ =>
    r ← avax_collect pool in_utxo;
    if decide (r.2 = []) then
      iv ← avax_sum sender r.1 0;
      match iv with
      | None => Ok (inl false)
      | Some input_value =>
        out ← u64_add out_utxo remainder; Ok (inl (bool_decide (input_value = out)))
      end
    else Ok (inr r.2)
  | AGrant _ _ _ => Ok (inl true)
  | APlaceHolder | ANoop _ => Panic
  end.

(** The checks of the two chains; a transaction of another chain is
    [unreachable!()]. *)
Definition btc_check : TxnCheck := λ pool t,
  match t with TBitcoin txn => btc_validate_txn pool txn | _ => Panic end.
Definition avax_check : TxnCheck := λ pool t,
  match t with TAvalanche txn => avax_validate_txn pool txn | _ => Panic end.
End Checks.

(** ** [validate_inner] and [validate] *)

Section Validate.
Context `{HashOrder} {C : TxnCheck}.

(** [for (..) in txns { result.extend(validate_inner(..)) }] *)
Fixpoint validate_all (rec : NodeId → Txn → TxnCtx → M TxnVal (list (NodeId * (Txn * TxnCtx))))
    (txns : list (NodeId * (Txn * TxnCtx))) (acc : list (NodeId * (Txn * TxnCtx))) :
    M TxnVal (list (NodeId * (Txn * TxnCtx))) :=
  match txns with
  | [] => mret acc
  | (src, (txn, ctx)) :: rest =>
    valid ← rec src txn ctx;
    validate_all rec rest (acc ++ valid)
  end.

(** [siblings.entry(txn_hash).or_insert(entry)] under one missing dependency *)
Definition add_pending (txn_hash : Hash) (e : (Txn * TxnCtx) * NodeId) (missing_dep : Hash)
    (pending : gmap Hash (gmap Hash ((Txn * TxnCtx) * NodeId))) :
    gmap Hash (gmap Hash ((Txn * TxnCtx) * NodeId)) :=
  let siblings := default ∅ (pending !! missing_dep) in
  <[missing_dep := match siblings !! txn_hash with
                   | Some _ => siblings | None => <[txn_hash := e]> siblings end]> pending.

(** [fuel] bounds the depth of the recursion. *)
Fixpoint validate_inner (fuel : nat) (src : NodeId) (txn : Txn) (ctx : TxnCtx) :
    M TxnVal (list (NodeId * (Txn * TxnCtx))) :=
  match fuel with
  | O => out_of_fuel
  | S fuel' =>
    let txn_hash := tc_id ctx in
    pool ← gets tv_pool;
    match pool !! txn_hash with
    | Some _ => mret []
    | None =>
      verdict ← lift_res (check_txn pool txn);
      match verdict with
      | inl false => mret []
      | inr missing_deps =>
        modify (λ s, s <| tv_pending ::= λ p,
          foldl (λ p missing_dep, add_pending txn_hash (txn, ctx, src) missing_dep p) p missing_deps |>) ;;
        mret []
      | inl true =>
        modify (λ s, s <| tv_pool ::= <[txn_hash := (txn, ctx)]> |>) ;;
        pending ← gets tv_pending;
        match pending !! txn_hash with
        | Some children =>
          modify (λ s, s <| tv_pending ::= delete txn_hash |>) ;;
          validate_all (validate_inner fuel')
            ((λ kv : Hash * ((Txn * TxnCtx) * NodeId), (kv.2.2, kv.2.1)) <$> map_iter children)
            [(src, (txn, ctx))]
        | None => mret [(src, (txn, ctx))]
        end
      end
    end
  end.

Definition validate (fuel : nat) (txn_batch : list (NodeId * (Txn * TxnCtx))) :
    M TxnVal (list (NodeId * (Txn * TxnCtx))) :=
  validate_all (validate_inner fuel) txn_batch [].
End Validate.

(** [TxnValidation] of the two basic chains. *)
Definition btc_val_inner `{BuildProfile} `{HashOrder} := validate_inner (C := btc_check).
Definition btc_val_validate `{BuildProfile} `{HashOrder} := validate (C := btc_check).
Definition avax_val_inner `{BuildProfile} `{HashOrder} := validate_inner (C := avax_check).
Definition avax_val_validate `{BuildProfile} `{HashOrder} := validate (C := avax_check).

(** dummy.rs and vote_no.rs keep no state *)
Definition dummy_val_validate (txn_batch : list (NodeId * (Txn * TxnCtx))) :
  res (list (NodeId * (Txn * TxnCtx))) := Ok txn_batch.
Definition vote_no_val_validate (_txn_batch : list (NodeId * (Txn * TxnCtx))) :
  res (list (NodeId * (Txn * TxnCtx))) := Ok [].

(** txn_validation/mod.rs [get_txn_validation] and the [new] of bitcoin/mod.rs and
    avalanche/mod.rs: the trait object a node runs. *)
Inductive TxnValidator :=
| TVDummy
| TVBitcoin (s : TxnVal)
| TVAvalanche (s : TxnVal)
| TVVoteNo.

Definition get_txn_validation (config : ChainConfig) : TxnValidator :=
  match config with
  | CCDummy _ | CCChainReplication _ => TVDummy
  | CCBitcoin (BCBasic _) | CCBitcoin (BCEager _) => TVBitcoin btc_val_new
  | CCAvalanche (ACBasic _) | CCAvalanche (ACBlizzard _) => TVAvalanche avax_val_new
  | CCAvalanche ACVoteNo => TVVoteNo
  end.

(** [TxnValidation::validate] of the trait object *)
Definition validator_validate `{BuildProfile} `{HashOrder} (fuel : nat)
    (txn_batch : list (NodeId * (Txn * TxnCtx))) :
    M TxnValidator (list (NodeId * (Txn * TxnCtx))) := λ v,
  match v with
  | TVDummy => (dummy_val_validate txn_batch, TVDummy)
  | TVVoteNo => (vote_no_val_validate txn_batch, TVVoteNo)
  | TVBitcoin s => let r := btc_val_validate fuel txn_batch s in (r.1, TVBitcoin r.2)
  | TVAvalanche s => let r := avax_val_validate fuel txn_batch s in (r.1, TVAvalanche r.2)
  end.

(** ** The reference validator *)

(** [accepts pool out pool']: taken in this order, each transaction of [out] is
    new and valid against the pool of those before it; [pool'] holds them all. *)
Fixpoint accepts {C : TxnCheck} (pool : gmap Hash (Txn * TxnCtx))
    (out : list (NodeId * (Txn * TxnCtx))) (pool' : gmap Hash (Txn * TxnCtx)) : Prop :=
  match out with
  | [] => pool' = pool
  | (_, (t, c)) :: out' =>
    pool !! tc_id c = None ∧ check_txn pool t = Ok (inl true) ∧
    accepts (<[tc_id c := (t, c)]> pool) out' pool'
  end.

(** The ids of pending transactions. *)
Definition pending_ids (s : TxnVal) : gset Hash :=
  ⋃ ((λ kv : Hash * gmap Hash ((Txn * TxnCtx) * NodeId), dom kv.2) <$> map_to_list (tv_pending s)).

(** Enough recursion depth for a batch. *)
Definition enough_fuel (batch : list (NodeId * (Txn * TxnCtx))) (s : TxnVal) : nat :=
  S (size (pending_ids s ∪ list_to_set ((λ x : NodeId * (Txn * TxnCtx), tc_id x.2.2) <$> batch))).

(** The states a validator reaches, with everything it was sent. *)
Inductive val_reach `{HashOrder} {C : TxnCheck} : list (NodeId * (Txn * TxnCtx)) → TxnVal → Prop :=
| val_reach_new : val_reach [] (mkTxnVal ∅ ∅)
| val_reach_batch hist s fuel batch out s' :
    val_reach hist s → validate fuel batch s = (Ok out, s') → val_reach (hist ++ batch) s'.
