(* ===== verification/TxnValProps.v ===== *)
(** * Transaction validation: properties

    The validators of TxnValidation.v against the reference validator: what they
    let through ([accepts]), what they must have let through ([settled]), and
    that they return. *)

From S2P Require Import Prelude F64 Protocol Peers Samples TxnValidation.
Local Open Scope N_scope.
#[local] Existing Instances sample_profile canonical_order.

(** ** The checks satisfy the interface *)

Definition btc_inputs (t : Txn) : list Hash :=
  match t with TBitcoin (BSend _ in_utxo _ _ _ _ _ _ _) => in_utxo | _ => [] end.
Definition avax_inputs (t : Txn) : list Hash :=
  match t with TAvalanche (ASend _ in_utxo _ _ _ _) => in_utxo | _ => [] end.

Lemma btc_collect_spec pool ins r :
  btc_collect pool ins = Ok r → ∀ m, m ∈ r.2 ↔ m ∈ ins ∧ pool !! m = None.
Proof.
  revert r. induction ins as [|i ins IH]; intros r; cbn; [intros [= <-]; set_solver|].
  destruct (pool !! i) as [[[| txn |] c]|] eqn:Ei; intros Heq; res_inv; intros m;
    cbn; rewrite ?elem_of_cons, (IH _ ltac:(eassumption)); naive_solver.
Qed.

Lemma btc_collect_stable pool pool' ins l :
  pool ⊆ pool' → btc_collect pool ins = Ok (l, []) → btc_collect pool' ins = Ok (l, []).
Proof.
  intros Hsub. revert l. induction ins as [|i ins IH]; intros l; cbn; [done|].
  destruct (pool !! i) as [[t c]|] eqn:Ei.
  - rewrite (lookup_weaken _ _ _ _ Ei Hsub). destruct t; [done| |done].
    intros Heq. res_inv. destruct x as [l' ms]; cbn in *; subst.
    by rewrite (IH _ H).
  - intros Heq. res_inv.
Qed.

Lemma avax_collect_spec pool ins r :
  avax_collect pool ins = Ok r → ∀ m, m ∈ r.2 ↔ m ∈ ins ∧ pool !! m = None.
Proof.
  revert r. induction ins as [|i ins IH]; intros r; cbn; [intros [= <-]; set_solver|].
  destruct (pool !! i) as [[[| | txn] c]|] eqn:Ei; intros Heq; res_inv; intros m;
    cbn; rewrite ?elem_of_cons, (IH _ ltac:(eassumption)); naive_solver.
Qed.

Lemma avax_collect_stable pool pool' ins l :
  pool ⊆ pool' → avax_collect pool ins = Ok (l, []) → avax_collect pool' ins = Ok (l, []).
Proof.
  intros Hsub. revert l. induction ins as [|i ins IH]; intros l; cbn; [done|].
  destruct (pool !! i) as [[t c]|] eqn:Ei.
  - rewrite (lookup_weaken _ _ _ _ Ei Hsub). destruct t; [done|done|].
    intros Heq. res_inv. destruct x as [l' ms]; cbn in *; subst.
    by rewrite (IH _ H).
  - intros Heq. res_inv.
Qed.

Section Laws.
Context `{BuildProfile}.

#[export] Instance btc_check_laws : TxnCheckLaws btc_check btc_inputs.
Proof.
  split.
  - intros pool [|[|s ins r o rem sg sb sr ss|]|] ms; cbn; intros Heq; res_inv.
    case_decide; res_inv; [destruct x0; res_inv|]. split; [done|].
    by apply btc_collect_spec.
  - intros pool [|[|s ins r o rem sg sb sr ss|]|] b; cbn; intros Heq m Hm; res_inv; [|set_solver].
    case_decide as Hms; res_inv.
    destruct (pool !! m) eqn:Em; [done|]. assert (m ∈ x.2) as Hin by (by eapply btc_collect_spec).
    rewrite Hms in Hin. set_solver.
  - intros pool pool' [|[|s ins r o rem sg sb sr ss|]|] b Hsub; cbn; intros Heq; res_inv; [|done].
    destruct x as [l ms]; cbn in *. case_decide; res_inv.
    rewrite (btc_collect_stable _ _ _ _ Hsub H0). cbn. rewrite H1. by destruct x.
Qed.

#[export] Instance avax_check_laws : TxnCheckLaws avax_check avax_inputs.
Proof.
  split.
  - intros pool [| |[s ins r o rem sg| | |]] ms; cbn; intros Heq; res_inv.
    case_decide; res_inv; [destruct x0; res_inv|]. split; [done|].
    by apply avax_collect_spec.
  - intros pool [| |[s ins r o rem sg| | |]] b; cbn; intros Heq m Hm; res_inv; [|set_solver].
    case_decide as Hms; res_inv.
    destruct (pool !! m) eqn:Em; [done|]. assert (m ∈ x.2) as Hin by (by eapply avax_collect_spec).
    rewrite Hms in Hin. set_solver.
  - intros pool pool' [| |[s ins r o rem sg| | |]] b Hsub; cbn; intros Heq; res_inv; [|done].
    destruct x as [l ms]; cbn in *. case_decide; res_inv.
    rewrite (avax_collect_stable _ _ _ _ Hsub H0). cbn. rewrite H1. by destruct x.
Qed.
End Laws.

(** ** What the recursion does *)

Section Client.
Context `{HashOrder} {C : TxnCheck} {txn_inputs : Txn → list Hash} {L : TxnCheckLaws C txn_inputs}.
Implicit Types (s : TxnVal) (txn : Txn) (ctx : TxnCtx).

Lemma accepts_app p p1 p2 l1 l2 :
  accepts p l1 p1 → accepts p1 l2 p2 → accepts p (l1 ++ l2) p2.
Proof.
  revert p. induction l1 as [|[? [t c]] l1 IH]; intros p; cbn; [by intros ->|].
  intros (?&?&?) ?. eauto.
Qed.

Lemma accepts_subseteq p l p' : accepts p l p' → p ⊆ p'.
Proof.
  revert p. induction l as [|[? [t c]] l IH]; intros p; cbn; [by intros ->|].
  intros (?&?&?%IH). etrans; [by apply insert_subseteq|done].
Qed.

(** The loop keeps an invariant on the results so far. *)
Lemma validate_all_accepts rec txns p0 :
  (∀ src t c s, wlp (rec src t c) (λ out s', accepts (tv_pool s) out (tv_pool s')) (λ _, True) s) →
  ∀ acc s, accepts p0 acc (tv_pool s) →
  wlp (validate_all rec txns acc) (λ out s', accepts p0 out (tv_pool s')) (λ _, True) s.
Proof.
  intros Hrec. induction txns as [|[src [t c]] txns IH]; intros acc s Hacc; cbn; [done|].
  apply wlp_bind. eapply wlp_mono; [apply Hrec| |done]. intros out s' Hout; cbn beta.
  apply IH. by eapply accepts_app.
Qed.

Lemma validate_inner_accepts fuel src txn ctx s :
  wlp (validate_inner fuel src txn ctx) (λ out s', accepts (tv_pool s) out (tv_pool s'))
    (λ _, True) s.
Proof.
  revert src txn ctx s. induction fuel as [|fuel IH]; intros src txn ctx s; cbn [validate_inner]; [done|].
  wlp_step. wlp_step. destruct (tv_pool s !! tc_id ctx) eqn:Ep; [done|].
  wlp_steps; [|done]. destruct a as [[]|ms]; wlp_steps; [|done|done].
  assert (accepts (tv_pool s) [(src, (txn, ctx))] (<[tc_id ctx := (txn, ctx)]> (tv_pool s))) by done.
  cbn [tv_pending]. destruct (tv_pending _ !! tc_id ctx) as [children|]; [|by wlp_steps].
  wlp_steps. by apply validate_all_accepts.
Qed.

(** ** Pending transactions *)

(** A pending transaction waits for a hash that is not in the pool and that is
    one of its inputs; it is filed under its own id. *)
Definition val_inv s : Prop :=
  ∀ m children, tv_pending s !! m = Some children →
    tv_pool s !! m = None ∧
    ∀ h e, children !! h = Some e → h = tc_id e.1.2 ∧ m ∈ txn_inputs e.1.1.

(** Entries of the pending map after the missing dependencies are filed. *)
Lemma add_pending_all_lookup txn_hash e ms p m :
  foldl (λ p m, add_pending txn_hash e m p) p ms !! m =
  if decide (m ∈ ms) then
    Some (let siblings := default ∅ (p !! m) in
          match siblings !! txn_hash with
          | Some _ => siblings | None => <[txn_hash := e]> siblings end)
  else p !! m.
Proof.
  revert p. induction ms as [|m' ms IH]; intros p; [done|]. cbn [foldl]. rewrite IH.
  unfold add_pending. destruct (decide (m' = m)) as [->|Hne].
  - rewrite lookup_insert_eq. cbn [default from_option]. rewrite (decide_True (P := m ∈ m :: ms)) by set_solver.
    case_decide; [|done]. f_equal. cbn zeta.
    destruct (default ∅ (p !! m) !! txn_hash) eqn:E; cbn; [by rewrite E|].
    by rewrite lookup_insert_eq.
  - rewrite !lookup_insert_ne by done. do 2 case_decide; set_solver.
Qed.

Lemma add_pending_all_child txn_hash e ms p m :
  m ∈ ms → ∃ children, foldl (λ p m, add_pending txn_hash e m p) p ms !! m = Some children ∧
    is_Some (children !! txn_hash).
Proof.
  intros Hm. rewrite add_pending_all_lookup, decide_True by done. eexists; split; [done|].
  cbn zeta. destruct (default ∅ (p !! m) !! txn_hash) eqn:E; [by rewrite E|]. by rewrite lookup_insert_eq.
Qed.

(** Nothing already pending is lost. *)
Lemma add_pending_all_mono txn_hash e ms p m children h :
  p !! m = Some children → is_Some (children !! h) →
  ∃ children', foldl (λ p m, add_pending txn_hash e m p) p ms !! m = Some children' ∧
    is_Some (children' !! h).
Proof.
  intros Hm Hh. rewrite add_pending_all_lookup. case_decide; [|by eauto].
  rewrite Hm. cbn. eexists; split; [done|]. destruct (children !! txn_hash); [done|].
  destruct (decide (h = txn_hash)) as [->|]; [by rewrite lookup_insert_eq|by rewrite lookup_insert_ne].
Qed.

(** Every entry afterwards was there or is the new one. *)
Lemma add_pending_all_inv txn_hash e ms p m children h x :
  foldl (λ p m, add_pending txn_hash e m p) p ms !! m = Some children → children !! h = Some x →
  (∃ children0, p !! m = Some children0 ∧ children0 !! h = Some x) ∨
  h = txn_hash ∧ x = e ∧ m ∈ ms.
Proof.
  rewrite add_pending_all_lookup. case_decide as Hm; [|naive_solver].
  intros [= <-]. destruct (p !! m) as [c0|] eqn:Ep; cbn.
  - destruct (c0 !! txn_hash) eqn:E; [by eauto|]. rewrite lookup_insert_Some. naive_solver.
  - rewrite lookup_empty, lookup_insert_Some, lookup_empty. naive_solver.
Qed.

(** ** Nothing received is forgotten *)

(** [txn_of]: the transaction behind an id; [rc]: the ids received. *)
Section Settled.
Context (txn_of : Hash → Txn) (rc : gset Hash).

Definition coherent (x : Received) : Prop :=
  txn_of (tc_id x.2.2) = x.2.1 ∧ tc_id x.2.2 ∈ rc.

Definition val_coherent s : Prop :=
  map_Forall (λ h x, x = (txn_of h, mkTxnCtx h) ∧ h ∈ rc) (tv_pool s) ∧
  ∀ m children h e, tv_pending s !! m = Some children → children !! h = Some e →
    coherent (e.2, e.1).

(** What has become of a transaction that was received: it is in the pool, it is
    invalid, or one of its inputs is missing and it is filed under that input. *)
Definition settled s (h : Hash) : Prop :=
  is_Some (tv_pool s !! h) ∨
  check_txn (tv_pool s) (txn_of h) = Ok (inl false) ∨
  ∃ m children, m ∈ txn_inputs (txn_of h) ∧ tv_pool s !! m = None ∧
    tv_pending s !! m = Some children ∧ is_Some (children !! h).

Definition val_ok s : Prop := val_inv s ∧ val_coherent s.

Lemma validate_all_settled rec txns :
  (∀ src t c s, val_ok s → coherent (src, (t, c)) →
     wlp (rec src t c)
       (λ _ s', val_ok s' ∧ ∀ h, settled s h ∨ h = tc_id c → settled s' h) (λ _, True) s) →
  ∀ acc s, val_ok s → Forall coherent txns →
  wlp (validate_all rec txns acc)
    (λ _ s', val_ok s' ∧ ∀ h, settled s h ∨ (∃ x, x ∈ txns ∧ h = tc_id x.2.2) → settled s' h)
    (λ _, True) s.
Proof.
  intros Hrec. induction txns as [|[src [t c]] txns IH]; intros acc s Hs Hco; cbn [validate_all].
  - apply wlp_ret. split; [done|]. intros h [?|(x & Hx & _)]; [done|by apply elem_of_nil in Hx].
  - apply Forall_cons in Hco as [Hc Hco]. apply wlp_bind.
    eapply wlp_mono; [by apply Hrec| |done]. cbn beta. intros out s1 (Hs1 & Hset).
    eapply wlp_mono; [by apply IH| |done]. cbn beta. intros out' s2 (Hs2 & Hset').
    split; [done|]. intros h [Hh|(x & Hx & ->)]; [by eauto|].
    apply elem_of_cons in Hx as [->|Hx]; eauto.
Qed.

(** Adding a valid transaction and taking its children out keeps the invariant,
    and only the children become unsettled. *)
Lemma val_ok_insert s src txn ctx children :
  val_ok s → coherent (src, (txn, ctx)) → tv_pool s !! tc_id ctx = None →
  default ∅ (tv_pending s !! tc_id ctx) = children →
  let s1 := mkTxnVal (<[tc_id ctx := (txn, ctx)]> (tv_pool s)) (delete (tc_id ctx) (tv_pending s)) in
  val_ok s1 ∧
  ∀ h, settled s h ∨ h = tc_id ctx → settled s1 h ∨ is_Some (children !! h).
Proof.
  intros [Hinv [Hpool Hco]] [Hc Hrc] Hnew <-. cbn zeta. cbn in Hc, Hrc.
  assert (tv_pool s ⊆ <[tc_id ctx := (txn, ctx)]> (tv_pool s)) as Hsub by by apply insert_subseteq.
  split; [split; [|split]|].
  - intros m ch. cbn. rewrite lookup_delete_Some. intros [Hne Hm].
    rewrite lookup_insert_ne by done. by apply Hinv.
  - apply map_Forall_insert; [done|]. split; [|done]. split; [|done]. by rewrite Hc; destruct ctx.
  - intros m ch h e. cbn. rewrite lookup_delete_Some. intros [_ Hm]. by eapply Hco.
  - intros h [[Hp|[Hf|(m & ch & Hin & Hm & Hch & Hh)]]| ->].
    + left. left. cbn. destruct Hp as [x Hx]. by rewrite (lookup_weaken _ _ _ _ Hx Hsub).
    + left. right. left. cbn. by eapply check_stable.
    + destruct (decide (m = tc_id ctx)) as [->|Hne]; [right; by rewrite Hch|].
      left. right. right. exists m, ch. cbn. by rewrite lookup_insert_ne, lookup_delete_ne.
    + left. left. cbn. by rewrite lookup_insert_eq.
Qed.

(** Filing a transaction under its missing inputs settles it. *)
Lemma val_ok_missing s src txn ctx ms :
  val_ok s → coherent (src, (txn, ctx)) → check_txn (tv_pool s) txn = Ok (inr ms) →
  let s1 := mkTxnVal (tv_pool s)
    (foldl (λ p m, add_pending (tc_id ctx) (txn, ctx, src) m p) (tv_pending s) ms) in
  val_ok s1 ∧ ∀ h, settled s h ∨ h = tc_id ctx → settled s1 h.
Proof.
  intros [Hinv [Hpool Hco]] Hc Hms. cbn zeta.
  apply (check_missing (txn_inputs := txn_inputs)) in Hms as [Hne Hms].
  split; [split; [|split; [done|]]|].
  - intros m ch Hm. cbn in *. split.
    + rewrite add_pending_all_lookup in Hm. case_decide as Hin; [by apply Hms|by eapply Hinv].
    + intros h e He.
      destruct (add_pending_all_inv _ _ _ _ _ _ _ _ Hm He) as [(c0 & Hc0 & Hh)|(-> & -> & Hin)].
      * by eapply Hinv.
      * split; [done|by apply Hms].
  - intros m ch h e Hm He.
    destruct (add_pending_all_inv _ _ _ _ _ _ _ _ Hm He) as [(c0 & Hc0 & Hh)|(-> & -> & Hin)];
      [by eapply Hco|done].
  - intros h [[?|[?|(m & ch & Hin & Hm & Hch & Hh)]]| ->]; [by left|by right; left| |].
    + right; right.
      destruct (add_pending_all_mono (tc_id ctx) (txn, ctx, src) ms _ _ _ _ Hch Hh) as (ch' & ? & ?).
      by exists m, ch'.
    + right; right. destruct ms as [|m ms]; [done|].
      destruct (add_pending_all_child (tc_id ctx) (txn, ctx, src) (m :: ms) (tv_pending s) m)
        as (ch & ? & ?); [set_solver|].
      exists m, ch. destruct Hc as [Hc _]. cbn in Hc. rewrite Hc. cbn.
      split_and!; [..|done|done]; by apply Hms; set_solver.
Qed.

Lemma validate_inner_settled fuel src txn ctx s :
  val_ok s → coherent (src, (txn, ctx)) →
  wlp (validate_inner fuel src txn ctx)
    (λ _ s', val_ok s' ∧ ∀ h, settled s h ∨ h = tc_id ctx → settled s' h) (λ _, True) s.
Proof.
  revert src txn ctx s. induction fuel as [|fuel IH]; intros src txn ctx s Hs Hc; [done|].
  cbn [validate_inner]. wlp_step. wlp_step.
  destruct (tv_pool s !! tc_id ctx) eqn:Ep.
  { apply wlp_ret. split; [done|]. intros h [?| ->]; [done|]. left. by rewrite Ep. }
  wlp_steps; [|done]. destruct a as [[]|ms]; wlp_steps.
  - destruct (val_ok_insert s src txn ctx (default ∅ (tv_pending s !! tc_id ctx))) as [Hs1 Hset]; [done..|].
    cbn [tv_pending]. change (tv_pending (_ <| tv_pool ::= _ |>)) with (tv_pending s).
    destruct (tv_pending s !! tc_id ctx) as [children|] eqn:Ech; wlp_steps.
    + eapply wlp_mono; [apply validate_all_settled; [done|exact Hs1|]| |done].
      * apply Forall_fmap, Forall_forall. intros [h e] He%elem_of_map_iter.
        destruct Hs as [_ [_ Hco]]. by eapply Hco.
      * cbn beta. intros out s' [Hs' Hset']. split; [done|]. intros h Hh.
        apply Hset'. destruct (Hset h Hh) as [?|[e He]]; [by left|]. right.
        exists (e.2, e.1). split; [|by destruct Hs as [Hinv _]; eapply Hinv].
        apply list_elem_of_fmap. exists (h, e). by rewrite elem_of_map_iter.
    + rewrite delete_id in Hs1, Hset by done. split; [exact Hs1|]. intros h Hh.
      destruct (Hset h Hh) as [?|[e He]]; [done|]. cbn in He; by rewrite lookup_empty in He.
  - split; [done|]. intros h [?| ->]; [done|]. right; left.
    destruct Hc as [Hc _]. cbn in Hc. by rewrite Hc.
  - by apply (val_ok_missing s src txn ctx ms).
Qed.
End Settled.

(** ** The recursion ends *)

Section Total.
Context (good : Txn → Prop)
  (check_total : ∀ (pool : gmap Hash (Txn * TxnCtx)) t,
    map_Forall (λ _ x, good x.1) pool → good t → ∃ r, check_txn pool t = Ok r).

(** All ids ever filed are in [U], all transactions are [good]. *)
Definition val_bounded (U : gset Hash) s : Prop :=
  val_inv s ∧ map_Forall (λ _ x, good x.1) (tv_pool s) ∧
  ∀ m children h e, tv_pending s !! m = Some children → children !! h = Some e →
    h ∈ U ∧ good e.1.1.

Lemma validate_all_total U rec txns n :
  (∀ src t c s, val_bounded U s → good t → tc_id c ∈ U → (size (U ∖ dom (tv_pool s)) < n)%nat →
     wp (rec src t c) (λ _ s', val_bounded U s' ∧ dom (tv_pool s) ⊆ dom (tv_pool s')) (λ _ _, False) s) →
  ∀ acc s, val_bounded U s → Forall (λ x : Received, good x.2.1 ∧ tc_id x.2.2 ∈ U) txns →
  (size (U ∖ dom (tv_pool s)) < n)%nat →
  wp (validate_all rec txns acc)
    (λ _ s', val_bounded U s' ∧ dom (tv_pool s) ⊆ dom (tv_pool s')) (λ _ _, False) s.
Proof.
  intros Hrec. induction txns as [|[src [t c]] txns IH]; intros acc s Hs Hco Hn; cbn [validate_all].
  - by apply wp_ret.
  - apply Forall_cons in Hco as [[Hg HU] Hco]. apply wp_bind.
    eapply wp_mono; [by apply Hrec| |done]. cbn beta. intros out s1 (Hs1 & Hdom).
    eapply wp_mono; [apply IH; [done..|]| |done].
    + eapply Nat.le_lt_trans; [|exact Hn]. apply subseteq_size. set_solver.
    + cbn beta. intros ?? [? ?]. split; [done|set_solver].
Qed.

Lemma val_bounded_insert U s txn ctx :
  val_bounded U s → good txn → tv_pool s !! tc_id ctx = None →
  val_bounded U (mkTxnVal (<[tc_id ctx := (txn, ctx)]> (tv_pool s)) (delete (tc_id ctx) (tv_pending s))).
Proof.
  intros (Hinv & Hpool & Hpend) Hg Hnew. split_and!; cbn.
  - intros m ch. cbn. rewrite lookup_delete_Some. intros [Hne Hm].
    rewrite lookup_insert_ne by done. by apply Hinv.
  - by apply map_Forall_insert.
  - intros m ch h e. rewrite lookup_delete_Some. intros [_ Hm]. by eapply Hpend.
Qed.

Lemma val_bounded_missing U s src txn ctx ms :
  val_bounded U s → good txn → tc_id ctx ∈ U → check_txn (tv_pool s) txn = Ok (inr ms) →
  val_bounded U (mkTxnVal (tv_pool s)
    (foldl (λ p m, add_pending (tc_id ctx) (txn, ctx, src) m p) (tv_pending s) ms)).
Proof.
  intros (Hinv & Hpool & Hpend) Hg HU Hms.
  apply (check_missing (txn_inputs := txn_inputs)) in Hms as [_ Hms].
  split_and!; [|done|].
  - intros m ch Hm. cbn in *. split.
    + rewrite add_pending_all_lookup in Hm. case_decide as Hin; [by apply Hms|by eapply Hinv].
    + intros h e He.
      destruct (add_pending_all_inv _ _ _ _ _ _ _ _ Hm He) as [(c0 & Hc0 & Hh)|(-> & -> & Hin)].
      * by eapply Hinv.
      * split; [done|by apply Hms].
  - intros m ch h e Hm He.
    destruct (add_pending_all_inv _ _ _ _ _ _ _ _ Hm He) as [(c0 & Hc0 & Hh)|(-> & -> & Hin)];
      [by eapply Hpend|done].
Qed.

Lemma size_insert_pool U (p : gmap Hash (Txn * TxnCtx)) h x :
  h ∈ U → p !! h = None → (size (U ∖ dom (<[h := x]> p)) < size (U ∖ dom p))%nat.
Proof.
  intros HU Hp. apply subset_size. rewrite dom_insert.
  apply not_elem_of_dom in Hp. split; [set_solver|].
  intros Hsub. assert (h ∈ U ∖ dom p) as Hh by set_solver. apply Hsub in Hh. set_solver.
Qed.

Lemma validate_inner_total U fuel src txn ctx s :
  val_bounded U s → good txn → tc_id ctx ∈ U → (size (U ∖ dom (tv_pool s)) < fuel)%nat →
  wp (validate_inner fuel src txn ctx)
    (λ _ s', val_bounded U s' ∧ dom (tv_pool s) ⊆ dom (tv_pool s')) (λ _ _, False) s.
Proof.
  revert src txn ctx s. induction fuel as [|fuel IH]; intros src txn ctx s Hs Hg HU Hn; [lia|].
  cbn [validate_inner]. wp_step. wp_step.
  destruct (tv_pool s !! tc_id ctx) eqn:Ep; [by apply wp_ret|].
  destruct (check_total (tv_pool s) txn) as [r Hr]; [by apply Hs|done|].
  wp_step. eapply wp_lift; [done|]. destruct r as [[]|ms]; wp_steps.
  - pose proof (val_bounded_insert _ _ _ _ Hs Hg Ep) as Hs1.
    pose proof (size_insert_pool U (tv_pool s) (tc_id ctx) (txn, ctx) HU Ep) as Hlt.
    change (tv_pending (_ <| tv_pool ::= _ |>)) with (tv_pending s).
    destruct (tv_pending s !! tc_id ctx) as [children|] eqn:Ech; wp_steps.
    + eapply wp_mono; [apply (validate_all_total U _ _ fuel); [done|exact Hs1| |]| |done].
      * apply Forall_fmap, Forall_forall. intros [h e] He%elem_of_map_iter. cbn.
        destruct Hs as (Hinv & _ & Hpend). destruct (Hpend _ _ _ _ Ech He) as [HhU He'].
        split; [done|]. by destruct (Hinv _ _ Ech) as [_ Hk]; destruct (Hk _ _ He) as [<- _].
      * cbn. lia.
      * cbn. intros _ s' [? Hdom]. split; [done|]. rewrite dom_insert in Hdom. set_solver.
    + rewrite delete_id in Hs1 by done. split; [exact Hs1|]. cbn. rewrite dom_insert. set_solver.
  - done.
  - split; [|done]. by apply (val_bounded_missing U s src txn ctx ms).
Qed.

Lemma val_bounded_pending_ids s :
  val_inv s → map_Forall (λ _ x, good x.1) (tv_pool s) →
  (∀ m children h e, tv_pending s !! m = Some children → children !! h = Some e → good e.1.1) →
  ∀ U, pending_ids s ⊆ U → val_bounded U s.
Proof.
  intros Hinv Hpool Hpend U HU. split_and!; [done..|].
  intros m ch h e Hm He. split; [|by eapply Hpend]. apply HU.
  apply elem_of_union_list. exists (dom ch). split; [|by apply elem_of_dom].
  apply list_elem_of_fmap. exists (m, ch). by rewrite elem_of_map_to_list.
Qed.
End Total.

(** ** Reachable states *)

Lemma validate_accepts fuel batch s out s' :
  validate fuel batch s = (Ok out, s') → accepts (tv_pool s) out (tv_pool s').
Proof.
  intros Heq. pose proof (validate_all_accepts _ batch (tv_pool s)
    (validate_inner_accepts fuel) [] s eq_refl) as Hw.
  unfold wlp in Hw. unfold validate in Heq. by rewrite Heq in Hw.
Qed.

Lemma val_reach_accepts hist s : val_reach hist s → ∃ outs, accepts ∅ outs (tv_pool s).
Proof.
  induction 1 as [|hist s fuel batch out s' _ [outs Houts] Heq]; [by exists []|].
  exists (outs ++ out). eapply accepts_app; [done|by eapply validate_accepts].
Qed.

Lemma val_reach_settled txn_of rc hist s :
  val_reach hist s → Forall (coherent txn_of rc) hist →
  val_ok txn_of rc s ∧ ∀ x, x ∈ hist → settled txn_of s (tc_id x.2.2).
Proof.
  induction 1 as [|hist s fuel batch out s' _ IH Heq]; intros Hco.
  - split; [split; [|split]|]; [|apply map_Forall_empty| |]; try done.
    intros x Hx. by apply elem_of_nil in Hx.
  - apply Forall_app in Hco as [Hco1 Hco2]. destruct (IH Hco1) as [Hok Hset].
    pose proof (validate_all_settled txn_of rc (validate_inner fuel) batch
      (validate_inner_settled txn_of rc fuel) [] s Hok Hco2) as Hw.
    unfold wlp in Hw. unfold validate in Heq. rewrite Heq in Hw. destruct Hw as [Hok' Hset'].
    split; [done|]. intros x [Hx|Hx]%elem_of_app; apply Hset'; eauto.
Qed.

(** What was received and is valid against the pool is in the pool. *)
Lemma val_reach_valid txn_of hist s x :
  val_reach hist s → (∀ x, x ∈ hist → txn_of (tc_id x.2.2) = x.2.1) →
  x ∈ hist → check_txn (tv_pool s) x.2.1 = Ok (inl true) →
  tv_pool s !! tc_id x.2.2 = Some x.2.
Proof.
  intros Hr Hids Hx Hcheck.
  destruct (val_reach_settled txn_of (list_to_set ((λ x : Received, tc_id x.2.2) <$> hist)) _ _ Hr)
    as [(_ & Hpool & _) Hset].
  { apply Forall_forall. intros y Hy. split; [by apply Hids|].
    apply elem_of_list_to_set, list_elem_of_fmap. eauto. }
  pose proof (Hids _ Hx) as Ht. destruct x as [src [t [h]]]; cbn in *.
  destruct (Hset _ Hx) as [[y Hy]|[Hf|(m & ch & Hin & Hm & _)]]; cbn in *.
  - destruct (Hpool _ _ Hy) as [-> _]. by rewrite Hy, Ht.
  - rewrite Ht in Hf. congruence.
  - rewrite Ht in Hin. destruct (check_inputs _ _ _ Hcheck _ Hin) as [? Hs]. congruence.
Qed.

(** What an in-order validator accepts from received transactions, a reachable
    state holds. *)
Lemma accepts_below txn_of rc s outs p p' :
  val_ok txn_of rc s → (∀ h, h ∈ rc → settled txn_of s h) →
  accepts p outs p' → p ⊆ tv_pool s →
  map_Forall (λ h x, x = (txn_of h, mkTxnCtx h) ∧ h ∈ rc) p' → p' ⊆ tv_pool s.
Proof.
  intros Hok Hset. revert p. induction outs as [|[src [t c]] outs IH]; intros p; cbn; [by intros ->|].
  intros (Hnew & Hcheck & Hacc) Hsub Hp'. eapply IH; [done| |done].
  assert (p' !! tc_id c = Some (t, c)) as Ht.
  { eapply lookup_weaken; [|by eapply accepts_subseteq]. by rewrite lookup_insert_eq. }
  destruct (Hp' _ _ Ht) as [[= Ht' Hc'] Hrc].
  apply map_subseteq_spec. intros h x [[<- <-]|[Hne Hx]]%lookup_insert_Some;
    [|by eapply lookup_weaken].
  destruct (Hset _ Hrc) as [[x Hx]|[Hf|(m & ch & Hin & Hm & _)]].
  - destruct Hok as (_ & Hpool & _). destruct (Hpool _ _ Hx) as [-> _]. rewrite Hx. congruence.
  - rewrite <- Ht' in Hf. rewrite (check_stable _ _ _ _ Hsub Hcheck) in Hf. discriminate.
  - rewrite <- Ht' in Hin. destruct (check_inputs _ _ _ Hcheck _ Hin) as [x Hx].
    rewrite (lookup_weaken _ _ _ _ Hx Hsub) in Hm. discriminate.
Qed.

Lemma val_reach_total txn_of rc good hist s fuel batch :
  (∀ (pool : gmap Hash (Txn * TxnCtx)) t,
     map_Forall (λ _ x, good x.1) pool → good t → ∃ r, check_txn pool t = Ok r) →
  val_reach hist s → Forall (coherent txn_of rc) (hist ++ batch) →
  (∀ h, h ∈ rc → good (txn_of h)) →
  (enough_fuel batch s ≤ fuel)%nat →
  ∃ out s', validate fuel batch s = (Ok out, s').
Proof.
  intros Hcheck Hr Hco Hgood Hfuel. apply Forall_app in Hco as [Hco1 Hco2].
  destruct (val_reach_settled _ _ _ _ Hr Hco1) as [(Hinv & Hpool & Hpend) _].
  set (U := pending_ids s ∪ list_to_set ((λ x : Received, tc_id x.2.2) <$> batch)).
  assert (val_bounded good U s) as Hb.
  { apply val_bounded_pending_ids; [done| | |unfold U; set_solver].
    - intros h x Hx. destruct (Hpool _ _ Hx) as [-> ?]. by apply Hgood.
    - intros m ch h e Hm He. destruct (Hpend _ _ _ _ Hm He) as [Ht ?]. cbn in Ht.
      rewrite <- Ht. by apply Hgood. }
  assert (wp (validate fuel batch) (λ _ _, True) (λ _ _, False) s) as Hw.
  { eapply wp_mono; [eapply (validate_all_total good Hcheck U _ _ fuel);
      [intros; by apply validate_inner_total|done| |]|done|done].
    - apply Forall_forall. intros x Hx. rewrite Forall_forall in Hco2.
      destruct (Hco2 _ Hx) as [Ht ?]. split; [rewrite <- Ht; by apply Hgood|].
      unfold U. apply elem_of_union_r, elem_of_list_to_set, list_elem_of_fmap. eauto.
    - eapply Nat.lt_le_trans; [|exact Hfuel]. unfold enough_fuel. fold U.
      apply le_n_S, subseteq_size. set_solver. }
  unfold wp in Hw. destruct (validate fuel batch s) as [[out|e| |] s']; try done. eauto.
Qed.
End Client.

(** Two runs, each with an order of its own to visit pending children in. *)
Lemma val_reach_subseteq {C : TxnCheck} {txn_inputs} {L : TxnCheckLaws C txn_inputs} (O1 O2 : HashOrder)
    txn_of h1 h2 s1 s2 :
  @val_reach O1 C h1 s1 → @val_reach O2 C h2 s2 →
  (∀ x, x ∈ h1 ++ h2 → txn_of (tc_id x.2.2) = x.2.1) →
  (∀ x, x ∈ h1 → ∃ y, y ∈ h2 ∧ tc_id y.2.2 = tc_id x.2.2) →
  (∀ y, y ∈ h2 → ∃ x, x ∈ h1 ∧ tc_id x.2.2 = tc_id y.2.2) →
  tv_pool s1 ⊆ tv_pool s2.
Proof.
  intros Hr1 Hr2 Hids H12 H21.
  set (rc := list_to_set ((λ x : Received, tc_id x.2.2) <$> h2) : gset Hash).
  assert (∀ h, h ∈ rc ↔ ∃ y, y ∈ h2 ∧ h = tc_id y.2.2) as Hrc.
  { intros h. unfold rc. rewrite elem_of_list_to_set, list_elem_of_fmap. naive_solver. }
  destruct (val_reach_accepts (H := O1) _ _ Hr1) as [outs Houts].
  destruct (val_reach_settled (H := O1) txn_of rc _ _ Hr1) as [Hok1 _].
  { apply Forall_forall. intros x Hx. split; [apply Hids; set_solver|].
    apply Hrc. destruct (H12 x Hx) as (y & ? & ?); eauto. }
  destruct (val_reach_settled (H := O2) txn_of rc _ _ Hr2) as [Hok2 Hset2].
  { apply Forall_forall. intros x Hx. split; [apply Hids; set_solver|]. apply Hrc. eauto. }
  eapply (accepts_below txn_of rc); [done| |done|apply map_empty_subseteq|by apply Hok1].
  intros h (y & Hy & ->)%Hrc. by apply Hset2.
Qed.

(** ** The checks return *)

(** A transaction a client may send: no coinbase, no placeholder. *)
Definition btc_client_txn (t : Txn) : Prop :=
  match t with TBitcoin (BSend _ _ _ _ _ _ _ _ _) | TBitcoin (BGrant _ _) => True | _ => False end.
Definition avax_client_txn (t : Txn) : Prop :=
  match t with TAvalanche (ASend _ _ _ _ _ _) | TAvalanche (AGrant _ _ _) => True | _ => False end.

(** An output counts as often as a payment names it: a grant of [v] named [n] times is
    worth [n * v] to the Avalanche validator, and block management sums in the same way. *)
Lemma avax_named_twice_mints `{BuildProfile} pool g v r nonce ctx (n : nat) receiver sg :
  pool !! g = Some (TAvalanche (AGrant v r nonce), ctx) → N.of_nat n * v < two64 →
  avax_validate_txn pool (ASend r (replicate n g) receiver (N.of_nat n * v) 0 sg) = Ok (inl true).
Proof.
  intros Hg Hlt. unfold avax_validate_txn.
  assert (avax_collect pool (replicate n g) = Ok (replicate n (AGrant v r nonce), [])) as ->.
  { clear Hlt. induction n as [|n IH]; cbn; [done|]. by rewrite Hg, IH. }
  cbn [mbind res_bind snd fst]. rewrite decide_True by done.
  assert (∀ acc, acc + N.of_nat n * v < two64 →
    avax_sum r (replicate n (AGrant v r nonce)) acc = Ok (Some (acc + N.of_nat n * v))) as Hsum.
  { clear Hlt. induction n as [|n IH]; intros acc Hlt; cbn -[N.of_nat]; [by rewrite N.add_0_r|].
    rewrite decide_True by done. rewrite u64_add_ok by lia. cbn -[N.of_nat]. rewrite IH by lia. do 2 f_equal. lia. }
  cbn. rewrite Hsum by lia. cbn. rewrite u64_add_ok by lia. cbn. by rewrite bool_decide_true by lia.
Qed.

Section Return.
Context `{BuildProfile}.

Lemma u64_add_release a b : overflow_checks = false → ∃ c, u64_add a b = Ok c.
Proof. unfold u64_add. intros ->. case_match; eauto. Qed.

Lemma btc_sum_release sender l acc : overflow_checks = false → ∃ r, btc_sum sender l acc = Ok r.
Proof.
  intros Hoc. revert acc. induction l as [|u l IH]; intros acc; cbn; [eauto|].
  destruct (btc_owned sender u) as [v|]; [|eauto].
  destruct (u64_add_release acc v Hoc) as [c ->]. cbn. apply IH.
Qed.

Lemma btc_check_total (pool : gmap Hash (Txn * TxnCtx)) t :
  overflow_checks = false →
  map_Forall (λ _ x, btc_client_txn x.1) pool → btc_client_txn t →
  ∃ r, btc_check pool t = Ok r.
Proof.
  intros Hoc Hpool Ht. destruct t as [|[|s ins r o rem sg sb sr ss|]|]; try done; cbn; [|eauto].
  assert (∃ r, btc_collect pool ins = Ok r) as [[l ms] ->].
  { clear Ht. induction ins as [|i ins IH]; cbn; [eauto|]. destruct IH as [r' ->].
    destruct (pool !! i) as [[t c]|] eqn:E; [|by eauto]. apply Hpool in E.
    destruct t as [|[]|]; try done; cbn; eauto. }
  cbn. case_decide; [|eauto]. destruct (btc_sum_release s l 0 Hoc) as [[v|] ->]; cbn; [|eauto].
  destruct (u64_add_release o rem Hoc) as [? ->]. cbn. eauto.
Qed.

Lemma avax_sum_release sender l acc :
  overflow_checks = false → Forall (λ u, avax_client_txn (TAvalanche u)) l →
  ∃ r, avax_sum sender l acc = Ok r.
Proof.
  intros Hoc Hl. revert acc. induction Hl as [|u l Hu Hl IH]; intros acc; cbn; [eauto|].
  assert (∃ o, avax_owned sender u = Ok o) as [[v|] ->] by (destruct u; cbn; try done; eauto);
    cbn; [|eauto].
  destruct (u64_add_release acc v Hoc) as [c ->]. cbn. apply IH.
Qed.

Lemma avax_check_total (pool : gmap Hash (Txn * TxnCtx)) t :
  overflow_checks = false →
  map_Forall (λ _ x, avax_client_txn x.1) pool → avax_client_txn t →
  ∃ r, avax_check pool t = Ok r.
Proof.
  intros Hoc Hpool Ht. destruct t as [| |[s ins r o rem sg| | |]]; try done; cbn; [|eauto].
  assert (∃ r, avax_collect pool ins = Ok r ∧ Forall (λ u, avax_client_txn (TAvalanche u)) r.1)
    as ([l ms] & -> & Hl).
  { clear Ht. induction ins as [|i ins IH]; cbn; [by eauto|]. destruct IH as (r' & -> & Hr').
    destruct (pool !! i) as [[t c]|] eqn:E; [|by eauto]. apply Hpool in E.
    destruct t as [| |u]; try done; cbn; eexists; (split; [done|]); by constructor. }
  cbn in *. case_decide; [|eauto].
  destruct (avax_sum_release s l 0 Hoc Hl) as [[v|] ->]; cbn; [|eauto].
  destruct (u64_add_release o rem Hoc) as [? ->]. cbn. eauto.
Qed.
End Return.

(** ** Properties *)

(** C4: what a validator lets through, in the order in which it lets it through,
    is what a validator that never misses anything accepts one by one: each
    transaction is new, all its inputs are in the pool or come before it, its
    inputs belong to the sender and their values match the outputs. The pool
    afterwards holds exactly the old one and the transactions let through. *)
Theorem validate_is_sequential `{HashOrder} (C : TxnCheck) fuel batch s out s' :
  validate fuel batch s = (Ok out, s') → accepts (tv_pool s) out (tv_pool s').
Proof. apply validate_accepts. Qed.

(** C27: the transactions a validator holds as validated do not depend on the order or
    the batches in which they arrive, nor on the order in which pending children are
    visited: two runs that received the same transactions, each with an iteration order
    of its own, hold the same pool, as long as an identifier is that of one transaction. *)
Theorem pool_order_independent `{BuildProfile} (O1 O2 : HashOrder) (C : TxnCheck) txn_of h1 h2 s1 s2 :
  C = btc_check ∨ C = avax_check →
  @val_reach O1 C h1 s1 → @val_reach O2 C h2 s2 →
  (∀ x, x ∈ h1 ++ h2 → txn_of (tc_id x.2.2) = x.2.1) →
  (∀ x, x ∈ h1 → ∃ y, y ∈ h2 ∧ tc_id y.2.2 = tc_id x.2.2) →
  (∀ y, y ∈ h2 → ∃ x, x ∈ h1 ∧ tc_id x.2.2 = tc_id y.2.2) →
  tv_pool s1 = tv_pool s2.
Proof.
  intros HC Hr1 Hr2 Hids H12 H21.
  assert (∃ txn_inputs, TxnCheckLaws C txn_inputs) as [txn_inputs L].
  { destruct HC as [-> | ->]; eexists; apply _. }
  apply (anti_symm (⊆)); [eapply (val_reach_subseteq O1 O2)|eapply (val_reach_subseteq O2 O1)]; eauto.
  intros x Hx. apply Hids. set_solver.
Qed.

(** C30: nothing received is lost: a transaction received at some point is in
    the pool as soon as it is valid against the pool. *)
Theorem valid_received_in_pool `{BuildProfile} `{HashOrder} (C : TxnCheck) txn_of hist s x :
  C = btc_check ∨ C = avax_check →
  val_reach hist s → (∀ x, x ∈ hist → txn_of (tc_id x.2.2) = x.2.1) →
  x ∈ hist → check_txn (tv_pool s) x.2.1 = Ok (inl true) →
  tv_pool s !! tc_id x.2.2 = Some x.2.
Proof.
  intros HC Hr Hids Hx Hcheck.
  assert (∃ txn_inputs, TxnCheckLaws C txn_inputs) as [txn_inputs L].
  { destruct HC as [-> | ->]; eexists; apply _. }
  by eapply val_reach_valid.
Qed.

(** In the release profile, fed with transactions a client may send, a
    validator returns: it neither panics nor recurses deeper than the number of
    transactions pending or in the batch. *)
Theorem validate_returns `{BuildProfile} `{HashOrder} (C : TxnCheck) client_txn txn_of
    hist s fuel batch :
  overflow_checks = false →
  (C, client_txn) = (btc_check, btc_client_txn) ∨ (C, client_txn) = (avax_check, avax_client_txn) →
  val_reach hist s →
  (∀ x, x ∈ hist ++ batch → txn_of (tc_id x.2.2) = x.2.1 ∧ client_txn x.2.1) →
  (enough_fuel batch s ≤ fuel)%nat →
  ∃ out s', validate fuel batch s = (Ok out, s').
Proof.
  intros Hoc HC Hr Hids Hfuel.
  set (rc := list_to_set ((λ x : Received, tc_id x.2.2) <$> hist ++ batch) : gset Hash).
  assert (∀ h, h ∈ rc → client_txn (txn_of h)) as Hgood.
  { unfold rc. intros h Hh%elem_of_list_to_set. apply list_elem_of_fmap in Hh as (x & -> & Hx).
    destruct (Hids x Hx) as [-> ?]. done. }
  assert (Forall (coherent txn_of rc) (hist ++ batch)) as Hco.
  { apply Forall_forall. intros x Hx. split; [by apply Hids|].
    apply elem_of_list_to_set, list_elem_of_fmap. eauto. }
  destruct HC as [[= -> ->]|[= -> ->]]; eapply val_reach_total; eauto.
  - intros. by apply btc_check_total.
  - intros. by apply avax_check_total.
Qed.

(** Witnesses: a child that arrives before its parent. *)
Definition w_grant : Received := (7, (TBitcoin (BGrant 10 [1]), mkTxnCtx 100)).
Definition w_child : Received :=
  (8, (TBitcoin (BSend [1] [100] [2] 4 6 [] 0 0 true), mkTxnCtx 101)).
Definition w_txn_of (h : Hash) : Txn := if decide (h = 100) then w_grant.2.1 else w_child.2.1.
Definition w_after (batch : list Received) (s : TxnVal) : TxnVal :=
  (validate (C := btc_check) 5 batch s).2.

Lemma validate_is_sequential_witness :
  accepts (C := btc_check) ∅ [w_grant; w_child] (tv_pool (w_after [w_grant] (w_after [w_child] btc_val_new))).
Proof.
  apply (validate_is_sequential btc_check 5 [w_grant] (w_after [w_child] btc_val_new)).
  vm_compute. reflexivity.
Defined.

Lemma w_ids x : x ∈ [w_child; w_grant] → w_txn_of (tc_id x.2.2) = x.2.1.
Proof. rewrite !elem_of_cons. by intros [->|[->|[]%elem_of_nil]]. Qed.

Lemma w_reach_out_of_order :
  val_reach (C := btc_check) [w_child; w_grant] (w_after [w_grant] (w_after [w_child] btc_val_new)).
Proof.
  apply (val_reach_batch [w_child] (w_after [w_child] btc_val_new) 5 [w_grant] [w_grant; w_child]);
    [|by vm_compute].
  by apply (val_reach_batch [] btc_val_new 5 [w_child] []); [constructor|vm_compute].
Qed.

(** The other way round: two children wait for the grant, and are visited in either order. *)
Program Definition reversed_order : HashOrder := {|
  set_iter := λ K _ _ s, reverse (elements s);
  map_iter := λ K V _ _ m, reverse (map_to_list m);
|}.
Next Obligation. intros. apply reverse_Permutation. Qed.
Next Obligation. intros. apply reverse_Permutation. Qed.

Definition w_child2 : Received :=
  (8, (TBitcoin (BSend [1] [100] [3] 4 6 [] 0 0 true), mkTxnCtx 102)).
Definition w_txns (h : Hash) : Txn :=
  if decide (h = 100) then w_grant.2.1 else if decide (h = 101) then w_child.2.1 else w_child2.2.1.
Definition w_children (O : HashOrder) : list Received * TxnVal :=
  let s := (@validate O btc_check 5 [w_child; w_child2] btc_val_new).2 in
  let r := @validate O btc_check 5 [w_grant] s in
  (match r.1 with Ok out => out | _ => [] end, r.2).

(** What is let through differs, what is held does not. *)
Lemma w_orders_differ :
  (λ x : Received, tc_id x.2.2) <$> (w_children canonical_order).1 = [100; 102; 101] ∧
  (λ x : Received, tc_id x.2.2) <$> (w_children reversed_order).1 = [100; 101; 102].
Proof. by vm_compute. Qed.

Lemma w_children_reach (O : HashOrder) :
  O = canonical_order ∨ O = reversed_order →
  @val_reach O btc_check [w_child; w_child2; w_grant] (w_children O).2.
Proof.
  intros HO.
  apply (val_reach_batch [w_child; w_child2] (@validate O btc_check 5 [w_child; w_child2] btc_val_new).2 5 [w_grant]
    (w_children O).1); [|by destruct HO as [-> | ->]; vm_compute].
  apply (val_reach_batch [] btc_val_new 5 [w_child; w_child2] []); [constructor|by destruct HO as [-> | ->]; vm_compute].
Qed.

Lemma pool_order_independent_witness :
  tv_pool (w_children canonical_order).2 = tv_pool (w_children reversed_order).2.
Proof.
  apply (pool_order_independent canonical_order reversed_order btc_check w_txns
    [w_child; w_child2; w_grant] [w_child; w_child2; w_grant]).
  - by left.
  - apply w_children_reach. by left.
  - apply w_children_reach. by right.
  - intros x. cbn [app]. rewrite !elem_of_cons.
    by intros [->|[->|[->|[->|[->|[->|[]%elem_of_nil]]]]]].
  - intros x Hx. by exists x.
  - intros x Hx. by exists x.
Defined.

Lemma valid_received_in_pool_witness :
  tv_pool (w_after [w_grant] (w_after [w_child] btc_val_new)) !! 101 = Some w_child.2.
Proof.
  apply (valid_received_in_pool btc_check w_txn_of [w_child; w_grant] _ w_child).
  - by left.
  - apply w_reach_out_of_order.
  - apply w_ids.
  - set_solver.
  - by vm_compute.
Defined.

Lemma validate_returns_witness :
  ∃ out s', validate (C := btc_check) 5 [w_grant; w_child] btc_val_new = (Ok out, s').
Proof.
  apply (validate_returns btc_check btc_client_txn w_txn_of [] btc_val_new 5).
  - done.
  - by left.
  - constructor.
  - intros x Hx. split; [apply w_ids; set_solver|].
    revert Hx. cbn [app]. rewrite !elem_of_cons. by intros [->|[->|[]%elem_of_nil]].
  - vm_compute. lia.
Defined.
