(* ===== verification/ChainRepl.v ===== *)
(** * Chain replication

    src/src/stage/consensus/block_management/chain_replication.rs (batching the
    transactions at the head) and src/src/stage/consensus/decide/
    chain_replication.rs (committing the blocks the tail acknowledges), with the
    head of the chain as a step relation over both. *)

From S2P Require Import Prelude F64 Protocol Peers Config.
From S2P Require BtcMgmt.
Local Open Scope N_scope.

(** ** Block management *)

Record ChainReplicationBM := mkCRBM {
  crb_id : NodeId;
  mem_pool : list (Txn * TxnCtx);
  is_head : bool;
  block_size : N;
  (* next block info *)
  next_blk_id : Hash;
  curr_batch_len : nat;
  curr_batch_size : N;
}.
#[export] Instance ChainReplicationBM_eta : Eta ChainReplicationBM := λ r,
  mkCRBM (crb_id r) (mem_pool r) (is_head r) (block_size r) (next_blk_id r) (curr_batch_len r)
    (curr_batch_size r).

Section BlockManagement.
Context `{Externals} `{!Bincode BlockHeader} `{BuildProfile}.

(** [config.order[0]] panics on an empty order. *)
Definition crb_new (id : NodeId) (config : ChainReplicationConfig) : res ChainReplicationBM :=
  match cr_order config with
  | [] => Panic
  | head :: _ =>
    Ok (mkCRBM id [] (bool_decide (head = id)) (cr_blk_size config) 1 0 0)
  end.

Definition crb_record_new_txn (txn : Txn) (ctx : TxnCtx) : M ChainReplicationBM bool :=
  head ← gets is_head;
  if head : bool then
    modify (λ s, s <| mem_pool ::= λ p, p ++ [(txn, ctx)] |>) ;; mret true
  else mret true.

(** The loop of [prepare_new_block]; [fuel] bounds the number of rounds. *)
Fixpoint crb_prepare_loop (fuel : nat) : M ChainReplicationBM BtcMgmt.CurBlockState :=
  match fuel with
  | O => out_of_fuel
  | S fuel' =>
    s ← gets id;
    if decide (block_size s ≤ curr_batch_size s) then mret BtcMgmt.Full
    else if decide (length (mem_pool s) ≤ curr_batch_len s)%nat then mret BtcMgmt.EmptyMempool
    else
      next_txn ← unwrap (mem_pool s !! curr_batch_len s);
      modify (λ s, s <| curr_batch_len ::= S |>) ;;
      size ← lift_res (u64_add (curr_batch_size s) (arc_get_size next_txn.1));
      modify (λ s, s <| curr_batch_size := size |>) ;;
      crb_prepare_loop fuel'
  end.

Definition crb_prepare_new_block (fuel : nat) : M ChainReplicationBM BtcMgmt.CurBlockState :=
  head ← gets is_head;
  if head : bool then crb_prepare_loop fuel else mret BtcMgmt.Full.

(** Does [wait_to_propose] return? Otherwise it waits for a notification that
    is never sent. *)
Definition crb_wait_to_propose (s : ChainReplicationBM) : bool :=
  is_head s && bool_decide (block_size s ≤ curr_batch_size s).

(** [mem_pool.drain(0..curr_batch_len)] panics when the range is too long. *)
Definition crb_get_new_block (rand : bytes) : M ChainReplicationBM (Block * BlkCtx) :=
  s ← gets id;
  massert (is_head s) ;;
  massert (bool_decide (curr_batch_len s ≤ length (mem_pool s))%nat) ;;
  let batch := take (curr_batch_len s) (mem_pool s) in
  modify (λ s, s <| mem_pool ::= drop (curr_batch_len s) |>) ;;
  let header := HChainReplication (next_blk_id s) in
  blk_ctx ← lift_res (BlkCtx_from_header_and_txns rand header (batch.*2));
  let blk := mkBlock header (batch.*1) in
  modify (λ s, s <| curr_batch_len := O |> <| curr_batch_size := 0 |>) ;;
  next ← lift_res (u256_add (next_blk_id s) 1);
  modify (λ s, s <| next_blk_id := next |>) ;;
  mret (blk, blk_ctx).

Definition crb_validate_block (block : Block) (ctx : BlkCtx) :
    M ChainReplicationBM (list (Block * BlkCtx)) :=
  head ← gets is_head;
  massert (negb head) ;;
  massert (match header block with HChainReplication _ => true | _ => false end) ;;
  mret [(block, ctx)].

(** [unreachable!()] *)
Definition crb_handle_pmaker_msg (_msg : bytes) : M ChainReplicationBM unit := panic.
Definition crb_handle_peer_blk_req (_peer : NodeId) (_msg : bytes) : M ChainReplicationBM unit := panic.
End BlockManagement.

(** ** Decision *)

Inductive Role := Head | Intermediate | Tail.

#[export] Instance Role_eq_dec : EqDecision Role.
Proof. solve_decision. Defined.

(** The acknowledgment the tail sends to the head. *)
Record Msg := mkMsg { recved : Hash }.

Record ChainReplicationDecision := mkCRDecision {
  me : NodeId;
  role : Role;
  head : NodeId;
  tail : NodeId;
  peer_messenger : PeerMessenger;
  inflight_blks : gmap Hash Block;
  commit_ready : gset Hash;
  next_to_commit : Hash;
}.
#[export] Instance ChainReplicationDecision_eta : Eta ChainReplicationDecision := λ r,
  mkCRDecision (me r) (role r) (head r) (tail r) (peer_messenger r) (inflight_blks r)
    (commit_ready r) (next_to_commit r).

Section Decision.
Context `{!Bincode Msg} `{Transport}.

Definition crd_new (me : NodeId) (config : ChainConfig) (pm : PeerMessenger) :
    res ChainReplicationDecision :=
  match config with
  | CCChainReplication config =>
    match hd_error (cr_order config), last (cr_order config) with
    | Some head, Some tail =>
      Ok (mkCRDecision me
            (if decide (head = me) then Head else if decide (tail = me) then Tail else Intermediate)
            head tail pm ∅ ∅ 1)
    | _, _ => Panic
    end
  | _ => Panic
  end.

Definition crd_new_tail (_src : NodeId) (new_tail : list (Block * BlkCtx)) :
    M ChainReplicationDecision unit :=
  match new_tail with
  | [] => mret tt
  | [(new_blk, new_blk_ctx)] =>
    s ← gets id;
    match role s with
    | Head => modify (λ s, s <| inflight_blks ::= <[bc_id new_blk_ctx := new_blk]> |>)
    | Tail =>
      msg ← lift_res (of_result (serialize (mkMsg (bc_id new_blk_ctx))));
      zoom peer_messenger (λ p s, s <| peer_messenger := p |>) (pm_send (head s) (ConsensusMsg msg))
    | Intermediate => mret tt
    end
  | _ => panic
  end.

(** Does [commit_ready] return? *)
Definition crd_commit_ready (s : ChainReplicationDecision) : bool :=
  bool_decide (next_to_commit s ∈ commit_ready s).

Definition crd_next_to_commit : M ChainReplicationDecision (N * list Txn) :=
  s ← gets id;
  modify (λ s, s <| commit_ready ::= λ c, c ∖ {[next_to_commit s]} |>) ;;
  massert (bool_decide (next_to_commit s ∈ commit_ready s)) ;;
  let blk_id := next_to_commit s in
  modify (λ s, s <| inflight_blks ::= delete blk_id |>) ;;
  blk ← unwrap (inflight_blks s !! blk_id);
  next ← lift_res (u256_add blk_id 1);
  modify (λ s, s <| next_to_commit := next |>) ;;
  height ← lift_res (u256_as_u64 blk_id);
  mret (height, txns blk).

Definition crd_handle_timeout : M ChainReplicationDecision unit := panic.

Definition crd_handle_peer_msg (src : NodeId) (content : bytes) : M ChainReplicationDecision unit :=
  s ← gets id;
  massert (bool_decide (role s = Head)) ;;
  massert (bool_decide (src = tail s)) ;;
  msg ← lift_res (of_result (deserialize content));
  if decide (is_Some (inflight_blks s !! recved msg)) then
    modify (λ s, s <| commit_ready ::= λ c, {[recved msg]} ∪ c |>)
  else mret tt.
End Decision.

(** ** The head of the chain *)

(** Both stages of the head and the pipe from one to the other (through the
    block dissemination stage, which sends the block down the chain before it
    hands it on), with what the head was sent and what it has committed. *)
Record CRHead := mkCRHead {
  h_bm : ChainReplicationBM;
  h_pipe : list (Block * BlkCtx);
  h_dec : ChainReplicationDecision;
  h_recorded : list Txn;
  h_committed : list (N * list Txn);
}.

Section Head.
Context `{Externals} `{!Bincode BlockHeader} `{BuildProfile} `{!Bincode Msg} `{Transport}.

(** One task of the head running to completion: a validated transaction arrives,
    the block is extended, the block is proposed, the decision stage takes the
    next block out of the pipe, a peer message arrives, a block is committed. *)
Inductive head_step : CRHead → CRHead → Prop :=
| head_record bm bm' pipe d rc cm txn ctx b :
    crb_record_new_txn txn ctx bm = (Ok b, bm') →
    head_step (mkCRHead bm pipe d rc cm) (mkCRHead bm' pipe d (rc ++ [txn]) cm)
| head_prepare bm bm' pipe d rc cm fuel st :
    crb_prepare_new_block fuel bm = (Ok st, bm') →
    head_step (mkCRHead bm pipe d rc cm) (mkCRHead bm' pipe d rc cm)
| head_propose bm bm' pipe d rc cm rand blk :
    crb_wait_to_propose bm = true →
    crb_get_new_block rand bm = (Ok blk, bm') →
    head_step (mkCRHead bm pipe d rc cm) (mkCRHead bm' (pipe ++ [blk]) d rc cm)
| head_deliver bm blk pipe d d' rc cm :
    crd_new_tail (crb_id bm) [blk] d = (Ok tt, d') →
    head_step (mkCRHead bm (blk :: pipe) d rc cm) (mkCRHead bm pipe d' rc cm)
| head_ack bm pipe d d' rc cm src content :
    crd_handle_peer_msg src content d = (Ok tt, d') →
    head_step (mkCRHead bm pipe d rc cm) (mkCRHead bm pipe d' rc cm)
| head_commit bm pipe d d' rc cm out :
    crd_commit_ready d = true →
    crd_next_to_commit d = (Ok out, d') →
    head_step (mkCRHead bm pipe d rc cm) (mkCRHead bm pipe d' rc (cm ++ [out])).

(** The head of the chain of a configuration starts like this. *)
Definition head_init (id : NodeId) (config : ChainReplicationConfig) (pm : PeerMessenger)
    (s : CRHead) : Prop :=
  hd_error (cr_order config) = Some id ∧
  crb_new id config = Ok (h_bm s) ∧
  crd_new id (CCChainReplication config) pm = Ok (h_dec s) ∧
  h_pipe s = [] ∧ h_recorded s = [] ∧ h_committed s = [].

Definition head_reach (id : NodeId) (config : ChainReplicationConfig) (pm : PeerMessenger)
    (s : CRHead) : Prop :=
  ∃ s0, head_init id config pm s0 ∧ rtc head_step s0 s.
End Head.
