(* ===== verification/ChainReplProps.v ===== *)
(** * Chain replication: properties

    The batches the head forms, and the order in which it commits. *)

From S2P Require Import Prelude F64 Protocol Peers Config Samples ChainRepl.
From S2P Require BtcMgmt.
Local Open Scope N_scope.

(** ** Forming a batch *)

(** The sizes of a batch, added up. *)
Definition batch_size `{Externals} (l : list (Txn * TxnCtx)) : N :=
  foldr (λ x n, arc_get_size x.1 + n) 0 l.

Section Batch.
Context `{Externals} `{!Bincode BlockHeader} `{BuildProfile}.

Lemma batch_size_app l1 l2 : batch_size (l1 ++ l2) = batch_size l1 + batch_size l2.
Proof. induction l1 as [|x l1 IH]; cbn; [done|]. unfold batch_size in *. lia. Qed.

Lemma batch_size_take_S l n x :
  l !! n = Some x → batch_size (take (S n) l) = batch_size (take n l) + arc_get_size x.1.
Proof.
  intros Hx. rewrite (take_S_r _ _ _ Hx), batch_size_app. cbn. lia.
Qed.

Lemma batch_size_take_le l n : batch_size (take n l) ≤ batch_size l.
Proof. rewrite <- (take_drop n l) at 2. rewrite batch_size_app. lia. Qed.

(** The batch is a prefix of the pool with its size; all but its last element are
    below the block size. *)
Definition batch_inv (s : ChainReplicationBM) : Prop :=
  (curr_batch_len s ≤ length (mem_pool s))%nat ∧
  curr_batch_size s = batch_size (take (curr_batch_len s) (mem_pool s)) ∧
  ∀ n, (n < curr_batch_len s)%nat → batch_size (take n (mem_pool s)) < block_size s.

Lemma crb_prepare_loop_total fuel s :
  batch_inv s → batch_size (mem_pool s) < two64 →
  (length (mem_pool s) - curr_batch_len s < fuel)%nat →
  wp (crb_prepare_loop fuel)
    (λ st s', ∃ n, s' = s <| curr_batch_len := n |> <| curr_batch_size := batch_size (take n (mem_pool s)) |> ∧
       batch_inv s' ∧ (curr_batch_len s ≤ n)%nat ∧
       (st = BtcMgmt.Full ∧ block_size s ≤ curr_batch_size s' ∨
        st = BtcMgmt.EmptyMempool ∧ n = length (mem_pool s) ∧ curr_batch_size s' < block_size s))
    (λ _ _, False) s.
Proof.
  revert s. induction fuel as [|fuel IH]; intros s Hinv Hmax Hfuel; [lia|].
  cbn [crb_prepare_loop]. wp_step. wp_step. unfold id.
  assert (Hs : s = s <| curr_batch_len := curr_batch_len s |>
    <| curr_batch_size := batch_size (take (curr_batch_len s) (mem_pool s)) |>).
  { destruct Hinv as (_ & <- & _). by destruct s. }
  case_decide as Hfull; [|case_decide as Hempty].
  - apply wp_ret. exists (curr_batch_len s). split_and!; [done|done|lia|]. by left.
  - apply wp_ret. destruct Hinv as (Hle & Hsz & Hlt). exists (length (mem_pool s)).
    assert (curr_batch_len s = length (mem_pool s)) as Hlen by lia.
    rewrite <- Hlen. split_and!; [done|done|lia|]. right. split_and!; [done|done|lia].
  - assert (curr_batch_len s < length (mem_pool s))%nat as Hlt by lia.
    apply lookup_lt_is_Some in Hlt as [x Hx].
    destruct Hinv as (Hle & Hsz & Hpre).
    pose proof (batch_size_take_S _ _ _ Hx) as HS. pose proof (lookup_lt_Some _ _ _ Hx).
    pose proof (batch_size_take_le (mem_pool s) (S (curr_batch_len s))).
    wp_step. eapply wp_unwrap; [done|]. wp_step. wp_step. wp_step.
    eapply wp_lift; [apply u64_add_ok; lia|]. wp_steps.
    eapply wp_mono; [apply IH| |done].
    + split_and!; cbn -[take].
      * lia.
      * lia.
      * intros n Hn. destruct (decide (n = curr_batch_len s)) as [->|]; [lia|]. apply Hpre. lia.
    + done.
    + cbn. lia.
    + cbn. intros st s' (n & -> & Hinv' & Hn & Hres). exists n. split_and!; [done|done|lia|done].
Qed.
End Batch.

(** ** The head *)

Section HeadInv.
Context `{Externals} `{!Bincode BlockHeader} `{BuildProfile} `{!Bincode Msg} `{Transport}.

Lemma crb_prepare_loop_frame fuel s st s' :
  crb_prepare_loop fuel s = (Ok st, s') → (curr_batch_len s ≤ length (mem_pool s))%nat →
  ∃ n z, s' = s <| curr_batch_len := n |> <| curr_batch_size := z |> ∧ (n ≤ length (mem_pool s))%nat.
Proof.
  revert s. induction fuel as [|fuel IH]; intros s Heq Hle; [done|].
  cbn [crb_prepare_loop] in Heq. m_step. m_step. unfold id in Heq.
  case_decide; [|case_decide].
  1-2: m_inv; exists (curr_batch_len s), (curr_batch_size s); by destruct s.
  m_inv. apply IH in Heq as (n & z & -> & Hn); cbn in *; [|lia]. by exists n, z.
Qed.

(** The proposed blocks that are not committed yet: those the decision stage
    holds, then those in the pipe, numbered from the next one to commit. *)
Definition head_rel (s : CRHead) (infl : list Block) : Prop :=
  let d := h_dec s in let bm := h_bm s in
  is_head bm = true ∧ role d = Head ∧
  (curr_batch_len bm ≤ length (mem_pool bm))%nat ∧
  (∀ i blk, infl !! i = Some blk ↔ inflight_blks d !! (next_to_commit d + N.of_nat i) = Some blk) ∧
  (∀ h, is_Some (inflight_blks d !! h) → next_to_commit d ≤ h) ∧
  commit_ready d ⊆ dom (inflight_blks d) ∧
  (∀ i x, h_pipe s !! i = Some x → bc_id x.2 = next_to_commit d + N.of_nat (length infl + i)) ∧
  next_blk_id bm = next_to_commit d + N.of_nat (length infl + length (h_pipe s)) ∧
  h_recorded s = concat (h_committed s).*2 ++ concat (txns <$> infl) ++
    concat ((λ x : Block * BlkCtx, txns x.1) <$> h_pipe s) ++ (mem_pool bm).*1 ∧
  (h_committed s).*1 = N.of_nat <$> seq 1 (length (h_committed s)) ∧
  next_to_commit d = N.of_nat (S (length (h_committed s))).

Lemma head_rel_init id config pm s : head_init id config pm s → head_rel s [].
Proof.
  intros (Hhd & Hbm & Hdec & Hp & Hr & Hc). destruct s as [bm p d r c]; cbn in *; subst.
  unfold crb_new, crd_new in *. destruct (cr_order config) as [|h o] eqn:Ho; [done|].
  cbn in Hhd. injection Hhd as ->. injection Hbm as <-.
  cbn [hd_error] in Hdec. destruct (last (id :: o)); [|done]. injection Hdec as <-.
  unfold head_rel. cbn. rewrite bool_decide_true, decide_True by done.
  split_and!; try done.
  intros h [x Hx]. by rewrite lookup_empty in Hx.
Qed.

Lemma head_rel_record s infl txn ctx b bm' :
  head_rel s infl → crb_record_new_txn txn ctx (h_bm s) = (Ok b, bm') →
  head_rel (mkCRHead bm' (h_pipe s) (h_dec s) (h_recorded s ++ [txn]) (h_committed s)) infl.
Proof.
  intros (Hh & Hrole & Hle & Hinf & Hge & Hcr & Hpipe & Hnext & Hrec & Hcm & Hn) Heq.
  unfold crb_record_new_txn in Heq. m_inv. rewrite Hh in Heq. m_inv.
  unfold head_rel. cbn. rewrite length_app. split_and!; try done; [lia|].
  by rewrite Hrec, fmap_app, <- !app_assoc.
Qed.

Lemma head_rel_propose s infl rand blk bm' :
  head_rel s infl → crb_get_new_block rand (h_bm s) = (Ok blk, bm') →
  head_rel (mkCRHead bm' (h_pipe s ++ [blk]) (h_dec s) (h_recorded s) (h_committed s)) infl.
Proof.
  intros (Hh & Hrole & Hle & Hinf & Hge & Hcr & Hpipe & Hnext & Hrec & Hcm & Hn) Heq.
  unfold crb_get_new_block in Heq. m_inv. unfold id in *.
  unfold BlkCtx_from_header_and_txns, header_compute_id in *. res_inv.
  unfold u256_add in *. destruct (_ <? 2 ^ 256); [|done]. simplify_eq.
  unfold head_rel. cbn. rewrite length_app. split_and!; try done; cbn.
  - lia.
  - intros i x [Hx|[Hi Hx]]%lookup_app_Some; [by apply Hpipe|].
    apply list_lookup_singleton_Some in Hx as [Hi' <-]. cbn. rewrite Hnext. lia.
  - rewrite Hnext. lia.
  - rewrite fmap_app, concat_app, Hrec. cbn. rewrite app_nil_r, <- !app_assoc.
    do 3 f_equal. by rewrite <- fmap_app, take_drop.
Qed.

Lemma head_rel_deliver s infl blk pipe d' :
  h_pipe s = blk :: pipe → head_rel s infl →
  crd_new_tail (crb_id (h_bm s)) [blk] (h_dec s) = (Ok tt, d') →
  head_rel (mkCRHead (h_bm s) pipe d' (h_recorded s) (h_committed s)) (infl ++ [blk.1]).
Proof.
  intros Hp (Hh & Hrole & Hle & Hinf & Hge & Hcr & Hpipe & Hnext & Hrec & Hcm & Hn) Heq.
  rewrite Hp in *. destruct blk as [blk ctx]. cbn in *.
  m_inv. unfold id in Heq. rewrite Hrole in Heq. m_inv.
  pose proof (Hpipe O _ eq_refl) as Hid. cbn in Hid. rewrite Nat.add_0_r in Hid.
  unfold head_rel. cbn. rewrite length_app, Hid. cbn. split_and!; try done.
  - intros i b. rewrite lookup_app, lookup_insert_Some. destruct (infl !! i) as [b'|] eqn:Ei.
    + pose proof (lookup_lt_Some _ _ _ Ei). rewrite <- Hinf, Ei. split; [|naive_solver lia].
      intros Hb. right. split; [lia|done].
    + apply lookup_ge_None in Ei. rewrite list_lookup_singleton_Some. split.
      * intros [Hi <-]. left. split; [lia|done].
      * intros [[Hi <-]|[Hi Hb]]; [split; [lia|done]|].
        apply Hinf, lookup_lt_Some in Hb. lia.
  - intros h. rewrite lookup_insert_is_Some. intros [<-|[_ ?]]; [lia|by apply Hge].
  - rewrite dom_insert. set_solver.
  - intros i x Hx. rewrite (Hpipe (S i) x Hx). lia.
  - rewrite Hnext. lia.
  - rewrite Hrec, fmap_app, concat_app. cbn. by rewrite app_nil_r, <- !app_assoc.
Qed.

Lemma head_rel_ack s infl src content d' :
  head_rel s infl → crd_handle_peer_msg src content (h_dec s) = (Ok tt, d') →
  head_rel (mkCRHead (h_bm s) (h_pipe s) d' (h_recorded s) (h_committed s)) infl.
Proof.
  intros (Hh & Hrole & Hle & Hinf & Hge & Hcr & Hpipe & Hnext & Hrec & Hcm & Hn) Heq.
  unfold crd_handle_peer_msg in Heq.
  m_inv. unfold id in *. case_decide as Hin; m_inv; unfold head_rel; cbn; split_and!; try done.
  apply elem_of_dom in Hin. set_solver.
Qed.

Lemma head_rel_commit s infl out d' :
  head_rel s infl → crd_next_to_commit (h_dec s) = (Ok out, d') →
  ∃ blk infl', infl = blk :: infl' ∧ out = (next_to_commit (h_dec s), txns blk) ∧
  head_rel (mkCRHead (h_bm s) (h_pipe s) d' (h_recorded s) (h_committed s ++ [out])) infl'.
Proof.
  intros (Hh & Hrole & Hle & Hinf & Hge & Hcr & Hpipe & Hnext & Hrec & Hcm & Hn) Heq.
  unfold crd_next_to_commit in Heq. m_inv. unfold id in *.
  unfold u256_add, u256_as_u64 in *. repeat case_match; simplify_eq.
  match goal with Hb : inflight_blks _ !! next_to_commit _ = Some ?b |- _ =>
    rename Hb into Hblk; rename b into blk end.
  assert (infl !! 0%nat = Some blk) as H0'.
  { apply Hinf. by rewrite N.add_0_r. }
  destruct infl as [|blk' infl]; [done|]. injection H0' as ->. exists blk, infl.
  split_and!; [done|done|].
  unfold head_rel. cbn in *. rewrite length_app. cbn. split_and!; try done; cbn.
  - intros i b. rewrite lookup_delete_ne by lia. rewrite (Hinf (S i) b : (infl !! i = _ ↔ _)).
    by replace (next_to_commit (h_dec s) + 1 + N.of_nat i) with
      (next_to_commit (h_dec s) + N.of_nat (S i)) by lia.
  - intros h. rewrite lookup_delete_is_Some. intros [Hne Hs]. apply Hge in Hs. lia.
  - rewrite dom_delete. set_solver.
  - intros i x Hx. rewrite (Hpipe i x Hx). lia.
  - rewrite Hnext. lia.
  - rewrite Hrec, fmap_app, concat_app. cbn. by rewrite app_nil_r, <- !app_assoc.
  - rewrite fmap_app, seq_app, fmap_app, Hcm. cbn. by rewrite Hn.
  - rewrite Hn. lia.
Qed.

Lemma head_step_rel s s' infl :
  head_rel s infl → head_step s s' → ∃ infl', head_rel s' infl'.
Proof.
  intros Hrel Hstep. destruct Hstep.
  - eexists. by eapply (head_rel_record (mkCRHead bm pipe d rc cm)).
  - exists infl. unfold crb_prepare_new_block in *. pose proof Hrel as (Hh & _ & Hle & _).
    m_inv. cbn in Hh. rewrite Hh in *.
    match goal with Hp : crb_prepare_loop _ _ = _ |- _ =>
      apply crb_prepare_loop_frame in Hp as (n & z & -> & Hn); [|done] end.
    unfold head_rel in *. cbn in *. naive_solver.
  - eexists. by eapply (head_rel_propose (mkCRHead bm pipe d rc cm)).
  - eexists. by eapply (head_rel_deliver (mkCRHead bm (blk :: pipe) d rc cm)).
  - eexists. by eapply (head_rel_ack (mkCRHead bm pipe d rc cm)).
  - edestruct (head_rel_commit (mkCRHead bm pipe d rc cm)) as (b & infl' & _ & _ & ?); eauto.
Qed.

Lemma head_reach_rel id config pm s : head_reach id config pm s → ∃ infl, head_rel s infl.
Proof.
  intros (s0 & Hinit & Hsteps).
  assert (∃ infl, head_rel s0 infl) as Hrel by (eexists; by eapply head_rel_init).
  clear Hinit. induction Hsteps as [|s0 s1 s2 Hstep _ IH]; [done|].
  apply IH. destruct Hrel as [infl Hrel]. by eapply head_step_rel.
Qed.

(** Only a commit, which needs an acknowledgment, moves the next block on. *)
Lemma head_step_uncommitted s s' :
  head_step s s' → next_to_commit (h_dec s) ∉ commit_ready (h_dec s) →
  h_committed s' = h_committed s ∧ next_to_commit (h_dec s') = next_to_commit (h_dec s).
Proof.
  intros Hstep Hnot. destruct Hstep; cbn in Hnot |- *; try done.
  - match goal with Hx : crd_new_tail _ _ _ = _ |- _ => rename Hx into Heq end.
    unfold crd_new_tail in Heq. destruct blk as [b c]. m_inv. case_match; m_inv; [done|done|].
    unfold zoom in Heq. by case_match; simplify_eq.
  - match goal with Hx : crd_handle_peer_msg _ _ _ = _ |- _ => rename Hx into Heq end.
    unfold crd_handle_peer_msg in Heq. m_inv. case_decide; by m_inv.
  - match goal with Hx : crd_commit_ready _ = true |- _ =>
      apply bool_decide_eq_true in Hx; done end.
Qed.
End HeadInv.

(** ** Properties *)

Section Theorems.
Context `{Externals} `{!Bincode BlockHeader} `{BuildProfile} `{!Bincode Msg} `{Transport}.

(** C7: the head of a replication chain commits the transactions it received in
    the order in which it received them, none skipped and none repeated: what it
    has committed, block after block, is a prefix of what it was sent, and the
    blocks are numbered 1, 2, 3, ... without gaps, however acknowledgments,
    batching, proposals and commits interleave. *)
Theorem head_commits_in_order node config pm s :
  head_reach node config pm s →
  concat (h_committed s).*2 `prefix_of` h_recorded s ∧
  (h_committed s).*1 = N.of_nat <$> seq 1 (length (h_committed s)).
Proof.
  intros [infl Hrel]%head_reach_rel.
  destruct Hrel as (_ & _ & _ & _ & _ & _ & _ & _ & Hrec & Hcm & _).
  split; [|done]. rewrite Hrec. by apply prefix_app_r.
Qed.

(** C32: none of the assertions, [unwrap]s and ranges of the head can fail: when
    the stages say they are ready, a block is proposed, numbered after all blocks
    before it and holding the batch, and the next block is committed. The block
    numbers stay below 2^64. *)
Theorem head_never_panics node config pm s rand :
  head_reach node config pm s → next_blk_id (h_bm s) < two64 →
  (crb_wait_to_propose (h_bm s) = true → ∃ ctx bm',
     crb_get_new_block rand (h_bm s) =
       (Ok (mkBlock (HChainReplication (next_blk_id (h_bm s)))
              (take (curr_batch_len (h_bm s)) (mem_pool (h_bm s))).*1, ctx), bm') ∧
     mem_pool bm' = drop (curr_batch_len (h_bm s)) (mem_pool (h_bm s))) ∧
  (crd_commit_ready (h_dec s) = true → ∃ blk d',
     inflight_blks (h_dec s) !! next_to_commit (h_dec s) = Some blk ∧
     crd_next_to_commit (h_dec s) = (Ok (next_to_commit (h_dec s), txns blk), d')).
Proof.
  intros [infl Hrel]%head_reach_rel Hmax.
  destruct Hrel as (Hh & Hrole & Hle & Hinf & Hge & Hcr & Hpipe & Hnext & Hrec & Hcm & Hn).
  assert (∀ n, n < two64 → u256_add n 1 = Ok (n + 1)) as Hadd.
  { intros n Hlt. unfold u256_add. rewrite (proj2 (N.ltb_lt _ _)); [done|]. unfold two64 in Hlt. lia. }
  split.
  - intros _. unfold crb_get_new_block, mbind, M_bind, gets, id. rewrite Hh.
    rewrite bool_decide_true by done. cbn -[two64]. unfold lift_res.
    rewrite Hadd by done. cbn. eauto.
  - unfold crd_commit_ready. intros Hready%bool_decide_eq_true. pose proof Hready as Hdom.
    apply Hcr, elem_of_dom in Hdom as [blk Hblk].
    exists blk. unfold crd_next_to_commit, mbind, M_bind, gets, id.
    rewrite bool_decide_true by done. cbn -[two64]. rewrite Hblk. unfold lift_res. cbn -[two64].
    assert (next_to_commit (h_dec s) < two64) as Hlt by lia.
    rewrite Hadd by done. cbn -[two64]. unfold u256_as_u64.
    rewrite (proj2 (N.ltb_lt _ _)) by done. eauto.
Qed.

(** Extending the block of the head ends, and the batch is then the shortest
    prefix of the pool that reaches the block size, or the whole pool if it is
    too small, and the answer says which. *)
Theorem prepare_fills_block fuel s :
  is_head s = true → batch_inv s → batch_size (mem_pool s) < two64 →
  (length (mem_pool s) < fuel)%nat →
  ∃ st n, crb_prepare_new_block fuel s =
      (Ok st, s <| curr_batch_len := n |> <| curr_batch_size := batch_size (take n (mem_pool s)) |>) ∧
    (n ≤ length (mem_pool s))%nat ∧
    (∀ m, (m < n)%nat → batch_size (take m (mem_pool s)) < block_size s) ∧
    (st = BtcMgmt.Full ∧ block_size s ≤ batch_size (take n (mem_pool s)) ∨
     st = BtcMgmt.EmptyMempool ∧ n = length (mem_pool s) ∧ batch_size (mem_pool s) < block_size s).
Proof.
  intros Hh Hinv Hmax Hfuel.
  pose proof (crb_prepare_loop_total fuel s Hinv Hmax ltac:(lia)) as Hwp.
  unfold crb_prepare_new_block, mbind, M_bind, gets. rewrite Hh.
  unfold wp in Hwp. destruct (crb_prepare_loop fuel s) as [[st|e| |] s']; try done.
  destruct Hwp as (n & -> & (Hle & _ & Hpre) & _ & Hres). exists st, n. cbn in *.
  split_and!; [done..|]. destruct Hres as [?|(-> & -> & Hlt)]; [by left|].
  right. split_and!; [done|done|]. by rewrite firstn_all in Hlt.
Qed.

(** Steps that do not acknowledge block [h]. *)
Definition quiet_step (h : Hash) (s s' : CRHead) : Prop :=
  head_step s s' ∧ (h ∈ commit_ready (h_dec s') → h ∈ commit_ready (h_dec s)).

(** An acknowledgment that overtakes its block is lost: the block is sent
    down the chain before the decision stage of the head knows it, and an
    acknowledgment for a block that is not in flight is dropped. Until the block
    is acknowledged a second time, which the tail does not do, the head commits
    nothing any more. *)
Theorem early_ack_stalls node config pm s content :
  head_reach node config pm s →
  deserialize content = inl (mkMsg (next_to_commit (h_dec s))) →
  inflight_blks (h_dec s) !! next_to_commit (h_dec s) = None →
  crd_handle_peer_msg (tail (h_dec s)) content (h_dec s) = (Ok tt, h_dec s) ∧
  ∀ s', rtc (quiet_step (next_to_commit (h_dec s))) s s' → h_committed s' = h_committed s.
Proof.
  intros [infl Hrel]%head_reach_rel Hmsg Hnone.
  destruct Hrel as (Hh & Hrole & Hle & Hinf & Hge & Hcr & _). split.
  - unfold crd_handle_peer_msg, mbind, M_bind, gets, id. rewrite Hrole, !bool_decide_true by done.
    cbn. unfold lift_res. rewrite Hmsg. cbn. rewrite decide_False; [done|].
    rewrite Hnone. by intros [??].
  - assert (next_to_commit (h_dec s) ∉ commit_ready (h_dec s)) as Hnot.
    { intros Hin%Hcr%elem_of_dom. rewrite Hnone in Hin. by destruct Hin. }
    remember (next_to_commit (h_dec s)) as n eqn:En.
    assert (n = next_to_commit (h_dec s)) as En' by done. clear -Hnot En'.
    intros s' Hsteps. revert Hnot En'.
    induction Hsteps as [|s s1 s2 [Hstep Hquiet] _ IH]; intros Hnot ->; [done|].
    assert (h_committed s1 = h_committed s ∧ next_to_commit (h_dec s1) = next_to_commit (h_dec s))
      as [Hc Hn'] by (by apply head_step_uncommitted).
    rewrite <- Hc. apply IH; [by intros ?%Hquiet|done].
Qed.
End Theorems.

(** ** Concrete runs *)

#[local] Existing Instances sample_externals sample_bincode_header sample_transport sample_profile.
#[local] Instance sample_bincode_msg : Bincode Msg := {|
  serialize := λ m, inl [recved m];
  deserialize := λ b, match b with [h] => inl (mkMsg h) | _ => inr (mkErr "length") end;
|}.

(** A chain of two nodes, blocks of one transaction. *)
Definition w_config : ChainReplicationConfig := mkChainReplicationConfig [1; 2] 100.
Definition w_txn : Txn := TDummy (mkDummyTxn 5 [] [] []).
Definition w_bm0 : ChainReplicationBM := mkCRBM 1 [] true 100 1 0 0.
Definition w_dec0 : ChainReplicationDecision :=
  mkCRDecision 1 Head 1 2 sample_messenger ∅ ∅ 1.
Definition w_bm1 : ChainReplicationBM := (crb_record_new_txn w_txn (mkTxnCtx 5) w_bm0).2.
Definition w_bm2 : ChainReplicationBM := (crb_prepare_new_block 3 w_bm1).2.
Definition w_bm3 : ChainReplicationBM := (crb_get_new_block [] w_bm2).2.
Definition w_blk : Block * BlkCtx := (mkBlock (HChainReplication 1) [w_txn], mkBlkCtx 1 [mkTxnCtx 5]).
Definition w_dec1 : ChainReplicationDecision := (crd_new_tail 1 [w_blk] w_dec0).2.
Definition w_dec2 : ChainReplicationDecision := (crd_handle_peer_msg 2 [1] w_dec1).2.
Definition w_dec3 : ChainReplicationDecision := (crd_next_to_commit w_dec2).2.

(** The block is proposed, but has not reached the decision stage. *)
Definition w_proposed : CRHead := mkCRHead w_bm3 [w_blk] w_dec0 [w_txn] [].
(** It is acknowledged. *)
Definition w_acked : CRHead := mkCRHead w_bm3 [] w_dec2 [w_txn] [].
Definition w_committed : CRHead := mkCRHead w_bm3 [] w_dec3 [w_txn] [(1, [w_txn])].

Lemma w_prepared_reach : head_reach 1 w_config sample_messenger (mkCRHead w_bm2 [] w_dec0 [w_txn] []).
Proof.
  exists (mkCRHead w_bm0 [] w_dec0 [] []). split; [by vm_compute|].
  eapply rtc_l; [by apply (head_record w_bm0 w_bm1 [] w_dec0 [] [] w_txn (mkTxnCtx 5) true)|].
  apply rtc_once. apply (head_prepare _ _ _ _ _ _ 3 BtcMgmt.Full). by vm_compute.
Qed.

Lemma w_proposed_reach : head_reach 1 w_config sample_messenger w_proposed.
Proof.
  destruct w_prepared_reach as (s0 & ? & Hsteps). exists s0. split; [done|].
  eapply rtc_r; [exact Hsteps|]. by apply (head_propose _ _ [] _ _ _ [] w_blk); vm_compute.
Qed.

Lemma w_acked_reach : head_reach 1 w_config sample_messenger w_acked.
Proof.
  destruct w_proposed_reach as (s0 & ? & Hsteps). exists s0. split; [done|].
  eapply rtc_r; [eapply rtc_r; [exact Hsteps|]|].
  - apply (head_deliver w_bm3 w_blk [] w_dec0 w_dec1). by vm_compute.
  - apply (head_ack w_bm3 [] w_dec1 w_dec2 _ _ 2 [1]). by vm_compute.
Qed.

Lemma w_committed_reach : head_reach 1 w_config sample_messenger w_committed.
Proof.
  destruct w_acked_reach as (s0 & ? & Hsteps). exists s0. split; [done|].
  eapply rtc_r; [exact Hsteps|].
  by apply (head_commit w_bm3 [] w_dec2 w_dec3 _ [] (1, [w_txn])); vm_compute.
Qed.

Lemma head_commits_in_order_witness :
  concat (h_committed w_committed).*2 `prefix_of` [w_txn] ∧ (h_committed w_committed).*1 = [1].
Proof. apply (head_commits_in_order 1 w_config sample_messenger w_committed), w_committed_reach. Defined.

Lemma head_never_panics_witness :
  ∃ blk d', inflight_blks w_dec2 !! 1 = Some blk ∧ crd_next_to_commit w_dec2 = (Ok (1, txns blk), d').
Proof.
  apply (head_never_panics 1 w_config sample_messenger w_acked []); [apply w_acked_reach|done|by vm_compute].
Defined.

Lemma prepare_fills_block_witness :
  ∃ st n, crb_prepare_new_block 3 w_bm1 =
      (Ok st, w_bm1 <| curr_batch_len := n |> <| curr_batch_size := batch_size (take n (mem_pool w_bm1)) |>) ∧
    (n ≤ length (mem_pool w_bm1))%nat.
Proof.
  destruct (prepare_fills_block 3 w_bm1) as (st & n & Heq & Hn & _).
  - done.
  - split_and!; [vm_compute; lia|by vm_compute|]. intros n Hn. vm_compute in Hn. lia.
  - by vm_compute.
  - vm_compute. lia.
  - by exists st, n.
Defined.

Lemma early_ack_stalls_witness :
  crd_handle_peer_msg 2 [1] w_dec0 = (Ok tt, w_dec0) ∧
  ∀ s', rtc (quiet_step 1) w_proposed s' → h_committed s' = [].
Proof.
  apply (early_ack_stalls 1 w_config sample_messenger w_proposed [1]); [apply w_proposed_reach|done|done].
Defined.
