(* ===== verification/Dissem.v ===== *)
(** * Dissemination of transactions and blocks

    src/src/stage/txn_dissemination/ and src/src/stage/consensus/
    block_dissemination/: the patterns a configuration can choose, the choice,
    and the handlers of the two threads that call them. An error a thread logs
    before it goes on to the next event is the [Err] of the handler. *)

From S2P Require Import Prelude F64 Protocol Peers Config.
Local Open Scope N_scope.

(** ** Transactions *)

(** The trait objects of [get_txn_dissemination]. *)
Inductive TxnDissemination :=
| TDBroadcast (me : NodeId)
| TDGossip (me : NodeId)
| TDPassthrough.

Definition get_txn_dissemination (id : NodeId) (enabled : bool) (config : ChainConfig) :
    res TxnDissemination :=
  if negb enabled then Ok TDPassthrough
  else match get_txn_dissem config with
  | DBroadcast => Ok (TDBroadcast id)
  | DGossip => Ok (TDGossip id)
  | DPassthrough => Ok TDPassthrough
  | DSample _ | DLinear _ => Panic
  end.

Section Txns.
Context `{HashOrder} `{Transport}.

(** [BroadcastTxnDissemination::disseminate] *)
Definition broadcast_txns (me : NodeId) (txn_batch : list (NodeId * Txn)) : M PeerMessenger unit :=
  let txn_to_dissem := (filter (λ x : NodeId * Txn, x.1 = me) txn_batch).*2 in
  if decide (0 < length txn_to_dissem)%nat then pm_broadcast (NewTxn txn_to_dissem) else mret tt.

(** The map from senders to their transactions. *)
Definition batches_by_sender (txn_batch : list (NodeId * Txn)) : gmap NodeId (list Txn) :=
  foldl (λ m x, <[x.1 := default [] (m !! x.1) ++ [x.2]]> m) ∅ txn_batch.

(** [GossipTxnDissemination::disseminate] *)
Definition gossip_txns (me : NodeId) (txn_batch : list (NodeId * Txn)) : M PeerMessenger unit :=
  mfor (map_iter (batches_by_sender txn_batch)) (λ kv : NodeId * list Txn,
    if decide (0 < length kv.2)%nat then pm_gossip (NewTxn kv.2) {[kv.1; me]} else mret tt).

Definition txn_disseminate (d : TxnDissemination) (txn_batch : list (NodeId * Txn)) :
    M PeerMessenger unit :=
  match d with
  | TDBroadcast me => broadcast_txns me txn_batch
  | TDGossip me => gossip_txns me txn_batch
  | TDPassthrough => mret tt
  end.

(** [txn_dissemination_thread]: the batch waiting, whether its timer runs, and
    the batches handed to block management ([txn_ready_send], latest first). *)
Record TxnDissemThread := mkTxnDissemThread {
  td_stage : TxnDissemination;
  td_pm : PeerMessenger;
  td_batch : list (NodeId * (Txn * TxnCtx));
  td_timer : bool;
  td_ready : list (list (Txn * TxnCtx));
}.
#[export] Instance TxnDissemThread_eta : Eta TxnDissemThread := λ r,
  mkTxnDissemThread (td_stage r) (td_pm r) (td_batch r) (td_timer r) (td_ready r).

Definition DISSEM_BATCH_SIZE : nat := N.to_nat 2000.
#[global] Arguments DISSEM_BATCH_SIZE : simpl never.

(** [validated_txn_recv.recv()] *)
Definition td_recv (txn_batch : list (NodeId * (Txn * TxnCtx))) : M TxnDissemThread unit :=
  modify (λ s, s <| td_batch ::= λ b, b ++ txn_batch |> <| td_timer := true |>).

(** [wait_send_batch(..)] under its guard: can the batch be sent, given whether
    the timer has run out? *)
Definition td_can_send (expired : bool) (s : TxnDissemThread) : bool :=
  td_timer s && negb (bool_decide (td_batch s = [])) &&
  (bool_decide (DISSEM_BATCH_SIZE ≤ length (td_batch s))%nat || expired).

Definition td_send `{Channel} : M TxnDissemThread unit :=
  b ← gets td_batch;
  stage ← gets td_stage;
  let send_batch_size := Nat.min DISSEM_BATCH_SIZE (length b) in
  let send_batch := take send_batch_size b in
  modify (λ s, s <| td_batch := drop send_batch_size b |>) ;;
  zoom td_pm (λ p s, s <| td_pm := p |>)
    (txn_disseminate stage ((λ x : NodeId * (Txn * TxnCtx), (x.1, x.2.1)) <$> send_batch)) ;;
  modify (λ s, if decide (td_batch s = []) then s <| td_timer := false |> else s) ;;
  zoom td_ready (λ r s, s <| td_ready := r |>) (chan_send (send_batch.*2)).
End Txns.

(** ** Blocks *)

(** The trait objects of [get_block_dissemination]. *)
Inductive BlockDissemination :=
| BDBroadcast (me : NodeId)
| BDGossip (me : NodeId)
| BDSampling (me : NodeId) (neighbors : N)
| BDLinear (prev : NodeId) (next : option NodeId)
| BDPassthrough.

(** [SamplingBlockDissemination::new]: do not count self *)
Definition sampling_new `{BuildProfile} (me : NodeId) (sample_size : N) : res BlockDissemination :=
  neighbors ← u64_sub sample_size 1; Ok (BDSampling me neighbors).

(** [LinearBlockDissemination::new]: the loop over the order, with the part
    already passed; the node must occur in it. *)
Fixpoint linear_find (me : NodeId) (idx : nat) (rep_order rest : list NodeId) : res BlockDissemination :=
  match rest with
  | [] => Panic
  | node :: rest' =>
    if decide (node = me) then
      let prev := if decide (idx = O) then rep_order !! O else rep_order !! (idx - 1)%nat in
      let next := if decide (idx = length rep_order - 1)%nat then None else rep_order !! (idx + 1)%nat in
      match prev with
      | Some prev => Ok (BDLinear prev next)
      | None => Panic
      end
    else linear_find me (S idx) rep_order rest'
  end.

Definition linear_new (me : NodeId) (rep_order : list NodeId) : res BlockDissemination :=
  linear_find me O rep_order rep_order.

Definition get_block_dissemination `{BuildProfile} (id : NodeId) (config : ChainConfig) :
    res BlockDissemination :=
  match get_blk_dissem config with
  | DBroadcast => Ok (BDBroadcast id)
  | DGossip => Ok (BDGossip id)
  | DSample sample_size => sampling_new id sample_size
  | DLinear order => linear_new id order
  | DPassthrough => Ok BDPassthrough
  end.

Section Blocks.
Context `{HashOrder} `{Transport}.

Definition broadcast_block (me src : NodeId) (blk : Block) : M PeerMessenger unit :=
  if decide (me = src) then pm_broadcast (NewBlock blk) else mret tt.

Definition gossip_block (me src : NodeId) (blk : Block) : M PeerMessenger unit :=
  pm_gossip (NewBlock blk) {[src; me]}.

Definition sampling_block (me : NodeId) (neighbors : N) (src : NodeId) (blk : Block) :
    M PeerMessenger unit :=
  if decide (src = me) then pm_sample (NewBlock blk) neighbors else mret tt.

Definition linear_block (prev : NodeId) (next : option NodeId) (src : NodeId) (blk : Block) :
    M PeerMessenger unit :=
  massert (bool_decide (src = prev)) ;;
  match next with
  | Some next => pm_send next (NewBlock blk)
  | None => mret tt
  end.

Definition block_disseminate (d : BlockDissemination) (src : NodeId) (blk : Block) :
    M PeerMessenger unit :=
  match d with
  | BDBroadcast me => broadcast_block me src blk
  | BDGossip me => gossip_block me src blk
  | BDSampling me neighbors => sampling_block me neighbors src blk
  | BDLinear prev next => linear_block prev next src blk
  | BDPassthrough => mret tt
  end.

(** [block_dissemination_thread]; [bd_ready]: the chain tails handed to the
    decision stage ([block_ready_send], latest first). *)
Record BlkDissemThread := mkBlkDissemThread {
  bd_stage : BlockDissemination;
  bd_pm : PeerMessenger;
  bd_ready : list (NodeId * list (Block * BlkCtx));
}.
#[export] Instance BlkDissemThread_eta : Eta BlkDissemThread := λ r,
  mkBlkDissemThread (bd_stage r) (bd_pm r) (bd_ready r).

(** [new_block_recv.recv()]: only the last block is disseminated, the whole tail
    is handed on. *)
Definition bd_recv `{Channel} (src : NodeId) (new_tail : list (Block * BlkCtx)) :
    M BlkDissemThread unit :=
  stage ← gets bd_stage;
  match last new_tail with
  | None => mret tt
  | Some new_blk =>
    zoom bd_pm (λ p s, s <| bd_pm := p |>) (block_disseminate stage src new_blk.1) ;;
    zoom bd_ready (λ r s, s <| bd_ready := r |>) (chan_send (src, new_tail))
  end.
End Blocks.
