(* ===== verification/DissemProps.v ===== *)
(** * Dissemination: properties

    Whom gossip reaches, how a block travels down a replication chain, and that
    the thread between validation and block management keeps order. *)

From S2P Require Import Prelude F64 Protocol Peers Config Samples Dissem.
Local Open Scope N_scope.

(** ** Gossip *)

(** The transactions of a batch that came from [src]. *)
Definition from_sender (src : NodeId) (txn_batch : list (NodeId * Txn)) : list Txn :=
  (filter (λ x : NodeId * Txn, x.1 = src) txn_batch).*2.

Lemma elem_of_from_sender src t txn_batch : t ∈ from_sender src txn_batch ↔ (src, t) ∈ txn_batch.
Proof.
  unfold from_sender. rewrite list_elem_of_fmap. split.
  - intros ([s' t'] & -> & [Hs Hin]%list_elem_of_filter). cbn in *. by subst.
  - intros Hin. exists (src, t). split; [done|]. by apply list_elem_of_filter.
Qed.

Lemma batches_by_sender_lookup txn_batch src :
  batches_by_sender txn_batch !! src =
  if decide (from_sender src txn_batch = []) then None else Some (from_sender src txn_batch).
Proof.
  unfold batches_by_sender. induction txn_batch as [|[s t] l IH] using rev_ind; [done|].
  rewrite foldl_snoc. unfold from_sender in *. rewrite filter_app, fmap_app. cbn [fst snd].
  destruct (decide (s = src)) as [->|Hne].
  - rewrite lookup_insert_eq, IH, filter_cons_True, filter_nil by done. cbn [fmap list_fmap snd].
    case_decide as Hnil; [by rewrite Hnil|]. cbn. rewrite decide_False; [done|].
    by intros [? ?]%app_nil.
  - rewrite lookup_insert_ne, filter_cons_False, filter_nil by done. cbn [fmap list_fmap].
    by rewrite app_nil_r.
Qed.

Section Gossip.
Context `{HashOrder} `{Transport}.

(** The calls a loop of gossips makes, latest first. *)
Lemma gossip_loop_wire me l pm pm' :
  mfor l (λ kv : NodeId * list Txn,
    if decide (0 < length kv.2)%nat then pm_gossip (NewTxn kv.2) {[kv.1; me]} else mret tt) pm =
    (Ok tt, pm') →
  Forall (λ kv, kv.2 ≠ []) l →
  pm_neighbors pm' = pm_neighbors pm ∧
  ∃ calls, pm_wire pm' = calls ++ pm_wire pm ∧
    (∀ c, c ∈ calls → ∃ kv dests, kv ∈ l ∧ c = HubMulticast dests (NewTxn kv.2) ∧
       dests ≡ₚ elements (pm_neighbors pm ∖ {[kv.1; me]})) ∧
    (∀ kv, kv ∈ l → pm_neighbors pm ∖ {[kv.1; me]} ≠ ∅ → ∃ dests,
       HubMulticast dests (NewTxn kv.2) ∈ calls ∧
       dests ≡ₚ elements (pm_neighbors pm ∖ {[kv.1; me]})).
Proof.
  revert pm. induction l as [|[src txns] l IH]; intros pm Heq Hne; cbn [mfor] in Heq.
  - m_inv. split; [done|]. exists []. split_and!; [done|set_solver|set_solver].
  - apply Forall_cons in Hne as [Htx Hne]. cbn in *. m_inv.
    rewrite decide_True in * by (destruct txns; [done|cbn; lia]).
    match goal with Hg : pm_gossip _ _ _ = (Ok ?u, _) |- _ =>
      destruct u; rename Hg into Hgossip end.
    assert (pm_neighbors x0 = pm_neighbors pm) as Hnb.
    { clear -Hgossip. unfold pm_gossip in Hgossip. m_inv. case_decide; m_inv; [|done].
      unfold hub in Hgossip. case_match; by simplify_eq. }
    apply IH in Heq as (Hnb' & calls & Hwire & Hall & Hsome); [|done].
    rewrite Hnb in *. split; [done|].
    apply gossip_wire in Hgossip as [[-> Hempty]|(dests & Hw & Hdests & Hd)].
    + exists calls. split_and!; [done| |].
      * intros c Hc. destruct (Hall c Hc) as (kv & ds & ? & ?). exists kv, ds. set_solver.
      * intros kv [->|Hkv]%elem_of_cons Hn; [done|]. by apply Hsome.
    + exists (calls ++ [HubMulticast dests (NewTxn txns)]). split_and!.
      * by rewrite Hwire, Hw, <- app_assoc.
      * intros c [Hc| ->%list_elem_of_singleton]%elem_of_app.
        -- destruct (Hall c Hc) as (kv & ds & ? & ?). exists kv, ds. set_solver.
        -- exists (src, txns), dests. set_solver.
      * intros kv [->|Hkv]%elem_of_cons Hn.
        -- exists dests. set_solver.
        -- destruct (Hsome kv Hkv Hn) as (ds & ? & ?). exists ds. set_solver.
Qed.

(** Gossip passes every transaction of a batch to every neighbor except the
    one it came from and the node itself, and to nobody else: a message holds
    exactly the transactions received from one sender, in order, and goes to
    the neighbors other than that sender. *)
Theorem gossip_txns_reach_neighbors me txn_batch pm pm' :
  gossip_txns me txn_batch pm = (Ok tt, pm') →
  ∃ calls, pm_wire pm' = calls ++ pm_wire pm ∧
    (∀ c, c ∈ calls → ∃ src dests, c = HubMulticast dests (NewTxn (from_sender src txn_batch)) ∧
       dests ≡ₚ elements (pm_neighbors pm ∖ {[src; me]})) ∧
    (∀ src t n, (src, t) ∈ txn_batch → n ∈ pm_neighbors pm → n ≠ src → n ≠ me →
       ∃ dests l, HubMulticast dests (NewTxn l) ∈ calls ∧ n ∈ dests ∧ t ∈ l).
Proof.
  intros Heq. unfold gossip_txns in Heq.
  assert (∀ src txns, (src, txns) ∈ map_iter (batches_by_sender txn_batch) ↔
    txns = from_sender src txn_batch ∧ txns ≠ []) as Hin.
  { intros src txns. rewrite elem_of_map_iter, batches_by_sender_lookup.
    case_decide; naive_solver congruence. }
  apply gossip_loop_wire in Heq as (_ & calls & Hwire & Hall & Hsome).
  2: { apply Forall_forall. intros [src txns] [_ Hne]%Hin. done. }
  exists calls. split_and!; [done| |].
  - intros c Hc. destruct (Hall c Hc) as ([src txns] & dests & [-> _]%Hin & -> & ?). by exists src, dests.
  - intros src t n Ht Hn Hsrc Hme. apply elem_of_from_sender in Ht.
    destruct (Hsome (src, from_sender src txn_batch)) as (dests & Hc & Hd).
    + apply Hin. split; [done|]. intros Hnil. rewrite Hnil in Ht. set_solver.
    + cbn. set_solver.
    + exists dests, (from_sender src txn_batch). split_and!; [done| |done].
      rewrite Hd, elem_of_elements. cbn. set_solver.
Qed.
End Gossip.

(** ** The chain *)

Lemma linear_find_at me order i rest idx :
  order !! i = Some me → NoDup order → (idx ≤ i)%nat → rest = drop idx order →
  linear_find me idx order rest =
    Ok (BDLinear (default me (order !! (i - 1)%nat)) (order !! S i)).
Proof.
  intros Hi Hnd. revert idx. induction rest as [|node rest IH]; intros idx Hle Hrest; cbn.
  - symmetry in Hrest. apply drop_nil_inv in Hrest. apply lookup_lt_Some in Hi. lia.
  - assert (order !! idx = Some node) as Hnode.
    { rewrite <- (Nat.add_0_r idx), <- lookup_drop, <- Hrest. done. }
    case_decide as Hme.
    + subst node. assert (idx = i) as -> by (by eapply NoDup_lookup).
      pose proof (lookup_lt_Some _ _ _ Hi) as Hlt.
      assert ((if decide (i = O) then order !! O else order !! (i - 1)%nat) =
        Some (default me (order !! (i - 1)%nat))) as ->.
      { case_decide as H0; [subst i; cbn; by rewrite Hi|].
        destruct (lookup_lt_is_Some_2 order (i - 1)) as [p ->]; [lia|done]. }
      do 2 f_equal. case_decide; [|by rewrite Nat.add_1_r].
      symmetry. apply lookup_ge_None_2. lia.
    + apply IH.
      * destruct (decide (idx = i)) as [->|]; [congruence|lia].
      * apply (f_equal (drop 1)) in Hrest. cbn in Hrest. rewrite drop_drop in Hrest.
        by rewrite drop_0, Nat.add_1_r in Hrest.
Qed.

Section Linear.
Context `{HashOrder} `{Transport}.

(** Along a replication chain without repeated nodes, each node accepts
    blocks from its predecessor only (the head: from itself) and passes each one
    to its successor, once; the last node passes it to nobody. *)
Theorem linear_chain_relays order i me :
  NoDup order → order !! i = Some me →
  ∃ prev, linear_new me order = Ok (BDLinear prev (order !! S i)) ∧
    (i = O → prev = me) ∧ (∀ j, i = S j → order !! j = Some prev) ∧
    (∀ src blk pm, src ≠ prev →
       (block_disseminate (BDLinear prev (order !! S i)) src blk pm).1 = Panic) ∧
    (∀ blk pm pm', block_disseminate (BDLinear prev (order !! S i)) prev blk pm = (Ok tt, pm') →
       pm_wire pm' = match order !! S i with
                     | Some next => HubSend next (NewBlock blk) :: pm_wire pm
                     | None => pm_wire pm
                     end).
Proof.
  intros Hnd Hi. exists (default me (order !! (i - 1)%nat)). split_and!.
  - unfold linear_new. eapply linear_find_at; eauto. lia.
  - intros ->. cbn. by rewrite Hi.
  - intros j ->. cbn. rewrite Nat.sub_0_r. apply lookup_lt_Some in Hi.
    destruct (lookup_lt_is_Some_2 order j) as [p ->]; [lia|done].
  - intros src blk pm Hne. cbn. unfold linear_block, mbind, M_bind.
    by rewrite bool_decide_false.
  - intros blk pm pm' Heq. cbn in Heq. unfold linear_block in Heq. m_inv.
    destruct (order !! S i); [|by m_inv]. unfold pm_send, hub in Heq. case_match; by simplify_eq.
Qed.
End Linear.

(** ** The transaction thread *)

Section Thread.
Context `{HashOrder} `{Transport} `{Channel}.

(** The runs of the thread: what it received, and the batches it took out of the
    queue with whether they got through to block management. *)
Inductive td_run (stage : TxnDissemination) (pm : PeerMessenger) :
    list (NodeId * (Txn * TxnCtx)) → list (bool * list (Txn * TxnCtx)) → TxnDissemThread → Prop :=
| td_run_new : td_run stage pm [] [] (mkTxnDissemThread stage pm [] false [])
| td_run_recv hist log s batch u s' :
    td_run stage pm hist log s → td_recv batch s = (Ok u, s') →
    td_run stage pm (hist ++ batch) log s'
| td_run_send hist log s expired u s' :
    td_run stage pm hist log s → td_can_send expired s = true → td_send s = (Ok u, s') →
    td_run stage pm hist (log ++ [(true, (take DISSEM_BATCH_SIZE (td_batch s)).*2)]) s'
| td_run_fail hist log s expired e s' :
    td_run stage pm hist log s → td_can_send expired s = true → td_send s = (Err e, s') →
    td_run stage pm hist (log ++ [(false, (take DISSEM_BATCH_SIZE (td_batch s)).*2)]) s'.

Lemma take_min {A} n (l : list A) : take (Nat.min n (length l)) l = take n l.
Proof. destruct (Nat.min_spec n (length l)) as [[_ ->]|[? ->]]; [done|]. by rewrite firstn_all, take_ge. Qed.

Lemma drop_min {A} n (l : list A) : drop (Nat.min n (length l)) l = drop n l.
Proof. destruct (Nat.min_spec n (length l)) as [[_ ->]|[? ->]]; [done|]. by rewrite drop_all, drop_ge. Qed.

(** What a send does, whether it gets through or not. *)
Lemma td_send_frame s :
  let r := td_send s in
  td_batch r.2 = drop DISSEM_BATCH_SIZE (td_batch s) ∧
  (td_batch r.2 ≠ [] → td_timer r.2 = td_timer s) ∧
  td_ready r.2 = match r.1 with
                 | Ok _ => (take DISSEM_BATCH_SIZE (td_batch s)).*2 :: td_ready s
                 | _ => td_ready s end.
Proof.
  cbn zeta. unfold td_send, mbind, M_bind, gets, modify, zoom.
  rewrite take_min, drop_min. cbn.
  destruct (txn_disseminate _ _ _) as [[[]|e| |] pm']; cbn; [|done..].
  unfold chan_send. case_decide as Hnil; cbn; destruct (chan_open _); cbn; done.
Qed.

(** C33: between validation and block management nothing is reordered or
    duplicated, and nothing is stuck: the batches taken out of the queue, then
    what is still queued, are the transactions received, in order; a batch has at
    least one and at most [DISSEM_BATCH_SIZE] transactions; block management gets
    all batches but those whose dissemination failed, which the node loses; and
    the timer runs as long as something is queued. *)
Theorem txn_dissem_fifo stage pm hist log s :
  td_run stage pm hist log s →
  concat log.*2 ++ (td_batch s).*2 = hist.*2 ∧
  td_ready s = reverse (filter (λ x : bool * list (Txn * TxnCtx), x.1 = true) log).*2 ∧
  Forall (λ x : bool * list (Txn * TxnCtx), 0 < length x.2 ≤ DISSEM_BATCH_SIZE)%nat log ∧
  (td_batch s ≠ [] → td_timer s = true).
Proof.
  assert (∀ (hist : list (NodeId * (Txn * TxnCtx))) s expired (b : bool) log,
    concat log.*2 ++ (td_batch s).*2 = hist.*2 → td_can_send expired s = true →
    concat (log ++ [(b, (take DISSEM_BATCH_SIZE (td_batch s)).*2)]).*2 ++
      (drop DISSEM_BATCH_SIZE (td_batch s)).*2 = hist.*2 ∧
    (0 < length (take DISSEM_BATCH_SIZE (td_batch s)).*2 ≤ DISSEM_BATCH_SIZE)%nat ∧
    td_timer s = true) as Hstep.
  { clear. intros hist s expired b log Hcat Hcan. unfold td_can_send in Hcan.
    apply andb_true_iff in Hcan as [[Ht Hne%negb_true_iff%bool_decide_eq_false]%andb_true_iff _].
    split_and!; [|rewrite length_fmap, length_take..|done].
    - rewrite fmap_app, concat_app. cbn. rewrite app_nil_r, <- app_assoc, <- fmap_app, take_drop. done.
    - destruct (td_batch s); [done|]. cbn. unfold DISSEM_BATCH_SIZE. lia.
    - lia. }
  induction 1 as [|hist log s batch u s' _ IH Heq|hist log s expired u s' _ IH Hcan Heq
                 |hist log s expired e s' _ IH Hcan Heq].
  - done.
  - unfold td_recv in Heq. m_inv. cbn. destruct IH as (Hcat & Hr & Hb & _).
    split_and!; [|done..]. by rewrite !fmap_app, app_assoc, Hcat.
  - destruct IH as (Hcat & Hr & Hb & _). destruct (Hstep hist s expired true log) as (? & ? & Ht); [done..|].
    destruct (td_send_frame s) as (Hbatch & Htimer & Hready). rewrite Heq in *. cbn in Hbatch, Htimer, Hready.
    rewrite Hbatch. split_and!; [done| |by apply Forall_app_2; [|constructor]|].
    + rewrite Hready, Hr, filter_app, fmap_app, filter_cons_True, filter_nil by done.
      by rewrite reverse_app.
    + rewrite <- Hbatch. intros Hn. by rewrite Htimer.
  - destruct IH as (Hcat & Hr & Hb & _). destruct (Hstep hist s expired false log) as (? & ? & Ht); [done..|].
    destruct (td_send_frame s) as (Hbatch & Htimer & Hready). rewrite Heq in *. cbn in Hbatch, Htimer, Hready.
    rewrite Hbatch. split_and!; [done| |by apply Forall_app_2; [|constructor]|].
    + rewrite Hready, Hr, filter_app, fmap_app, filter_cons_False, filter_nil by done.
      cbn. by rewrite app_nil_r.
    + rewrite <- Hbatch. intros Hn. by rewrite Htimer.
Qed.
End Thread.

(** ** Concrete runs *)

#[local] Existing Instances sample_transport sample_channel canonical_order.

Definition w_t1 : Txn := TDummy (mkDummyTxn 5 [] [] []).
Definition w_t2 : Txn := TDummy (mkDummyTxn 6 [] [] []).

(** Node 1, with neighbors 2 and 3: one transaction of its own, one from 2. *)
Lemma gossip_txns_reach_neighbors_witness :
  ∃ calls, pm_wire (gossip_txns 1 [(1, w_t1); (2, w_t2)] sample_messenger).2 =
      calls ++ pm_wire sample_messenger ∧
    ∃ dests l, HubMulticast dests (NewTxn l) ∈ calls ∧ 3 ∈ dests ∧ w_t2 ∈ l.
Proof.
  destruct (gossip_txns_reach_neighbors 1 [(1, w_t1); (2, w_t2)] sample_messenger
    (gossip_txns 1 [(1, w_t1); (2, w_t2)] sample_messenger).2) as (calls & Hw & _ & Hreach).
  { by vm_compute. }
  exists calls. split; [done|]. apply (Hreach 2 w_t2 3); [set_solver|by vm_compute; set_solver|done|done].
Defined.

Lemma linear_chain_relays_witness :
  ∃ prev, linear_new 5 [4; 5; 6] = Ok (BDLinear prev (Some 6)) ∧ prev = 4.
Proof.
  destruct (linear_chain_relays [4; 5; 6] 1 5) as (prev & Heq & _ & Hp & _).
  - apply (bool_decide_unpack _). by vm_compute.
  - done.
  - exists prev. split; [exact Heq|]. specialize (Hp O eq_refl). by injection Hp.
Defined.

Definition w_td0 : TxnDissemThread := mkTxnDissemThread (TDGossip 1) sample_messenger [] false [].
Definition w_td1 : TxnDissemThread := (td_recv [(1, (w_t1, mkTxnCtx 5))] w_td0).2.
Definition w_td2 : TxnDissemThread := (td_send w_td1).2.

Lemma w_td_run :
  td_run (TDGossip 1) sample_messenger [(1, (w_t1, mkTxnCtx 5))] [(true, [(w_t1, mkTxnCtx 5)])] w_td2.
Proof.
  assert (td_run (TDGossip 1) sample_messenger [(1, (w_t1, mkTxnCtx 5))] [] w_td1) as H1.
  { by apply (td_run_recv _ _ [] [] w_td0 _ tt); [constructor|vm_compute]. }
  by apply (td_run_send _ _ _ _ _ true tt w_td2 H1); vm_compute.
Qed.

Lemma txn_dissem_fifo_witness : td_ready w_td2 = reverse [[(w_t1, mkTxnCtx 5)]].
Proof. apply (txn_dissem_fifo _ _ _ _ _ w_td_run). Defined.
