(* ===== verification/AvaMgmt.v ===== *)
(** * Avalanche block management: the operations

    src/src/stage/consensus/block_management/avalanche/basic.rs: transactions
    wait in a DAG until their parents are proposed; the frontier of the DAG is
    cut into batches; a block of a peer is filtered (invalid transactions become
    placeholders) and, when inputs are missing, put off until the peer has sent
    them, one depth after the other. *)

From S2P Require Import Prelude F64 Protocol Peers Config TxnValidation.
From S2P Require BtcMgmt.
Local Open Scope N_scope.

Record DagNode := mkDagNode { num_parents : N; children : gset Hash }.
#[export] Instance DagNode_eta : Eta DagNode := λ r, mkDagNode (num_parents r) (children r).

(** The request for missing inputs. *)
Record PeerReq := mkPeerReq {
  pr_proposer : NodeId; pr_blk_id : N; pr_depth : N; pr_dep_set : list Hash }.

Record AvalancheBM := mkAvalancheBM {
  am_id : NodeId;
  blk_len : nat;
  txn_pool : gmap Hash (Txn * TxnCtx);
  txn_dag : gmap Hash DagNode;
  dag_frontier : list Hash;
  (* fields for constructing new batch of txns *)
  blk_counter : N;
  curr_batch : list Hash;
  next_propose_time : Instant;
  proposal_timeout : N;
  (* for requesting missing txns *)
  peer_messenger : PeerMessenger;
  pending_blks : gmap (NodeId * N * N) (list Txn * list TxnCtx * list nat);
  (* for control loop *)
  blk_quota : N;
  (* for reporting data and debugging *)
  blk_quota_recved : N;
  blk_queries_sent : N;
  txns_queried : N;
}.
#[export] Instance AvalancheBM_eta : Eta AvalancheBM := λ r,
  mkAvalancheBM (am_id r) (blk_len r) (txn_pool r) (txn_dag r) (dag_frontier r) (blk_counter r)
    (curr_batch r) (next_propose_time r) (proposal_timeout r) (peer_messenger r) (pending_blks r)
    (blk_quota r) (blk_quota_recved r) (blk_queries_sent r) (txns_queried r).

Definition am_new (id : NodeId) (config : AvalancheBasicConfig) (pm : PeerMessenger)
    (now : Instant) : res AvalancheBM :=
  proposal_timeout ← from_secs_f64 (cf_proposal_timeout_secs config);
  Ok (mkAvalancheBM id (N.to_nat (cf_blk_len config)) ∅ ∅ [] 0 [] (now + proposal_timeout)
    proposal_timeout pm ∅ 0 0 0 0).

(** Enter a transaction into the children of those of its inputs that are in the
    DAG, and count them. *)
Fixpoint link_parents (txn_hash : Hash) (in_utxo : list Hash) (dag : gmap Hash DagNode) (n : N) :
    gmap Hash DagNode * N :=
  match in_utxo with
  | [] => (dag, n)
  | parent :: rest =>
    match dag !! parent with
    | Some node =>
      link_parents txn_hash rest (<[parent := node <| children ::= λ c, {[txn_hash]} ∪ c |>]> dag) (n + 1)
    | None => link_parents txn_hash rest dag n
    end
  end.

Section Methods.
Context `{BuildProfile} `{HashOrder}.

(** The collection of the inputs and the sum of their values are those of
    [avax_validate_txn]; here a [Noop] is accepted. *)
Definition am_validate_txn (pool : gmap Hash (Txn * TxnCtx)) (txn : AvalancheTxn) :
    res (bool + list Hash) :=
  match txn with
  | ASend txn_sender txn_in_utxo _ txn_out_utxo txn_remainder _ =>
    r ← avax_collect pool txn_in_utxo;
    if decide (r.2 = []) then
      iv ← avax_sum txn_sender r.1 0;
      match iv with
      | None => Ok (inl false)
      | Some input_value =>
        out ← u64_add txn_out_utxo txn_remainder; Ok (inl (bool_decide (input_value = out)))
      end
    else Ok (inr r.2)
  | AGrant _ _ _ | ANoop _ => Ok (inl true)
  | APlaceHolder => Panic
  end.

Definition avax_txn_of (txn : Txn) : res AvalancheTxn :=
  match txn with TAvalanche t => Ok t | _ => Panic end.

Definition am_record_new_txn (txn : Txn) (ctx : TxnCtx) : M AvalancheBM bool :=
  let txn_hash := tc_id ctx in
  pool ← gets txn_pool;
  match pool !! txn_hash with
  | Some _ => mret false
  | None =>
    avax_txn ← lift_res (avax_txn_of txn);
    modify (λ s, s <| txn_pool ::= <[txn_hash := (txn, ctx)]> |>) ;;
    parents ← (match avax_txn with
               | AGrant _ _ _ => mret []
               | ASend _ in_utxo _ _ _ _ => mret in_utxo
               | ANoop _ | APlaceHolder => panic
               end);
    dag ← gets txn_dag;
    let r := link_parents txn_hash parents dag 0 in
    modify (λ s, s <| txn_dag := <[txn_hash := mkDagNode (N.of_nat (length parents)) ∅]> r.1 |>) ;;
    (if decide (r.2 = 0) then modify (λ s, s <| dag_frontier ::= λ f, f ++ [txn_hash] |>)
     else mret tt) ;;
    mret true
  end.

(** A parent leaves the DAG: its children have one parent less, and those that
    have none left join the frontier. *)
Fixpoint release_children (cs : list Hash) : M AvalancheBM unit :=
  match cs with
  | [] => mret tt
  | child :: rest =>
    dag ← gets txn_dag;
    match dag !! child with
    | None => release_children rest
    | Some child_node =>
      n ← lift_res (u64_sub (num_parents child_node) 1);
      modify (λ s, s <| txn_dag ::= <[child := child_node <| num_parents := n |>]> |>) ;;
      (if decide (n = 0) then modify (λ s, s <| dag_frontier ::= λ f, f ++ [child] |>) else mret tt) ;;
      release_children rest
    end
  end.

(** [fuel] bounds the number of rounds. *)
Fixpoint am_prepare_new_block (fuel : nat) : M AvalancheBM BtcMgmt.CurBlockState :=
  match fuel with
  | O => out_of_fuel
  | S fuel' =>
    s ← gets (λ s, s);
    if decide (blk_len s ≤ length (curr_batch s))%nat then mret BtcMgmt.Full
    else match dag_frontier s with
    | [] => mret BtcMgmt.EmptyMempool
    | next_txn :: frontier =>
      modify (λ s, s <| dag_frontier := frontier |>) ;;
      match txn_dag s !! next_txn with
      | None => am_prepare_new_block fuel'
      | Some node =>
        modify (λ s, s <| txn_dag ::= delete next_txn |>) ;;
        release_children (set_iter (children node)) ;;
        modify (λ s, s <| curr_batch ::= λ b, b ++ [next_txn] |>) ;;
        am_prepare_new_block fuel'
      end
    end
  end.

(** Does [wait_to_propose] return at [now]? *)
Definition am_wait_to_propose (now : Instant) (s : AvalancheBM) : bool :=
  if decide (blk_quota s = 0 ∨ length (curr_batch s) = O) then false
  else if decide (blk_len s ≤ length (curr_batch s))%nat then true
  else bool_decide (next_propose_time s ≤ now).

Context `{Externals} `{!Bincode BlockHeader} `{!Bincode AvalancheTxn} `{!Bincode BitcoinTxn}
  `{!Bincode PeerReq} `{Transport}.

Definition am_get_new_block (now : Instant) (rand : bytes) : M AvalancheBM (Block * BlkCtx) :=
  s ← gets (λ s, s);
  massert (bool_decide (0 < blk_quota s)) ;;
  modify (λ s, s <| curr_batch := [] |>) ;;
  txns_with_ctx ← lift_res (lookup_all (txn_pool s) (curr_batch s));
  let header := HAvalanche (am_id s) (blk_counter s) 0 in
  blk_ctx ← lift_res (BlkCtx_from_header_and_txns rand header (txns_with_ctx.*2));
  let blk := mkBlock header (txns_with_ctx.*1) in
  modify (λ s, s <| blk_counter ::= N.succ |> <| next_propose_time := now + proposal_timeout s |>
                 <| blk_quota ::= N.pred |>) ;;
  mret (blk, blk_ctx).

(** ** [validate_block] *)

(** Its local variables while it goes through the transactions. *)
Record scan := mkScan {
  filtered_txns : list Txn;
  blk_txn_ctx : list TxnCtx;
  blk_missing_deps : list Hash;
  recheck_txn_idx : list nat;
  pending_frontier : list Hash;
}.
#[export] Instance scan_eta : Eta scan := λ r,
  mkScan (filtered_txns r) (blk_txn_ctx r) (blk_missing_deps r) (recheck_txn_idx r)
    (pending_frontier r).

Definition keep (txn : Txn) (ctx : TxnCtx) (sc : scan) : scan :=
  sc <| filtered_txns ::= λ l, l ++ [txn] |> <| blk_txn_ctx ::= λ l, l ++ [ctx] |>.

(** The placeholder for an invalid transaction, with its context. *)
Definition placeholder : res (Txn * TxnCtx) :=
  let txn := TAvalanche APlaceHolder in
  txn_ctx ← TxnCtx_from_txn txn; Ok (txn, txn_ctx).

(** Enter a valid payment: into the pool, into the DAG, and into the pending
    frontier (returned) if none of its inputs is in the DAG. *)
Definition add_valid (txn : Txn) (txn_ctx : TxnCtx) (in_utxo : list Hash) (pending : list Hash) :
    M AvalancheBM (list Hash) :=
  let txn_hash := tc_id txn_ctx in
  modify (λ s, s <| txn_pool ::= <[txn_hash := (txn, txn_ctx)]> |>) ;;
  dag ← gets txn_dag;
  let r := link_parents txn_hash in_utxo dag 0 in
  modify (λ s, s <| txn_dag := <[txn_hash := mkDagNode r.2 ∅]> r.1 |>) ;;
  mret (if decide (r.2 = 0) then pending ++ [txn_hash] else pending).

(** One round of the loop over the block's transactions. *)
Definition scan_txn (idx : nat) (txn : Txn) (txn_ctx : TxnCtx) (sc : scan) : M AvalancheBM scan :=
  let txn_hash := tc_id txn_ctx in
  s ← gets (λ s, s);
  match txn_pool s !! txn_hash with
  | Some (_, known_ctx) =>
    let ready := match txn_dag s !! txn_hash with
                 | Some dag_node => bool_decide (num_parents dag_node = 0) | None => false end in
    mret ((keep txn known_ctx sc) <| pending_frontier ::= λ f, if ready then f ++ [txn_hash] else f |>)
  | None =>
    avax_txn ← lift_res (avax_txn_of txn);
    match avax_txn with
    | ANoop _ | APlaceHolder => mret (keep txn txn_ctx sc)
    | AGrant _ _ _ =>
      modify (λ s, s <| txn_pool ::= <[txn_hash := (txn, txn_ctx)]> |>
                     <| txn_dag ::= <[txn_hash := mkDagNode 0 ∅]> |>) ;;
      mret ((keep txn txn_ctx sc) <| pending_frontier ::= λ f, f ++ [txn_hash] |>)
    | ASend _ in_utxo _ _ _ _ =>
      verdict ← lift_res (am_validate_txn (txn_pool s) avax_txn);
      match verdict with
      | inl true =>
        pending ← add_valid txn txn_ctx in_utxo (pending_frontier sc);
        mret ((keep txn txn_ctx sc) <| pending_frontier := pending |>)
      | inl false =>
        p ← lift_res placeholder;
        mret (keep p.1 p.2 sc)
      | inr txn_missing_deps =>
        mret ((keep txn txn_ctx sc) <| blk_missing_deps ::= λ l, l ++ txn_missing_deps |>
                <| recheck_txn_idx ::= λ l, l ++ [idx] |>)
      end
    end
  end.

Fixpoint scan_txns (idx : nat) (l : list (Txn * TxnCtx)) (sc : scan) : M AvalancheBM scan :=
  match l with
  | [] => mret sc
  | (txn, ctx) :: l' => sc' ← scan_txn idx txn ctx sc; scan_txns (S idx) l' sc'
  end.

(** [while let Some(txn) = pending.pop() { dag_frontier.push_front(txn) }] *)
Definition flush_frontier (pending : list Hash) : M AvalancheBM unit :=
  modify (λ s, s <| dag_frontier ::= λ f, pending ++ f |>).

(** Check again a transaction of a block that was put off. *)
Definition recheck_txn (idx : nat) (st : list Txn * list TxnCtx * list Hash) :
    M AvalancheBM (list Txn * list TxnCtx * list Hash) :=
  let '(curr_txns, curr_txn_ctx, pending) := st in
  txn ← unwrap (curr_txns !! idx);
  txn_ctx ← unwrap (curr_txn_ctx !! idx);
  s ← gets (λ s, s);
  match txn_pool s !! tc_id txn_ctx with
  | Some _ => mret st
  | None =>
    avax_txn ← lift_res (avax_txn_of txn);
    match avax_txn with
    | ASend _ in_utxo _ _ _ _ =>
      verdict ← lift_res (am_validate_txn (txn_pool s) avax_txn);
      (* [unwrap_or(false)] *)
      if decide (verdict = inl true) then
        pending' ← add_valid txn txn_ctx in_utxo pending;
        mret (curr_txns, curr_txn_ctx, pending')
      else
        p ← lift_res placeholder;
        mret (<[idx := p.1]> curr_txns, <[idx := p.2]> curr_txn_ctx, pending)
    | _ => mret st
    end
  end.

Fixpoint recheck_txns (idxs : list nat) (st : list Txn * list TxnCtx * list Hash) :
    M AvalancheBM (list Txn * list TxnCtx * list Hash) :=
  match idxs with
  | [] => mret st
  | idx :: idxs' => st' ← recheck_txn idx st; recheck_txns idxs' st'
  end.

(** The blocks put off, from [curr_depth - 1] down to 0; [None]: one of them was
    not asked for ([return Ok(vec![])]). *)
Fixpoint resolve (proposer : NodeId) (blk_id : N) (curr_depth : nat)
    (st : list Txn * list TxnCtx * list Hash) :
    M AvalancheBM (option (list Txn * list TxnCtx * list Hash)) :=
  match curr_depth with
  | O => mret (Some st)
  | S curr_depth' =>
    let key := (proposer, blk_id, N.of_nat curr_depth') in
    pending ← gets pending_blks;
    match pending !! key with
    | None => mret None
    | Some (curr_txns, curr_txn_ctx, recheck_idx) =>
      modify (λ s, s <| pending_blks ::= delete key |>) ;;
      st' ← recheck_txns recheck_idx (curr_txns, curr_txn_ctx, st.2);
      (* only the block at depth 0 replaces the transactions *)
      resolve proposer blk_id curr_depth'
        (if decide (curr_depth' = O) then st' else (st.1, st'.2))
    end
  end.

Definition am_validate_block (rand : bytes) (block : Block) (blk_ctx : BlkCtx) :
    M AvalancheBM (list (Block * BlkCtx)) :=
  massert (bool_decide (length (txns block) = length (bc_txn_ctx blk_ctx))) ;;
  match header block with
  | HAvalanche proposer blk_id depth =>
    sc ← scan_txns O (zip (txns block) (bc_txn_ctx blk_ctx)) (mkScan [] [] [] [] []);
    massert (bool_decide (length (filtered_txns sc) = length (txns block))) ;;
    if decide (0 < length (blk_missing_deps sc))%nat then
      flush_frontier (pending_frontier sc) ;;
      modify (λ s, s <| blk_queries_sent ::= N.succ |>
                     <| txns_queried ::= N.add (N.of_nat (length (blk_missing_deps sc))) |>) ;;
      msg ← lift_res (of_result (serialize (mkPeerReq proposer blk_id depth (blk_missing_deps sc))));
      zoom peer_messenger (λ p s, s <| peer_messenger := p |>) (pm_send proposer (BlockReq msg)) ;;
      modify (λ s, s <| pending_blks ::=
        <[(proposer, blk_id, depth) := (filtered_txns sc, blk_txn_ctx sc, recheck_txn_idx sc)]> |>) ;;
      mret []
    else
      o ← resolve proposer blk_id (N.to_nat depth)
            (filtered_txns sc, blk_txn_ctx sc, pending_frontier sc);
      match o with
      | None => mret []
      | Some (filtered, ctxs, pending) =>
        flush_frontier pending ;;
        ctx ← lift_res (BlkCtx_from_header_and_txns rand (header block) ctxs);
        mret [(mkBlock (HAvalanche proposer blk_id 0) filtered, ctx)]
      end
  | _ => panic
  end.

Definition am_handle_pmaker_msg (_msg : bytes) : M AvalancheBM unit :=
  modify (λ s, s <| blk_quota ::= N.succ |> <| blk_quota_recved ::= N.succ |>).

Definition am_handle_peer_blk_req (peer : NodeId) (msg : bytes) : M AvalancheBM unit :=
  peer_req ← lift_res (of_result (deserialize msg));
  pool ← gets txn_pool;
  let txns := omap (λ hash, fst <$> pool !! hash) (pr_dep_set peer_req) in
  depth ← lift_res (u64_add (pr_depth peer_req) 1);
  zoom peer_messenger (λ p s, s <| peer_messenger := p |>)
    (pm_send peer (NewBlock (mkBlock (HAvalanche (pr_proposer peer_req) (pr_blk_id peer_req) depth) txns))).

Definition am_report : M AvalancheBM unit :=
  modify (λ s, s <| blk_quota_recved := 0 |> <| blk_queries_sent := 0 |> <| txns_queried := 0 |>).
End Methods.

(** ** vote_no.rs: a node that answers no to every query

    The block is passed on unchanged; nothing is recorded or proposed. *)
Definition vote_no_validate_block (block : Block) (ctx : BlkCtx) : res (list (Block * BlkCtx)) :=
  Ok [(block, ctx)].
Definition vote_no_record_new_txn (_txn : Txn) (_ctx : TxnCtx) : res bool := Ok false.
Definition vote_no_prepare_new_block : res BtcMgmt.CurBlockState := Ok BtcMgmt.Full.
