(* ===== verification/AvaMgmtProps.v ===== *)
(** * Avalanche block management: properties

    The DAG of transactions waiting to be proposed: its invariant, the order of
    proposals, the transactions that are never proposed, and what validated
    blocks hold. *)

From S2P Require Import Prelude F64 Protocol Peers Config Samples TxnValidation TxnValProps AvaMgmt.
From S2P Require BtcMgmt.
Local Open Scope N_scope.

(** ** Counting the parents that are still in the DAG *)

Definition indeg (dag : gmap Hash DagNode) (c : Hash) : nat :=
  size (filter (λ kv : Hash * DagNode, c ∈ children kv.2) dag).

Section Indeg.
Implicit Types (dag : gmap Hash DagNode).

Lemma indeg_zero dag c :
  indeg dag c = O ↔ ∀ p node, dag !! p = Some node → c ∉ children node.
Proof.
  unfold indeg. rewrite map_size_empty_iff. split.
  - intros Hemp p node Hp Hc.
    assert (filter (λ kv : Hash * DagNode, c ∈ children kv.2) dag !! p = Some node) as Hf
      by (by apply map_lookup_filter_Some).
    by rewrite Hemp, lookup_empty in Hf.
  - intros Hno. apply map_empty_filter. intros p node Hp. cbn. by eapply Hno.
Qed.

Lemma indeg_insert_leaf dag h n c :
  dag !! h = None → indeg (<[h := mkDagNode n ∅]> dag) c = indeg dag c.
Proof.
  intros Hh. unfold indeg. rewrite map_filter_insert_False by (cbn; set_solver).
  by rewrite delete_id.
Qed.

Lemma indeg_update dag p node node' c :
  dag !! p = Some node → (c ∈ children node' ↔ c ∈ children node) →
  indeg (<[p := node']> dag) c = indeg dag c.
Proof.
  intros Hp Hc. unfold indeg. destruct (decide (c ∈ children node)) as [Hin|Hout].
  - rewrite map_filter_insert_True by (cbn; by apply Hc).
    rewrite map_size_insert_Some; [done|].
    exists node. by apply map_lookup_filter_Some.
  - rewrite map_filter_insert_False by (cbn; by rewrite Hc).
    f_equal. apply map_eq. intros i. rewrite !map_lookup_filter.
    destruct (decide (i = p)) as [->|].
    + rewrite lookup_delete_eq, Hp. cbn. by rewrite option_guard_False.
    + by rewrite lookup_delete_ne.
Qed.

Lemma indeg_delete dag h node c :
  dag !! h = Some node →
  indeg dag c = (indeg (delete h dag) c + if decide (c ∈ children node) then 1 else 0)%nat.
Proof.
  intros Hh. unfold indeg. rewrite map_filter_delete. case_decide as Hc.
  - rewrite map_size_delete_Some by (exists node; by apply map_lookup_filter_Some).
    assert (size (filter (λ kv : Hash * DagNode, c ∈ children kv.2) dag) ≠ O); [|lia].
    rewrite map_size_non_empty_iff. intros Hemp.
    assert (filter (λ kv : Hash * DagNode, c ∈ children kv.2) dag !! h = Some node) as Hf
      by (by apply map_lookup_filter_Some).
    by rewrite Hemp, lookup_empty in Hf.
  - rewrite map_size_delete_None by (apply map_lookup_filter_None; right; naive_solver). lia.
Qed.

(** Gaining a child. *)
Lemma indeg_add_child dag p node h c :
  dag !! p = Some node →
  (indeg (<[p := node <| children ::= λ s, {[h]} ∪ s |>]> dag) c ≤
   indeg dag c + if decide (c = h) then 1 else 0)%nat ∧
  (c ≠ h → indeg (<[p := node <| children ::= λ s, {[h]} ∪ s |>]> dag) c = indeg dag c).
Proof.
  intros Hp. case_decide as Hc.
  - subst c. split; [|done].
    rewrite (indeg_delete dag p node h Hp).
    rewrite (indeg_delete (<[p := _]> dag) p (node <| children ::= λ s, {[h]} ∪ s |>) h)
      by apply lookup_insert_eq.
    rewrite delete_insert_eq. cbn. repeat case_decide; lia.
  - assert (indeg (<[p := node <| children ::= λ s, {[h]} ∪ s |>]> dag) c = indeg dag c) as Heq.
    { apply (indeg_update _ _ node); [done|]. cbn. set_solver. }
    split; [lia|done].
Qed.

(** [link_parents]: the same nodes with the same counts, the new edges, and no
    more of them than counted. *)
Lemma link_parents_spec h ins dag n :
  let r := link_parents h ins dag n in
  (∀ p, (num_parents <$> r.1 !! p) = (num_parents <$> dag !! p)) ∧
  (∀ p node', r.1 !! p = Some node' → ∃ node, dag !! p = Some node ∧
     children node ⊆ children node' ∧ (p ∈ ins → h ∈ children node') ∧
     children node' ⊆ {[h]} ∪ children node) ∧
  (∀ c, c ≠ h → indeg r.1 c = indeg dag c) ∧
  n ≤ r.2 ≤ n + N.of_nat (length ins) ∧
  N.of_nat (indeg r.1 h) + n ≤ N.of_nat (indeg dag h) + r.2.
Proof.
  revert dag n. induction ins as [|p ins IH]; intros dag n; cbn [link_parents]; cbn zeta.
  { cbn. split_and!; try done; [|lia..]. intros q node' Hq. exists node'. split_and!; [done..|set_solver|set_solver]. }
  destruct (dag !! p) as [node|] eqn:Hp.
  - set (node1 := node <| children ::= λ c, {[h]} ∪ c |>).
    destruct (indeg_add_child dag p node h h Hp) as [Hle _]. rewrite decide_True in Hle by done.
    destruct (IH (<[p := node1]> dag) (n + 1)) as (Hnum & Hch & Hin & Hn & Hh).
    split_and!.
    + intros q. rewrite Hnum. destruct (decide (q = p)) as [->|];
        [by rewrite lookup_insert_eq, Hp|by rewrite lookup_insert_ne].
    + intros q node' Hq. destruct (Hch q node' Hq) as (node2 & Hq2 & Hsub & Hins & Hsup).
      apply lookup_insert_Some in Hq2 as [[<- <-]|[Hne Hq2]].
      * exists node. cbn in *. split_and!; [done|set_solver..].
      * exists node2. split_and!; [done|done| |done]. intros [->|?]%elem_of_cons; [done|by apply Hins].
    + intros c Hc. rewrite (Hin c Hc). by apply (indeg_add_child dag p node h c Hp).
    + lia.
    + cbn [length]. lia.
    + fold node1 in Hle. lia.
  - destruct (IH dag n) as (Hnum & Hch & Hin & Hn & Hh). split_and!; [done| |done|lia|cbn [length]; lia|lia].
    intros q node' Hq. destruct (Hch q node' Hq) as (node2 & Hq2 & Hsub & Hins & Hsup).
    exists node2. split_and!; [done|done| |done].
    intros [->|?]%elem_of_cons; [congruence|by apply Hins].
Qed.
End Indeg.

(** ** The invariant *)

(** A transaction that may be proposed: no node of the DAG has it as a child, and
    its counter has no surplus ([x], below). *)
Definition frontier_ok (x : Hash → N) (s : AvalancheBM) (l : list Hash) : Prop :=
  ∀ h, h ∈ l → h ∈ dom (txn_pool s) ∧ indeg (txn_dag s) h = O ∧ x h = 0.

(** [log]: the transactions put into batches so far, in order; [cs]: the children
    of a node that has just left the DAG and that are still to be told; [x]: how
    much the counter of a node exceeds the number of its parents in the DAG, at
    least. *)
Record dag_inv (x : Hash → N) (cs : list Hash) (log : list Hash) (s : AvalancheBM) : Prop := {
  di_inputs : ∀ h t c, txn_pool s !! h = Some (t, c) → ∀ p, p ∈ avax_inputs t → p ∈ dom (txn_pool s);
  di_dom : dom (txn_dag s) ⊆ dom (txn_pool s);
  di_children : ∀ p node c, txn_dag s !! p = Some node → c ∈ children node → c ∈ dom (txn_dag s);
  di_count : ∀ c node, txn_dag s !! c = Some node →
    N.of_nat (indeg (txn_dag s) c) + (if decide (c ∈ cs) then 1 else 0) + x c ≤ num_parents node;
  di_edges : ∀ h t c p node, txn_pool s !! h = Some (t, c) → h ∈ dom (txn_dag s) →
    p ∈ avax_inputs t → txn_dag s !! p = Some node → h ∈ children node;
  di_frontier : frontier_ok x s (dag_frontier s);
  di_log : ∀ h, h ∈ dom (txn_pool s) → h ∈ dom (txn_dag s) ∨ h ∈ log;
  di_log_nodup : NoDup log;
  di_log_out : ∀ h, h ∈ log → h ∈ dom (txn_pool s) ∧ h ∉ dom (txn_dag s);
  di_topo : ∀ l1 h l2, log = l1 ++ h :: l2 → ∀ t c, txn_pool s !! h = Some (t, c) →
    ∀ p, p ∈ avax_inputs t → p ∈ l1;
  di_surplus : ∀ c, 0 < x c → c ∈ dom (txn_dag s);
}.

(** The part of the state the invariant reads. *)
Lemma dag_inv_frame x cs log s s' :
  txn_pool s' = txn_pool s → txn_dag s' = txn_dag s → frontier_ok x s (dag_frontier s') →
  dag_inv x cs log s → dag_inv x cs log s'.
Proof.
  intros Hp Hd Hf []. split; unfold frontier_ok in *; rewrite ?Hp, ?Hd; assumption.
Qed.

Section Inv.
Context (x : Hash → N).

(** Entering a new transaction whose inputs are all known. *)
Lemma dag_inv_add log s h t ctx n :
  dag_inv x [] log s → txn_pool s !! h = None →
  (∀ p, p ∈ avax_inputs t → p ∈ dom (txn_pool s)) →
  let r := link_parents h (avax_inputs t) (txn_dag s) 0 in
  r.2 ≤ n →
  let s' := s <| txn_pool ::= <[h := (t, ctx)]> |> <| txn_dag := <[h := mkDagNode n ∅]> r.1 |> in
  dag_inv x [] log s' ∧
  (r.2 = 0 → indeg (txn_dag s') h = O) ∧ x h = 0 ∧ h ∈ dom (txn_dag s') ∧
  (∀ l, frontier_ok x s l → frontier_ok x s' l).
Proof.
  intros Hinv Hnew Hins r Hn s'.
  pose proof (link_parents_spec h (avax_inputs t) (txn_dag s) 0) as Hspec. fold r in Hspec.
  destruct Hspec as (Hnum & Hch & Hin & Hr & Hh).
  assert (h ∉ dom (txn_pool s)) as Hpool by (by apply not_elem_of_dom).
  assert (txn_dag s !! h = None) as Hdag.
  { apply not_elem_of_dom. intros Hd. by apply Hpool, (di_dom _ _ _ _ Hinv). }
  assert (dom r.1 = dom (txn_dag s)) as Hdom.
  { apply set_eq. intros p. rewrite !elem_of_dom. specialize (Hnum p).
    destruct (r.1 !! p), (txn_dag s !! p); cbn in Hnum; naive_solver. }
  assert (r.1 !! h = None) as Hrh by (apply not_elem_of_dom; rewrite Hdom; by apply not_elem_of_dom).
  assert (indeg (txn_dag s) h = O) as H0.
  { apply indeg_zero. intros p node Hp Hc. eapply (di_children _ _ _ _ Hinv) in Hp; [|exact Hc].
    apply elem_of_dom in Hp as [? Hp]. congruence. }
  assert (x h = 0) as Hxh.
  { destruct (decide (x h = 0)) as [|Hx]; [done|].
    assert (h ∈ dom (txn_dag s)) as Hd by (apply (di_surplus _ _ _ _ Hinv); lia).
    apply elem_of_dom in Hd as [? ?]. congruence. }
  assert (Hindeg : ∀ c, c ≠ h → indeg (txn_dag s') c = indeg (txn_dag s) c).
  { intros c Hc. cbn. rewrite indeg_insert_leaf by done. by apply Hin. }
  assert (Hfront : ∀ l, frontier_ok x s l → frontier_ok x s' l).
  { intros l Hl c Hc. destruct (Hl c Hc) as (Hd & Hi & Hx).
    assert (c ≠ h) by (intros ->; done). rewrite Hindeg by done. cbn. rewrite dom_insert_L.
    split_and!; [set_solver|done|done]. }
  split_and!; [|intros Hz; cbn; rewrite indeg_insert_leaf by done; lia|done
               |cbn; rewrite dom_insert_L; set_solver|done].
  split.
  - intros h' t' c'. cbn. rewrite lookup_insert_Some, dom_insert_L. intros [[<- [= <- <-]]|[_ Hp]] p Hpi.
    + apply elem_of_union_r, Hins, Hpi.
    + apply elem_of_union_r. by eapply (di_inputs _ _ _ _ Hinv).
  - cbn. rewrite !dom_insert_L, Hdom. pose proof (di_dom _ _ _ _ Hinv). set_solver.
  - intros p node c. cbn. rewrite lookup_insert_Some, dom_insert_L, Hdom. intros [[<- <-]|[_ Hp]] Hc; [by cbn in Hc; apply elem_of_empty in Hc|].
    destruct (Hch p node Hp) as (node0 & Hp0 & _ & _ & Hsup). apply Hsup in Hc.
    apply elem_of_union in Hc as [->%elem_of_singleton|Hc]; [set_solver|].
    apply elem_of_union_r. by eapply (di_children _ _ _ _ Hinv).
  - intros c node. cbn [decide]. rewrite decide_False by set_solver.
    destruct (decide (c = h)) as [->|Hne].
    + cbn. rewrite lookup_insert_eq, indeg_insert_leaf by done. intros [= <-]. cbn. lia.
    + rewrite Hindeg by done. cbn. rewrite lookup_insert_ne by done. intros Hc.
      specialize (Hnum c). rewrite Hc in Hnum. destruct (txn_dag s !! c) as [node0|] eqn:Hc0; [|done].
      cbn in Hnum. injection Hnum as Hnum. rewrite Hnum.
      pose proof (di_count _ _ _ _ Hinv c node0 Hc0) as Hcnt. rewrite decide_False in Hcnt by set_solver. lia.
  - intros h' t' c' p node. cbn. rewrite !lookup_insert_Some, dom_insert_L, Hdom.
    intros [[<- [= <- <-]]|[Hne Hp]] Hd Hpi [[<- <-]|[Hne' Hpn]].
    + exfalso. by apply Hpool, Hins.
    + destruct (Hch p node Hpn) as (? & _ & _ & Hto & _). by apply Hto.
    + exfalso. apply Hpool. by eapply (di_inputs _ _ _ _ Hinv).
    + destruct (Hch p node Hpn) as (node0 & Hp0 & Hsub & _). apply Hsub.
      eapply (di_edges _ _ _ _ Hinv); [done| |done|done]. set_solver.
  - apply Hfront, (di_frontier _ _ _ _ Hinv).
  - intros h'. cbn. rewrite !dom_insert_L, Hdom. intros [->%elem_of_singleton|Hd]%elem_of_union; [set_solver|].
    destruct (di_log _ _ _ _ Hinv h' Hd); set_solver.
  - apply (di_log_nodup _ _ _ _ Hinv).
  - intros h' Hl. cbn. rewrite !dom_insert_L, Hdom.
    destruct (di_log_out _ _ _ _ Hinv h' Hl) as [? ?]. set_solver.
  - intros l1 h' l2 Hlog t' c'. cbn. rewrite lookup_insert_Some. intros [[<- [= <- <-]]|[_ Hp]] p Hpi.
    + exfalso. apply Hpool, (di_log_out _ _ _ _ Hinv). rewrite Hlog. set_solver.
    + by eapply (di_topo _ _ _ _ Hinv).
  - intros c Hc. cbn. rewrite dom_insert_L, Hdom. apply elem_of_union_r. by apply (di_surplus _ _ _ _ Hinv).
Qed.

(** Taking a node out of the DAG, before its children are told. *)
Lemma dag_inv_pop log s h node cs :
  dag_inv x [] log s → txn_dag s !! h = Some node → indeg (txn_dag s) h = O → x h = 0 →
  (∀ c, c ∈ cs ↔ c ∈ children node) →
  dag_inv x cs (log ++ [h]) (s <| txn_dag ::= delete h |>).
Proof.
  intros Hinv Hh Hi Hx Hcs.
  assert (h ∈ dom (txn_dag s)) as Hd by (apply elem_of_dom; eauto).
  assert (h ∉ log) as Hlog by (intros Hl; by apply (di_log_out _ _ _ _ Hinv) in Hl as [_ ?]).
  assert (Hle : ∀ c, (indeg (delete h (txn_dag s)) c + (if decide (c ∈ cs) then 1 else 0))%nat =
    indeg (txn_dag s) c).
  { intros c. rewrite (indeg_delete _ _ node c Hh). repeat case_decide; naive_solver lia. }
  split; cbn.
  - apply (di_inputs _ _ _ _ Hinv).
  - pose proof (di_dom _ _ _ _ Hinv). rewrite dom_delete_L. set_solver.
  - intros p nd c [Hne Hp]%lookup_delete_Some Hc. rewrite dom_delete_L.
    assert (c ∈ dom (txn_dag s)) by (by eapply (di_children _ _ _ _ Hinv)).
    assert (c ≠ h); [|set_solver]. intros ->. rewrite indeg_zero in Hi. by eapply Hi.
  - intros c nd [Hne Hc]%lookup_delete_Some.
    pose proof (di_count _ _ _ _ Hinv c nd Hc) as Hcnt. rewrite decide_False in Hcnt by set_solver.
    specialize (Hle c). case_decide; lia.
  - intros h' t c p nd Hp Hd' Hpi [Hne Hpn]%lookup_delete_Some. rewrite dom_delete_L in Hd'.
    eapply (di_edges _ _ _ _ Hinv); [done|set_solver|done|done].
  - intros c Hc. cbn. destruct (di_frontier _ _ _ _ Hinv c Hc) as (? & ? & ?).
    specialize (Hle c). split_and!; [done|lia|done].
  - intros c Hc. rewrite dom_delete_L. destruct (decide (c = h)) as [->|]; [set_solver|].
    destruct (di_log _ _ _ _ Hinv c Hc); set_solver.
  - apply NoDup_app. split_and!; [apply (di_log_nodup _ _ _ _ Hinv)| |apply NoDup_singleton].
    intros c Hc ->%list_elem_of_singleton. done.
  - intros c. rewrite dom_delete_L. intros [Hc| ->%list_elem_of_singleton]%elem_of_app.
    + apply (di_log_out _ _ _ _ Hinv) in Hc. set_solver.
    + split; [by apply (di_dom _ _ _ _ Hinv)|set_solver].
  - intros l1 h' l2 Hsplit t c Hp p Hpi.
    destruct l2 as [|y l2 _] using rev_ind.
    + apply app_inj_tail in Hsplit as [<- <-].
      assert (p ∈ dom (txn_pool s)) as Hpp by (by eapply (di_inputs _ _ _ _ Hinv)).
      destruct (di_log _ _ _ _ Hinv p Hpp) as [Hpd|]; [|done].
      apply elem_of_dom in Hpd as [nd Hpd]. exfalso. rewrite indeg_zero in Hi.
      eapply Hi; [exact Hpd|]. by eapply (di_edges _ _ _ _ Hinv).
    + rewrite app_comm_cons, app_assoc in Hsplit. apply app_inj_tail in Hsplit as [Hsplit <-].
      by eapply (di_topo _ _ _ _ Hinv).
  - intros c Hc. rewrite dom_delete_L. apply (di_surplus _ _ _ _ Hinv) in Hc as ?.
    assert (c ≠ h) by (intros ->; lia). set_solver.
Qed.

Lemma dag_inv_told log s c cs nd n :
  dag_inv x (c :: cs) log s → NoDup (c :: cs) → txn_dag s !! c = Some nd → num_parents nd = n + 1 →
  dag_inv x cs log (s <| txn_dag ::= <[c := nd <| num_parents := n |>]> |>) ∧
  (n = 0 → c ∈ dom (txn_pool s) ∧
     indeg (txn_dag (s <| txn_dag ::= <[c := nd <| num_parents := n |>]> |>)) c = O ∧ x c = 0).
Proof.
  intros Hinv Hnd Hc Hn. apply NoDup_cons in Hnd as [Hcs Hnd].
  assert (dom (<[c := nd <| num_parents := n |>]> (txn_dag s)) = dom (txn_dag s)) as Hdom.
  { rewrite dom_insert_L. assert (c ∈ dom (txn_dag s)) by (apply elem_of_dom; eauto). set_solver. }
  assert (Hin : ∀ c', indeg (<[c := nd <| num_parents := n |>]> (txn_dag s)) c' = indeg (txn_dag s) c').
  { intros c'. by apply (indeg_update _ _ nd). }
  pose proof (di_count _ _ _ _ Hinv c nd Hc) as Hcnt. rewrite decide_True in Hcnt by set_solver.
  split.
  - destruct Hinv as [Hinputs Hd Hch Hcount Hedges Hfr Hlog Hlnd Hout Htopo Hsur].
    cbn in Hdom, Hin. split; unfold frontier_ok; cbn; rewrite ?Hdom; try done.
    + intros p node c' [[<- <-]|[_ Hp]]%lookup_insert_Some Hc'; by eapply Hch.
    + intros c' nd'. rewrite Hin. intros [[<- <-]|[Hne Hp]]%lookup_insert_Some.
      * rewrite decide_False by done. cbn. lia.
      * pose proof (Hcount c' nd' Hp) as Hcnt'. revert Hcnt'.
        destruct (decide (c' ∈ cs)); [rewrite decide_True by set_solver; lia|].
        case_decide; lia.
    + intros h t c' p node Hp Hdom' Hpi [[<- <-]|[_ Hpn]]%lookup_insert_Some; [exact (Hedges _ _ _ _ nd Hp Hdom' Hpi Hc)|by eapply Hedges].
    + intros h Hh. rewrite Hin. by apply Hfr.
  - intros ->. cbn. rewrite Hin. split_and!; [|lia|lia]. apply (di_dom _ _ _ _ Hinv), elem_of_dom. eauto.
Qed.

(** What telling the children leaves alone. *)
Definition told_frame (s s' : AvalancheBM) (n : nat) : Prop :=
  curr_batch s' = curr_batch s ∧ txn_pool s' = txn_pool s ∧ blk_len s' = blk_len s ∧
  (length (dag_frontier s') ≤ length (dag_frontier s) + n)%nat ∧
  children <$> txn_dag s' = children <$> txn_dag s.

Lemma release_children_wp `{BuildProfile} cs log s :
  dag_inv x cs log s → NoDup cs →
  wp (release_children cs)
    (λ _ s', dag_inv x [] log s' ∧ told_frame s s' (length cs)) (λ _ _, False) s.
Proof.
  revert s. induction cs as [|c cs IH]; intros s Hinv Hnd; cbn [release_children].
  { wp_steps. split; [done|]. split_and!; [done..|lia|done]. }
  wp_step. wp_step. destruct (txn_dag s !! c) as [nd|] eqn:Hc.
  2: { apply NoDup_cons in Hnd as [? Hnd]. eapply wp_mono; [apply IH| |done]; [|done|].
       - destruct Hinv as [? ? ? Hcount]. split; try done. intros c' nd' Hc'.
         pose proof (Hcount c' nd' Hc') as Hcnt. assert (c' ≠ c) by (intros ->; congruence).
         revert Hcnt. destruct (decide (c' ∈ cs)); [rewrite decide_True by set_solver; lia|].
         case_decide; lia.
       - cbn. intros _ s' (? & ? & ? & ? & ? & ?). split; [done|]. split_and!; [done..|lia|done]. }
  pose proof (di_count _ _ _ _ Hinv c nd Hc) as Hcnt. rewrite decide_True in Hcnt by set_solver.
  wp_step. eapply wp_lift; [apply u64_sub_ok; lia|].
  destruct (dag_inv_told log s c cs nd (num_parents nd - 1) Hinv Hnd Hc) as [Hinv' Hz]; [lia|].
  apply NoDup_cons in Hnd as [_ Hnd].
  assert (children <$> <[c := nd <| num_parents := num_parents nd - 1 |>]> (txn_dag s) =
    children <$> txn_dag s) as Hch.
  { rewrite fmap_insert. cbn. apply insert_id. by rewrite lookup_fmap, Hc. }
  wp_steps. case_decide as Hn; wp_steps.
  - eapply wp_mono; [apply IH| |done]; [|done|].
    + eapply dag_inv_frame; [..|exact Hinv']; [done..|].
      intros h. cbn. rewrite elem_of_app, list_elem_of_singleton. intros [Hh| ->].
      * by apply (di_frontier _ _ _ _ Hinv').
      * by apply Hz.
    + cbn. intros _ s' (? & Hb & Hp & Hl & Hf & Hd). cbn in *. rewrite length_app in Hf. cbn in Hf.
      split; [done|]. split_and!; [done..|cbn; lia|by rewrite Hd].
  - eapply wp_mono; [by apply IH| |done].
    cbn. intros _ s' (? & Hb & Hp & Hl & Hf & Hd). cbn in *.
    split; [done|]. split_and!; [done..|cbn; lia|by rewrite Hd].
Qed.

Lemma wp_wlp {S A} (m : M S A) (Q : A → S → Prop) (R : S → Prop) s :
  wp m Q (λ _ _, False) s → wlp m Q R s.
Proof. unfold wp, wlp. by destruct (m s) as [[]]. Qed.

(** One round of [prepare_new_block] that takes a node out of the DAG. *)
Lemma prepare_round `{BuildProfile} `{HashOrder} log s h frontier node :
  dag_inv x [] log s → dag_frontier s = h :: frontier → txn_dag s !! h = Some node →
  let s1 := s <| dag_frontier := frontier |> <| txn_dag ::= delete h |> in
  wp (release_children (set_iter (children node)))
    (λ _ s2, let s3 := s2 <| curr_batch ::= λ b, b ++ [h] |> in
       dag_inv x [] (log ++ [h]) s3 ∧ told_frame s1 s2 (size (children node))) (λ _ _, False) s1.
Proof.
  intros Hinv Hfr Hh s1.
  destruct (di_frontier _ _ _ _ Hinv h) as (_ & Hi & Hx); [rewrite Hfr; set_solver|].
  assert (dag_inv x (set_iter (children node)) (log ++ [h]) s1) as Hinv1.
  { apply (dag_inv_frame _ _ _ (s <| txn_dag ::= delete h |>)); [done|done| |].
    - pose proof (dag_inv_pop log s h node (set_iter (children node)) Hinv Hh Hi Hx
        (elem_of_set_iter _)) as Hp.
      intros c Hc. apply (di_frontier _ _ _ _ Hp). cbn in *. rewrite Hfr. set_solver.
    - apply (dag_inv_pop log s h node); [done..|]. apply elem_of_set_iter. }
  eapply wp_mono; [apply (release_children_wp _ _ _ Hinv1), NoDup_set_iter| |done].
  cbn. intros _ s2 [Hinv2 Hframe]. split.
  - eapply dag_inv_frame; [..|exact Hinv2]; [done..|]. apply (di_frontier _ _ _ _ Hinv2).
  - by rewrite set_iter_perm in Hframe.
Qed.

Section Ops.
Context `{BuildProfile} `{HashOrder}.

(** Dropping a hash from the front of the frontier. *)
Lemma dag_inv_skip log s h frontier :
  dag_inv x [] log s → dag_frontier s = h :: frontier →
  dag_inv x [] log (s <| dag_frontier := frontier |>).
Proof.
  intros Hinv Hfr. eapply dag_inv_frame; [..|exact Hinv]; [done..|].
  intros c Hc. apply (di_frontier _ _ _ _ Hinv). rewrite Hfr. set_solver.
Qed.

(** The invariant of the states between operations; [done]: the batches that
    were proposed. *)
Definition am_inv (proposed : list Hash) (s : AvalancheBM) : Prop :=
  dag_inv x [] (proposed ++ curr_batch s) s.

Lemma am_prepare_inv proposed fuel s :
  am_inv proposed s → wlp (am_prepare_new_block fuel) (λ _, am_inv proposed) (λ _, True) s.
Proof.
  revert s. induction fuel as [|fuel IH]; intros s Hinv; [done|]. cbn [am_prepare_new_block].
  wlp_steps. case_decide; [by wlp_steps|].
  destruct (dag_frontier s) as [|h frontier] eqn:Hfr; [by wlp_steps|]. wlp_steps.
  destruct (txn_dag s !! h) as [node|] eqn:Hh.
  - wlp_steps. eapply wlp_mono;
      [apply (wp_wlp _ _ (λ _, True)), (prepare_round _ _ _ _ _ Hinv Hfr Hh)| |done].
    cbn. intros _ s2 [Hinv2 (Hb & _)]. cbn in Hb. rewrite <- Hb, <- app_assoc in Hinv2.
    wlp_steps. by apply IH.
  - apply IH. by eapply (dag_inv_skip (proposed ++ curr_batch s)).
Qed.

(** The edges of the DAG, which bound the rounds to come. *)
Definition edges (dag : gmap Hash DagNode) : nat :=
  map_fold (λ _ cs n, (size cs + n)%nat) O (children <$> dag).

Lemma edges_delete dag h node :
  dag !! h = Some node → edges dag = (size (children node) + edges (delete h dag))%nat.
Proof.
  intros Hh. unfold edges. rewrite fmap_delete.
  rewrite <- (insert_delete_id (children <$> dag) h (children node)) at 1
    by (by rewrite lookup_fmap, Hh).
  rewrite map_fold_insert_L; [done| |apply lookup_delete_eq]. intros. lia.
Qed.

Lemma am_prepare_total log fuel s :
  dag_inv x [] log s → (length (dag_frontier s) + edges (txn_dag s) < fuel)%nat →
  wp (am_prepare_new_block fuel)
    (λ st s', ∃ new, dag_inv x [] (log ++ new) s' ∧ curr_batch s' = curr_batch s ++ new ∧
       blk_len s' = blk_len s ∧
       (length (curr_batch s') ≤ Nat.max (length (curr_batch s)) (blk_len s))%nat ∧
       (st = BtcMgmt.Full ∧ (blk_len s' ≤ length (curr_batch s'))%nat ∨
        st = BtcMgmt.EmptyMempool ∧ dag_frontier s' = [])) (λ _ _, False) s.
Proof.
  revert log s. induction fuel as [|fuel IH]; intros log s Hinv Hfuel; [lia|].
  cbn [am_prepare_new_block]. wp_steps. case_decide as Hlen.
  { wp_steps. exists []. rewrite !app_nil_r. split_and!; [done|done|done|lia|by left]. }
  destruct (dag_frontier s) as [|h frontier] eqn:Hfr.
  { wp_steps. exists []. rewrite !app_nil_r. split_and!; [done|done|done|lia|by right]. }
  wp_steps. cbn in Hfuel. destruct (txn_dag s !! h) as [node|] eqn:Hh.
  - wp_steps. eapply wp_mono; [apply (prepare_round _ _ _ _ _ Hinv Hfr Hh)| |done].
    cbn. intros _ s2 [Hinv2 (Hb & Hp & Hl & Hf & Hd)]. cbn in *. wp_steps.
    eapply wp_mono; [apply (IH (log ++ [h])); [exact Hinv2|]| |done].
    + cbn. rewrite (edges_delete _ _ _ Hh) in Hfuel.
      unfold edges in *. rewrite Hd. rewrite fmap_delete in *. lia.
    + cbn. intros st s' (new & Hinv' & Hb' & Hl' & Hmax & Hst). exists (h :: new).
      rewrite Hb, Hl in *. rewrite <- app_assoc in *. cbn in *.
      split_and!; [done|done|done| |done].
      rewrite !length_app in Hmax. cbn in Hmax. rewrite Hb', length_app. cbn.
      rewrite Hb', length_app in Hmax. cbn in Hmax. lia.
  - eapply wp_mono; [apply (IH log); [by eapply dag_inv_skip|]| |done].
    + cbn. lia.
    + cbn. intros st s' (new & ? & ? & ? & ? & ?). by exists new.
Qed.
End Ops.

Lemma frontier_ok_app s l1 l2 :
  frontier_ok x s l1 → frontier_ok x s l2 → frontier_ok x s (l1 ++ l2).
Proof. intros H1 H2 h [?|?]%elem_of_app; auto. Qed.

Section Record.
Context `{BuildProfile} `{HashOrder}.

Lemma am_record_inv proposed txn ctx s :
  am_inv proposed s →
  (txn_pool s !! tc_id ctx = None → ∀ p, p ∈ avax_inputs txn → p ∈ dom (txn_pool s)) →
  wlp (am_record_new_txn txn ctx) (λ _, am_inv proposed) (λ _, True) s.
Proof.
  intros Hinv Hins. unfold am_record_new_txn. wlp_steps.
  destruct (txn_pool s !! tc_id ctx) eqn:Hnew; [by wlp_steps|]. specialize (Hins eq_refl).
  wlp_steps; [|done]. rename a into avax_txn.
  destruct txn as [| |t]; try discriminate. injection H1 as ->.
  assert (∀ n, let r := link_parents (tc_id ctx) (avax_inputs (TAvalanche avax_txn)) (txn_dag s) 0 in
    r.2 ≤ n →
    let s' := s <| txn_pool ::= <[tc_id ctx := (TAvalanche avax_txn, ctx)]> |>
                <| txn_dag := <[tc_id ctx := mkDagNode n ∅]> r.1 |> in
    am_inv proposed s' ∧
    (r.2 = 0 → am_inv proposed (s' <| dag_frontier ::= λ f, f ++ [tc_id ctx] |>))) as Hadd.
  { intros n r Hn s'. destruct (dag_inv_add _ s _ (TAvalanche avax_txn) ctx n Hinv Hnew Hins Hn)
      as (Hinv' & Hz & Hx & Hd & Hl).
    split; [exact Hinv'|]. intros Hr. eapply dag_inv_frame; [..|exact Hinv']; [done..|].
    cbn. apply frontier_ok_app; [by apply Hl, Hinv|].
    intros h ->%list_elem_of_singleton. split_and!; [|by apply Hz|done].
    cbn. rewrite dom_insert. set_solver. }
  destruct avax_txn as [? ins ? ? ? ?| | |]; wlp_steps; try done; cbn [avax_inputs] in Hadd.
  - pose proof (link_parents_spec (tc_id ctx) ins (txn_dag s) 0) as (_ & _ & _ & Hr & _).
    destruct (Hadd (N.of_nat (length ins)) ltac:(lia)) as [Ha Hb].
    case_decide as Hz; wlp_steps; [by apply Hb|exact Ha].
  - destruct (Hadd 0 ltac:(done)) as [Ha Hb].
    rewrite decide_True by done. wlp_steps. by apply Hb.
Qed.

(** The invariant with the hashes set aside for the frontier. *)
Definition scan_inv (proposed : list Hash) (pending : list Hash) (s : AvalancheBM) : Prop :=
  am_inv proposed s ∧ frontier_ok x s pending.

Lemma add_valid_inv proposed txn ctx t pending s :
  scan_inv proposed pending s → txn_pool s !! tc_id ctx = None → txn = TAvalanche t →
  (∀ p, p ∈ avax_inputs txn → p ∈ dom (txn_pool s)) →
  wlp (add_valid txn ctx (avax_inputs txn) pending)
    (λ pending', scan_inv proposed pending') (am_inv proposed) s.
Proof.
  intros [Hinv Hpend] Hnew -> Hins. unfold add_valid. wlp_steps.
  destruct (dag_inv_add _ s _ (TAvalanche t) ctx _ Hinv Hnew Hins (N.le_refl _))
    as (Hinv' & Hz & Hx & Hd & Hl).
  split; [exact Hinv'|]. apply Hl in Hpend. case_decide as Hr; [|exact Hpend].
  apply frontier_ok_app; [exact Hpend|]. intros h ->%list_elem_of_singleton.
  split_and!; [|by apply Hz|done]. cbn. rewrite dom_insert. set_solver.
Qed.
End Record.

Section Validate.
Context `{BuildProfile} `{HashOrder} `{Externals} `{!Bincode BlockHeader} `{!Bincode AvalancheTxn}
  `{!Bincode BitcoinTxn} `{!Bincode PeerReq} `{Transport}.

(** A verdict needs all inputs. *)
Lemma am_validate_txn_inputs pool t b :
  am_validate_txn pool t = Ok (inl b) → ∀ p, p ∈ avax_inputs (TAvalanche t) → p ∈ dom pool.
Proof.
  destruct t as [s ins r o rem sg| | |]; cbn; try (intros; set_solver).
  intros Heq p Hp. res_inv. case_decide as Hms; res_inv.
  apply elem_of_dom. destruct (pool !! p) eqn:E; [eauto|].
  assert (p ∈ x0.2) as Hin by (by eapply avax_collect_spec). rewrite Hms in Hin. set_solver.
Qed.

Lemma scan_txn_inv proposed idx txn ctx sc s :
  scan_inv proposed (pending_frontier sc) s →
  wlp (scan_txn idx txn ctx sc) (λ sc', scan_inv proposed (pending_frontier sc')) (am_inv proposed) s.
Proof.
  intros [Hinv Hpend]. unfold scan_txn. wlp_steps.
  destruct (txn_pool s !! tc_id ctx) as [[t0 c0]|] eqn:Hnew.
  { wlp_steps. split; [done|]. cbn. destruct (txn_dag s !! tc_id ctx) as [node|] eqn:Hd; [|done].
    case_bool_decide as Hn; [|done]. apply frontier_ok_app; [done|].
    intros h ->%list_elem_of_singleton. pose proof (di_count _ _ _ _ Hinv _ _ Hd).
    split_and!; [by apply elem_of_dom; eauto|lia|lia]. }
  wlp_steps; [|done]. rename a into avax_txn.
  destruct txn as [| |t]; try discriminate. injection H3 as ->.
  destruct avax_txn as [sd ins rc o rem sg|v rc n|ps|]; wlp_steps; try done.
  - rename a into verdict. destruct verdict as [[]|ms]; wlp_steps; try done.
    eapply wlp_mono; [eapply (add_valid_inv proposed (TAvalanche (ASend sd ins rc o rem sg)) ctx _ _ s)| |done];
      [done|done|done| |].
    + by eapply am_validate_txn_inputs.
    + intros pending s' Hs'. by wlp_steps.
  - destruct (dag_inv_add _ s _ (TAvalanche (AGrant v rc n)) ctx 0 Hinv Hnew) as (Hinv' & Hz & Hx & Hd & Hl);
      [set_solver|done|]. cbn [avax_inputs link_parents fst snd] in *.
    split; [exact Hinv'|]. cbn. apply frontier_ok_app; [by apply Hl|].
    intros h ->%list_elem_of_singleton. split_and!; [|by apply Hz|done].
    cbn. rewrite dom_insert. set_solver.
Qed.

Lemma scan_txns_inv proposed idx l sc s :
  scan_inv proposed (pending_frontier sc) s →
  wlp (scan_txns idx l sc) (λ sc', scan_inv proposed (pending_frontier sc')) (am_inv proposed) s.
Proof.
  revert idx sc s. induction l as [|[txn ctx] l IH]; intros idx sc s Hs; cbn [scan_txns]; [by wlp_steps|].
  wlp_step. eapply wlp_mono; [by apply scan_txn_inv| |done]. intros sc' s' Hs'. by apply IH.
Qed.

Lemma recheck_txn_inv proposed idx st s :
  scan_inv proposed st.2 s →
  wlp (recheck_txn idx st) (λ st', scan_inv proposed st'.2) (am_inv proposed) s.
Proof.
  destruct st as [[curr_txns curr_ctx] pending]. intros Hs. pose proof Hs as [Hinv Hpend].
  unfold recheck_txn. wlp_steps; [|done..].
  rename a into txn, a0 into ctx. destruct (txn_pool s !! tc_id ctx) as [|] eqn:Hnew; [by wlp_steps|].
  wlp_steps; [|done]. rename a into avax_txn.
  destruct txn as [| |t]; try discriminate. cbn in *.
  match goal with Ht : Ok _ = Ok _ |- _ => injection Ht as -> end.
  destruct avax_txn as [sd ins rc o rem sg|v rc n|ps|]; wlp_steps; try done.
  case_decide as Hv; wlp_steps; try done. subst a.
  eapply wlp_mono; [eapply (add_valid_inv proposed (TAvalanche (ASend sd ins rc o rem sg)) ctx _ _ s)| |done];
    [done|done|done| |].
  - by eapply am_validate_txn_inputs.
  - intros pending' s' Hs'. by wlp_steps.
Qed.

Lemma recheck_txns_inv proposed idxs st s :
  scan_inv proposed st.2 s →
  wlp (recheck_txns idxs st) (λ st', scan_inv proposed st'.2) (am_inv proposed) s.
Proof.
  revert st s. induction idxs as [|idx idxs IH]; intros st s Hs; cbn [recheck_txns]; [by wlp_steps|].
  wlp_step. eapply wlp_mono; [by apply recheck_txn_inv| |done]. intros st' s' Hs'. by apply IH.
Qed.

Lemma resolve_inv proposed proposer blk_id depth st s :
  scan_inv proposed st.2 s →
  wlp (resolve proposer blk_id depth st)
    (λ o s', am_inv proposed s' ∧ ∀ st', o = Some st' → frontier_ok x s' st'.2) (am_inv proposed) s.
Proof.
  revert st s. induction depth as [|depth IH]; intros st s Hs; cbn [resolve].
  { wlp_steps. split; [by apply Hs|]. intros st' [= <-]. apply Hs. }
  wlp_steps. destruct (pending_blks s !! _) as [[[ts cs] idxs]|].
  2: { wlp_steps. by split; [apply Hs|]. }
  wlp_steps.
  eapply wlp_mono; [apply (recheck_txns_inv proposed idxs (ts, cs, st.2))| |done].
  - destruct Hs as [Hinv Hpend]. split; [|exact Hpend]. eapply dag_inv_frame; [..|exact Hinv]; [done..|apply Hinv].
  - intros st' s' Hs'. apply IH. by case_decide.
Qed.

Lemma am_inv_frame proposed s s' :
  txn_pool s' = txn_pool s → txn_dag s' = txn_dag s → curr_batch s' = curr_batch s →
  dag_frontier s' = dag_frontier s → am_inv proposed s → am_inv proposed s'.
Proof.
  unfold am_inv. intros Hp Hd Hb Hf Hinv. rewrite Hb.
  eapply dag_inv_frame; [done|done| |exact Hinv]. rewrite Hf. apply Hinv.
Qed.

Lemma flush_frontier_inv proposed pending s :
  scan_inv proposed pending s →
  wlp (flush_frontier pending) (λ _, am_inv proposed) (am_inv proposed) s.
Proof.
  intros [Hinv Hpend]. unfold flush_frontier. wlp_steps.
  eapply dag_inv_frame; [..|exact Hinv]; [done..|]. by apply frontier_ok_app; [|apply Hinv].
Qed.

Lemma am_validate_block_inv proposed rand block ctx s :
  am_inv proposed s →
  wlp (am_validate_block rand block ctx) (λ _, am_inv proposed) (am_inv proposed) s.
Proof.
  intros Hinv. unfold am_validate_block. wlp_steps; [|done].
  destruct (header block); try (by wlp_steps). wlp_step.
  eapply wlp_mono; [apply (scan_txns_inv proposed); by split; [|intros ? ?%elem_of_nil]| |done].
  intros sc s1 Hs1. wlp_steps; [|by apply Hs1]. destruct (decide (0 < length (blk_missing_deps sc))%nat).
  - wlp_step. eapply wlp_mono; [apply (flush_frontier_inv proposed _ _ Hs1)| |done]. intros ? s2 Hs2.
    wlp_steps; [|by eapply am_inv_frame; [..|exact Hs2]].
    unfold pm_send, hub, wlp. destruct (hub_accepts _ _).
    + by eapply am_inv_frame; [..|exact Hs2].
    + by eapply am_inv_frame; [..|exact Hs2].
  - wlp_step. eapply wlp_mono; [by apply (resolve_inv proposed)| |done].
    intros o s2 [Hs2 Hf]. destruct o as [[[ts cs] pending]|]; [|by wlp_steps]. wlp_step.
    eapply wlp_mono; [apply (flush_frontier_inv proposed pending)| |done]; [by split; [|eapply (Hf (_, _))]|].
    intros ? s3 Hs3. by wlp_steps.
Qed.

Lemma am_get_new_block_inv proposed now rand s :
  am_inv proposed s →
  wlp (am_get_new_block now rand) (λ _, am_inv (proposed ++ curr_batch s))
    (λ _, True) s.
Proof.
  intros Hinv. unfold am_get_new_block. wlp_steps; try done.
  unfold am_inv. cbn. rewrite app_nil_r. eapply dag_inv_frame; [..|exact Hinv]; [done..|apply Hinv].
Qed.

Lemma am_handle_peer_blk_req_inv proposed peer msg s :
  am_inv proposed s →
  wlp (am_handle_peer_blk_req peer msg) (λ _, am_inv proposed) (am_inv proposed) s.
Proof.
  intros Hinv. unfold am_handle_peer_blk_req. wlp_steps; [|done..].
  unfold pm_send, hub, wlp. destruct (hub_accepts _ _); by eapply am_inv_frame; [..|exact Hinv].
Qed.
End Validate.
End Inv.

(** ** Runs *)

(** A transaction whose counter exceeds its parents in the DAG by [k]. *)
Lemma dag_inv_surplus log s h node k :
  dag_inv (λ _, 0) [] log s → txn_dag s !! h = Some node → h ∉ dag_frontier s →
  N.of_nat (indeg (txn_dag s) h) + k ≤ num_parents node →
  dag_inv (λ c, if decide (c = h) then k else 0) [] log s.
Proof.
  intros Hinv Hh Hf Hk. split; try apply Hinv.
  - intros c nd Hc. pose proof (di_count _ _ _ _ Hinv c nd Hc) as Hcnt.
    rewrite decide_False in * by set_solver. case_decide as Heq; [|lia].
    subst c. rewrite Hh in Hc. injection Hc as <-. lia.
  - intros c Hc. destruct (di_frontier _ _ _ _ Hinv c Hc) as (? & ? & _).
    rewrite decide_False by (by intros ->). by split_and!.
  - intros c Hc. case_decide as Heq; [|lia]. subst. apply elem_of_dom. eauto.
Qed.

Section Runs.
Context `{BuildProfile} `{HashOrder} `{Externals} `{!Bincode BlockHeader} `{!Bincode AvalancheTxn}
  `{!Bincode BitcoinTxn} `{!Bincode PeerReq} `{Transport}.

(** The calls of the block management thread, with the transactions proposed so
    far. A transaction is recorded after its inputs, as validation passes them
    on in that order; blocks of peers are arbitrary. *)
Inductive am_step : AvalancheBM * list Hash → AvalancheBM * list Hash → Prop :=
| am_step_record txn ctx r s s' proposed :
    (∀ p, p ∈ avax_inputs txn → p ∈ dom (txn_pool s)) →
    am_record_new_txn txn ctx s = (Ok r, s') → am_step (s, proposed) (s', proposed)
| am_step_prepare fuel r s s' proposed :
    am_prepare_new_block fuel s = (Ok r, s') → am_step (s, proposed) (s', proposed)
| am_step_propose now rand r s s' proposed :
    am_get_new_block now rand s = (Ok r, s') →
    am_step (s, proposed) (s', proposed ++ curr_batch s)
| am_step_validate rand block ctx s proposed :
    am_step (s, proposed) ((am_validate_block rand block ctx s).2, proposed)
| am_step_pmaker msg s proposed :
    am_step (s, proposed) ((am_handle_pmaker_msg msg s).2, proposed)
| am_step_blk_req peer msg s proposed :
    am_step (s, proposed) ((am_handle_peer_blk_req peer msg s).2, proposed)
| am_step_report s proposed :
    am_step (s, proposed) ((am_report s).2, proposed).

Lemma am_step_inv x y z : am_inv x y.2 y.1 → am_step y z → am_inv x z.2 z.1.
Proof.
  intros Hinv Hstep. destruct Hstep as [txn ctx r s s' pr Hins Heq|fuel r s s' pr Heq|now rand r s s' pr Heq
    | | | | ]; cbn in *.
  - pose proof (am_record_inv x pr txn ctx s Hinv (λ _, Hins)) as Hw. unfold wlp in Hw. by rewrite Heq in Hw.
  - pose proof (am_prepare_inv x pr fuel s Hinv) as Hw. unfold wlp in Hw. by rewrite Heq in Hw.
  - pose proof (am_get_new_block_inv x pr now rand s Hinv) as Hw. unfold wlp in Hw. by rewrite Heq in Hw.
  - by apply wlp_state, am_validate_block_inv.
  - by eapply am_inv_frame; [..|exact Hinv].
  - by apply wlp_state, am_handle_peer_blk_req_inv.
  - by eapply am_inv_frame; [..|exact Hinv].
Qed.

Lemma am_steps_inv x y z : am_inv x y.2 y.1 → rtc am_step y z → am_inv x z.2 z.1.
Proof. intros Hinv. induction 1; [done|]. eauto using am_step_inv. Qed.

Lemma am_new_inv id config pm now s :
  am_new id config pm now = Ok s → am_inv (λ _, 0) [] s.
Proof.
  unfold am_new. intros Heq. res_inv.
  split; cbn; try (by intros; set_solver); [by apply NoDup_nil|lia].
Qed.

(** The states a component started with [am_new] reaches. *)
Definition am_reach (s : AvalancheBM) (proposed : list Hash) : Prop :=
  ∃ id config pm now s0, am_new id config pm now = Ok s0 ∧ rtc am_step (s0, []) (s, proposed).

Lemma am_reach_inv s proposed : am_reach s proposed → am_inv (λ _, 0) proposed s.
Proof.
  intros (? & ? & ? & ? & s0 & Hnew%am_new_inv & Hsteps). by apply (am_steps_inv _ (s0, []) (s, proposed) Hnew Hsteps).
Qed.

(** C11: an Avalanche node proposes each transaction at most once, and only after
    all of its inputs: the transactions of the batches proposed so far, followed
    by the batch under construction, are in topological order, whatever
    blocks of peers, requests and quotas arrive in between, as long as every transaction
    is recorded when its inputs are already in the pool. Validation passes them on in
    that order, so that it holds until a dissemination fails ([DissemProps]); a
    payment recorded while none of its inputs is waiting goes straight to the frontier. *)
Theorem proposals_in_topological_order s proposed :
  am_reach s proposed →
  NoDup (proposed ++ curr_batch s) ∧
  ∀ l1 h l2 t c p, proposed ++ curr_batch s = l1 ++ h :: l2 → txn_pool s !! h = Some (t, c) →
    p ∈ avax_inputs t → p ∈ l1.
Proof.
  intros Hinv%am_reach_inv. split; [by apply (di_log_nodup _ _ _ _ Hinv)|].
  intros l1 h l2 t c p Hlog Hp Hpi. by eapply (di_topo _ _ _ _ Hinv).
Qed.

(** C36: in every reachable state [prepare_new_block] returns, neither panicking
    nor running on: it only appends to the batch, up to its length, and stops
    early only when no transaction waits in the frontier. *)
Theorem avax_prepare_terminates s proposed :
  am_reach s proposed →
  ∃ st s', am_prepare_new_block (S (length (dag_frontier s) + edges (txn_dag s))) s = (Ok st, s') ∧
    (∃ new, curr_batch s' = curr_batch s ++ new ∧ NoDup (proposed ++ curr_batch s')) ∧
    (length (curr_batch s') ≤ Nat.max (length (curr_batch s)) (blk_len s))%nat ∧
    (st = BtcMgmt.Full ∧ (blk_len s ≤ length (curr_batch s'))%nat ∨
     st = BtcMgmt.EmptyMempool ∧ dag_frontier s' = []).
Proof.
  intros Hinv%am_reach_inv.
  pose proof (am_prepare_total _ (proposed ++ curr_batch s) _ s Hinv (Nat.lt_succ_diag_r _)) as Hw.
  unfold wp in Hw. destruct (am_prepare_new_block _ s) as [[st|e| |] s']; try done.
  destruct Hw as (new & Hinv' & Hb & Hl & Hmax & Hst). exists st, s'. split_and!; [done| |done|by rewrite Hl in Hst].
  exists new. split; [done|]. rewrite Hb, app_assoc. by apply (di_log_nodup _ _ _ _ Hinv').
Qed.

(** Recording a payment with inputs that wait in the DAG and inputs that do not. *)
Lemma am_record_surplus s proposed sender ins rc o rem sg ctx :
  am_inv (λ _, 0) proposed s →
  txn_pool s !! tc_id ctx = None → (∀ p, p ∈ ins → p ∈ dom (txn_pool s)) →
  (∃ p, p ∈ ins ∧ p ∈ dom (txn_dag s)) → (∃ p, p ∈ ins ∧ p ∉ dom (txn_dag s)) →
  ∃ s', am_record_new_txn (TAvalanche (ASend sender ins rc o rem sg)) ctx s = (Ok true, s') ∧
    ∃ k, 0 < k ∧ am_inv (λ c, if decide (c = tc_id ctx) then k else 0) proposed s'.
Proof.
  intros Hinv Hnew Hins Hw Hg. set (h := tc_id ctx) in *. set (t := TAvalanche (ASend sender ins rc o rem sg)).
  set (r := link_parents h ins (txn_dag s) 0).
  assert (0 < r.2 < N.of_nat (length ins)) as [Hr0 Hrl].
  { subst r. clear -Hw Hg. 
    assert (∀ ins dag n, (link_parents h ins dag n).2 =
      n + N.of_nat (length (filter (λ p, p ∈ dom dag) ins))) as Hcount.
    { clear. induction ins as [|p ins IH]; intros dag n; cbn [link_parents]; [cbn; lia|].
      rewrite filter_cons. destruct (dag !! p) as [node|] eqn:Hp.
      - rewrite IH, decide_True by (by apply elem_of_dom; eauto). cbn [length].
        rewrite dom_insert_lookup_L by eauto. lia.
      - rewrite IH, decide_False by (by apply not_elem_of_dom). lia. }
    rewrite Hcount. destruct Hw as (p & Hp & Hpd), Hg as (q & Hq & Hqd).
    assert (length (filter (λ p, p ∈ dom (txn_dag s)) ins) ≠ O).
    { intros Hz%nil_length_inv. assert (p ∈ filter (λ p, p ∈ dom (txn_dag s)) ins) as Hin
        by (by apply list_elem_of_filter). rewrite Hz in Hin. set_solver. }
    pose proof (length_filter_lt (λ p, p ∈ dom (txn_dag s)) ins q Hq Hqd). lia. }
  destruct (dag_inv_add (λ _, 0) _ s h t ctx (N.of_nat (length ins)) Hinv Hnew Hins)
    as (Hinv' & _); [change (r.2 ≤ N.of_nat (length ins)); lia|].
  change (link_parents h (avax_inputs t) (txn_dag s) 0) with r in Hinv'.
  eexists. split.
  { unfold am_record_new_txn, mbind, M_bind, gets. fold h. rewrite Hnew. cbn. fold r.
    rewrite decide_False by lia. done. }
  exists (N.of_nat (length ins) - r.2). split; [lia|].
  apply (dag_inv_surplus _ _ _ (mkDagNode (N.of_nat (length ins)) ∅)); [exact Hinv'| | |].
  - cbn. apply lookup_insert_eq.
  - cbn. intros Hf. apply (di_frontier _ _ _ _ Hinv) in Hf as [Hd _].
    apply elem_of_dom in Hd as [? Hd]. congruence.
  - cbn. pose proof (link_parents_spec h ins (txn_dag s) 0) as (_ & _ & _ & _ & Hle). fold r in Hle.
    rewrite indeg_insert_leaf.
    + assert (indeg (txn_dag s) h = O) as Hz; [|lia].
      apply indeg_zero. intros p node Hp Hc. eapply (di_children _ _ _ _ Hinv) in Hp; [|exact Hc].
      apply (di_dom _ _ _ _ Hinv), elem_of_dom in Hp as [? Hp]. congruence.
    + pose proof (link_parents_spec h ins (txn_dag s) 0) as (Hnum & _). fold r in Hnum. specialize (Hnum h).
      destruct (r.1 !! h) eqn:E; [|done]. destruct (txn_dag s !! h) eqn:E'; [|done].
      assert (h ∈ dom (txn_pool s)) as Hd by (apply (di_dom _ _ _ _ Hinv), elem_of_dom; eauto).
      apply elem_of_dom in Hd as [? Hd]. congruence.
Qed.

(** C37: a payment that is recorded while one of its inputs waits in the DAG and
    another is already in a batch is never proposed: its counter is set to the
    number of all its inputs, but only those in the DAG will count it down. *)
Theorem partly_ready_never_proposed s proposed sender ins rc o rem sg ctx :
  am_reach s proposed →
  txn_pool s !! tc_id ctx = None → (∀ p, p ∈ ins → p ∈ dom (txn_pool s)) →
  (∃ p, p ∈ ins ∧ p ∈ dom (txn_dag s)) → (∃ p, p ∈ ins ∧ p ∈ proposed ++ curr_batch s) →
  ∃ s', am_record_new_txn (TAvalanche (ASend sender ins rc o rem sg)) ctx s = (Ok true, s') ∧
    ∀ s'' proposed', rtc am_step (s', proposed) (s'', proposed') →
      tc_id ctx ∈ dom (txn_dag s'') ∧ tc_id ctx ∉ proposed' ++ curr_batch s''.
Proof.
  intros Hinv%am_reach_inv Hnew Hins Hw (q & Hq & Hgone).
  destruct (am_record_surplus s proposed sender ins rc o rem sg ctx Hinv Hnew Hins Hw)
    as (s' & Heq & k & Hk & Hinv').
  { exists q. split; [done|]. by apply (di_log_out _ _ _ _ Hinv). }
  exists s'. split; [done|]. intros s'' pr' Hsteps.
  pose proof (am_steps_inv _ (s', proposed) (s'', pr') Hinv' Hsteps) as Hinv''.
  assert (tc_id ctx ∈ dom (txn_dag s'')) as Hd.
  { apply (di_surplus _ _ _ _ Hinv''). cbn. by rewrite decide_True. }
  split; [done|]. intros Hl%(di_log_out _ _ _ _ Hinv''). by destruct Hl.
Qed.
End Runs.

(** ** The theorems at work *)

#[local] Existing Instances sample_externals sample_bincode_btc sample_bincode_header
  sample_transport sample_profile canonical_order.
#[local] Instance sample_bincode_avax : Bincode AvalancheTxn := {|
  serialize := λ t, inl [6]; deserialize := λ _, inr (mkErr "not needed"); |}.
#[local] Instance sample_bincode_req : Bincode PeerReq := {|
  serialize := λ r, inl [pr_blk_id r; pr_depth r];
  deserialize := λ _, inr (mkErr "not needed"); |}.

(** Batches of one transaction: two grants, of which the first is batched; then
    a payment that spends both. *)
Definition w_config := AvalancheBasicConfig_default <| cf_blk_len := 1 |>.
Definition w_am0 : AvalancheBM :=
  match am_new 1 w_config sample_messenger 0 with
  | Ok s => s | _ => mkAvalancheBM 0 O ∅ ∅ [] 0 [] 0 0 sample_messenger ∅ 0 0 0 0 end.
Definition w_am1 := (am_record_new_txn (TAvalanche (AGrant 10 [7] 1)) (mkTxnCtx 1) w_am0).2.
Definition w_am2 := (am_record_new_txn (TAvalanche (AGrant 20 [7] 2)) (mkTxnCtx 2) w_am1).2.
Definition w_am3 := (am_prepare_new_block 3 w_am2).2.

Lemma w_am_reach : am_reach w_am3 [].
Proof.
  exists 1, w_config, sample_messenger, 0, w_am0. split; [by vm_compute|].
  eapply rtc_l.
  { eapply (am_step_record (TAvalanche (AGrant 10 [7] 1)) (mkTxnCtx 1) true _ w_am1);
      [by intros p ?%elem_of_nil|by vm_compute]. }
  eapply rtc_l.
  { eapply (am_step_record (TAvalanche (AGrant 20 [7] 2)) (mkTxnCtx 2) true _ w_am2);
      [by intros p ?%elem_of_nil|by vm_compute]. }
  eapply rtc_l; [eapply (am_step_prepare 3 BtcMgmt.Full _ w_am3); by vm_compute|]. apply rtc_refl.
Qed.

Lemma proposals_in_topological_order_witness :
  curr_batch w_am3 = [1] ∧ NoDup ([] ++ curr_batch w_am3).
Proof.
  split; [by vm_compute|]. apply (proposals_in_topological_order w_am3 [] w_am_reach).
Defined.

Lemma avax_prepare_terminates_witness :
  dag_frontier w_am3 = [2] ∧ ∃ st s', am_prepare_new_block 2 w_am3 = (Ok st, s') ∧
    (length (curr_batch s') ≤ 1)%nat.
Proof.
  split; [by vm_compute|].
  destruct (avax_prepare_terminates w_am3 [] w_am_reach) as (st & s' & Heq & _ & Hl & _).
  exists st, s'. split; [exact Heq|exact Hl].
Defined.

Lemma partly_ready_never_proposed_witness :
  ∃ s', am_record_new_txn (TAvalanche (ASend [7] [1; 2] [9] 25 5 [])) (mkTxnCtx 3) w_am3
      = (Ok true, s') ∧
    ∀ s'' proposed', rtc am_step (s', []) (s'', proposed') →
      3 ∈ dom (txn_dag s'') ∧ 3 ∉ proposed' ++ curr_batch s''.
Proof.
  apply (partly_ready_never_proposed w_am3 [] [7] [1; 2] [9] 25 5 [] (mkTxnCtx 3) w_am_reach).
  - by vm_compute.
  - intros p [->|[->|[]%elem_of_nil]%elem_of_cons]%elem_of_cons;
      apply (bool_decide_unpack _); by vm_compute.
  - exists 2. split; [set_solver|]. apply (bool_decide_unpack _). by vm_compute.
  - exists 1. split; [set_solver|]. apply (bool_decide_unpack _). by vm_compute.
Defined.
