(* ===== verification/VCores.v ===== *)
(** * Virtual cores: the packed atomic word

    src/src/vcores.rs. The tasks of a node share [max_cores] permits of a
    semaphore. How many are in use, and since when, is kept in one atomic 64-bit
    word (the time of the last change as the bits of an f32, the number of
    tickets in the low half), updated by compare-and-swap loops; the time used is
    added to an atomic f64. The state of a task is its point in [acquire] or in
    the [drop] of its permit, and a step is one access to shared memory or one
    reading of the clock, so steps of different tasks interleave in any order. *)

From S2P Require Import Prelude F64.
From Stdlib Require Import SpecFloat ZArith.
Local Open Scope N_scope.

(** ** f32 *)

Definition f32 := spec_float.
Definition f32_of_N (n : N) : f32 := binary_normalize 24 128 (Z.of_N n) 0 false.
Definition f32_sub : f32 → f32 → f32 := SFsub 24 128.

(** [Duration::as_secs_f32] *)
Definition as_secs_f32 (d : N) : f32 :=
  SFadd 24 128 (f32_of_N (d / nanos_per_sec))
    (SFdiv 24 128 (f32_of_N (d mod nanos_per_sec)) (f32_of_N nanos_per_sec)).

(** [x as f64] *)
Definition f32_as_f64 (x : f32) : f64 :=
  match x with
  | S754_finite s m e => binary_normalize 53 1024 (cond_Zopp s (Z.pos m)) e s
  | _ => x
  end.

Definition sign_bit (s : bool) : N := if s then 2 ^ 31 else 0.

(** [f32::to_bits]: sign, 8 bits of exponent, 23 bits of mantissa. *)
Definition f32_to_bits (x : f32) : N :=
  match x with
  | S754_zero s => sign_bit s
  | S754_infinity s => sign_bit s + 255 * 2 ^ 23
  | S754_nan => 255 * 2 ^ 23 + 2 ^ 22
  | S754_finite s m e =>
    if (Z.pos m <? 2 ^ 23)%Z then sign_bit s + N.pos m
    else sign_bit s + Z.to_N (e + 150) * 2 ^ 23 + (N.pos m - 2 ^ 23)
  end.

(** [f32::from_bits] *)
Definition f32_from_bits (b : N) : f32 :=
  let s := N.testbit b 31 in
  let ex := (b / 2 ^ 23) mod 256 in
  let m := b mod 2 ^ 23 in
  if ex =? 0 then
    match m with N0 => S754_zero s | Npos p => S754_finite s p (-149) end
  else if ex =? 255 then (if m =? 0 then S754_infinity s else S754_nan)
  else S754_finite s (N.succ_pos (m + 2 ^ 23 - 1)) (Z.of_N ex - 150).

(** ** The shared state *)

(** The semaphore of tokio. *)
Class Semaphore := {
  sem : Type;
  sem_new : N → sem;
  sem_try_acquire : sem → option sem;
  sem_release : sem → sem;
}.

(** A counter of free permits: acquiring waits for one, releasing returns one. *)
Class SemaphoreLaws `{Semaphore} := {
  sem_free : sem → N;
  sem_new_free : ∀ n, sem_free (sem_new n) = n;
  sem_acquire_free : ∀ c, match sem_try_acquire c with
    | Some c' => sem_free c = sem_free c' + 1 | None => sem_free c = 0 end;
  sem_release_free : ∀ c, sem_free (sem_release c) = sem_free c + 1;
}.

Section VCores.
Context `{Semaphore} `{BuildProfile}.

Record VCoreGroup := mkVCoreGroup {
  cores : sem;
  max_cores : N;
  start_time : Instant;
  last_wakeup : N;
  utilization : f64;
}.
#[export] Instance VCoreGroup_eta : Eta VCoreGroup := λ r,
  mkVCoreGroup (cores r) (max_cores r) (start_time r) (last_wakeup r) (utilization r).

Definition vc_new (max_cores : N) (now : Instant) : VCoreGroup :=
  mkVCoreGroup (sem_new max_cores) max_cores now 0 f64_zero.

Definition get_total_cores (g : VCoreGroup) : N := max_cores g.

(** [past & 0xFFFFFFFF] and [f32::from_bits((past >> 32) as u32)] *)
Definition word_tickets (w : N) : N := N.land w 0xFFFFFFFF.
Definition word_time (w : N) : f32 := f32_from_bits (N.shiftr w 32).
(** [(now_bits << 32) | tickets] *)
Definition pack_word (now_bits tickets : N) : N := N.lor (N.shiftl now_bits 32) tickets.

(** [Instant::now().duration_since(self.start_time).as_secs_f32()] *)
Definition vc_now (now : Instant) (g : VCoreGroup) : f32 := as_secs_f32 (now - start_time g).

(** [compare_exchange] on the word: the value found. *)
Definition compare_exchange (past curr : N) : M VCoreGroup (option N) :=
  w ← gets last_wakeup;
  if decide (w = past) then modify (λ g, g <| last_wakeup := curr |>) ;; mret None
  else mret (Some w).

(** [time_window as f64 * tickets as f64] *)
Definition window_util (now : f32) (past tickets : N) : f64 :=
  f64_mul (f32_as_f64 (f32_sub now (word_time past))) (f64_of_N tickets).

(** ** Tasks *)

Inductive vc_task :=
| Waiting                     (* no permit: before [acquire] or waiting in it *)
| AcqLoad                     (* has a permit, about to load the word *)
| AcqLoop (past : N)          (* about to read the clock *)
| AcqCas (past : N) (now : f32)
| AcqAdd (window : f64)       (* about to add to the utilization *)
| Running                     (* [acquire] has returned *)
| RelLoad                     (* the permit is being dropped *)
| RelLoop (past : N)
| RelCas (past : N) (now : f32)
| RelAdd (window : f64)
| RelDrop.                    (* about to return the permit to the semaphore *)

(** One step of [acquire]. *)
Definition acquire_step (now : Instant) (t : vc_task) : M VCoreGroup vc_task :=
  match t with
  | Waiting =>
    c ← gets cores;
    match sem_try_acquire c with
    | Some c' => modify (λ g, g <| cores := c' |>) ;; mret AcqLoad
    | None => mret Waiting
    end
  | AcqLoad => past ← gets last_wakeup; mret (AcqLoop past)
  | AcqLoop past => now ← gets (vc_now now); mret (AcqCas past now)
  | AcqCas past now =>
    tickets ← lift_res (u64_add (word_tickets past) 1);
    r ← compare_exchange past (pack_word (f32_to_bits now) tickets);
    match r with
    | None => t ← lift_res (u64_sub tickets 1); mret (AcqAdd (window_util now past t))
    | Some val => mret (AcqLoop val)
    end
  | AcqAdd window => modify (λ g, g <| utilization ::= λ u, f64_add u window |>) ;; mret Running
  | _ => mret t
  end.

(** [acquire_owned] has the same body, on an owned permit. *)
Definition acquire_owned_step (now : Instant) (t : vc_task) : M VCoreGroup vc_task :=
  acquire_step now t.

(** One step of the [drop] of a permit: [release], then the semaphore's own. *)
Definition release_step (now : Instant) (t : vc_task) : M VCoreGroup vc_task :=
  match t with
  | Running => mret RelLoad
  | RelLoad => past ← gets last_wakeup; mret (RelLoop past)
  | RelLoop past => now ← gets (vc_now now); mret (RelCas past now)
  | RelCas past now =>
    tickets ← lift_res (u64_sub (word_tickets past) 1);
    r ← compare_exchange past (pack_word (f32_to_bits now) tickets);
    match r with
    | None => t ← lift_res (u64_add tickets 1); mret (RelAdd (window_util now past t))
    | Some val => mret (RelLoop val)
    end
  | RelAdd window => modify (λ g, g <| utilization ::= λ u, f64_add u window |>) ;; mret RelDrop
  | RelDrop => modify (λ g, g <| cores ::= sem_release |>) ;; mret Waiting
  | _ => mret t
  end.

(** A task alternates between the two. *)
Definition vc_task_step (now : Instant) (t : vc_task) : M VCoreGroup vc_task :=
  match t with
  | Waiting | AcqLoad | AcqLoop _ | AcqCas _ _ | AcqAdd _ => acquire_step now t
  | _ => release_step now t
  end.

(** [get_utilization]: two separate loads, here with nothing in between. *)
Definition get_utilization (now : Instant) (g : VCoreGroup) : f64 :=
  let ts := last_wakeup g in
  let now := vc_now now g in
  let unaccounted := f64_mul (f64_of_N (word_tickets ts)) (f32_as_f64 (f32_sub now (word_time ts))) in
  f64_div (f64_add (utilization g) unaccounted) (f32_as_f64 now).

Definition get_unused (now : Instant) (g : VCoreGroup) : f64 :=
  f64_sub (f64_of_N (max_cores g)) (get_utilization now g).

(** The group with its tasks (a task not in the map has not started). *)
Definition vc_state : Type := VCoreGroup * gmap N vc_task.

(** Any task takes its next step, at any time the clock may show. *)
Inductive vc_step : vc_state → vc_state → Prop :=
| vc_step_task i now t g ts g' t' :
    t = default Waiting (ts !! i) → vc_task_step now t g = (Ok t', g') →
    vc_step (g, ts) (g', <[i := t']> ts).
End VCores.
