(* ===== verification/VCoresProps.v ===== *)
(** * Virtual cores: properties

    The count of tickets and the accounting of their use are right under every
    interleaving of the compare-and-swap loops; f32 times survive the packing. *)

From S2P Require Import Prelude F64 VCores.
From Stdlib Require Import SpecFloat ZArith.
Local Open Scope N_scope.

(** ** The packed word *)

Lemma pack_word_tickets b k : k < 2 ^ 32 → word_tickets (pack_word b k) = k.
Proof.
  intros Hk. unfold word_tickets, pack_word. change 0xFFFFFFFF with (N.ones 32).
  rewrite N.land_ones, <- (N.mod_small k (2 ^ 32) Hk) at 1.
  rewrite <- !N.land_ones, N.land_lor_distr_l. rewrite <- N.land_assoc, N.land_diag.
  rewrite (N.land_ones (N.shiftl b 32)), N.shiftl_mul_pow2, N.Div0.mod_mul, N.lor_0_l.
  by rewrite N.land_ones, N.mod_small.
Qed.

Lemma pack_word_time b k : k < 2 ^ 32 → N.shiftr (pack_word b k) 32 = b.
Proof.
  intros Hk. unfold pack_word. rewrite N.shiftr_lor, N.shiftr_shiftl_l by lia.
  rewrite N.sub_diag, N.shiftl_0_r, (N.shiftr_div_pow2 k), N.div_small by done. apply N.lor_0_r.
Qed.

Lemma word_tickets_lt w : word_tickets w < 2 ^ 32.
Proof.
  unfold word_tickets. change 0xFFFFFFFF with (N.ones 32). rewrite N.land_ones.
  by apply N.mod_lt.
Qed.

(** ** Collecting over the tasks *)

Definition gather {A} (f : vc_task → list A) (ts : gmap N vc_task) : list A :=
  map_to_list ts ≫= λ kv, f kv.2.

Lemma gather_fresh {A} (f : vc_task → list A) ts i t :
  ts !! i = None → gather f (<[i := t]> ts) ≡ₚ f t ++ gather f ts.
Proof. intros Hi. unfold gather. by rewrite map_to_list_insert. Qed.

Lemma gather_insert {A} (f : vc_task → list A) ts i t :
  f Waiting = [] →
  gather f (<[i := t]> ts) ++ f (default Waiting (ts !! i)) ≡ₚ gather f ts ++ f t.
Proof.
  intros Hw. destruct (ts !! i) as [t0|] eqn:Hi; cbn.
  - rewrite <- (insert_delete_id ts i t0 Hi) at 2. rewrite <- (insert_delete_eq ts i t).
    rewrite !gather_fresh by apply lookup_delete_eq. solve_Permutation.
  - rewrite gather_fresh by done. rewrite Hw. solve_Permutation.
Qed.

(** A permit is held; its ticket is in the word; a window is yet to be added. *)
Definition holds (t : vc_task) : list unit := match t with Waiting => [] | _ => [tt] end.
Definition counted (t : vc_task) : list unit :=
  match t with AcqAdd _ | Running | RelLoad | RelLoop _ | RelCas _ _ => [tt] | _ => [] end.
Definition pending_window (t : vc_task) : list f64 :=
  match t with AcqAdd w | RelAdd w => [w] | _ => [] end.

(** What a task remembers of the word: a task about to give its ticket back has
    seen it there. *)
Definition task_ok (t : vc_task) : Prop :=
  match t with RelLoop past | RelCas past _ => 0 < word_tickets past | _ => True end.

(** ** The history of the word *)

(** Its changes, latest first: when, as an f32, and the tickets from then on. *)
Definition word_of (hist : list (f32 * N)) : N :=
  match hist with [] => 0 | (now, k) :: _ => pack_word (f32_to_bits now) k end.

(** The use of the cores between two changes. *)
Fixpoint windows (hist : list (f32 * N)) : list f64 :=
  match hist with
  | [] => []
  | (now, _) :: hist' =>
    window_util now (word_of hist') (word_tickets (word_of hist')) :: windows hist'
  end.

(** Each change takes or returns one ticket, and at most [n] are out. *)
Fixpoint tickets_ok (n : N) (hist : list (f32 * N)) : Prop :=
  match hist with
  | [] => True
  | (_, k) :: hist' =>
    (k = word_tickets (word_of hist') + 1 ∨ word_tickets (word_of hist') = k + 1) ∧ k ≤ n ∧
    tickets_ok n hist'
  end.

Section Inv.
Context `{Semaphore} `{!SemaphoreLaws} `{BuildProfile}.

Definition in_use {A} (f : vc_task → list A) (ts : gmap N vc_task) : N :=
  N.of_nat (length (gather f ts)).

Record vc_inv (g : VCoreGroup) (ts : gmap N vc_task) (hist : list (f32 * N)) (added : list f64) :
    Prop := {
  vi_sem : sem_free (cores g) + in_use holds ts = max_cores g;
  vi_word : last_wakeup g = word_of hist;
  vi_tickets : word_tickets (last_wakeup g) = in_use counted ts;
  vi_hist : tickets_ok (max_cores g) hist;
  vi_util : utilization g = foldl f64_add f64_zero added;
  vi_windows : added ++ gather pending_window ts ≡ₚ windows hist;
  vi_tasks : map_Forall (λ _, task_ok) ts;
}.

Lemma in_use_insert {A} (f : vc_task → list A) ts i t :
  f Waiting = [] →
  in_use f (<[i := t]> ts) + N.of_nat (length (f (default Waiting (ts !! i)))) =
  in_use f ts + N.of_nat (length (f t)).
Proof.
  intros Hw. pose proof (Permutation_length (gather_insert f ts i t Hw)) as Hl.
  rewrite !length_app in Hl. unfold in_use. lia.
Qed.

Lemma counted_le_holds ts : in_use counted ts ≤ in_use holds ts.
Proof.
  unfold in_use, gather. induction (map_to_list ts) as [|[i t] l IH]; [done|].
  cbn in *. rewrite !length_app. destruct t; cbn in *; lia.
Qed.

Lemma holds_le_size ts : in_use holds ts ≤ N.of_nat (size ts).
Proof.
  unfold in_use, gather. rewrite <- length_map_to_list. induction (map_to_list ts) as [|[i t] l IH]; [done|].
  cbn in *. rewrite !length_app. destruct t; cbn in *; lia.
Qed.

(** A running task's ticket is among those counted, and one not counted leaves
    room for its own. *)
Lemma counted_pos ts t i :
  ts !! i = Some t → counted t = [tt] → 0 < in_use counted ts.
Proof.
  intros Hi Ht. pose proof (in_use_insert counted ts i Waiting eq_refl) as Hu.
  rewrite Hi in Hu. cbn in Hu. rewrite Ht in Hu. cbn in Hu. lia.
Qed.

Lemma counted_room ts t i :
  ts !! i = Some t → counted t = [] → holds t = [tt] → in_use counted ts < in_use holds ts.
Proof.
  intros Hi Hc Hh. pose proof (in_use_insert counted ts i Waiting eq_refl) as Hcnt.
  pose proof (in_use_insert holds ts i Waiting eq_refl) as Hhld.
  rewrite Hi in Hcnt, Hhld. cbn in Hcnt, Hhld. rewrite Hc in Hcnt. rewrite Hh in Hhld. cbn in *.
  pose proof (counted_le_holds (<[i := Waiting]> ts)). lia.
Qed.

(** ** One step *)

(** The invariant after task [i] has gone from [t] to [t']: what it adds to each
    of the sums is what the shared state changes by. *)
Lemma vc_inv_insert g ts hist added i t' g' hist' added' :
  vc_inv g ts hist added → max_cores g' = max_cores g →
  let t := default Waiting (ts !! i) in
  sem_free (cores g') + N.of_nat (length (holds t'))
    = sem_free (cores g) + N.of_nat (length (holds t)) →
  last_wakeup g' = word_of hist' → tickets_ok (max_cores g) hist' →
  word_tickets (last_wakeup g') + N.of_nat (length (counted t))
    = word_tickets (last_wakeup g) + N.of_nat (length (counted t')) →
  utilization g' = foldl f64_add f64_zero added' →
  (∀ rest, added ++ rest ++ pending_window t ≡ₚ windows hist →
     added' ++ rest ++ pending_window t' ≡ₚ windows hist') →
  task_ok t' →
  vc_inv g' (<[i := t']> ts) hist' added'.
Proof.
  intros [Hsem Hword Htk Hhist Hutil Hwin Htasks] Hmax t Hs Hw Hh Hk Hu Hp Hok.
  pose proof (in_use_insert holds ts i t' eq_refl) as Hhold. fold t in Hhold.
  pose proof (in_use_insert counted ts i t' eq_refl) as Hcnt. fold t in Hcnt.
  pose proof (gather_insert pending_window ts i t' eq_refl) as Hpend. fold t in Hpend.
  split; [rewrite Hmax; lia|done|lia|by rewrite Hmax|done| |by apply map_Forall_insert_2].
  destruct (ts !! i) as [t0|] eqn:Hi.
  - subst t. cbn in *. rewrite <- (insert_delete_id ts i t0 Hi) in Hwin.
    rewrite gather_fresh in Hwin by apply lookup_delete_eq.
    rewrite <- (insert_delete_eq ts i t'), gather_fresh by apply lookup_delete_eq.
    rewrite (Permutation_app_comm (pending_window t')). apply Hp. rewrite <- Hwin. solve_Permutation.
  - subst t. cbn in *. rewrite gather_fresh by done. rewrite (Permutation_app_comm (pending_window t')).
    apply Hp. by rewrite app_nil_r.
Qed.

(** A step that only reads. *)
Lemma vc_inv_read g ts hist added i t' :
  vc_inv g ts hist added →
  let t := default Waiting (ts !! i) in
  holds t' = holds t → counted t' = counted t → pending_window t' = pending_window t → task_ok t' →
  vc_inv g (<[i := t']> ts) hist added.
Proof.
  intros Hinv t Hh Hc Hw Hok. eapply vc_inv_insert; [done|done|..]; fold t.
  - by rewrite Hh.
  - apply (vi_word _ _ _ _ Hinv).
  - apply (vi_hist _ _ _ _ Hinv).
  - by rewrite Hc.
  - apply (vi_util _ _ _ _ Hinv).
  - intros rest. by rewrite Hw.
  - done.
Qed.

(** A compare-and-swap that succeeds, by a task that then adds its window: the
    word has the value the task saw. *)
Lemma vc_inv_cas g ts hist added i past now k t' :
  vc_inv g ts hist added →
  let t := default Waiting (ts !! i) in
  last_wakeup g = past → k ≤ max_cores g → k < 2 ^ 32 →
  k + N.of_nat (length (counted t)) = word_tickets past + N.of_nat (length (counted t')) →
  (k = word_tickets past + 1 ∨ word_tickets past = k + 1) →
  holds t' = holds t → pending_window t = [] →
  pending_window t' = [window_util now past (word_tickets past)] → task_ok t' →
  vc_inv (g <| last_wakeup := pack_word (f32_to_bits now) k |>) (<[i := t']> ts)
    ((now, k) :: hist) added.
Proof.
  intros Hinv t Hpast Hk Hmax Hcnt Hone Hh Hw Hw' Hok.
  pose proof (vi_word _ _ _ _ Hinv) as Hword. rewrite Hpast in Hword. subst past.
  eapply vc_inv_insert; [done|done|..]; fold t; cbn.
  - by rewrite Hh.
  - done.
  - rewrite <- Hword. split_and!; [done|done|apply (vi_hist _ _ _ _ Hinv)].
  - rewrite pack_word_tickets by lia. lia.
  - apply (vi_util _ _ _ _ Hinv).
  - intros rest. rewrite Hw, Hw', app_nil_r, <- Hword. intros <-. solve_Permutation.
  - done.
Qed.

(** The window is added. *)
Lemma vc_inv_add g ts hist added i w t' :
  vc_inv g ts hist added →
  let t := default Waiting (ts !! i) in
  holds t' = holds t → counted t' = counted t → pending_window t = [w] → pending_window t' = [] →
  task_ok t' →
  vc_inv (g <| utilization ::= λ u, f64_add u w |>) (<[i := t']> ts) hist (added ++ [w]).
Proof.
  intros Hinv t Hh Hc Hw Hw' Hok. eapply vc_inv_insert; [done|done|..]; fold t; cbn.
  - by rewrite Hh.
  - apply (vi_word _ _ _ _ Hinv).
  - apply (vi_hist _ _ _ _ Hinv).
  - by rewrite Hc.
  - rewrite foldl_app. cbn. by rewrite (vi_util _ _ _ _ Hinv).
  - intros rest. rewrite Hw, Hw', app_nil_r. intros <-. solve_Permutation.
  - done.
Qed.

(** The permit is taken or returned. *)
Lemma vc_inv_permit g ts hist added i c t' :
  vc_inv g ts hist added →
  let t := default Waiting (ts !! i) in
  sem_free c + N.of_nat (length (holds t')) = sem_free (cores g) + N.of_nat (length (holds t)) →
  counted t' = counted t → pending_window t' = pending_window t → task_ok t' →
  vc_inv (g <| cores := c |>) (<[i := t']> ts) hist added.
Proof.
  intros Hinv t Hh Hc Hw Hok. eapply vc_inv_insert; [done|done|..]; fold t; cbn; try done.
  - apply (vi_word _ _ _ _ Hinv).
  - apply (vi_hist _ _ _ _ Hinv).
  - by rewrite Hc.
  - apply (vi_util _ _ _ _ Hinv).
  - intros rest. by rewrite Hw.
Qed.

Lemma compare_exchange_wp past curr Q g :
  (last_wakeup g = past → Q None (g <| last_wakeup := curr |>)) → Q (Some (last_wakeup g)) g →
  wp (compare_exchange past curr) Q (λ _ _, False) g.
Proof. intros Hs Hf. unfold compare_exchange. wp_steps. case_decide; wp_steps; auto. Qed.

Lemma vc_task_step_inv now i g ts hist added :
  vc_inv g ts hist added → in_use holds ts < 2 ^ 32 →
  wp (vc_task_step now (default Waiting (ts !! i)))
    (λ t' g', max_cores g' = max_cores g ∧ ∃ hist' added', vc_inv g' (<[i := t']> ts) hist' added')
    (λ _ _, False) g.
Proof.
  intros Hinv Hmax. pose proof (vi_sem _ _ _ _ Hinv) as Hsem. pose proof (vi_tickets _ _ _ _ Hinv) as Htk.
  assert (Hok : task_ok (default Waiting (ts !! i))).
  { destruct (ts !! i) eqn:Hi; cbn; [by eapply (vi_tasks _ _ _ _ Hinv)|done]. }
  assert (Hsome : ∀ t, default Waiting (ts !! i) = t → t ≠ Waiting → ts !! i = Some t).
  { intros t <-. by destruct (ts !! i). }
  assert (Hrd : ∀ t', holds t' = holds (default Waiting (ts !! i)) →
    counted t' = counted (default Waiting (ts !! i)) →
    pending_window t' = pending_window (default Waiting (ts !! i)) → task_ok t' →
    max_cores g = max_cores g ∧ ∃ hist' added', vc_inv g (<[i := t']> ts) hist' added').
  { intros t' ????. split; [done|]. exists hist, added. by apply vc_inv_read. }
  destruct (default Waiting (ts !! i)) as [| |past|past nw|w| | |past|past nw|w|] eqn:Ht;
    cbn [vc_task_step acquire_step release_step] in *; wp_steps.
  - pose proof (sem_acquire_free (cores g)) as Hacq. destruct (sem_try_acquire (cores g)) as [c'|]; wp_steps.
    + split; [done|]. exists hist, added. apply vc_inv_permit; rewrite ?Ht; [done| |done..].
      cbn. lia.
    + by apply Hrd.
  - by apply Hrd.
  - by apply Hrd.
  - pose proof (word_tickets_lt past).
    pose proof (counted_room ts _ i (Hsome _ eq_refl ltac:(done)) eq_refl eq_refl) as Hroom.
    eapply wp_lift; [apply u64_add_ok; unfold two64; lia|]. wp_steps.
    apply compare_exchange_wp; wp_steps; [intros Hpast; wp_steps|by apply Hrd].
    eapply wp_lift; [apply u64_sub_ok; lia|]. wp_steps. rewrite N.add_sub.
    split; [done|]. exists ((nw, word_tickets past + 1) :: hist), added.
    rewrite Hpast in Htk. eapply vc_inv_cas; rewrite ?Ht; try done; [lia|lia|cbn; lia|by left].
  - split; [done|]. exists hist, (added ++ [w]). by apply vc_inv_add; rewrite ?Ht.
  - by apply Hrd.
  - apply Hrd; try done. cbn. rewrite Htk.
    by eapply counted_pos; [apply (Hsome _ eq_refl)|].
  - by apply Hrd.
  - cbn in Hok. pose proof (word_tickets_lt past). pose proof (counted_le_holds ts).
    eapply wp_lift; [apply u64_sub_ok; lia|]. wp_steps.
    apply compare_exchange_wp; wp_steps; [intros Hpast; wp_steps|].
    + eapply wp_lift; [apply u64_add_ok; unfold two64; lia|]. wp_steps. rewrite N.sub_add by lia.
      split; [done|]. exists ((nw, word_tickets past - 1) :: hist), added.
      eapply vc_inv_cas; rewrite ?Ht; try done; cbn; rewrite ?Hpast in Htk; [lia..|right; lia].
    + apply Hrd; try done. cbn. rewrite Htk. by eapply counted_pos; [apply (Hsome _ eq_refl)|].
  - split; [done|]. exists hist, (added ++ [w]). by apply vc_inv_add; rewrite ?Ht.
  - split; [done|]. exists hist, added. apply (vc_inv_permit _ _ _ _ _ (sem_release (cores g))); rewrite ?Ht; [done| |done..].
    cbn. rewrite sem_release_free. lia.
Qed.
End Inv.

(** ** f32 times in the word *)

Lemma digits2_pos_size m : digits2_pos m = Pos.size m.
Proof. induction m; cbn; congruence. Qed.

(** A valid finite f32: a full mantissa, or the least exponent. *)
Lemma f32_finite_valid s m e :
  valid_binary 24 128 (S754_finite s m e) = true →
  (Z.pos m < 2 ^ 24)%Z ∧ (-149 ≤ e ≤ 104)%Z ∧ ((2 ^ 23 ≤ Z.pos m)%Z ∨ e = (-149)%Z).
Proof.
  unfold valid_binary, bounded, canonical_mantissa, fexp, emin.
  rewrite digits2_pos_size. intros [Hc He]%andb_true_iff.
  apply Zeq_is_eq_bool in Hc. apply Z.leb_le in He.
  pose proof (Pos.size_gt m) as Hgt. pose proof (Pos.size_le m) as Hle.
  assert (Z.pos m < 2 ^ Z.pos (Pos.size m))%Z as Hgt' by (rewrite <- Pos2Z.inj_pow; lia).
  assert (2 ^ Z.pos (Pos.size m) ≤ 2 * Z.pos m)%Z as Hle' by (rewrite <- Pos2Z.inj_pow; lia).
  assert (Z.pos (Pos.size m) ≤ 24)%Z as Hsz by lia. split_and!; [|lia..|].
  - eapply Z.lt_le_trans; [exact Hgt'|]. by apply Z.pow_le_mono_r.
  - destruct (decide (e = -149)%Z); [by right|left].
    assert (Z.pos (Pos.size m) = 24)%Z as Heq by lia. rewrite Heq in Hle'. lia.
Qed.

Lemma sign_bit_div s b : b < 2 ^ 31 →
  N.testbit (sign_bit s + b) 31 = s ∧ (sign_bit s + b) / 2 ^ 23 mod 256 = b / 2 ^ 23 ∧
  (sign_bit s + b) mod 2 ^ 23 = b mod 2 ^ 23 ∧ sign_bit s + b < 2 ^ 32.
Proof.
  intros Hb. assert (b / 2 ^ 23 < 256) as Hq by (apply N.Div0.div_lt_upper_bound; lia).
  destruct s; cbn [sign_bit].
  - change (2 ^ 31) with (256 * 2 ^ 23) at 1 2 3. split_and!.
    + change (256 * 2 ^ 23) with (1 * 2 ^ 31). rewrite N.testbit_eqb, N.add_comm, N.div_add by lia.
      by rewrite N.div_small.
    + rewrite N.add_comm, N.div_add by lia.
      replace (b / 2 ^ 23 + 256) with (b / 2 ^ 23 + 1 * 256) by lia.
      by rewrite N.Div0.mod_add, N.mod_small.
    + by rewrite N.add_comm, N.Div0.mod_add.
    + lia.
  - rewrite N.add_0_l. split_and!; [|by rewrite N.mod_small|done|lia].
    rewrite N.testbit_eqb, N.div_small by done. done.
Qed.

(** [from_bits] of a sign, an exponent field and a mantissa field. *)
Lemma f32_from_fields s ex m :
  ex < 256 → m < 2 ^ 23 →
  sign_bit s + (ex * 2 ^ 23 + m) < 2 ^ 32 ∧
  f32_from_bits (sign_bit s + (ex * 2 ^ 23 + m)) =
    if ex =? 0 then
      match m with N0 => S754_zero s | Npos p => S754_finite s p (-149) end
    else if ex =? 255 then (if m =? 0 then S754_infinity s else S754_nan)
    else S754_finite s (N.succ_pos (m + 2 ^ 23 - 1)) (Z.of_N ex - 150).
Proof.
  intros Hex Hm. destruct (sign_bit_div s (ex * 2 ^ 23 + m)) as (Hs & Hd & Hr & Hlt); [lia|].
  split; [done|]. unfold f32_from_bits. rewrite Hs, Hd, Hr.
  rewrite N.add_comm, N.div_add, N.Div0.mod_add, N.div_small, N.mod_small, N.add_0_l by lia. done.
Qed.

Lemma f32_bits_roundtrip x :
  valid_binary 24 128 x = true → f32_to_bits x < 2 ^ 32 ∧ f32_from_bits (f32_to_bits x) = x.
Proof.
  intros Hv. destruct x as [s|s| |s m e]; cbn [f32_to_bits].
  - destruct (f32_from_fields s 0 0 ltac:(lia) ltac:(lia)) as [Hb Hf].
    rewrite N.mul_0_l, !N.add_0_r in Hb, Hf. by rewrite Hf.
  - destruct (f32_from_fields s 255 0 ltac:(lia) ltac:(lia)) as [Hb Hf].
    rewrite N.add_0_r in Hb, Hf. by rewrite Hf.
  - split; [done|by vm_compute].
  - apply f32_finite_valid in Hv as (Hm & He & Hor).
    destruct (Z.ltb_spec (Z.pos m) (2 ^ 23)) as [Hlt|Hge].
    + destruct Hor as [|Heq]; [lia|]. subst e.
      destruct (f32_from_fields s 0 (N.pos m) ltac:(lia) ltac:(lia)) as [Hb Hf].
      rewrite N.mul_0_l, N.add_0_l in Hb, Hf. by rewrite Hf.
    + destruct (f32_from_fields s (Z.to_N (e + 150)) (N.pos m - 2 ^ 23) ltac:(lia) ltac:(lia)) as [Hb Hf].
      rewrite N.add_assoc in Hb, Hf. split; [exact Hb|]. rewrite Hf.
      destruct (N.eqb_spec (Z.to_N (e + 150)) 0); [lia|].
      destruct (N.eqb_spec (Z.to_N (e + 150)) 255); [lia|]. f_equal; [|lia].
      replace (N.pos m - 2 ^ 23 + 2 ^ 23 - 1) with (Pos.pred_N m) by lia.
      apply (inj N.pos). rewrite N.succ_pos_spec. apply N.succ_pos_pred.
Qed.

(** C39: an f32 time packed into the atomic word with a number of tickets is read
    back exactly, whatever the time (zero, subnormal, infinite or not a number
    included), and so is the number of tickets; the word fits 64 bits. *)
Theorem packed_word_roundtrip x k :
  valid_binary 24 128 x = true → k < 2 ^ 32 →
  pack_word (f32_to_bits x) k < 2 ^ 64 ∧
  word_time (pack_word (f32_to_bits x) k) = x ∧ word_tickets (pack_word (f32_to_bits x) k) = k.
Proof.
  intros Hv Hk. destruct (f32_bits_roundtrip x Hv) as [Hlt Hrt]. split_and!.
  - pose proof (pack_word_time (f32_to_bits x) k Hk) as Ht.
    pose proof (pack_word_tickets (f32_to_bits x) k Hk) as Hq. unfold word_tickets in Hq.
    change 0xFFFFFFFF with (N.ones 32) in Hq. rewrite N.land_ones in Hq. rewrite N.shiftr_div_pow2 in Ht.
    rewrite (N.div_mod' (pack_word _ k) (2 ^ 32)), Ht, Hq. lia.
  - unfold word_time. by rewrite pack_word_time.
  - by apply pack_word_tickets.
Qed.

Lemma packed_word_roundtrip_witness :
  let x := as_secs_f32 1500000001 in
  f32_to_bits x = 0x3fc00000 ∧ word_time (pack_word (f32_to_bits x) 3) = x.
Proof.
  split; [by vm_compute|].
  apply (packed_word_roundtrip (as_secs_f32 1500000001) 3); by vm_compute.
Defined.

(** ** Runs *)

Section Runs.
Context `{Semaphore} `{!SemaphoreLaws} `{BuildProfile}.

Lemma vc_inv_new n now : vc_inv (vc_new n now) ∅ [] [].
Proof.
  split; try done. cbn. rewrite sem_new_free. unfold in_use, gather.
  rewrite map_to_list_empty. cbn. lia.
Qed.

(** The tasks that have started are never fewer. *)
Lemma vc_steps_size y z : rtc vc_step y z → (size y.2 ≤ size z.2)%nat.
Proof.
  induction 1 as [|y z w Hyz _ IH]; [done|]. etrans; [|exact IH]. destruct Hyz as [i now t g ts g' t' _ _]. cbn.
  rewrite map_size_insert. destruct (ts !! i); cbn; lia.
Qed.

(** The count fits in its half of the word: there is no room, or there are no tasks, for
    more. *)
Lemma vc_inv_fits g ts hist added :
  vc_inv g ts hist added → N.min (max_cores g) (N.of_nat (size ts)) < 2 ^ 32 → in_use holds ts < 2 ^ 32.
Proof. intros Hinv. pose proof (vi_sem _ _ _ _ Hinv). pose proof (holds_le_size ts). lia. Qed.

Lemma vc_steps_inv g ts g' ts' hist added :
  vc_inv g ts hist added → N.min (max_cores g) (N.of_nat (size ts')) < 2 ^ 32 → rtc vc_step (g, ts) (g', ts') →
  max_cores g' = max_cores g ∧ ∃ hist' added', vc_inv g' ts' hist' added'.
Proof.
  intros Hinv Hmax Hsteps. remember (g, ts) as y eqn:Hy. remember (g', ts') as z eqn:Hz.
  revert g ts hist added Hinv Hmax Hy Hz.
  induction Hsteps as [y|y z w Hyz Hzw IH]; intros g ts hist added Hinv Hmax -> Hz.
  { injection Hz as -> ->. split; [done|]. by exists hist, added. }
  assert (in_use holds ts < 2 ^ 32) as Hfit.
  { eapply vc_inv_fits; [done|]. pose proof (vc_steps_size _ _ (rtc_l _ _ _ _ Hyz Hzw)) as Hsz. rewrite Hz in Hsz. cbn in Hsz. lia. }
  inversion Hyz as [i now t g0 ts0 g1 t1 Ht Hstep]; subst.
  pose proof (vc_task_step_inv now i g ts hist added Hinv Hfit) as Hwp.
  apply (wp_ok _ _ _ _ Hwp) in Hstep as (Hm & hist1 & added1 & Hinv1).
  rewrite <- Hm. by eapply IH; [exact Hinv1|lia|..].
Qed.

(** C19: as long as the maximum, or the number of tasks that ever start, is below
    [2 ^ 32] (a node's default maximum is not), and under every interleaving of the tasks,
    at whatever times they read the clock and however often a compare-and-swap fails or succeeds on a
    word that has changed and changed back: no step panics, so the count neither
    underflows nor runs into the time; the tickets in the word are those of the
    tasks that have taken one and not yet given it back; permits are neither
    lost nor made, so there are at most [max_cores] tasks between them; and the
    utilization is the sum of the use of the cores between the changes of the
    word, each added exactly once, but for those some task is about to add. *)
Theorem vcores_accounting n now g ts :
  N.min n (N.of_nat (size ts)) < 2 ^ 32 → rtc vc_step (vc_new n now, ∅) (g, ts) →
  (∀ i now', ∃ t' g', vc_task_step now' (default Waiting (ts !! i)) g = (Ok t', g')) ∧
  word_tickets (last_wakeup g) = in_use counted ts ∧
  sem_free (cores g) + in_use holds ts = n ∧ in_use counted ts ≤ in_use holds ts ∧
  ∃ hist added, last_wakeup g = word_of hist ∧ tickets_ok n hist ∧
    utilization g = foldl f64_add f64_zero added ∧
    added ++ gather pending_window ts ≡ₚ windows hist.
Proof.
  intros Hn Hsteps.
  destruct (vc_steps_inv _ _ _ _ _ _ (vc_inv_new n now) Hn Hsteps) as (Hmax & hist & added & Hinv).
  cbn in Hmax. subst n. split_and!.
  - intros i now'. pose proof (vc_task_step_inv now' i _ _ _ _ Hinv (vc_inv_fits _ _ _ _ Hinv Hn)) as Hwp. unfold wp in Hwp.
    destruct (vc_task_step _ _ g) as [[t'|e| |] g']; try done. by exists t', g'.
  - apply (vi_tickets _ _ _ _ Hinv).
  - apply (vi_sem _ _ _ _ Hinv).
  - apply counted_le_holds.
  - exists hist, added. destruct Hinv. by split_and!.
Qed.
End Runs.

(** ** The theorems at work *)

(** A semaphore that counts. *)
#[local] Instance counting_semaphore : Semaphore := {|
  sem := N;
  sem_new := λ n, n;
  sem_try_acquire := λ c, match c with 0 => None | _ => Some (N.pred c) end;
  sem_release := N.succ;
|}.
#[local] Program Instance counting_semaphore_laws : SemaphoreLaws := {| sem_free := λ c, c |}.
Next Obligation. done. Qed.
Next Obligation. intros [|p]; cbn; [done|lia]. Qed.
Next Obligation. cbn. lia. Qed.

#[local] Instance vc_profile : BuildProfile := true.

(** Two tasks race for the word: task 2 wins, task 1 retries. *)
Definition w_schedule : list (N * Instant) :=
  [(1, 5); (2, 5); (1, 6); (2, 6); (1, 7); (2, 8); (2, 9); (1, 10); (2, 11); (1, 12); (1, 13); (1, 14)].
Definition w_run (l : list (N * Instant)) : vc_state :=
  foldl (λ s x, match vc_task_step (x.2 * nanos_per_sec) (default Waiting (s.2 !! x.1)) s.1 with
    | (Ok t', g') => (g', <[x.1 := t']> s.2) | _ => s end) (vc_new 2 0, ∅) l.

Lemma w_run_steps l : rtc vc_step (vc_new 2 0, ∅) (w_run l).
Proof.
  unfold w_run. induction l as [|x l IH] using rev_ind; [by apply rtc_refl|].
  rewrite foldl_app. cbn. etrans; [exact IH|].
  destruct (foldl _ _ l) as [g ts]. cbn.
  destruct (vc_task_step _ _ g) as [[t'|e| |] g'] eqn:Heq; try apply rtc_refl.
  apply rtc_once. by econstructor.
Qed.

Lemma vcores_accounting_witness :
  let s := w_run w_schedule in
  word_tickets (last_wakeup s.1) = 2 ∧ utilization s.1 = f64_of_N 4 ∧
  in_use counted s.2 = 2.
Proof.
  destruct (vcores_accounting 2 0 (w_run w_schedule).1 (w_run w_schedule).2) as (_ & Hw & _).
  - by apply N.ltb_lt; vm_compute.
  - pose proof (w_run_steps w_schedule) as Hs. by destruct (w_run w_schedule).
  - split_and!; [by vm_compute|by vm_compute|]. rewrite <- Hw. by vm_compute.
Defined.

(** After an hour the time of an f32 has a resolution of a quarter of a
    millisecond: a core used for a shorter time counts as unused. *)
Lemma short_use_lost :
  let t := 3600 * nanos_per_sec in
  f32_sub (as_secs_f32 (t + 100000)) (as_secs_f32 t) = S754_zero false.
Proof. by vm_compute. Qed.
