(* ===== verification/SourceTests.v ===== *)
(** * The repository's own tests

    The unit tests the sources contain, as definitions, run on the model: the block
    validation test of bitcoin/basic.rs (a fork of one block, a switch that follows it,
    and an extension), the test of the geometric distribution that simulates proof of
    work, in basic.rs and eager.rs, and the three tests of vcores.rs. A failed [assert!]
    is a panic, a returned error an error. What the tests leave to the machine is an
    argument: the mathematical library, and the schedule of the tasks with the clock. *)

From Stdlib Require Import SpecFloat.
From S2P Require Import Prelude F64 Protocol Peers Config Samples BtcMgmt VCores.
Local Open Scope N_scope.

(** ** [test_pow] *)

Section Pow.
Context `{Libm}.

(** [loop { cdf *= p; curr += 1; if cdf < u { break curr; } }] *)
Fixpoint pow_loop (fuel : nat) (p u cdf : f64) (curr : N) : res N :=
  match fuel with
  | O => OutOfFuel
  | S fuel' =>
    let cdf := f64_mul cdf p in
    let curr := curr + 1 in
    if f64_ltb cdf u then Ok curr else pow_loop fuel' p u cdf curr
  end.

Definition test_pow (fuel : nat) : res unit :=
  let p := f64_sub f64_one (f64_powf (f64_of_N 2) (f64_opp (f64_of_N 10))) in
  let u := f64_powf p (f64_of_N 2000) in
  x ← pow_loop fuel p u f64_one 0;
  if decide (x = 2000) then Ok tt else Err (mkErr "expected x to be 2000").
End Pow.

(** [x] to the power [n], correctly rounded, on the odd part of its mantissa. *)
Fixpoint odd_part (m : positive) (e : Z) : Z * Z :=
  match m with xO m' => odd_part m' (e + 1) | _ => (Z.pos m, e) end.
Definition rounded_power (x : f64) (n : Z) : f64 :=
  match x with
  | S754_finite s m e =>
    let (m, e) := odd_part m e in
    if (0 <=? n)%Z then binary_normalize 53 1024 (m ^ n) (e * n) false
    else f64_div f64_one (binary_normalize 53 1024 (m ^ - n) (e * - n) false)
  | x => x
  end.

(** eager.rs has the same test. *)
Definition eager_test_pow `{Libm} : nat → res unit := test_pow.

(** ** [test_block_validation] *)

Section Validation.
Context `{Externals} `{!Bincode BitcoinTxn} `{!Bincode AvalancheTxn} `{!Bincode BlockHeader} `{BuildProfile} `{HashOrder} `{Transport} `{Libm}.

(** peers/mock.rs: the messenger of the tests, which only prints. *)
Definition new_stub : PeerMessenger := mkPeerMessenger 0 ∅ 0 [].

Definition grant_10 (receiver : PubKey) : Txn := TBitcoin (BGrant 10 receiver).
Definition send_10 (sender : PubKey) (in_utxo : Hash) (receiver : PubKey) : Txn :=
  TBitcoin (BSend sender [in_utxo] receiver 10 0 [] 400 1000000 true).

(** The blocks, one after the other, on a new stage. *)
Definition test_validations (blk1 blk2 blk3 blk4 : Block * BlkCtx) : res unit :=
  let stage := new 1 (bb_difficulty BitcoinBasicConfig_default) new_stub in
  ((result1 ← validate_block blk1.1 blk1.2;
    massert (bool_decide (length result1 = 1%nat)) ;;
    result2 ← validate_block blk2.1 blk2.2;
    massert (bool_decide (length result2 = 0%nat)) ;;
    result3 ← validate_block blk3.1 blk3.2;
    massert (bool_decide (length result3 = 2%nat)) ;;
    result4 ← validate_block blk4.1 blk4.2;
    massert (bool_decide (length result4 = 1%nat))) stage).1.

Definition test_block_validation : res unit :=
  let txn1_1 := grant_10 [1] in
  txn1_1_id ← txn_compute_id txn1_1;
  let txn1_2 := grant_10 [2] in
  txn1_2_id ← txn_compute_id txn1_2;
  let txn1_3 := send_10 [1] txn1_1_id [2] in
  txn1_3_id ← txn_compute_id txn1_3;
  let blk1 := mkBlock (HBitcoin 0 0 0 1) [txn1_1; txn1_2; txn1_3] in
  blk1_ctx ← BlkCtx_from_blk [] blk1;
  let blk2 := mkBlock (HBitcoin 0 0 1 1) [txn1_1; txn1_2; txn1_3] in
  blk2_ctx ← BlkCtx_from_blk [] blk2;
  let txn3_1 := grant_10 [5] in
  txn3_1_id ← txn_compute_id txn3_1;
  let txn3_2 := send_10 [2] txn1_2_id [3] in
  txn3_2_id ← txn_compute_id txn3_2;
  let txn3_3 := send_10 [5] txn3_1_id [4] in
  txn3_3_id ← txn_compute_id txn3_3;
  let blk3 := mkBlock (HBitcoin 0 (bc_id blk2_ctx) 0 1) [txn3_1; txn3_2; txn3_3] in
  blk3_ctx ← BlkCtx_from_blk [] blk3;
  let txn4_1 := send_10 [2] txn1_3_id [5] in
  let txn4_2 := send_10 [3] txn3_2_id [5] in
  let txn4_3 := send_10 [4] txn3_3_id [3] in
  let blk4 := mkBlock (HBitcoin 0 (bc_id blk3_ctx) 0 1) [txn4_1; txn4_2; txn4_3] in
  blk4_ctx ← BlkCtx_from_blk [] blk4;
  test_validations (blk1, blk1_ctx) (blk2, blk2_ctx) (blk3, blk3_ctx) (blk4, blk4_ctx).
End Validation.

(** ** The tests of vcores.rs *)

Section VCoresTests.
Context `{Semaphore} `{BuildProfile}.

(** The steps of the tasks, each with the time at which it is taken. *)
Fixpoint run_schedule (schedule : list (N * Instant)) (s : vc_state) : res vc_state :=
  match schedule with
  | [] => Ok s
  | (i, now) :: rest =>
    match vc_task_step now (default Waiting (s.2 !! i)) s.1 with
    | (Ok t, g) => run_schedule rest (g, <[i := t]> s.2)
    | (Err e, _) => Err e
    | (Panic, _) => Panic
    | (OutOfFuel, _) => OutOfFuel
    end
  end.

(** [assert!((util - expected).abs() < tolerance)] *)
Definition assert_close (util expected tolerance : f64) : res unit :=
  if f64_ltb (SFabs (f64_sub util expected)) tolerance then Ok tt else Panic.

Definition test_acquire_release (start acquired util1 dropped util2 : Instant) : res unit :=
  let core_group := vc_new 2 start in
  s ← run_schedule (replicate 5 (1, acquired)) (core_group, ∅);
  assert_close (get_utilization util1 s.1) (f64_of_N 1) (f64_lit 5 100) ;;
  s ← run_schedule (replicate 6 (1, dropped)) s;
  assert_close (get_utilization util2 s.1) (f64_lit 5 10) (f64_lit 5 100).

(** The last two tests spawn tasks that take a core, sleep and drop it; [schedule] is
    their interleaving until all have ended. *)
Definition test_spawned (schedule : list (N * Instant)) (expected1 tolerance1 expected2 tolerance2 : f64)
    (start util1 util2 : Instant) : res unit :=
  s ← run_schedule schedule (vc_new 2 start, ∅);
  assert_close (get_utilization util1 s.1) expected1 tolerance1 ;;
  assert_close (get_utilization util2 s.1) expected2 tolerance2.

Definition test_concurrent (schedule : list (N * Instant)) (start util1 util2 : Instant) : res unit :=
  test_spawned schedule (f64_lit 15 10) (f64_lit 5 100) (f64_of_N 1) (f64_lit 5 100) start util1 util2.

Definition test_waiting_for_ticket (schedule : list (N * Instant)) (start util1 util2 : Instant) : res unit :=
  test_spawned schedule (f64_of_N 2) (f64_lit 3 10) (f64_of_N 1) (f64_lit 5 100) start util1 util2.
End VCoresTests.

(** ** The tests pass *)

(** The loop stops at the first power below [u]. *)
Lemma test_pow_passes `{Libm} :
  f64_powf (f64_of_N 2) (f64_opp (f64_of_N 10)) = rounded_power (f64_of_N 2) (-10) →
  (∀ p, f64_powf p (f64_of_N 2000) = rounded_power p 2000) →
  test_pow 2000 = Ok tt.
Proof. intros H1 H2. unfold test_pow. rewrite H1, H2. by vm_compute. Qed.

(** Hashing and serialization for the test: a rolling hash of all the fields, without
    collisions on the test's transactions and blocks. *)
Definition mix (b : bytes) : N := foldl (λ acc x, (acc * 1000003 + x + 1) mod 2 ^ 255) 7 b.

#[local] Instance test_externals : Externals := {|
  sha256_digest := λ b, le_bytes 32 (mix b);
  u256_from_le := λ b, if decide (length b ≤ 32)%nat then Some (sample_from_le b) else None;
  u256_to_le := le_bytes 32;
  k256_gen_key_pair := λ seed, ([seed], [seed]);
  k256_sign := λ k b, inl k;
  k256_verify := λ k b s, inl (bool_decide (k = s));
  btc_stack_size := λ _, 100;
  avax_stack_size := λ _, 100;
  arc_get_size := λ _, 108;
|}.
#[local] Instance test_bincode_btc : Bincode BitcoinTxn := {|
  serialize := λ t, inl match t with
    | BIncentive v r => [0; v; N.of_nat (length r)] ++ r
    | BSend s ins r o rem sg sb sr ok =>
      [1; N.of_nat (length s)] ++ s ++ [N.of_nat (length ins)] ++ ins ++ [N.of_nat (length r)] ++ r ++
      [o; rem; N.of_nat (length sg)] ++ sg ++ [sb; sr; if (ok : bool) then 1 else 0]
    | BGrant v r => [2; v; N.of_nat (length r)] ++ r
    end;
  deserialize := λ _, inr (mkErr "not needed");
|}.
#[local] Instance test_bincode_avax : Bincode AvalancheTxn := {|
  serialize := λ _, inl [6]; deserialize := λ _, inr (mkErr "not needed");
|}.
#[local] Instance test_bincode_header : Bincode BlockHeader := {|
  serialize := λ h, inl match h with
    | HBitcoin p prev root n => [1; p; prev; root; n]
    | _ => [0]
    end;
  deserialize := λ _, inr (mkErr "not needed");
|}.
#[local] Existing Instances sample_profile canonical_order sample_transport.
#[local] Instance test_libm : Libm := {| f64_powf := λ x _, x; f64_log := λ x _, x |}.

Example test_block_validation_passes : test_block_validation = Ok tt.
Proof. by vm_compute. Qed.

(** A semaphore that counts. *)
#[local] Instance test_semaphore : Semaphore := {|
  sem := N;
  sem_new := λ n, n;
  sem_try_acquire := λ c, match c with 0 => None | _ => Some (N.pred c) end;
  sem_release := N.succ;
|}.

(** A task acquires a core, and drops it, at one time each. *)
Definition takes (i : N) (at_ : Instant) : list (N * Instant) := replicate 5 (i, at_).
Definition drops (i : N) (at_ : Instant) : list (N * Instant) := replicate 6 (i, at_).
Definition ms (n : N) : Instant := n * 1000000.

(** With sleeps that are exact, and with sleeps 2% too long. *)
Example test_acquire_release_passes :
  test_acquire_release 0 0 (ms 10) (ms 10) (ms 20) = Ok tt ∧
  test_acquire_release 0 20000 10220000 10240000 20460000 = Ok tt.
Proof. split; by vm_compute. Qed.

Example test_concurrent_passes :
  test_concurrent (takes 1 0 ++ takes 2 0 ++ drops 2 (ms 5) ++ drops 1 (ms 10)) 0 (ms 10) (ms 15) = Ok tt ∧
  (* both load the word before either updates it, and task 1 retries *)
  test_concurrent ([(1, 0); (2, 0); (1, 0); (2, 0); (1, 0); (2, 0); (2, 0); (1, 0); (2, 0); (1, 0); (1, 0); (1, 0)] ++
    drops 2 (ms 5) ++ drops 1 (ms 10)) 0 (ms 10) (ms 15) = Ok tt.
Proof. split; by vm_compute. Qed.

(** Task 3 waits for a permit until task 2 has returned its own. *)
Example test_waiting_for_ticket_passes :
  test_waiting_for_ticket (takes 1 0 ++ takes 2 0 ++ [(3, 0)] ++ drops 2 (ms 5) ++ takes 3 (ms 5) ++
    drops 1 (ms 10) ++ drops 3 (ms 10)) 0 (ms 10) (ms 20) = Ok tt.
Proof. by vm_compute. Qed.
