(* ===== verification/BtcEager.v ===== *)
(** * Bitcoin block management, the eager variant

    src/src/stage/consensus/block_management/bitcoin/eager.rs keeps the UTXO set
    of every block instead of that of the chain tail. Its methods are those of
    basic.rs, word for word, but for the set they read, so they are run here on a
    view of the state as a [BitcoinBM] whose UTXO set is the parent's. *)

From S2P Require Import Prelude F64 Protocol Peers Samples.
From S2P Require BtcMgmt.
Local Open Scope N_scope.

Record EagerBM := mkEagerBM {
  eg_id : NodeId;
  eg_delay : f64;
  eg_txn_pool : gmap Hash (Txn * TxnCtx);
  eg_block_pool : gmap Hash (Block * BlkCtx * N);
  eg_utxo : gmap Hash (gset (N * list N));
  eg_chain_tail : Hash;
  eg_difficulty : N;
  (* fields for constructing new block *)
  eg_pending_txns : list Hash;
  eg_block_under_construction : list Hash;
  eg_merkle_root : option Hash;
  eg_block_size : N;
  eg_new_utxo : gset (N * list N);
  eg_utxo_spent : gset (N * list N);
  eg_pow_time : option (Instant * f64);
  (* for requesting missing blocks *)
  eg_peer_messenger : PeerMessenger;
  eg_orphan_blocks : gmap Hash (gset Hash);
}.
#[export] Instance EagerBM_eta : Eta EagerBM := λ r,
  mkEagerBM (eg_id r) (eg_delay r) (eg_txn_pool r) (eg_block_pool r) (eg_utxo r)
    (eg_chain_tail r) (eg_difficulty r) (eg_pending_txns r) (eg_block_under_construction r)
    (eg_merkle_root r) (eg_block_size r) (eg_new_utxo r) (eg_utxo_spent r) (eg_pow_time r)
    (eg_peer_messenger r) (eg_orphan_blocks r).

(** The view as the state of basic.rs, and back. *)
Definition as_basic (parent_utxos : gset (N * list N)) (s : EagerBM) : BtcMgmt.BitcoinBM :=
  BtcMgmt.mkBitcoinBM (eg_id s) (eg_delay s) (eg_txn_pool s) (eg_block_pool s) parent_utxos
    (eg_chain_tail s) (eg_difficulty s) (eg_pending_txns s) (eg_block_under_construction s)
    (eg_merkle_root s) (eg_block_size s) (eg_new_utxo s) (eg_utxo_spent s) (eg_pow_time s)
    (eg_peer_messenger s) (eg_orphan_blocks s).

Definition from_basic (b : BtcMgmt.BitcoinBM) (s : EagerBM) : EagerBM :=
  mkEagerBM (BtcMgmt.bm_id b) (BtcMgmt.bm_delay b) (BtcMgmt.txn_pool b) (BtcMgmt.block_pool b)
    (eg_utxo s) (BtcMgmt.chain_tail b) (BtcMgmt.difficulty b) (BtcMgmt.pending_txns b)
    (BtcMgmt.block_under_construction b) (BtcMgmt.merkle_root b) (BtcMgmt.block_size b)
    (BtcMgmt.new_utxo b) (BtcMgmt.utxo_spent b) (BtcMgmt.pow_time b)
    (BtcMgmt.peer_messenger b) (BtcMgmt.orphan_blocks b).

(** A method of basic.rs with [parent_utxos] for [self.utxo]. *)
Definition on_basic {A : Type} (parent_utxos : gset (N * list N)) (m : M BtcMgmt.BitcoinBM A) : M EagerBM A :=
  zoom (as_basic parent_utxos) from_basic m.

Definition eg_new (id : NodeId) (difficulty : N) (pm : PeerMessenger) : EagerBM :=
  mkEagerBM id f64_zero ∅ ∅ ∅ 0 difficulty [] [] None 0 ∅ ∅ None pm ∅.

(** Reads and writes the block pool and the orphans only. *)
Definition eg_get_chain_length : M EagerBM N := on_basic ∅ BtcMgmt.get_chain_length.

Section Methods.
Context `{BuildProfile} `{HashOrder} `{BtcMgmt.Libm} `{Externals} `{!Bincode BlockHeader}
  `{!Bincode BitcoinTxn} `{Transport}.

Definition eg_update_orphans_and_return_tail (fuel : nat) (block_hash : Hash) (height : N) :
    M EagerBM (Hash * N) :=
  on_basic ∅ (BtcMgmt.update_orphans_and_return_tail fuel block_hash height).

Definition eg_validate_txn (s : EagerBM) (txn : BitcoinTxn) : res bool :=
  BtcMgmt.validate_txn (eg_txn_pool s) txn.

Definition eg_record_new_txn (txn : Txn) (ctx : TxnCtx) : M EagerBM bool :=
  on_basic ∅ (BtcMgmt.record_new_txn txn ctx).

(** [self.utxo.get(&self.chain_tail).unwrap()], then the body of basic.rs. *)
Definition eg_prepare_new_block (fuel : nat) (root : Hash) (now : Instant) (u : f64) :
    M EagerBM BtcMgmt.CurBlockState :=
  s ← gets (λ s, s);
  parent_utxos ← unwrap (eg_utxo s !! eg_chain_tail s);
  on_basic parent_utxos (BtcMgmt.prepare_new_block fuel root now u).

(** One round of the loop of [wait_to_propose]: it sleeps for the whole proof of
    work again, at most ten seconds. *)
Definition eg_wait_to_propose (now : Instant) (compute_power : f64) (s : EagerBM) : res BtcMgmt.poll :=
  match eg_pow_time s with
  | None => Ok BtcMgmt.YieldNow
  | Some (pow_start_time, pow_time) =>
    pow_dur ← from_secs_f64 (f64_sub (f64_div pow_time compute_power) (f64_lit 1 1000));
    if (pow_start_time + pow_dur <? now)%N then Ok BtcMgmt.Ready
    else Ok (BtcMgmt.SleepFor (N.min pow_dur (10 * nanos_per_sec)))
  end.

(** The UTXO set of the new block is looked up under the new chain tail. *)
Definition eg_get_new_block : M EagerBM (Block * BlkCtx) :=
  s ← gets (λ s, s);
  modify (λ s, s <| eg_block_under_construction := [] |>) ;;
  txns_with_ctx ← lift_res (lookup_all (eg_txn_pool s) (eg_block_under_construction s));
  root ← unwrap (eg_merkle_root s);
  let hdr := HBitcoin (eg_id s) (eg_chain_tail s) root 1 in
  block_ctx ← lift_res (BlkCtx_from_header_and_txns [] hdr txns_with_ctx.*2);
  let hash := bc_id block_ctx in
  let block := mkBlock hdr txns_with_ctx.*1 in
  chain_length ← eg_get_chain_length;
  modify (λ s, s <| eg_block_pool ::= <[hash := (block, block_ctx, chain_length + 1)]> |>
                 <| eg_chain_tail := hash |>) ;;
  utxos ← gets (λ s, eg_utxo s !! eg_chain_tail s);
  new_utxo_set ← unwrap utxos;
  modify (λ s, s <| eg_utxo ::= <[hash := (new_utxo_set ∪ eg_new_utxo s) ∖ eg_utxo_spent s]> |>
                 <| eg_new_utxo := ∅ |> <| eg_utxo_spent := ∅ |>) ;;
  _ ← unwrap (eg_pow_time s);
  modify (λ s, s <| eg_merkle_root := None |> <| eg_pow_time := None |> <| eg_block_size := 0 |>) ;;
  mret (block, block_ctx).

(** [todo!()] *)
Definition eg_validate_block (_block : Block) (_blk_ctx : BlkCtx) : M EagerBM (list (Block * BlkCtx)) :=
  panic.

Definition eg_handle_pmaker_msg (msg : bytes) : M EagerBM unit :=
  on_basic ∅ (BtcMgmt.handle_pmaker_msg msg).

Definition eg_handle_peer_blk_req (peer : NodeId) (msg : bytes) : M EagerBM unit :=
  on_basic ∅ (BtcMgmt.handle_peer_blk_req peer msg).

(** ** What the variant does *)

(** Every call, whatever it returns. *)
Inductive eager_step : EagerBM → EagerBM → Prop :=
| eager_record txn ctx s : eager_step s (eg_record_new_txn txn ctx s).2
| eager_prepare fuel root now u s : eager_step s (eg_prepare_new_block fuel root now u s).2
| eager_propose s : eager_step s (eg_get_new_block s).2
| eager_validate b c s : eager_step s (eg_validate_block b c s).2
| eager_pmaker msg s : eager_step s (eg_handle_pmaker_msg msg s).2
| eager_blk_req peer msg s : eager_step s (eg_handle_peer_blk_req peer msg s).2.

Definition never_mined (s : EagerBM) : Prop :=
  eg_utxo s = ∅ ∧ eg_merkle_root s = None ∧ eg_pow_time s = None ∧ eg_block_pool s = ∅ ∧
  eg_chain_tail s = 0.

Lemma on_basic_utxo {A : Type} V (m : M BtcMgmt.BitcoinBM A) s : eg_utxo (on_basic V m s).2 = eg_utxo s.
Proof. unfold on_basic, zoom. by destruct (m _). Qed.

(** The methods of basic.rs that leave the chain and the template alone. *)
Lemma on_basic_never_mined {A : Type} V (m : M BtcMgmt.BitcoinBM A) s :
  (∀ b, BtcMgmt.merkle_root (m b).2 = BtcMgmt.merkle_root b ∧
        BtcMgmt.pow_time (m b).2 = BtcMgmt.pow_time b ∧
        BtcMgmt.block_pool (m b).2 = BtcMgmt.block_pool b ∧
        BtcMgmt.chain_tail (m b).2 = BtcMgmt.chain_tail b) →
  never_mined s → never_mined (on_basic V m s).2.
Proof.
  intros Hm (Hu & Hr & Hp & Hb & Ht). destruct (Hm (as_basic V s)) as (Hr' & Hp' & Hb' & Ht').
  unfold never_mined. rewrite on_basic_utxo. unfold on_basic, zoom.
  destruct (m (as_basic V s)) as [r b]. cbn in *. by rewrite Hr', Hp', Hb', Ht'.
Qed.

Lemma eager_step_never_mined s s' : eager_step s s' → never_mined s → never_mined s'.
Proof.
  intros [txn ctx s0|fuel root now u s0|s0|b c s0|msg s0|peer msg s0] Hs; try done.
  - apply on_basic_never_mined; [|done]. intros b. unfold BtcMgmt.record_new_txn, mbind, M_bind, gets.
    by destruct (BtcMgmt.txn_pool b !! _).
  - pose proof Hs as (Hu & _). unfold eg_prepare_new_block, mbind, M_bind, gets.
    rewrite Hu, lookup_empty. done.
  - pose proof Hs as (Hu & Hr & Hp & Hb & Ht). unfold eg_get_new_block, mbind, M_bind, gets, modify.
    unfold lift_res. destruct (lookup_all _ _); cbn; [rewrite Hr|..]; by split_and!.
  - apply on_basic_never_mined; [|done]. intros b. by destruct msg.
  - apply on_basic_never_mined; [|done]. intros b.
    unfold BtcMgmt.handle_peer_blk_req, mbind, M_bind, gets, lift_res, zoom.
    destruct (u256_from_le_res msg) as [h| | |]; cbn; [|done..].
    destruct (BtcMgmt.block_pool b !! h) as [[[blk ?] ?]|];
      [destruct (pm_send _ _ _)|destruct (pm_gossip _ _ _)]; done.
Qed.

(** The eager variant cannot run a chain: no call ever enters a UTXO set, not
    even one for the empty chain, so in every state it reaches, preparing a block
    panics on the missing set of its parent, as do proposing a block and
    validating one; it is never ready to propose, and no block is ever held. *)
Theorem eager_never_mines id d pm s :
  rtc eager_step (eg_new id d pm) s →
  (∀ fuel root now u, (eg_prepare_new_block fuel root now u s).1 = Panic) ∧
  (∀ b c, (eg_validate_block b c s).1 = Panic) ∧
  (∀ now power, eg_wait_to_propose now power s = Ok BtcMgmt.YieldNow) ∧
  eg_utxo s = ∅ ∧ eg_block_pool s = ∅.
Proof.
  intros Hsteps. assert (never_mined s) as (Hu & _ & Hp & Hb & _).
  { revert Hsteps. apply (rtc_ind_r never_mined); [done|]. intros y z _ Hyz Hy.
    by eapply eager_step_never_mined. }
  split_and!; try done.
  - intros. unfold eg_prepare_new_block, mbind, M_bind, gets. by rewrite Hu, lookup_empty.
  - intros. unfold eg_wait_to_propose. by rewrite Hp.
Qed.
End Methods.

(** ** The theorem at work *)

#[local] Existing Instances sample_externals sample_bincode_btc sample_bincode_header
  sample_transport sample_profile canonical_order.
#[local] Instance eager_libm : BtcMgmt.Libm := {| BtcMgmt.f64_powf := λ _ _, f64_lit 1 2; BtcMgmt.f64_log := λ u _, u |}.

Definition w_eager : EagerBM :=
  (eg_record_new_txn (TBitcoin (BGrant 50 [7])) (mkTxnCtx 101) (eg_new 1 0 sample_messenger)).2.

Lemma eager_never_mines_witness :
  eg_pending_txns w_eager = [101] ∧ (eg_prepare_new_block 5 9 0 f64_one w_eager).1 = Panic.
Proof.
  split; [by vm_compute|].
  destruct (eager_never_mines 1 0 sample_messenger w_eager) as [Hp _]; [|apply Hp].
  apply rtc_once. apply eager_record.
Defined.
