(* ===== verification/Stages.v ===== *)
(** * The stages of a node and their interfaces

    The traits [BlockManagement] (block_management/mod.rs), [Decision]
    (decide/mod.rs) and [Pacemaker] (pacemaker/mod.rs) as type classes, an
    instance for each implementation, the small implementations themselves (the
    dummy chain, the Avalanche node that votes no, the pacemakers), and the choice
    the configuration makes. *)

From S2P Require Import Prelude F64 Protocol Peers Utils Config.
From S2P Require BtcMgmt BtcEager BtcDecide AvaMgmt AvaDecide Blizzard ChainRepl.
Local Open Scope N_scope.

(** What a call takes from outside the program: the clock, the random choices, the
    idle cores, and a bound on its loops. *)
Record Env := mkEnv {
  env_now : Instant;
  env_rand : bytes;
  env_root : Hash;
  env_u : f64;
  env_power : f64;
  env_fuel : nat;
}.

(** ** The traits *)

Class BlockManagement (St : Type) := {
  bm_record_new_txn : Txn → TxnCtx → M St bool;
  bm_prepare_new_block : Env → M St BtcMgmt.CurBlockState;
  bm_wait_to_propose : Env → St → res bool;
  bm_get_new_block : Env → M St (Block * BlkCtx);
  bm_validate_block : Env → Block → BlkCtx → M St (list (Block * BlkCtx));
  bm_handle_pmaker_msg : bytes → M St unit;
  bm_handle_peer_blk_req : NodeId → bytes → M St unit;
  bm_report : M St unit;
}.

Class DecisionStage (St : Type) := {
  dc_new_tail : Env → NodeId → list (Block * BlkCtx) → M St unit;
  dc_commit_ready : St → bool;
  dc_next_to_commit : M St (N * list Txn);
  dc_timeout : Env → St → bool;
  dc_handle_timeout : Env → M St unit;
  dc_handle_peer_msg : Env → NodeId → bytes → M St unit;
  (* [pmaker_feedback_send], which the stage is given when it is made *)
  dc_feedback : St → list bytes;
  dc_set_feedback : list bytes → St → St;
}.

Class Pacemaker (St : Type) := {
  pk_wait_to_propose : St → bool;
  pk_get_propose_msg : M St bytes;
  pk_handle_feedback : bytes → M St unit;
  pk_handle_peer_msg : NodeId → bytes → M St unit;
}.

(** ** The dummy chain *)

(** The size of a vector of transactions (crate get_size). *)
Class VecSize := txns_get_size : list Txn → N.

Record DummyBM := mkDummyBM { du_mem_pool : list Txn; du_last_block : Instant }.
#[export] Instance DummyBM_eta : Eta DummyBM := λ r, mkDummyBM (du_mem_pool r) (du_last_block r).

Definition du_new (now : Instant) : DummyBM := mkDummyBM [] now.

Definition du_record_new_txn (txn : Txn) (_ctx : TxnCtx) : M DummyBM bool :=
  modify (λ s, s <| du_mem_pool ::= λ p, p ++ [txn] |>) ;; mret true.

Definition du_prepare_new_block : M DummyBM BtcMgmt.CurBlockState := mret BtcMgmt.Full.

(** One round of the loop, which never yields. *)
Definition du_wait_to_propose `{VecSize} (now : Instant) (s : DummyBM) : bool :=
  (0x100000 <=? txns_get_size (du_mem_pool s))%N || (10 * nanos_per_sec <=? now - du_last_block s)%N.

Section Dummy.
Context `{Externals} `{!Bincode BitcoinTxn} `{!Bincode AvalancheTxn} `{!Bincode BlockHeader}.

Definition du_get_new_block (rand : bytes) : M DummyBM (Block * BlkCtx) :=
  pool ← gets du_mem_pool;
  let new_block := mkBlock HDummy pool in
  modify (λ s, s <| du_mem_pool := [] |>) ;;
  blk_ctx ← lift_res (BlkCtx_from_blk rand new_block);
  mret (new_block, blk_ctx).
End Dummy.

Definition du_validate_block (block : Block) (ctx : BlkCtx) : M DummyBM (list (Block * BlkCtx)) :=
  mret [(block, ctx)].
Definition du_handle_pmaker_msg (_msg : bytes) : M DummyBM unit := mret tt.
(** [unimplemented!()] *)
Definition du_handle_peer_blk_req (_peer : NodeId) (_msg : bytes) : M DummyBM unit := panic.

Record DummyDecision := mkDummyDecision { blocks_to_commit : list Block; blocks_committed : N }.
#[export] Instance DummyDecision_eta : Eta DummyDecision := λ r,
  mkDummyDecision (blocks_to_commit r) (blocks_committed r).

Definition dd_new : DummyDecision := mkDummyDecision [] 0.
Definition dd_new_tail (_src : NodeId) (new_tail : list (Block * BlkCtx)) : M DummyDecision unit :=
  modify (λ s, s <| blocks_to_commit ::= λ b, b ++ new_tail.*1 |>).
Definition dd_commit_ready (s : DummyDecision) : bool := negb (bool_decide (blocks_to_commit s = [])).
Definition dd_next_to_commit `{BuildProfile} : M DummyDecision (N * list Txn) :=
  bs ← gets blocks_to_commit;
  match bs with
  | block :: rest =>
    modify (λ s, s <| blocks_to_commit := rest |>) ;;
    n ← gets blocks_committed;
    n' ← lift_res (u64_add n 1);
    modify (λ s, s <| blocks_committed := n' |>) ;;
    mret (n', txns block)
  | [] => throw (mkErr "no blocks to commit")
  end.
(** [unreachable!()] *)
Definition dd_handle_timeout : M DummyDecision unit := panic.
Definition dd_handle_peer_msg (_src : NodeId) (_content : bytes) : M DummyDecision unit := panic.

(** ** The Avalanche node that votes no *)

(** Its block management has no state of its own; it never proposes. *)
Definition vote_no_wait_to_propose : bool := false.
Definition vote_no_get_new_block : M unit (Block * BlkCtx) := panic.
Definition vote_no_handle_pmaker_msg (_msg : bytes) : M unit unit := panic.
Definition vote_no_handle_peer_blk_req (_peer : NodeId) (_msg : bytes) : M unit unit := mret tt.

Record VoteNoDecision := mkVoteNoDecision {
  vn_id : NodeId;
  vn_crypto_scheme : CryptoScheme;
  vn_sk : PrivKey;
  vn_peer_messenger : PeerMessenger;
  vn_delay : f64;
}.
#[export] Instance VoteNoDecision_eta : Eta VoteNoDecision := λ r,
  mkVoteNoDecision (vn_id r) (vn_crypto_scheme r) (vn_sk r) (vn_peer_messenger r) (vn_delay r).

Section VoteNo.
Context `{Externals} `{!Bincode (N * list bool)} `{!Bincode AvaDecide.VoteMsg} `{Transport}.

Definition vn_new (id : NodeId) (crypto_scheme : CryptoScheme) (pm : PeerMessenger) : VoteNoDecision :=
  mkVoteNoDecision id crypto_scheme (gen_key_pair crypto_scheme id).2 pm f64_zero.

Definition vn_new_tail (_src : NodeId) (new_tail : list (Block * BlkCtx)) : M VoteNoDecision unit :=
  match new_tail with
  | [(new_blk, _)] =>
    match header new_blk with
    | HAvalanche proposer id _ =>
      let votes := replicate (length (txns new_blk)) false in
      serialized_msg ← lift_res (of_result (serialize (id, votes)));
      s ← gets (λ s, s);
      sg ← lift_res (sign (vn_crypto_scheme s) (vn_sk s) serialized_msg);
      let delay := vn_delay s in
      modify (λ s, s <| vn_delay ::= λ d, f64_add d sg.2 |>) ;;
      msg ← lift_res (of_result (serialize (AvaDecide.mkVoteMsg id votes sg.1)));
      dur ← lift_res (from_secs_f64 (f64_add delay sg.2));
      zoom vn_peer_messenger (λ p s, s <| vn_peer_messenger := p |>)
        (pm_delayed_send proposer (ConsensusMsg msg) dur)
    | _ => panic
    end
  | _ => panic
  end.

Definition vn_commit_ready (_s : VoteNoDecision) : bool := false.
Definition vn_next_to_commit : M VoteNoDecision (N * list Txn) := panic.
Definition vn_handle_peer_msg (_src : NodeId) (_content : bytes) : M VoteNoDecision unit := mret tt.
Definition vn_handle_timeout : M VoteNoDecision unit := panic.
End VoteNo.

(** ** The pacemakers *)

Definition DummyPacemaker : Type := unit.
Definition dummy_pk_wait_to_propose (_s : DummyPacemaker) : bool := false.
Definition dummy_pk_get_propose_msg : M DummyPacemaker bytes := panic.
Definition dummy_pk_handle_feedback (_feedback : bytes) : M DummyPacemaker unit := panic.
Definition dummy_pk_handle_peer_msg (_src : NodeId) (_msg : bytes) : M DummyPacemaker unit := panic.

Record FixedInflightBlkPaceMaker := mkFixedInflight { quota : N }.
#[export] Instance FixedInflight_eta : Eta FixedInflightBlkPaceMaker := λ r, mkFixedInflight (quota r).

Section FixedInflight.
Context `{BuildProfile}.

Definition fi_new (max_inflight_blk : N) : FixedInflightBlkPaceMaker := mkFixedInflight max_inflight_blk.
(** With no quota it waits for a notification that never comes. *)
Definition fi_wait_to_propose (s : FixedInflightBlkPaceMaker) : bool := negb (quota s =? 0)%N.
Definition fi_get_propose_msg : M FixedInflightBlkPaceMaker bytes :=
  q ← gets quota;
  q' ← lift_res (u64_sub q 1);
  modify (λ s, s <| quota := q' |>) ;;
  mret [].
Definition fi_handle_feedback (_feedback : bytes) : M FixedInflightBlkPaceMaker unit :=
  q ← gets quota;
  q' ← lift_res (u64_add q 1);
  modify (λ s, s <| quota := q' |>).
Definition fi_handle_peer_msg (_src : NodeId) (_msg : bytes) : M FixedInflightBlkPaceMaker unit := panic.
End FixedInflight.

Inductive PacemakerKind := PKDummy | PKFixedInflight (max_inflight_blk : N).

Definition get_pacemaker (config : ChainConfig) : PacemakerKind :=
  match config with
  | CCDummy _ | CCBitcoin _ | CCChainReplication _ | CCAvalanche ACVoteNo => PKDummy
  | CCAvalanche (ACBasic config) | CCAvalanche (ACBlizzard config) =>
    PKFixedInflight (cf_max_inflight_blk config)
  end.

(** ** The instances *)

Section Instances.
Context `{BuildProfile} `{HashOrder} `{BtcMgmt.Libm} `{Externals} `{Transport} `{Channel} `{VecSize}
  `{!Bincode BlockHeader} `{!Bincode BitcoinTxn} `{!Bincode AvalancheTxn} `{!Bincode (list Hash)}
  `{!Bincode AvaMgmt.PeerReq} `{!Bincode (N * list bool)} `{!Bincode AvaDecide.VoteMsg}
  `{!Bincode ChainRepl.Msg}.

#[export] Instance dummy_bm : BlockManagement DummyBM := {|
  bm_record_new_txn := du_record_new_txn;
  bm_prepare_new_block _ := du_prepare_new_block;
  bm_wait_to_propose e s := Ok (du_wait_to_propose (env_now e) s);
  bm_get_new_block e := du_get_new_block (env_rand e);
  bm_validate_block _ := du_validate_block;
  bm_handle_pmaker_msg := du_handle_pmaker_msg;
  bm_handle_peer_blk_req := du_handle_peer_blk_req;
  bm_report := mret tt;
|}.

#[export] Instance bitcoin_bm : BlockManagement BtcMgmt.BitcoinBM := {|
  bm_record_new_txn := BtcMgmt.record_new_txn;
  bm_prepare_new_block e :=
    BtcMgmt.prepare_new_block (env_fuel e) (env_root e) (env_now e) (env_u e);
  bm_wait_to_propose e s :=
    p ← BtcMgmt.wait_to_propose (env_now e) (env_power e) s;
    Ok (match p with BtcMgmt.Ready => true | _ => false end);
  bm_get_new_block _ := BtcMgmt.get_new_block;
  bm_validate_block _ := BtcMgmt.validate_block;
  bm_handle_pmaker_msg := BtcMgmt.handle_pmaker_msg;
  bm_handle_peer_blk_req := BtcMgmt.handle_peer_blk_req;
  bm_report := mret tt;
|}.

#[export] Instance eager_bm : BlockManagement BtcEager.EagerBM := {|
  bm_record_new_txn := BtcEager.eg_record_new_txn;
  bm_prepare_new_block e :=
    BtcEager.eg_prepare_new_block (env_fuel e) (env_root e) (env_now e) (env_u e);
  bm_wait_to_propose e s :=
    p ← BtcEager.eg_wait_to_propose (env_now e) (env_power e) s;
    Ok (match p with BtcMgmt.Ready => true | _ => false end);
  bm_get_new_block _ := BtcEager.eg_get_new_block;
  bm_validate_block _ := BtcEager.eg_validate_block;
  bm_handle_pmaker_msg := BtcEager.eg_handle_pmaker_msg;
  bm_handle_peer_blk_req := BtcEager.eg_handle_peer_blk_req;
  bm_report := mret tt;
|}.

#[export] Instance avalanche_bm : BlockManagement AvaMgmt.AvalancheBM := {|
  bm_record_new_txn := AvaMgmt.am_record_new_txn;
  bm_prepare_new_block e := AvaMgmt.am_prepare_new_block (env_fuel e);
  bm_wait_to_propose e s := Ok (AvaMgmt.am_wait_to_propose (env_now e) s);
  bm_get_new_block e := AvaMgmt.am_get_new_block (env_now e) (env_rand e);
  bm_validate_block e := AvaMgmt.am_validate_block (env_rand e);
  bm_handle_pmaker_msg := AvaMgmt.am_handle_pmaker_msg;
  bm_handle_peer_blk_req := AvaMgmt.am_handle_peer_blk_req;
  bm_report := AvaMgmt.am_report;
|}.

#[export] Instance vote_no_bm : BlockManagement unit := {|
  bm_record_new_txn txn ctx := lift_res (AvaMgmt.vote_no_record_new_txn txn ctx);
  bm_prepare_new_block _ := lift_res AvaMgmt.vote_no_prepare_new_block;
  bm_wait_to_propose _ _ := Ok vote_no_wait_to_propose;
  bm_get_new_block _ := vote_no_get_new_block;
  bm_validate_block _ block ctx := lift_res (AvaMgmt.vote_no_validate_block block ctx);
  bm_handle_pmaker_msg := vote_no_handle_pmaker_msg;
  bm_handle_peer_blk_req := vote_no_handle_peer_blk_req;
  bm_report := mret tt;
|}.

#[export] Instance chain_replication_bm : BlockManagement ChainRepl.ChainReplicationBM := {|
  bm_record_new_txn := ChainRepl.crb_record_new_txn;
  bm_prepare_new_block e := ChainRepl.crb_prepare_new_block (env_fuel e);
  bm_wait_to_propose _ s := Ok (ChainRepl.crb_wait_to_propose s);
  bm_get_new_block e := ChainRepl.crb_get_new_block (env_rand e);
  bm_validate_block _ := ChainRepl.crb_validate_block;
  bm_handle_pmaker_msg := ChainRepl.crb_handle_pmaker_msg;
  bm_handle_peer_blk_req := ChainRepl.crb_handle_peer_blk_req;
  bm_report := mret tt;
|}.

#[export] Instance dummy_decision : DecisionStage DummyDecision := {|
  dc_new_tail _ := dd_new_tail;
  dc_commit_ready := dd_commit_ready;
  dc_next_to_commit := dd_next_to_commit;
  dc_timeout _ _ := false;
  dc_handle_timeout _ := dd_handle_timeout;
  dc_handle_peer_msg _ := dd_handle_peer_msg;
  dc_feedback _ := [];
  dc_set_feedback _ s := s;
|}.

#[export] Instance bitcoin_decision : DecisionStage BtcDecide.BitcoinDecision := {|
  dc_new_tail _ := BtcDecide.new_tail;
  dc_commit_ready := BtcDecide.commit_ready;
  dc_next_to_commit := BtcDecide.next_to_commit;
  dc_timeout _ _ := false;
  dc_handle_timeout _ := panic;
  dc_handle_peer_msg _ _ _ := panic;
  dc_feedback _ := [];
  dc_set_feedback _ s := s;
|}.

(** [timeout] returns when the first deadline of the queue has passed. *)
#[export] Instance avalanche_decision : DecisionStage AvaDecide.AvalancheDecision := {|
  dc_new_tail e := AvaDecide.new_tail (env_fuel e) (env_now e);
  dc_commit_ready := AvaDecide.commit_ready;
  dc_next_to_commit := AvaDecide.next_to_commit;
  dc_timeout e s := match tq_wait_next (env_now e) (AvaDecide.vote_time_queue s) with
                    | TimerDue => true | _ => false end;
  dc_handle_timeout e := AvaDecide.handle_timeout (env_fuel e);
  dc_handle_peer_msg e := AvaDecide.handle_peer_msg (env_fuel e);
  dc_feedback := AvaDecide.pmaker_feedback;
  dc_set_feedback := AvaDecide.set_feedback;
|}.

#[export] Instance blizzard_decision : DecisionStage Blizzard.BlizzardDecision := {|
  dc_new_tail e := Blizzard.new_tail (env_fuel e) (env_now e);
  dc_commit_ready := Blizzard.commit_ready;
  dc_next_to_commit := Blizzard.next_to_commit;
  dc_timeout e s := match tq_wait_next (env_now e) (Blizzard.vote_time_queue s) with
                    | TimerDue => true | _ => false end;
  dc_handle_timeout e := Blizzard.handle_timeout (env_fuel e);
  dc_handle_peer_msg e := Blizzard.handle_peer_msg (env_fuel e);
  dc_feedback := Blizzard.pmaker_feedback;
  dc_set_feedback := Blizzard.set_feedback;
|}.

#[export] Instance vote_no_decision : DecisionStage VoteNoDecision := {|
  dc_new_tail _ := vn_new_tail;
  dc_commit_ready := vn_commit_ready;
  dc_next_to_commit := vn_next_to_commit;
  dc_timeout _ _ := false;
  dc_handle_timeout _ := vn_handle_timeout;
  dc_handle_peer_msg _ := vn_handle_peer_msg;
  dc_feedback _ := [];
  dc_set_feedback _ s := s;
|}.

#[export] Instance chain_replication_decision : DecisionStage ChainRepl.ChainReplicationDecision := {|
  dc_new_tail _ := ChainRepl.crd_new_tail;
  dc_commit_ready := ChainRepl.crd_commit_ready;
  dc_next_to_commit := ChainRepl.crd_next_to_commit;
  dc_timeout _ _ := false;
  dc_handle_timeout _ := ChainRepl.crd_handle_timeout;
  dc_handle_peer_msg _ := ChainRepl.crd_handle_peer_msg;
  dc_feedback _ := [];
  dc_set_feedback _ s := s;
|}.

#[export] Instance dummy_pacemaker : Pacemaker DummyPacemaker := {|
  pk_wait_to_propose := dummy_pk_wait_to_propose;
  pk_get_propose_msg := dummy_pk_get_propose_msg;
  pk_handle_feedback := dummy_pk_handle_feedback;
  pk_handle_peer_msg := dummy_pk_handle_peer_msg;
|}.

#[export] Instance fixed_inflight_pacemaker : Pacemaker FixedInflightBlkPaceMaker := {|
  pk_wait_to_propose := fi_wait_to_propose;
  pk_get_propose_msg := fi_get_propose_msg;
  pk_handle_feedback := fi_handle_feedback;
  pk_handle_peer_msg := fi_handle_peer_msg;
|}.

(** ** What the configuration chooses *)

(** [get_blk_creation], with bitcoin/mod.rs and avalanche/mod.rs: the trait object
    with the state it starts in. *)
Inductive BlkCreation :=
| BCreate (St : Type) (stage : BlockManagement St) (s : St).

Definition get_blk_creation (id : NodeId) (config : ChainConfig) (pm : PeerMessenger)
    (now : Instant) : res BlkCreation :=
  match config with
  | CCDummy _ => Ok (BCreate _ dummy_bm (du_new now))
  | CCBitcoin (BCBasic config) => Ok (BCreate _ bitcoin_bm (BtcMgmt.new id (bb_difficulty config) pm))
  | CCBitcoin (BCEager config) => Ok (BCreate _ eager_bm (BtcEager.eg_new id (bb_difficulty config) pm))
  | CCAvalanche (ACBasic config) | CCAvalanche (ACBlizzard config) =>
    s ← AvaMgmt.am_new id config pm now; Ok (BCreate _ avalanche_bm s)
  | CCAvalanche ACVoteNo => Ok (BCreate _ vote_no_bm tt)
  | CCChainReplication config =>
    s ← ChainRepl.crb_new id config; Ok (BCreate _ chain_replication_bm s)
  end.

(** [get_decision], with avalanche/mod.rs and bitcoin/mod.rs. *)
Inductive DecisionChoice :=
| DChoose (St : Type) (stage : DecisionStage St) (s : St).

Definition get_decision (id : NodeId) (crypto_scheme : CryptoScheme) (config : ChainConfig)
    (pm : PeerMessenger) : res DecisionChoice :=
  match config with
  | CCDummy _ => Ok (DChoose _ dummy_decision dd_new)
  | CCBitcoin (BCBasic config) | CCBitcoin (BCEager config) =>
    Ok (DChoose _ bitcoin_decision (BtcDecide.new id config))
  | CCAvalanche (ACBasic config) =>
    s ← AvaDecide.ad_new id crypto_scheme config pm; Ok (DChoose _ avalanche_decision s)
  | CCAvalanche (ACBlizzard config) =>
    s ← Blizzard.bd_new id crypto_scheme config pm; Ok (DChoose _ blizzard_decision s)
  | CCAvalanche ACVoteNo => Ok (DChoose _ vote_no_decision (vn_new id crypto_scheme pm))
  | CCChainReplication _ =>
    s ← ChainRepl.crd_new id config pm; Ok (DChoose _ chain_replication_decision s)
  end.
End Instances.
