(* ===== verification/Threads.v ===== *)
(** * The threads of a node

    The event loops around the stages (src/src/stage/**/mod.rs): a definition for
    each arm of a [select!], over the state of the loop. An error a stage returns
    is logged and the loop goes on ([log_err]); a panic ends the thread. The
    permit for a virtual core that an arm holds (VCores.v) is never refused, as
    the semaphore is never closed. What a thread only counts and prints, and how
    long it sleeps for skipped work, is left out. *)

From S2P Require Import Prelude F64 Protocol Peers Config TxnValidation Stages.
From S2P Require BtcMgmt.
Local Open Scope N_scope.

(** [if let Err(e) = m { log }] *)
Definition log_err {S A : Type} (m : M S A) : M S (option A) := λ s,
  match m s with
  | (Ok a, s') => (Ok (Some a), s')
  | (Err _, s') => (Ok None, s')
  | (Panic, s') => (Panic, s')
  | (OutOfFuel, s') => (OutOfFuel, s')
  end.

(** ** Tasks that check signatures *)

(** Both the validation thread and the block management thread check transactions
    in tasks of their own, which share a map of verdicts ([txns_seen]); other
    tasks run between the lookup of a verdict and its insertion. *)
Inductive task_result (T A : Type) := TaskGoes (t : T) | TaskDone (a : A) | TaskDies.
Arguments TaskGoes {T A} t.
Arguments TaskDone {T A} a.
Arguments TaskDies {T A}.

(** A peer's block: the transactions to come, and the verdict to insert. *)
Record BlkTask := mkBlkTask {
  bk_src : NodeId;
  bk_block : Block;
  bk_ctx : BlkCtx;
  bk_todo : list (Txn * TxnCtx);
  bk_insert : option (Hash * bool);
  bk_time : f64;
}.
#[export] Instance BlkTask_eta : Eta BlkTask := λ r,
  mkBlkTask (bk_src r) (bk_block r) (bk_ctx r) (bk_todo r) (bk_insert r) (bk_time r).

(** A batch of transactions from clients and peers. *)
Record ValTask := mkValTask {
  vk_todo : list (NodeId * Txn);
  vk_correct : list (NodeId * (Txn * TxnCtx));
  vk_insert : option (NodeId * (Txn * TxnCtx) * bool);
  vk_time : f64;
}.
#[export] Instance ValTask_eta : Eta ValTask := λ r,
  mkValTask (vk_todo r) (vk_correct r) (vk_insert r) (vk_time r).

Section Tasks.
Context `{Externals} `{!Bincode BitcoinTxn} `{!Bincode AvalancheTxn} `{!Bincode BlockHeader}
  `{!Bincode (list Hash)} `{BuildProfile} `{HashOrder}.

(** A transaction whose check returns an error is passed over. *)
Definition blk_task_step (crypto : CryptoScheme) (t : BlkTask) (seen : gmap Hash bool) :
    task_result BlkTask (option (NodeId * (Block * BlkCtx))) * gmap Hash bool :=
  match bk_insert t with
  | Some (h, valid) =>
    (if (valid : bool) then TaskGoes (t <| bk_insert := None |>) else TaskDone None,
     <[h := valid]> seen)
  | None =>
    match bk_todo t with
    | [] => (TaskDone (Some (bk_src t, (bk_block t, bk_ctx t))), seen)
    | (txn, ctx) :: rest =>
      (match seen !! tc_id ctx with
       | Some true => TaskGoes (t <| bk_todo := rest |>)
       | Some false => TaskDone None
       | None =>
         match txn_validate crypto txn with
         | Ok (valid, vtime) =>
           TaskGoes (t <| bk_todo := rest |> <| bk_insert := Some (tc_id ctx, valid) |>
                       <| bk_time ::= λ v, f64_add v vtime |>)
         | Err _ => TaskGoes (t <| bk_todo := rest |>)
         | _ => TaskDies
         end
       end, seen)
    end
  end.

Definition val_task_step (crypto : CryptoScheme) (t : ValTask) (seen : gmap Hash bool) :
    task_result ValTask (list (NodeId * (Txn * TxnCtx))) * gmap Hash bool :=
  match vk_insert t with
  | Some (e, valid) =>
    (TaskGoes (t <| vk_insert := None |>
                 <| vk_correct ::= λ l, if (valid : bool) then l ++ [e] else l |>),
     <[tc_id e.2.2 := valid]> seen)
  | None =>
    match vk_todo t with
    | [] => (TaskDone (vk_correct t), seen)
    | (src, txn) :: rest =>
      (match TxnCtx_from_txn txn with
       | Ok ctx =>
         match seen !! tc_id ctx with
         | Some _ => TaskGoes (t <| vk_todo := rest |>)
         | None =>
           match txn_validate crypto txn with
           | Ok (valid, vtime) =>
             TaskGoes (t <| vk_todo := rest |> <| vk_insert := Some (src, (txn, ctx), valid) |>
                         <| vk_time ::= λ v, f64_add v vtime |>)
           | Err _ => TaskGoes (t <| vk_todo := rest |>)
           | _ => TaskDies
           end
         end
       | Err _ => TaskGoes (t <| vk_todo := rest |>)
       | _ => TaskDies
       end, seen)
    end
  end.
End Tasks.

(** ** Block management *)

(** [block_management_thread]; [bt_sent]: the tails sent to dissemination, latest
    first. *)
Section BlkMgmt.
Context {St : Type} `{BlockManagement St}.

Record BlkMgmtThread := mkBlkMgmtThread {
  bt_id : NodeId;
  bt_stage : St;
  bt_blks_seen : gset Hash;
  bt_blk_state : BtcMgmt.CurBlockState;
  bt_txns_seen : gmap Hash bool;
  bt_tasks : list BlkTask;
  bt_pending : list (NodeId * (Block * BlkCtx));
  bt_sent : list (NodeId * list (Block * BlkCtx));
}.
#[export] Instance BlkMgmtThread_eta : Eta BlkMgmtThread := λ r,
  mkBlkMgmtThread (bt_id r) (bt_stage r) (bt_blks_seen r) (bt_blk_state r) (bt_txns_seen r)
    (bt_tasks r) (bt_pending r) (bt_sent r).

Definition bt_new (id : NodeId) (stage : St) : BlkMgmtThread :=
  mkBlkMgmtThread id stage ∅ BtcMgmt.Working ∅ [] [] [].

Definition on_stage {A : Type} (m : M St A) : M BlkMgmtThread A :=
  zoom bt_stage (λ t s, s <| bt_stage := t |>) m.

(** [txn_ready_recv.recv()] *)
Definition bt_txn_ready (txn_batch : list (Txn * TxnCtx)) : M BlkMgmtThread unit :=
  mfor txn_batch (λ x, _ ← log_err (on_stage (bm_record_new_txn x.1 x.2)); mret tt) ;;
  modify (λ s, match bt_blk_state s with
               | BtcMgmt.EmptyMempool => s <| bt_blk_state := BtcMgmt.Working |>
               | _ => s end).

(** [pass()], while the state is [Working] *)
Definition bt_prepare (e : Env) : M BlkMgmtThread unit :=
  r ← log_err (on_stage (bm_prepare_new_block e));
  match r with
  | Some blk_full => modify (λ s, s <| bt_blk_state := blk_full |>)
  | None => mret tt
  end.

(** [new_block_send.send(..)] *)
Definition bt_send `{Channel} (src : NodeId) (tail : list (Block * BlkCtx)) : M BlkMgmtThread unit :=
  _ ← log_err (zoom bt_sent (λ t s, s <| bt_sent := t |>) (chan_send (src, tail))); mret tt.

(** [wait_to_propose()] has returned *)
Definition bt_propose `{Channel} (e : Env) : M BlkMgmtThread unit :=
  r ← log_err (on_stage (bm_get_new_block e));
  match r with
  | None => mret tt
  | Some (new_blk, new_blk_ctx) =>
    modify (λ s, s <| bt_blk_state := BtcMgmt.Working |>
                   <| bt_blks_seen ::= λ b, {[bc_id new_blk_ctx]} ∪ b |>) ;;
    id ← gets bt_id;
    bt_send id [(new_blk, new_blk_ctx)]
  end.

Section Peers.
Context `{Externals} `{!Bincode BitcoinTxn} `{!Bincode AvalancheTxn} `{!Bincode BlockHeader}
  `{!Bincode (list Hash)} `{BuildProfile}.

(** [peer_blk_recv.recv()]: a block not seen before is handed to a task, which
    starts with its context ([rand']: as for [rand], should its id be random). *)
Definition bt_peer_blk (rand rand' : bytes) (src : NodeId) (new_block : Block) : M BlkMgmtThread unit :=
  s ← gets (λ s, s);
  if decide (src = bt_id s) then mret tt
  else
    o ← log_err (lift_res (header_compute_id rand (header new_block)));
    match o with
    | None => mret tt
    | Some blk_id =>
      if decide (blk_id ∈ bt_blks_seen s) then mret tt
      else
        modify (λ s, s <| bt_blks_seen ::= λ b, {[blk_id]} ∪ b |>) ;;
        match BlkCtx_from_blk rand' new_block with
        | Ok ctx =>
          modify (λ s, s <| bt_tasks ::= λ ts,
            ts ++ [mkBlkTask src new_block ctx (zip (txns new_block) (bc_txn_ctx ctx)) None f64_zero] |>)
        | _ => mret tt
        end
    end.

(** The [i]th task takes a step. *)
Definition bt_task_step (crypto : CryptoScheme) (i : nat) : M BlkMgmtThread unit :=
  s ← gets (λ s, s);
  match bt_tasks s !! i with
  | None => mret tt
  | Some t =>
    let r := blk_task_step crypto t (bt_txns_seen s) in
    modify (λ s, s <| bt_txns_seen := r.2 |>) ;;
    match r.1 with
    | TaskGoes t' => modify (λ s, s <| bt_tasks ::= <[i := t']> |>)
    | TaskDone (Some b) => modify (λ s, s <| bt_tasks ::= delete i |> <| bt_pending ::= λ p, p ++ [b] |>)
    | TaskDone None | TaskDies => modify (λ s, s <| bt_tasks ::= delete i |>)
    end
  end.
End Peers.

(** [pending_blk_recver.recv()] *)
Definition bt_recv_pending `{Channel} (e : Env) : M BlkMgmtThread unit :=
  p ← gets bt_pending;
  match p with
  | [] => mret tt
  | (src, (peer_blk, peer_blk_ctx)) :: rest =>
    modify (λ s, s <| bt_pending := rest |>) ;;
    r ← log_err (on_stage (bm_validate_block e peer_blk peer_blk_ctx));
    match r with
    | None | Some [] => mret tt
    | Some new_tail =>
      modify (λ s, s <| bt_blk_state := BtcMgmt.Working |>) ;;
      bt_send src new_tail
    end
  end.

(** [pacemaker_recv.recv()], [peer_blk_req_recv.recv()], the report timer *)
Definition bt_pmaker (msg : bytes) : M BlkMgmtThread unit :=
  _ ← log_err (on_stage (bm_handle_pmaker_msg msg)); mret tt.
Definition bt_blk_req (peer : NodeId) (msg : bytes) : M BlkMgmtThread unit :=
  _ ← log_err (on_stage (bm_handle_peer_blk_req peer msg)); mret tt.
Definition bt_report : M BlkMgmtThread unit := on_stage bm_report.
End BlkMgmt.
Arguments BlkMgmtThread : clear implicits.

(** ** Pacemaker, decision, commit *)

(** [pacemaker_thread]; [pt_sent]: [should_propose_send], latest first. *)
Section Pace.
Context {St : Type} `{Pacemaker St} `{Channel}.

Record PaceThread := mkPaceThread { pt_pmaker : St; pt_sent : list bytes }.
#[export] Instance PaceThread_eta : Eta PaceThread := λ r, mkPaceThread (pt_pmaker r) (pt_sent r).

Definition on_pmaker {A : Type} (m : M St A) : M PaceThread A :=
  zoom pt_pmaker (λ t s, s <| pt_pmaker := t |>) m.

(** [pmaker.wait_to_propose()] has returned *)
Definition pt_propose : M PaceThread unit :=
  r ← log_err (on_pmaker pk_get_propose_msg);
  match r with
  | None => mret tt
  | Some propose_msg =>
    _ ← log_err (zoom pt_sent (λ t s, s <| pt_sent := t |>) (chan_send propose_msg)); mret tt
  end.

Definition pt_feedback (feedback : bytes) : M PaceThread unit :=
  _ ← log_err (on_pmaker (pk_handle_feedback feedback)); mret tt.
Definition pt_peer_msg (src : NodeId) (msg : bytes) : M PaceThread unit :=
  _ ← log_err (on_pmaker (pk_handle_peer_msg src msg)); mret tt.
End Pace.
Arguments PaceThread : clear implicits.

(** [decision_thread]; [dt_committed]: [commit_send], latest first. *)
Section Decide.
Context {St : Type} `{DecisionStage St} `{Channel}.

Record DecisionThread := mkDecisionThread { dt_stage : St; dt_committed : list (N * list Txn) }.
#[export] Instance DecisionThread_eta : Eta DecisionThread := λ r,
  mkDecisionThread (dt_stage r) (dt_committed r).

Definition on_decision {A : Type} (m : M St A) : M DecisionThread A :=
  zoom dt_stage (λ t s, s <| dt_stage := t |>) m.

Definition dt_new_tail (e : Env) (src : NodeId) (new_tail : list (Block * BlkCtx)) :
    M DecisionThread unit :=
  _ ← log_err (on_decision (dc_new_tail e src new_tail)); mret tt.

(** [decision_stage.commit_ready()] has returned *)
Definition dt_commit : M DecisionThread unit :=
  r ← log_err (on_decision dc_next_to_commit);
  match r with
  | None => mret tt
  | Some blk =>
    _ ← log_err (zoom dt_committed (λ t s, s <| dt_committed := t |>) (chan_send blk)); mret tt
  end.

Definition dt_timeout (e : Env) : M DecisionThread unit :=
  _ ← log_err (on_decision (dc_handle_timeout e)); mret tt.
Definition dt_peer_msg (e : Env) (src : NodeId) (msg : bytes) : M DecisionThread unit :=
  _ ← log_err (on_decision (dc_handle_peer_msg e src msg)); mret tt.
End Decide.
Arguments DecisionThread : clear implicits.

(** commit/dummy.rs: nothing is executed; [commit_thread] passes batches on to the
    client ([executed_send], latest first). *)
Definition dummy_commit (_txn_batch : list Txn) : res unit := Ok tt.
Definition ct_commit `{Channel} (height : N) (txn_batch : list Txn) :
    M (list (N * list Txn)) unit :=
  r ← log_err (lift_res (dummy_commit txn_batch));
  match r with
  | None => mret tt
  | Some _ => _ ← log_err (chan_send (height, txn_batch)); mret tt
  end.

(** ** Transaction validation *)

Definition VALIDATION_BATCH_SIZE : nat := N.to_nat 100.
#[global] Arguments VALIDATION_BATCH_SIZE : simpl never.

(** [txn_validation_thread]; [tt_sent]: [validated_txn_send], latest first. *)
Record TxnValThread := mkTxnValThread {
  tt_id : NodeId;
  tt_stage : TxnValidator;
  tt_buffer : list (NodeId * Txn);
  tt_timer : bool;
  tt_txns_seen : gmap Hash bool;
  tt_tasks : list ValTask;
  tt_pending : list (list (NodeId * (Txn * TxnCtx)));
  tt_sent : list (list (NodeId * (Txn * TxnCtx)));
}.
#[export] Instance TxnValThread_eta : Eta TxnValThread := λ r,
  mkTxnValThread (tt_id r) (tt_stage r) (tt_buffer r) (tt_timer r) (tt_txns_seen r) (tt_tasks r)
    (tt_pending r) (tt_sent r).

Definition tt_new (id : NodeId) (config : ChainConfig) : TxnValThread :=
  mkTxnValThread id (get_txn_validation config) [] false ∅ [] [] [].

(** The loop that takes what the request channel holds, up to three batches; what
    is left in the channel is returned with the buffer. *)
Fixpoint drain_reqs (id : NodeId) (txn : Txn) (available : list Txn) (buffer : list (NodeId * Txn)) :
    list (NodeId * Txn) * list Txn :=
  let buffer := buffer ++ [(id, txn)] in
  if decide (VALIDATION_BATCH_SIZE * 3 ≤ length buffer)%nat then (buffer, available)
  else match available with
  | [] => (buffer, [])
  | txn' :: available' => drain_reqs id txn' available' buffer
  end.

(** [req_recv.recv()], under its guard *)
Definition tt_can_recv (s : TxnValThread) : bool :=
  bool_decide (length (tt_buffer s) < VALIDATION_BATCH_SIZE * 3)%nat.
Definition tt_recv_req (txn : Txn) (available : list Txn) : M TxnValThread (list Txn) :=
  s ← gets (λ s, s);
  let r := drain_reqs (tt_id s) txn available (tt_buffer s) in
  modify (λ s, s <| tt_buffer := r.1 |> <| tt_timer := true |>) ;;
  mret r.2.

(** [peer_txn_recv.recv()] *)
Definition tt_recv_peer (src : NodeId) (txns : list Txn) : M TxnValThread unit :=
  id ← gets tt_id;
  if decide (src = id) then mret tt
  else modify (λ s, s <| tt_buffer ::= λ b, b ++ ((λ txn, (src, txn)) <$> txns) |> <| tt_timer := true |>).

(** [wait_validation_batch(..)], under its guard: given whether the timer has run
    out *)
Definition tt_can_spawn (expired : bool) (s : TxnValThread) : bool :=
  tt_timer s && negb (bool_decide (tt_buffer s = [])) &&
  (bool_decide (VALIDATION_BATCH_SIZE ≤ length (tt_buffer s))%nat || expired).
Definition tt_spawn : M TxnValThread unit :=
  b ← gets tt_buffer;
  let num_txns_to_drain := Nat.min VALIDATION_BATCH_SIZE (length b) in
  modify (λ s, s <| tt_buffer := drop num_txns_to_drain b |>) ;;
  modify (λ s, if decide (tt_buffer s = []) then s <| tt_timer := false |> else s) ;;
  modify (λ s, s <| tt_tasks ::= λ ts,
    ts ++ [mkValTask (take num_txns_to_drain b) [] None f64_zero] |>).

Section Validation.
Context `{Externals} `{!Bincode BitcoinTxn} `{!Bincode AvalancheTxn} `{!Bincode (list Hash)}
  `{BuildProfile} `{HashOrder}.

(** The [i]th task takes a step. *)
Definition tt_task_step (crypto : CryptoScheme) (i : nat) : M TxnValThread unit :=
  s ← gets (λ s, s);
  match tt_tasks s !! i with
  | None => mret tt
  | Some t =>
    let r := val_task_step crypto t (tt_txns_seen s) in
    modify (λ s, s <| tt_txns_seen := r.2 |>) ;;
    match r.1 with
    | TaskGoes t' => modify (λ s, s <| tt_tasks ::= <[i := t']> |>)
    | TaskDone b => modify (λ s, s <| tt_tasks ::= delete i |> <| tt_pending ::= λ p, p ++ [b] |>)
    | TaskDies => modify (λ s, s <| tt_tasks ::= delete i |>)
    end
  end.

(** [pending_txns_recver.recv()]; [fuel] bounds the depth of the validator's
    recursion *)
Definition tt_recv_pending `{Channel} (fuel : nat) : M TxnValThread unit :=
  p ← gets tt_pending;
  match p with
  | [] => mret tt
  | txns_with_ctx :: rest =>
    modify (λ s, s <| tt_pending := rest |>) ;;
    r ← log_err (zoom tt_stage (λ t s, s <| tt_stage := t |>) (validator_validate fuel txns_with_ctx));
    match r with
    | None => mret tt
    | Some correct_txns =>
      _ ← log_err (zoom tt_sent (λ t s, s <| tt_sent := t |>) (chan_send correct_txns)); mret tt
    end
  end.
End Validation.
