(* ===== verification/ThreadProps.v ===== *)
(** * The threads of a node: properties

    What the block management thread hands to its stage, and what the validation
    thread hands to its validator, over every interleaving of their tasks. The
    theorems hold for every stage: they use only its interface. *)

From S2P Require Import Prelude F64 Protocol Peers Config Samples TxnValidation TxnValProps.
From S2P Require Import Stages Threads.
From S2P Require BtcMgmt.
Local Open Scope N_scope.

(** ** Logged errors *)

Lemma log_err_ok {S A : Type} (m : M S A) s r s' :
  log_err m s = (Ok r, s') →
  (∃ a, r = Some a ∧ m s = (Ok a, s')) ∨ (r = None ∧ ∃ e, m s = (Err e, s')).
Proof. unfold log_err. destruct (m s) as [[a|e| |] s1]; intros [= <- <-]; eauto. Qed.

Lemma log_err_state {S A : Type} (m : M S A) s : (log_err m s).2 = (m s).2.
Proof. unfold log_err. by destruct (m s) as [[a|e| |] s1]. Qed.

(** ** Verdicts *)

Section Verdicts.
Context `{Externals} `{!Bincode BitcoinTxn} `{!Bincode AvalancheTxn} `{!Bincode BlockHeader}
  `{!Bincode (list Hash)} `{BuildProfile} (crypto : CryptoScheme).

(** Some transaction with this id was checked, with this verdict. *)
Definition verdict (h : Hash) (v : bool) : Prop :=
  ∃ t vt, TxnCtx_from_txn t = Ok (mkTxnCtx h) ∧ txn_validate crypto t = Ok (v, vt).

Definition seen_ok (seen : gmap Hash bool) : Prop := map_Forall verdict seen.

(** A transaction that may be in a block handed to block management: its id has
    been found valid, or its check returned an error. *)
Definition checked (x : Txn * TxnCtx) : Prop :=
  verdict (tc_id x.2) true ∨ ∃ e, txn_validate crypto x.1 = Err e.

(** The transactions of a block with their contexts. *)
Definition blk_pairs (b : Block) (c : BlkCtx) : list (Txn * TxnCtx) := zip (txns b) (bc_txn_ctx c).

Lemma txn_ctxs_pairs ts cs :
  txn_ctxs ts = Ok cs → Forall (λ x : Txn * TxnCtx, TxnCtx_from_txn x.1 = Ok x.2) (zip ts cs).
Proof.
  revert cs. induction ts as [|t ts IH]; intros cs Heq; [constructor|].
  cbn in Heq. res_inv. cbn. constructor; [done|]. by apply IH.
Qed.

Lemma blk_pairs_ctx rand b c :
  BlkCtx_from_blk rand b = Ok c →
  Forall (λ x : Txn * TxnCtx, TxnCtx_from_txn x.1 = Ok x.2) (blk_pairs b c).
Proof. unfold BlkCtx_from_blk. intros Heq. res_inv. by apply txn_ctxs_pairs. Qed.

(** A task on a block: it has gone through a part of the transactions. *)
Definition blk_task_ok (t : BlkTask) : Prop :=
  (∃ rand, BlkCtx_from_blk rand (bk_block t) = Ok (bk_ctx t)) ∧
  ∃ done, blk_pairs (bk_block t) (bk_ctx t) = done ++ bk_todo t ∧
    match bk_insert t with
    | None => Forall checked done
    | Some (h, v) => verdict h v ∧ ∃ done' x, done = done' ++ [x] ∧ Forall checked done' ∧ tc_id x.2 = h
    end.

(** A block that was handed on. *)
Definition blk_ok (x : NodeId * (Block * BlkCtx)) : Prop :=
  (∃ rand, BlkCtx_from_blk rand x.2.1 = Ok x.2.2) ∧ Forall checked (blk_pairs x.2.1 x.2.2).

Lemma blk_task_start rand src b c :
  BlkCtx_from_blk rand b = Ok c →
  blk_task_ok (mkBlkTask src b c (zip (txns b) (bc_txn_ctx c)) None f64_zero).
Proof. intros Hc. split; [by exists rand|]. exists []. split; [done|]. by apply Forall_nil. Qed.

Lemma blk_task_step_ok t seen r seen' :
  blk_task_ok t → seen_ok seen → blk_task_step crypto t seen = (r, seen') →
  seen_ok seen' ∧
  match r with
  | TaskGoes t' => blk_task_ok t' ∧ bk_src t' = bk_src t ∧ bk_block t' = bk_block t ∧ bk_ctx t' = bk_ctx t
  | TaskDone (Some b) => blk_ok b ∧ b = (bk_src t, (bk_block t, bk_ctx t))
  | _ => True
  end.
Proof.
  intros [Hctx (dn & Hsplit & Hins)] Hseen Hstep. unfold blk_task_step in Hstep.
  destruct (bk_insert t) as [[h v]|] eqn:Ei.
  - injection Hstep as <- <-. destruct Hins as (Hv & dn' & x & -> & Hdone & Hx).
    split; [by apply map_Forall_insert_2|]. destruct v; [|done].
    split; [|done]. split; [done|]. exists (dn' ++ [x]). split; [done|]. cbn.
    apply Forall_app. split; [done|]. apply Forall_singleton. left. by rewrite Hx.
  - destruct (bk_todo t) as [|[txn ctx] rest] eqn:Et.
    { injection Hstep as <- <-. split; [done|]. split; [|done]. split; [done|]. cbn.
      by rewrite Hsplit, app_nil_r. }
    injection Hstep as <- <-. split; [done|].
    assert (Hgo : ∀ o, match o with
        | None => checked (txn, ctx)
        | Some (h, v) => verdict h v ∧ tc_id ctx = h end →
      ∀ vt, blk_task_ok (mkBlkTask (bk_src t) (bk_block t) (bk_ctx t) rest o vt)).
    { intros o Ho vt. split; [done|]. exists (dn ++ [(txn, ctx)]). cbn. split; [by rewrite <- app_assoc|].
      destruct o as [[h v]|]; [destruct Ho as [Ho1 Ho2]; split; [exact Ho1|]; exists dn, (txn, ctx); by split|].
      apply Forall_app. split; [done|]. by apply Forall_singleton. }
    destruct (seen !! tc_id ctx) as [[]|] eqn:Es; [|done|].
    + split; [|done]. cbn. rewrite Ei. apply (Hgo None). left. by apply Hseen.
    + destruct (txn_validate crypto txn) as [[v vt]|e| |] eqn:Ev; try done.
      * split; [|done]. apply (Hgo (Some (tc_id ctx, v))). split; [|done]. exists txn, vt. split; [|done].
        destruct Hctx as [rand Hctx%blk_pairs_ctx]. rewrite Hsplit, Forall_app in Hctx.
        destruct Hctx as [_ [Hc _]%Forall_cons]. cbn in Hc. by destruct ctx.
      * split; [|done]. cbn. rewrite Ei. apply (Hgo None). right. by exists e.
Qed.
End Verdicts.

(** ** The block management thread *)

Section BlkMgmt.
Context {St : Type} `{!BlockManagement St} `{Externals} `{!Bincode BitcoinTxn} `{!Bincode AvalancheTxn}
  `{!Bincode BlockHeader} `{!Bincode (list Hash)} `{BuildProfile} `{Channel} (crypto : CryptoScheme).
Implicit Types (s : BlkMgmtThread St).

(** Blocks handed to [validate_block]. *)
Abbreviation BlkLog := (list (NodeId * (Block * BlkCtx))).

(** The arms of the [select!], with the log of the blocks handed to the stage.
    The map of verdicts also takes those of the validation thread. Blocks of the
    dummy chain are left out: each computation of their id is random. *)
Inductive bt_step : BlkMgmtThread St * BlkLog → BlkMgmtThread St * BlkLog → Prop :=
| bt_step_txns batch s s' log : bt_txn_ready batch s = (Ok tt, s') → bt_step (s, log) (s', log)
| bt_step_prepare e s s' log :
    bt_blk_state s = BtcMgmt.Working → bt_prepare e s = (Ok tt, s') → bt_step (s, log) (s', log)
| bt_step_propose e s s' log :
    bm_wait_to_propose e (bt_stage s) = Ok true → bt_propose e s = (Ok tt, s') →
    bt_step (s, log) (s', log)
| bt_step_peer_blk rand rand' src b s s' log :
    header b ≠ HDummy → bt_peer_blk rand rand' src b s = (Ok tt, s') → bt_step (s, log) (s', log)
| bt_step_task i s s' log : bt_task_step crypto i s = (Ok tt, s') → bt_step (s, log) (s', log)
| bt_step_pending e x rest s s' log :
    bt_pending s = x :: rest → bt_recv_pending e s = (Ok tt, s') → bt_step (s, log) (s', log ++ [x])
| bt_step_pmaker msg s s' log : bt_pmaker msg s = (Ok tt, s') → bt_step (s, log) (s', log)
| bt_step_blk_req peer msg s s' log : bt_blk_req peer msg s = (Ok tt, s') → bt_step (s, log) (s', log)
| bt_step_report s s' log : bt_report s = (Ok tt, s') → bt_step (s, log) (s', log)
| bt_step_verdict t c v vt s log :
    TxnCtx_from_txn t = Ok c → txn_validate crypto t = Ok (v, vt) →
    bt_step (s, log) (s <| bt_txns_seen ::= <[tc_id c := v]> |>, log).

(** What the calls of the stage and the sends leave alone. *)
Definition bt_keeps (s s' : BlkMgmtThread St) : Prop :=
  bt_id s' = bt_id s ∧ bt_blks_seen s' = bt_blks_seen s ∧ bt_txns_seen s' = bt_txns_seen s ∧
  bt_tasks s' = bt_tasks s ∧ bt_pending s' = bt_pending s.

#[local] Instance bt_keeps_preorder : PreOrder bt_keeps.
Proof. split; [by repeat split|]. intros x y z (?&?&?&?&?) (?&?&?&?&?). repeat split; congruence. Qed.

Lemma on_stage_keeps {A : Type} (m : M St A) s r s' : log_err (on_stage m) s = (r, s') → bt_keeps s s'.
Proof.
  intros Heq. assert (s' = (on_stage m s).2) as -> by (by rewrite <- log_err_state, Heq).
  unfold on_stage, zoom. by destruct (m (bt_stage s)).
Qed.

Lemma bt_send_keeps src tail s r s' : bt_send src tail s = (r, s') → bt_keeps s s'.
Proof.
  unfold bt_send, log_err, zoom, mbind, M_bind, chan_send. intros Heq.
  destruct (chan_open _); by injection Heq as <- <-.
Qed.

Lemma bt_txn_ready_keeps batch s s' : bt_txn_ready batch s = (Ok tt, s') → bt_keeps s s'.
Proof.
  unfold bt_txn_ready. intros Heq. m_inv.
  match goal with Hm : mfor _ _ _ = (_, ?s1) |- _ =>
    assert (bt_keeps s s1) as Hk; [|rewrite Hk; by destruct (bt_blk_state s1)];
    revert s Hm end.
  induction batch as [|y batch IH]; intros s Hm; cbn [mfor] in Hm; [by m_inv|].
  m_inv. etrans; [by eapply on_stage_keeps|]. by apply IH.
Qed.

Lemma bt_prepare_keeps e s s' : bt_prepare e s = (Ok tt, s') → bt_keeps s s'.
Proof.
  unfold bt_prepare. intros Heq. m_step.
  match goal with Hm : log_err _ _ = _ |- _ => apply on_stage_keeps in Hm; rewrite Hm end.
  destruct x; m_inv; done.
Qed.

(** ** The invariant of the thread *)

Definition from_peer (id src : NodeId) (b : Block) : Prop := src ≠ id ∧ header b ≠ HDummy.

(** The ids of the blocks on their way, then of those handed on. *)
Definition blk_ids (tasks : list BlkTask) (log : BlkLog) : list Hash :=
  ((λ t, bc_id (bk_ctx t)) <$> tasks) ++ ((λ x : NodeId * (Block * BlkCtx), bc_id x.2.2) <$> log).
#[local] Arguments blk_ids : simpl never.

Record bt_inv (id : NodeId) (log : BlkLog) s : Prop := {
  bi_id : bt_id s = id;
  bi_seen : seen_ok crypto (bt_txns_seen s);
  bi_tasks : Forall (λ t, blk_task_ok crypto t ∧ from_peer id (bk_src t) (bk_block t)) (bt_tasks s);
  bi_log : Forall (λ x, blk_ok crypto x ∧ from_peer id x.1 x.2.1) (log ++ bt_pending s);
  bi_nodup : NoDup (blk_ids (bt_tasks s) (log ++ bt_pending s));
  bi_blks : ∀ h, h ∈ blk_ids (bt_tasks s) (log ++ bt_pending s) → h ∈ bt_blks_seen s;
}.

Lemma bt_inv_keeps id log s s' : bt_keeps s s' → bt_inv id log s → bt_inv id log s'.
Proof. intros (Hi&Hb&Hs&Ht&Hp) []. split; rewrite ?Hi, ?Hb, ?Hs, ?Ht, ?Hp; done. Qed.

(** The id of a header that is not random is the one of its block's context. *)
Lemma blk_ctx_id rand rand' b c h :
  header b ≠ HDummy → header_compute_id rand (header b) = Ok h →
  BlkCtx_from_blk rand' b = Ok c → bc_id c = h.
Proof.
  unfold BlkCtx_from_blk. intros Hd Hh Hc. res_inv. cbn.
  destruct (header b); [done|..]; cbn in *; congruence.
Qed.

Lemma bt_peer_blk_inv id log rand rand' src b s s' :
  header b ≠ HDummy → bt_peer_blk rand rand' src b s = (Ok tt, s') → bt_inv id log s → bt_inv id log s'.
Proof.
  intros Hd Heq Hinv. pose proof Hinv as [Hid Hseen Htasks Hlog Hnd Hblks].
  unfold bt_peer_blk in Heq. m_step. m_step. case_decide as Hsrc; [by m_inv|].
  m_step. match goal with Hx : log_err _ _ = _ |- _ => rename Hx into Hm end.
  apply log_err_ok in Hm as [(h & -> & Hm)|(-> & e & Hm)]; cbn in Heq.
  2: { injection Hm as _ <-. by m_inv. }
  injection Hm as Hh <-. case_decide as Hin; [by m_inv|]. m_step. m_step.
  destruct (BlkCtx_from_blk rand' b) as [c|e| |] eqn:Hc.
  2-4: m_inv; split; cbn; try done; intros h' Hh'; apply elem_of_union_r; by apply Hblks.
  m_inv. pose proof (blk_ctx_id _ _ _ _ _ Hd Hh Hc) as Hch.
  assert (blk_ids (bt_tasks s ++ [mkBlkTask src b c (zip (txns b) (bc_txn_ctx c)) None f64_zero])
    (log ++ bt_pending s) ≡ₚ h :: blk_ids (bt_tasks s) (log ++ bt_pending s)) as Hperm.
  { unfold blk_ids. rewrite fmap_app. cbn. rewrite Hch. solve_Permutation. }
  split; cbn; try done.
  - apply Forall_app. split; [done|]. apply Forall_singleton.
    split; [by eapply blk_task_start|]. by split.
  - rewrite Hperm. constructor; [|done]. by intros ?%Hblks.
  - intros h'. rewrite Hperm, elem_of_cons. intros [->|Hh']; [set_solver|].
    apply elem_of_union_r. by apply Hblks.
Qed.

Lemma bt_task_step_inv id log i s s' :
  bt_task_step crypto i s = (Ok tt, s') → bt_inv id log s → bt_inv id log s'.
Proof.
  intros Heq Hinv. pose proof Hinv as [Hid Hseen Htasks Hlog Hnd Hblks].
  unfold bt_task_step in Heq. m_step. m_step.
  destruct (bt_tasks s !! i) as [t|] eqn:Hi; [|by m_inv].
  destruct (blk_task_step crypto t (bt_txns_seen s)) as [r seen'] eqn:Hstep.
  pose proof Htasks as Hall. rewrite Forall_lookup in Hall. destruct (Hall i t Hi) as [Hok Hfrom].
  destruct (blk_task_step_ok crypto t _ _ _ Hok Hseen Hstep) as [Hseen' Hr].
  m_step. m_step. cbn in Heq.
  assert (bt_tasks s ≡ₚ t :: delete i (bt_tasks s)) as Hdel by (by apply delete_Permutation).
  destruct r as [t'|[b|]|].
  - destruct Hr as (Hok' & Hs & Hb & Hc). m_inv.
    assert (blk_ids (<[i:=t']> (bt_tasks s)) (log ++ bt_pending s)
      = blk_ids (bt_tasks s) (log ++ bt_pending s)) as Hids.
    { unfold blk_ids. rewrite list_fmap_insert, Hc. f_equal. apply list_insert_id. by rewrite list_lookup_fmap, Hi. }
    split; cbn; rewrite ?Hids; try done. apply Forall_insert; [done|]. split; [done|]. by rewrite Hs, Hb.
  - destruct Hr as [Hok' ->]. m_inv.
    assert (blk_ids (delete i (bt_tasks s)) (log ++ bt_pending s ++ [(bk_src t, (bk_block t, bk_ctx t))])
      ≡ₚ blk_ids (bt_tasks s) (log ++ bt_pending s)) as Hids.
    { unfold blk_ids. rewrite Hdel at 2. rewrite !fmap_app. cbn. solve_Permutation. }
    split; cbn; try done.
    + by apply Forall_delete.
    + rewrite app_assoc. apply Forall_app. split; [done|]. by apply Forall_singleton.
    + by rewrite Hids.
    + intros h. rewrite Hids. apply Hblks.
  - m_inv. split; cbn; try done; [by apply Forall_delete| |].
    + unfold blk_ids in *. rewrite Hdel in Hnd. cbn in Hnd. by apply NoDup_cons in Hnd as [_ ?].
    + intros h Hh. apply Hblks. unfold blk_ids in *. rewrite Hdel. cbn. by apply list_elem_of_further.
  - m_inv. split; cbn; try done; [by apply Forall_delete| |].
    + unfold blk_ids in *. rewrite Hdel in Hnd. cbn in Hnd. by apply NoDup_cons in Hnd as [_ ?].
    + intros h Hh. apply Hblks. unfold blk_ids in *. rewrite Hdel. cbn. by apply list_elem_of_further.
Qed.

Lemma bt_recv_pending_inv id log e x rest s s' :
  bt_pending s = x :: rest → bt_recv_pending e s = (Ok tt, s') → bt_inv id log s →
  bt_inv id (log ++ [x]) s'.
Proof.
  intros Hp Heq Hinv. set (s1 := s <| bt_pending := rest |>).
  assert (bt_inv id (log ++ [x]) s1) as Hinv1.
  { destruct Hinv as [Hid Hseen Htasks Hlog Hnd Hblks]. rewrite Hp in *.
    split; cbn; rewrite <- ?app_assoc; done. }
  unfold bt_recv_pending in Heq. destruct x as [src [b c]]. m_step. m_step. rewrite Hp in Heq.
  m_step. m_step. fold s1 in Heq. m_step.
  match goal with Hx : log_err _ _ = (Ok ?o, _) |- _ =>
    rename o into out; apply on_stage_keeps in Hx as Hk end.
  eapply (bt_inv_keeps _ _ s1); [|done]. etrans; [exact Hk|].
  destruct out as [[|y tail]|]; [by m_inv| |by m_inv]. m_step. m_step. by apply bt_send_keeps in Heq.
Qed.

Lemma bt_step_inv id y z : bt_step y z → bt_inv id y.2 y.1 → bt_inv id z.2 z.1.
Proof.
  intros [batch s s' log Heq|e s s' log _ Heq|e s s' log _ Heq|rand rand' src b s s' log Hd Heq
    |i s s' log Heq|e x rest s s' log Hp Heq|msg s s' log Heq|peer msg s s' log Heq|s s' log Heq
    |t c v vt s log Ht Hv] Hinv; cbn in *.
  - by eapply bt_inv_keeps, Hinv; eapply bt_txn_ready_keeps.
  - by eapply bt_inv_keeps, Hinv; eapply bt_prepare_keeps.
  - unfold bt_propose in Heq. m_step.
    match goal with Hx : log_err _ _ = _ |- _ => apply on_stage_keeps in Hx as Hk end.
    apply (bt_inv_keeps _ _ _ _ Hk) in Hinv. destruct x as [[b c]|]; [|by m_inv].
    m_step. m_step. m_step. m_step. apply bt_send_keeps in Heq. eapply bt_inv_keeps; [exact Heq|].
    destruct Hinv. split; try done. cbn. intros h Hh. apply elem_of_union_r. auto.
  - by eapply bt_peer_blk_inv.
  - by eapply bt_task_step_inv.
  - by eapply bt_recv_pending_inv.
  - unfold bt_pmaker in Heq. m_inv. by eapply bt_inv_keeps, Hinv; eapply on_stage_keeps.
  - unfold bt_blk_req in Heq. m_inv. by eapply bt_inv_keeps, Hinv; eapply on_stage_keeps.
  - eapply bt_inv_keeps, Hinv. unfold bt_report, on_stage, zoom in Heq.
    destruct (bm_report (bt_stage s)). by injection Heq as _ <-.
  - destruct Hinv. split; try done. cbn. apply map_Forall_insert_2; [|done].
    exists t, vt. by destruct c.
Qed.

Lemma bt_inv_new id (stage : St) : bt_inv id [] (bt_new id stage).
Proof.
  split; cbn; [done|by apply map_Forall_empty|by apply Forall_nil|by apply Forall_nil
    |by apply NoDup_nil|]. by intros h ?%elem_of_nil.
Qed.

(** C17: whatever the stage, and however the tasks that check signatures and the
    validation thread interleave: a block of a peer, unless its header is the dummy one,
    for which every context draws another id, is handed to the stage at most
    once, with the context computed from it, and never one the node sent itself;
    and each of its transactions has been checked and found valid, or one with the
    same id has, unless its check ended in an error. *)
Theorem blocks_validated_once id (stage : St) s log :
  rtc bt_step (bt_new id stage, []) (s, log) →
  NoDup ((λ x : NodeId * (Block * BlkCtx), bc_id x.2.2) <$> log) ∧
  ∀ src b c, (src, (b, c)) ∈ log → src ≠ id ∧ (∃ rand, BlkCtx_from_blk rand b = Ok c) ∧
    Forall (checked crypto) (blk_pairs b c).
Proof.
  intros Hsteps. assert (bt_inv id log s) as [_ _ _ Hlog Hnd _].
  { revert Hsteps. apply (rtc_ind_r (λ y, bt_inv id y.2 y.1)); [apply bt_inv_new|].
    intros y z _ Hyz Hy. by eapply bt_step_inv. }
  split.
  - unfold blk_ids in Hnd. rewrite fmap_app in Hnd.
    apply NoDup_app in Hnd as (_ & _ & Hnd). by apply NoDup_app in Hnd as (? & _).
  - intros src b c Hin. apply Forall_app in Hlog as [Hlog _]. rewrite Forall_forall in Hlog.
    destruct (Hlog _ Hin) as [[Hc Hall] [Hsrc _]]. by split_and!.
Qed.
End BlkMgmt.

(** ** The validation thread *)

(** Ids that the validator has been given satisfy [P]. *)
Section ValIds.
Context `{HashOrder} {C : TxnCheck} {txn_inputs : Txn → list Hash} {L : TxnCheckLaws C txn_inputs}
  (P : Hash → Prop).

Definition val_ids (s : TxnVal) : Prop :=
  (∀ h, is_Some (tv_pool s !! h) → P h) ∧
  ∀ m children h e, tv_pending s !! m = Some children → children !! h = Some e → P (tc_id e.1.2).

Lemma validate_all_ids rec txns acc s :
  (∀ src t c s, P (tc_id c) → val_ids s →
     wlp (rec src t c) (λ out s', val_ids s' ∧ Forall (λ x : NodeId * (Txn * TxnCtx), P (tc_id x.2.2)) out)
       val_ids s) →
  val_ids s → Forall (λ x : NodeId * (Txn * TxnCtx), P (tc_id x.2.2)) txns →
  Forall (λ x : NodeId * (Txn * TxnCtx), P (tc_id x.2.2)) acc →
  wlp (validate_all rec txns acc)
    (λ out s', val_ids s' ∧ Forall (λ x : NodeId * (Txn * TxnCtx), P (tc_id x.2.2)) out) val_ids s.
Proof.
  intros Hrec. revert acc s. induction txns as [|[src [t c]] txns IH]; intros acc s Hs Hall Hacc; [by split|].
  apply Forall_cons in Hall as [Hx Hall]. cbn. apply wlp_bind.
  eapply wlp_mono; [by apply Hrec| |done]. intros out s' [Hs' Hout]. apply IH; [done|done|]. by apply Forall_app.
Qed.

Lemma validate_inner_ids fuel src t c s :
  P (tc_id c) → val_ids s →
  wlp (validate_inner fuel src t c)
    (λ out s', val_ids s' ∧ Forall (λ x : NodeId * (Txn * TxnCtx), P (tc_id x.2.2)) out) val_ids s.
Proof.
  revert src t c s. induction fuel as [|fuel IH]; intros src t c s Hc Hs; [done|].
  cbn [validate_inner]. wlp_step. wlp_step. destruct (tv_pool s !! tc_id c); [by split|].
  wlp_steps; [|done]. destruct Hs as [Hpool Hpend].
  assert (∀ h, is_Some (<[tc_id c:=(t, c)]> (tv_pool s) !! h) → P h) as Hpool'.
  { intros h [y [[<- _]|[_ Hy]]%lookup_insert_Some]; eauto. }
  destruct a as [[]|ms]; wlp_steps; [|by split|].
  - cbn [tv_pending]. destruct (tv_pending _ !! tc_id c) as [children|] eqn:Ech; wlp_steps.
    + apply validate_all_ids; [apply IH| | |by apply Forall_singleton].
      * split; [done|]. cbn. intros m ch h e [_ Hm]%lookup_delete_Some. by eapply Hpend.
      * apply Forall_fmap, Forall_forall. intros [h e] Hin. cbn. apply elem_of_map_iter in Hin. by eapply Hpend.
    + split; [by split|]. by apply Forall_singleton.
  - split; [|done]. split; [done|]. cbn. intros m ch h e Hm He.
    destruct (add_pending_all_inv _ _ _ _ _ _ _ _ Hm He) as [(ch0 & Hm0 & He0)|(-> & -> & _)]; eauto.
Qed.

Lemma validate_ids fuel batch s out s' :
  val_ids s → Forall (λ x : NodeId * (Txn * TxnCtx), P (tc_id x.2.2)) batch →
  validate fuel batch s = (out, s') →
  val_ids s' ∧ ∀ l, out = Ok l → Forall (λ x : NodeId * (Txn * TxnCtx), P (tc_id x.2.2)) l.
Proof.
  intros Hs Hb Heq. pose proof (validate_all_ids (validate_inner fuel) batch [] s) as Hw.
  specialize (Hw (λ src t c s, validate_inner_ids fuel src t c s) Hs Hb ltac:(by apply Forall_nil)).
  unfold validate in Heq. unfold wlp in Hw. rewrite Heq in Hw.
  destruct out; [|by split..]. destruct Hw as [? Hout]. split; [done|]. by intros l [= <-].
Qed.
End ValIds.

Section ValThread.
Context `{Externals} `{!Bincode BitcoinTxn} `{!Bincode AvalancheTxn} `{!Bincode (list Hash)}
  `{BuildProfile} `{HashOrder} `{Channel} (crypto : CryptoScheme).
Implicit Types (s : TxnValThread) (x : Received).

(** The arms of the [select!]; the map of verdicts also takes those of the block
    management thread. *)
Inductive tt_step : TxnValThread → TxnValThread → Prop :=
| tt_step_req txn available left s s' :
    tt_can_recv s = true → tt_recv_req txn available s = (Ok left, s') → tt_step s s'
| tt_step_peer src txns s s' : tt_recv_peer src txns s = (Ok tt, s') → tt_step s s'
| tt_step_spawn expired s s' :
    tt_can_spawn expired s = true → tt_spawn s = (Ok tt, s') → tt_step s s'
| tt_step_task i s s' : tt_task_step crypto i s = (Ok tt, s') → tt_step s s'
| tt_step_pending fuel s s' : tt_recv_pending fuel s = (Ok tt, s') → tt_step s s'
| tt_step_verdict id v s : tt_step s (s <| tt_txns_seen ::= <[id := v]> |>).

(** The pool of the node's validator, and the inputs it asks for. *)
Definition tt_val s : option TxnVal :=
  match tt_stage s with TVBitcoin v | TVAvalanche v => Some v | _ => None end.
Definition tt_inputs s : Txn → list Hash :=
  match tt_stage s with TVBitcoin _ => btc_inputs | TVAvalanche _ => avax_inputs | _ => λ _, [] end.

Definition not_in (h : Hash) (l : list Received) : Prop := Forall (λ x, tc_id x.2.2 ≠ h) l.
Definition task_without (h : Hash) (t : ValTask) : Prop :=
  not_in h (vk_correct t) ∧ ∀ e v, vk_insert t = Some (e, v) → tc_id e.2.2 ≠ h.

(** The validator has not been given a transaction with this id, and none is on its
    way from a task that has already looked up the verdict. *)
Definition not_taken (h : Hash) s : Prop :=
  Forall (task_without h) (tt_tasks s) ∧ Forall (not_in h) (tt_pending s) ∧
  ∃ v, tt_val s = Some v ∧ val_ids (λ id, id ≠ h) v.

Definition seen_not_taken (h : Hash) s : Prop := is_Some (tt_txns_seen s !! h) ∧ not_taken h s.

(** A batch sent on has neither the transaction nor one that spends its outputs. *)
Definition batch_without (txn_inputs : Txn → list Hash) (h : Hash) (b : list Received) : Prop :=
  Forall (λ x, tc_id x.2.2 ≠ h ∧ h ∉ txn_inputs x.2.1) b.

(** A validator accepts nothing that spends the outputs of a transaction it lacks. *)
Lemma accepts_without {C : TxnCheck} {txn_inputs} {L : TxnCheckLaws C txn_inputs} h pool out pool' :
  accepts pool out pool' → pool' !! h = None → Forall (λ x, h ∉ txn_inputs x.2.1) out.
Proof.
  revert pool. induction out as [|[src [t c]] out IH]; intros pool; cbn; [by constructor|].
  intros (Hnew & Hcheck & Hout) Hh. constructor; [|by eapply IH]. cbn. intros Hin.
  destruct (check_inputs _ _ _ Hcheck _ Hin) as [y Hy].
  assert (pool ⊆ pool') as Hsub by (etrans; [by apply insert_subseteq|by eapply accepts_subseteq]).
  pose proof (lookup_weaken _ _ _ _ Hy Hsub). congruence.
Qed.

Lemma validate_without {C : TxnCheck} {txn_inputs} {L : TxnCheckLaws C txn_inputs} h fuel b (v : TxnVal) o v' :
  val_ids (λ id, id ≠ h) v → not_in h b → validate fuel b v = (o, v') →
  val_ids (λ id, id ≠ h) v' ∧ ∀ out, o = Ok out → batch_without txn_inputs h out.
Proof.
  intros Hs Hb Heq. destruct (validate_ids _ _ _ _ _ _ Hs Hb Heq) as [Hs' Hout].
  split; [done|]. intros out ->. specialize (Hout _ eq_refl).
  assert (tv_pool v' !! h = None) as Hh.
  { apply eq_None_not_Some. intros Hh. by apply (proj1 Hs' h). }
  pose proof (accepts_without _ _ _ _ (validate_accepts _ _ _ _ _ Heq) Hh) as Hins.
  unfold batch_without. by apply Forall_and.
Qed.

(** A task skips a transaction whose verdict is known. *)
Lemma val_task_step_without h t seen r seen' :
  is_Some (seen !! h) → task_without h t → val_task_step crypto t seen = (r, seen') →
  is_Some (seen' !! h) ∧
  match r with TaskGoes t' => task_without h t' | TaskDone b => not_in h b | TaskDies => True end.
Proof.
  intros Hseen [Hcor Hins] Hstep. unfold val_task_step in Hstep.
  destruct (vk_insert t) as [[e v]|] eqn:Ei.
  - injection Hstep as <- <-. specialize (Hins _ _ eq_refl).
    split; [rewrite lookup_insert_ne; done|]. split; [|done]. cbn.
    destruct v; [|done]. apply Forall_app. split; [done|]. by apply Forall_singleton.
  - destruct (vk_todo t) as [|[src txn] rest]; [by injection Hstep as <- <-|].
    injection Hstep as <- <-. split; [done|].
    assert (∀ v todo, task_without h (mkValTask todo (vk_correct t) None v)) as Hskip by done.
    destruct (TxnCtx_from_txn txn) as [ctx|e| |]; try done; [|by split; cbn; rewrite ?Ei].
    destruct (seen !! tc_id ctx) eqn:Es; [by split; cbn; rewrite ?Ei|].
    destruct (txn_validate crypto txn) as [[v vt]|e| |]; try done; [|by split; cbn; rewrite ?Ei].
    split; [done|]. cbn. intros e v' [= <- <-]. cbn. intros Heq. rewrite Heq in Es. by rewrite Es in Hseen; destruct Hseen.
Qed.

Lemma recv_pending_without h fuel s s' :
  tt_recv_pending fuel s = (Ok tt, s') → not_taken h s →
  not_taken h s' ∧ tt_txns_seen s' = tt_txns_seen s ∧ tt_inputs s' = tt_inputs s ∧
  ∃ new, tt_sent s' = new ++ tt_sent s ∧ Forall (batch_without (tt_inputs s) h) new.
Proof.
  intros Heq (Htasks & Hpend & v & Hval & Hids). unfold tt_recv_pending in Heq. m_step. m_step.
  destruct (tt_pending s) as [|b rest] eqn:Ep.
  { m_inv. split; [split_and!; rewrite ?Ep; eauto|]. split_and!; try done. by exists []. }
  apply Forall_cons in Hpend as [Hb Hrest]. m_step. m_step. m_step.
  match goal with Hx : log_err _ _ = (Ok ?o, ?z) |- _ => rename o into out, z into s1, Hx into Hm end.
  assert (not_taken h s1 ∧ tt_txns_seen s1 = tt_txns_seen s ∧ tt_inputs s1 = tt_inputs s ∧
    tt_sent s1 = tt_sent s ∧ ∀ l, out = Some l → batch_without (tt_inputs s) h l) as (?&?&?&Hsent&Hl).
  { unfold log_err, zoom, validator_validate, tt_val, tt_inputs in *. cbn in Hm.
    destruct (tt_stage s) as [|v0|v0|] eqn:Est; try done; injection Hval as ->.
    - destruct (btc_val_validate fuel b v) as [o v'] eqn:Ev.
      destruct (validate_without _ _ _ _ _ _ Hids Hb Ev) as [Hids' Hout].
      cbn in Hm. destruct o as [l|e| |]; [| |discriminate Hm..]; injection Hm as <- <-;
        (split; [split_and!; [done|done|by exists v']|]); split_and!; try done; by intros ? [= <-]; auto.
    - destruct (avax_val_validate fuel b v) as [o v'] eqn:Ev.
      destruct (validate_without _ _ _ _ _ _ Hids Hb Ev) as [Hids' Hout].
      cbn in Hm. destruct o as [l|e| |]; [| |discriminate Hm..]; injection Hm as <- <-;
        (split; [split_and!; [done|done|by exists v']|]); split_and!; try done; by intros ? [= <-]; auto. }
  destruct out as [l|]; [|m_inv; split_and!; try done; by exists []].
  m_step. m_inv. specialize (Hl _ eq_refl).
  match goal with Hx : log_err _ s1 = _ |- _ => rename Hx into Hs end.
  unfold log_err, zoom, chan_send in Hs. destruct (chan_open _); injection Hs as <- <-.
  - split_and!; try done. exists [l]. cbn. rewrite Hsent. split; [done|]. by apply Forall_singleton.
  - split_and!; try done. by exists [].
Qed.

Lemma tt_step_without h s s' :
  tt_step s s' → seen_not_taken h s →
  seen_not_taken h s' ∧ tt_inputs s' = tt_inputs s ∧
  ∃ new, tt_sent s' = new ++ tt_sent s ∧ Forall (batch_without (tt_inputs s) h) new.
Proof.
  intros Hstep [Hseen Hnot]. pose proof Hnot as (Htasks & Hpend & v & Hval & Hids).
  assert (∀ z, tt_txns_seen z = tt_txns_seen s → tt_pending z = tt_pending s → tt_stage z = tt_stage s →
    tt_sent z = tt_sent s → Forall (task_without h) (tt_tasks z) →
    seen_not_taken h z ∧ tt_inputs z = tt_inputs s ∧
    ∃ new, tt_sent z = new ++ tt_sent s ∧ Forall (batch_without (tt_inputs s) h) new) as Hkeep.
  { intros z Hz1 Hz2 Hz3 Hz4 Hz5. unfold seen_not_taken, not_taken, tt_val, tt_inputs.
    rewrite Hz1, Hz2, Hz3, Hz4. split_and!; eauto. by exists []. }
  destruct Hstep as [txn available left s s' _ Heq|src txns s s' Heq|expired s s' _ Heq|i s s' Heq
    |fuel s s' Heq|id w s].
  - unfold tt_recv_req in Heq. m_inv. by apply Hkeep.
  - unfold tt_recv_peer in Heq. m_step. m_step. case_decide; m_inv; by apply Hkeep.
  - unfold tt_spawn in Heq. m_inv. apply Hkeep; cbn; case_decide; try done;
      (apply Forall_app; split; [done|]; apply Forall_singleton; split; [by apply Forall_nil|done]).
  - unfold tt_task_step in Heq. m_step. m_step.
    destruct (tt_tasks s !! i) as [t|] eqn:Hi; [|m_inv; by apply Hkeep].
    destruct (val_task_step crypto t (tt_txns_seen s)) as [r seen'] eqn:Hstep.
    pose proof Htasks as Hall. rewrite Forall_lookup in Hall.
    destruct (val_task_step_without _ _ _ _ _ Hseen (Hall i t Hi) Hstep) as [Hseen' Hr].
    m_step. m_step. cbn in Heq.
    destruct r as [t'|b|]; m_inv; (split; [split; [done|]; split_and!; cbn|split; [done|by exists []]]);
      try done; try (by apply Forall_delete); try (by apply Forall_insert); try (by exists v).
    apply Forall_app. split; [done|]. by apply Forall_singleton.
  - destruct (recv_pending_without _ _ _ _ Heq Hnot) as (? & Hs & ? & ?).
    split_and!; try done. split; [by rewrite Hs|done].
  - split; [|split; [done|by exists []]]. split; [|done]. cbn.
    destruct (decide (id = h)) as [->|]; [by rewrite lookup_insert_eq|by rewrite lookup_insert_ne].
Qed.

(** C38: the map of verdicts is shared with block management. A transaction whose
    verdict is in the map before the validation thread has taken it up (it came
    in the block of a peer first) is dropped as a duplicate whenever it arrives
    later, however the tasks interleave: it never enters the validator's pool, and
    neither it nor any transaction that spends its outputs is ever in a batch
    sent on. *)
Theorem seen_in_block_never_validated h s s' :
  seen_not_taken h s → rtc tt_step s s' →
  (∃ v, tt_val s' = Some v ∧ tv_pool v !! h = None) ∧
  ∃ new, tt_sent s' = new ++ tt_sent s ∧ Forall (batch_without (tt_inputs s) h) new.
Proof.
  intros Hs Hsteps. assert (seen_not_taken h s' ∧ tt_inputs s' = tt_inputs s ∧
    ∃ new, tt_sent s' = new ++ tt_sent s ∧ Forall (batch_without (tt_inputs s) h) new) as (Hs' & _ & Hnew).
  { revert Hsteps. apply (rtc_ind_r (λ z, seen_not_taken h z ∧ tt_inputs z = tt_inputs s ∧
      ∃ new, tt_sent z = new ++ tt_sent s ∧ Forall (batch_without (tt_inputs s) h) new)).
    { split_and!; try done. by exists []. }
    intros y z _ Hyz (Hy & Hin & new & Hsent & Hnew).
    destruct (tt_step_without _ _ _ Hyz Hy) as (Hz & Hin' & new' & Hsent' & Hnew').
    split_and!; [done|congruence|]. exists (new' ++ new). rewrite Hsent', Hsent, app_assoc.
    split; [done|]. apply Forall_app. split; [|done]. by rewrite <- Hin. }
  split; [|done]. destruct Hs' as [_ (_ & _ & v & Hv & [Hpool _])]. exists v. split; [done|].
  apply eq_None_not_Some. intros Hh. by apply (Hpool h).
Qed.
End ValThread.

(** ** Witnesses: a node that gets one block from two peers *)

#[local] Existing Instances sample_externals sample_bincode_btc sample_bincode_header
  sample_transport sample_channel sample_profile canonical_order.
#[local] Instance sample_bincode_avax : Bincode AvalancheTxn := {|
  serialize := λ _, inl [6]; deserialize := λ _, inr (mkErr "not needed");
|}.
#[local] Instance sample_bincode_hashes : Bincode (list Hash) := {|
  serialize := inl; deserialize := inl;
|}.
#[local] Instance sample_libm : BtcMgmt.Libm :=
  {| BtcMgmt.f64_powf := λ x _, x; BtcMgmt.f64_log := λ x _, x |}.

Definition w_parent : Txn := TBitcoin (BGrant 50 [7]).
Definition w_spend : Txn := TBitcoin (BSend [7] [12803] [8] 30 20 [] 0 5 true).
Definition w_blk : Block := mkBlock (HBitcoin 2 0 99 1) [w_parent].
Definition w_env : Env := mkEnv 0 [] 99 f64_one f64_one 2.

Abbreviation BT := (BlkMgmtThread BtcMgmt.BitcoinBM).
Definition w_bt0 : BT := bt_new 1 (BtcMgmt.new 1 1 sample_messenger).
Definition w_bt1 : BT := (bt_peer_blk [] [] 2 w_blk w_bt0).2.
Definition w_bt2 : BT := (bt_peer_blk [] [] 3 w_blk w_bt1).2.
Definition w_bt3 : BT := (bt_task_step CSDummy 0 w_bt2).2.
Definition w_bt4 : BT := (bt_task_step CSDummy 0 w_bt3).2.
Definition w_bt5 : BT := (bt_task_step CSDummy 0 w_bt4).2.
Definition w_bt6 : BT := (bt_recv_pending w_env w_bt5).2.
Definition w_handed : NodeId * (Block * BlkCtx) := (2, (w_blk, mkBlkCtx 66052 [mkTxnCtx 12803])).

Lemma blocks_validated_once_witness :
  NoDup ((λ x : NodeId * (Block * BlkCtx), bc_id x.2.2) <$> [w_handed]) ∧
  ∀ src b c, (src, (b, c)) ∈ [w_handed] → src ≠ 1 ∧ (∃ rand, BlkCtx_from_blk rand b = Ok c) ∧
    Forall (checked CSDummy) (blk_pairs b c).
Proof.
  apply (blocks_validated_once CSDummy 1 (BtcMgmt.new 1 1 sample_messenger) w_bt6 [w_handed]).
  apply (rtc_l _ _ (w_bt1, [])); [by apply (bt_step_peer_blk _ [] [] 2 w_blk); vm_compute|].
  apply (rtc_l _ _ (w_bt2, [])); [by apply (bt_step_peer_blk _ [] [] 3 w_blk); vm_compute|].
  apply (rtc_l _ _ (w_bt3, [])); [by apply (bt_step_task _ 0); vm_compute|].
  apply (rtc_l _ _ (w_bt4, [])); [by apply (bt_step_task _ 0); vm_compute|].
  apply (rtc_l _ _ (w_bt5, [])); [by apply (bt_step_task _ 0); vm_compute|].
  apply rtc_once, (bt_step_pending _ w_env w_handed []); by vm_compute.
Defined.

(** The validation thread of the same node, once the block's task has inserted the
    verdict: it then gets the child and its parent. *)
Definition w_tt0 : TxnValThread :=
  (tt_new 1 (CCBitcoin (BCBasic BitcoinBasicConfig_default))) <| tt_txns_seen := bt_txns_seen w_bt4 |>.
Definition w_tt1 : TxnValThread := (tt_recv_peer 2 [w_spend; w_parent] w_tt0).2.
Definition w_tt2 : TxnValThread := (tt_spawn w_tt1).2.
Definition w_tt3 : TxnValThread := (tt_task_step CSDummy 0 w_tt2).2.
Definition w_tt4 : TxnValThread := (tt_task_step CSDummy 0 w_tt3).2.
Definition w_tt5 : TxnValThread := (tt_task_step CSDummy 0 w_tt4).2.
Definition w_tt6 : TxnValThread := (tt_task_step CSDummy 0 w_tt5).2.
Definition w_tt7 : TxnValThread := (tt_recv_pending 5 w_tt6).2.

Lemma w_ids_new : val_ids (λ id, id ≠ 12803) btc_val_new.
Proof. split; cbn; [intros h|intros m children h e]; rewrite lookup_empty; [by intros []|done]. Qed.

Lemma seen_in_block_never_validated_witness :
  (∃ v, tt_val w_tt7 = Some v ∧ tv_pool v !! 12803 = None) ∧
  ∃ new, tt_sent w_tt7 = new ++ tt_sent w_tt0 ∧ Forall (batch_without (tt_inputs w_tt0) 12803) new.
Proof.
  apply (seen_in_block_never_validated CSDummy 12803 w_tt0 w_tt7).
  - split; [exists true; by vm_compute|]. split_and!; [by apply Forall_nil|by apply Forall_nil|].
    exists btc_val_new. split; [done|apply w_ids_new].
  - apply (rtc_l _ _ w_tt1); [by apply (tt_step_peer _ 2 [w_spend; w_parent]); vm_compute|].
    apply (rtc_l _ _ w_tt2); [by apply (tt_step_spawn _ true); vm_compute|].
    apply (rtc_l _ _ w_tt3); [by apply (tt_step_task _ 0); vm_compute|].
    apply (rtc_l _ _ w_tt4); [by apply (tt_step_task _ 0); vm_compute|].
    apply (rtc_l _ _ w_tt5); [by apply (tt_step_task _ 0); vm_compute|].
    apply (rtc_l _ _ w_tt6); [by apply (tt_step_task _ 0); vm_compute|].
    apply rtc_once, (tt_step_pending _ 5). by vm_compute.
Defined.

(** The child was let through by the signature check, and waits. *)
Lemma w_child_waits :
  tt_pending w_tt6 = [[(2, (w_spend, mkTxnCtx 1318402))]] ∧ tt_sent w_tt7 = [[]] ∧
  ∃ v, tt_val w_tt7 = Some v ∧ dom (tv_pending v) = {[12803]}.
Proof. split_and!; [by vm_compute..|]. eexists. split; [by vm_compute|]. by vm_compute. Qed.
