(* ===== verification/ThreadTypes.v ===== *)
(** * The validation thread: types of transactions

    A node is configured for one chain, but [Txn] has the transactions of all of them,
    and with them some no client may send (a coinbase, the placeholders of a batch).
    Nothing on the way in checks which: the validator meets them with [unreachable!()].
    The typing of a validator (what its pool and its pending transactions are),
    preserved by whatever arrives, and progress for what is well-typed. *)

From S2P Require Import Prelude F64 Protocol Peers Config Samples TxnValidation TxnValProps Threads ThreadProps.
Local Open Scope N_scope.

(** ** The checks as a type discipline *)

(** A check answers only for a transaction of its type (canonical forms), and always
    when the pool is of that type. *)
Class TxnTypes (C : TxnCheck) (good : Txn → Prop) : Prop := {
  check_canonical : ∀ pool t r, check_txn pool t = Ok r → good t;
  check_progress : ∀ (pool : gmap Hash (Txn * TxnCtx)) t,
    map_Forall (λ _ x, good x.1) pool → good t → ∃ r, check_txn pool t = Ok r;
}.

Section Instances.
Context `{BuildProfile}.

Lemma btc_check_canonical pool t r : btc_check pool t = Ok r → btc_client_txn t.
Proof. by destruct t as [|[]|]. Qed.
Lemma avax_check_canonical pool t r : avax_check pool t = Ok r → avax_client_txn t.
Proof. by destruct t as [| |[]]. Qed.

Lemma btc_types : overflow_checks = false → TxnTypes btc_check btc_client_txn.
Proof. split; [apply btc_check_canonical|intros; by apply btc_check_total]. Qed.
Lemma avax_types : overflow_checks = false → TxnTypes avax_check avax_client_txn.
Proof. split; [apply avax_check_canonical|intros; by apply avax_check_total]. Qed.
End Instances.

(** ** Preservation and progress of a validator *)

Section Soundness.
Context `{HashOrder} {C : TxnCheck} {txn_inputs : Txn → list Hash} {L : TxnCheckLaws C txn_inputs}
  (good : Txn → Prop).

Definition batch_typed (b : list (NodeId * (Txn * TxnCtx))) : Prop := Forall (λ x, good x.2.1) b.

(** The pool and the pending transactions of a validator are of its type. *)
Definition val_typed (s : TxnVal) : Prop :=
  val_inv (txn_inputs := txn_inputs) s ∧ map_Forall (λ _ x, good x.1) (tv_pool s) ∧
  ∀ m children h e, tv_pending s !! m = Some children → children !! h = Some e → good e.1.1.

Lemma val_typed_bounded s U :
  val_typed s → pending_ids s ⊆ U → val_bounded (txn_inputs := txn_inputs) good U s.
Proof. intros (? & ? & ?) ?. by apply val_bounded_pending_ids. Qed.

Lemma bounded_val_typed s U : val_bounded (txn_inputs := txn_inputs) good U s → val_typed s.
Proof. intros (? & ? & Hp). split_and!; [done..|]. intros m ch h e Hm He. by destruct (Hp _ _ _ _ Hm He). Qed.

Lemma val_typed_new : val_typed (mkTxnVal ∅ ∅).
Proof. by split_and!. Qed.

Section Preservation.
Context (canonical : ∀ pool t r, check_txn pool t = Ok r → good t).

Lemma validate_all_typed U rec txns acc s :
  (∀ src t c s, tc_id c ∈ U → val_bounded (txn_inputs := txn_inputs) good U s →
     wlp (rec src t c) (λ out s', val_bounded (txn_inputs := txn_inputs) good U s' ∧ batch_typed out)
       (val_bounded (txn_inputs := txn_inputs) good U) s) →
  val_bounded (txn_inputs := txn_inputs) good U s → Forall (λ x, tc_id x.2.2 ∈ U) txns → batch_typed acc →
  wlp (validate_all rec txns acc)
    (λ out s', val_bounded (txn_inputs := txn_inputs) good U s' ∧ batch_typed out)
    (val_bounded (txn_inputs := txn_inputs) good U) s.
Proof.
  intros Hrec. revert acc s. induction txns as [|[src [t c]] txns IH]; intros acc s Hs HU Hacc; [by split|].
  apply Forall_cons in HU as [Hx HU]. cbn. apply wlp_bind.
  eapply wlp_mono; [by apply Hrec| |done]. intros out s' [Hs' Hout]. apply IH; [done..|]. by apply Forall_app.
Qed.

Lemma validate_inner_typed U fuel src t c s :
  tc_id c ∈ U → val_bounded (txn_inputs := txn_inputs) good U s →
  wlp (validate_inner fuel src t c)
    (λ out s', val_bounded (txn_inputs := txn_inputs) good U s' ∧ batch_typed out)
    (val_bounded (txn_inputs := txn_inputs) good U) s.
Proof.
  revert src t c s. induction fuel as [|fuel IH]; intros src t c s HU Hs; [done|].
  cbn [validate_inner]. wlp_step. wlp_step.
  destruct (tv_pool s !! tc_id c) eqn:Ep; [split; [done|by apply Forall_nil]|].
  wlp_steps; [|done]. assert (good t) as Hg by by eapply canonical.
  destruct a as [[]|ms]; wlp_steps; [|split; [done|by apply Forall_nil]|].
  - pose proof (val_bounded_insert good _ _ _ _ Hs Hg Ep) as Hs1. cbn [tv_pending].
    destruct (tv_pending _ !! tc_id c) as [children|] eqn:Ech; wlp_steps.
    + apply validate_all_typed; [apply IH|exact Hs1| |by apply Forall_singleton].
      apply Forall_fmap, Forall_forall. intros [h e] He%elem_of_map_iter. cbn.
      destruct Hs as (Hinv & _ & Hpend). destruct (Hinv _ _ Ech) as [_ Hk], (Hk _ _ He) as [<- _].
      by destruct (Hpend _ _ _ _ Ech He).
    + cbn in Ech. rewrite delete_id in Hs1 by done. split; [exact Hs1|]. by apply Forall_singleton.
  - split; [|by apply Forall_nil]. by apply (val_bounded_missing good U s src t c ms).
Qed.

(** Whatever the batch, a validator that returns stays typed, and so is its answer. *)
Lemma validate_typed fuel batch s out s' :
  val_typed s → validate fuel batch s = (out, s') →
  match out with
  | Ok l => val_typed s' ∧ batch_typed l
  | Err _ => val_typed s'
  | _ => True
  end.
Proof.
  intros Hs Heq.
  set (U := pending_ids s ∪ list_to_set ((λ x : Received, tc_id x.2.2) <$> batch)).
  assert (wlp (validate fuel batch)
    (λ out s', val_bounded (txn_inputs := txn_inputs) good U s' ∧ batch_typed out)
    (val_bounded (txn_inputs := txn_inputs) good U) s) as Hw.
  { apply validate_all_typed; [by intros; apply validate_inner_typed| | |by apply Forall_nil].
    - apply val_typed_bounded; [done|]. unfold U. set_solver.
    - apply Forall_forall. intros x Hx. unfold U.
      apply elem_of_union_r, elem_of_list_to_set, list_elem_of_fmap. eauto. }
  unfold wlp in Hw. rewrite Heq in Hw.
  destruct out; [destruct Hw as [Hs' ?]; split; [|done]; by eapply bounded_val_typed|by eapply bounded_val_typed|done..].
Qed.
End Preservation.

(** A typed validator returns on a typed batch. *)
Lemma validate_progress `{!TxnTypes C good} fuel batch s :
  val_typed s → batch_typed batch → (enough_fuel batch s ≤ fuel)%nat →
  ∃ out s', validate fuel batch s = (Ok out, s').
Proof.
  intros Hs Hb Hfuel.
  set (U := pending_ids s ∪ list_to_set ((λ x : Received, tc_id x.2.2) <$> batch)).
  assert (wp (validate fuel batch) (λ _ _, True) (λ _ _, False) s) as Hw.
  { eapply wp_mono; [eapply (validate_all_total good check_progress U _ _ fuel);
      [intros; by apply (validate_inner_total good check_progress)| | |]|done|done].
    - apply val_typed_bounded; [done|]. unfold U. set_solver.
    - apply Forall_forall. intros x Hx. split; [by eapply Forall_forall in Hb|].
      unfold U. apply elem_of_union_r, elem_of_list_to_set, list_elem_of_fmap. eauto.
    - eapply Nat.lt_le_trans; [|exact Hfuel]. unfold enough_fuel. fold U.
      apply le_n_S, subseteq_size. set_solver. }
  unfold wp in Hw. destruct (validate fuel batch s) as [[out|e| |] s']; try done. eauto.
Qed.
End Soundness.

(** ** The thread *)

Section Thread.
Context `{Externals} `{!Bincode BitcoinTxn} `{!Bincode AvalancheTxn} `{!Bincode (list Hash)}
  `{BuildProfile} `{HashOrder} `{Channel} (crypto : CryptoScheme).
Implicit Types (s : TxnValThread) (v : TxnValidator).

(** What the chain of a node takes from clients; the stages that only pass on, or drop,
    take anything. *)
Definition stage_txn v : Txn → Prop :=
  match v with
  | TVBitcoin _ => btc_client_txn
  | TVAvalanche _ => avax_client_txn
  | TVDummy | TVVoteNo => λ _, True
  end.

Definition stage_typed v : Prop :=
  match v with
  | TVBitcoin s => val_typed (txn_inputs := btc_inputs) btc_client_txn s
  | TVAvalanche s => val_typed (txn_inputs := avax_inputs) avax_client_txn s
  | TVDummy | TVVoteNo => True
  end.

Definition thread_typed s : Prop :=
  stage_typed (tt_stage s) ∧ Forall (batch_typed (stage_txn (tt_stage s))) (tt_sent s).

Lemma stage_typed_new config : stage_typed (get_txn_validation config).
Proof. by destruct config as [|[]|[]|]; cbn; try apply val_typed_new. Qed.

Lemma validator_typed fuel b v out v' :
  stage_typed v → validator_validate fuel b v = (out, v') →
  match out with
  | Ok l => stage_typed v' ∧ batch_typed (stage_txn v) l
  | Err _ => stage_typed v'
  | _ => True
  end ∧ stage_txn v' = stage_txn v.
Proof.
  intros Hv Heq. unfold validator_validate in Heq. destruct v as [|s|s|]; cbn in *.
  - injection Heq as <- <-. split; [split; [done|]|done]. by apply Forall_true.
  - injection Heq as <- <-. split; [|done]. destruct (btc_val_validate fuel b s) as [o s'] eqn:Ev.
    exact (validate_typed _ btc_check_canonical _ _ _ _ _ Hv Ev).
  - injection Heq as <- <-. split; [|done]. destruct (avax_val_validate fuel b s) as [o s'] eqn:Ev.
    exact (validate_typed _ avax_check_canonical _ _ _ _ _ Hv Ev).
  - injection Heq as <- <-. split; [split; [done|]|done]. by apply Forall_nil.
Qed.

Lemma validator_progress fuel b v :
  overflow_checks = false → stage_typed v → batch_typed (stage_txn v) b →
  match v with TVBitcoin s | TVAvalanche s => enough_fuel b s ≤ fuel | _ => True end%nat →
  ∃ out v', validator_validate fuel b v = (Ok out, v').
Proof.
  intros Hoc Hv Hb Hf. unfold validator_validate. destruct v as [|s|s|]; cbn; [by eauto| | |by eauto].
  - pose proof (btc_types Hoc). unfold btc_val_validate.
    destruct (validate_progress (C := btc_check) _ fuel b s Hv Hb Hf) as (out & s' & ->). eauto.
  - pose proof (avax_types Hoc). unfold avax_val_validate.
    destruct (validate_progress (C := avax_check) _ fuel b s Hv Hb Hf) as (out & s' & ->). eauto.
Qed.

(** The other arms leave the stage and what was sent on alone. *)
Lemma tt_step_typed s s' : tt_step crypto s s' → thread_typed s →
  thread_typed s' ∧ stage_txn (tt_stage s') = stage_txn (tt_stage s).
Proof.
  intros Hstep [Hst Hsent].
  assert (∀ z, tt_stage z = tt_stage s → tt_sent z = tt_sent s →
    thread_typed z ∧ stage_txn (tt_stage z) = stage_txn (tt_stage s)) as Hkeep.
  { intros z Hz1 Hz2. unfold thread_typed. by rewrite Hz1, Hz2. }
  destruct Hstep as [txn available left s s' _ Heq|src txns s s' Heq|expired s s' _ Heq|i s s' Heq
    |fuel s s' Heq|id w s]; [..|by apply Hkeep].
  - unfold tt_recv_req in Heq. m_inv. by apply Hkeep.
  - unfold tt_recv_peer in Heq. m_step. m_step. case_decide; m_inv; by apply Hkeep.
  - unfold tt_spawn in Heq. m_inv. apply Hkeep; cbn; by case_decide.
  - unfold tt_task_step in Heq. m_step. m_step.
    destruct (tt_tasks s !! i) as [t|]; [|m_inv; by apply Hkeep].
    destruct (val_task_step crypto t (tt_txns_seen s)) as [r seen']. m_step. m_step. cbn in Heq.
    destruct r; m_inv; by apply Hkeep.
  - unfold tt_recv_pending in Heq. m_step. m_step. destruct (tt_pending s) as [|b rest]; [m_inv; by apply Hkeep|].
    m_step. m_step. m_step.
    match goal with Hx : log_err _ _ = (Ok ?o, ?z) |- _ => rename o into out, z into s1, Hx into Hm end.
    assert (thread_typed s1 ∧ stage_txn (tt_stage s1) = stage_txn (tt_stage s) ∧
      ∀ l, out = Some l → batch_typed (stage_txn (tt_stage s)) l) as ([Hst1 Hsent1] & Htxn & Hl).
    { unfold log_err, zoom in Hm. cbn in Hm.
      destruct (validator_validate fuel b (tt_stage s)) as [o v'] eqn:Ev.
      destruct (validator_typed _ _ _ _ _ Hst Ev) as [Ho Htxn].
      destruct o as [l|e| |]; cbn in Hm; [| |done..]; injection Hm as <- <-; unfold thread_typed; cbn;
        rewrite Htxn; [destruct Ho as [? Ho]|]; (split_and!; try done); by intros ? [= <-]. }
    destruct out as [l|]; [|by m_inv; split]. specialize (Hl _ eq_refl). m_step. m_inv.
    match goal with Hx : log_err _ s1 = _ |- _ => rename Hx into Hs end.
    unfold log_err, zoom, chan_send in Hs. destruct (chan_open _); injection Hs as <- <-; split; try done.
    split; [done|]. cbn. rewrite Htxn in *. by constructor.
Qed.

(** C18: type soundness of transaction validation. Nothing checks which chain the
    transactions that clients and peers send belong to, or that they are of a kind a
    client may send. Yet over every run of the validation thread, whatever arrives and
    however the signature tasks interleave, the validator's pool, its pending
    transactions and every batch sent on to dissemination hold transactions a client of
    the node's own chain may send, and nothing else (preservation); and in the release
    profile a batch of such transactions is taken in without panic, from every state the
    thread can reach: the [unreachable!()] arms on the parents are indeed never reached,
    only those on the transaction itself can be (progress). *)
Theorem validation_thread_types id config s :
  rtc (tt_step crypto) (tt_new id config) s →
  let good := stage_txn (get_txn_validation config) in
  (stage_typed (tt_stage s) ∧ stage_txn (tt_stage s) = good) ∧
  (∀ b x, b ∈ tt_sent s → x ∈ b → good x.2.1) ∧
  (overflow_checks = false → ∀ b rest, tt_pending s = b :: rest → (∀ x, x ∈ b → good x.2.1) →
   ∃ n, ∀ fuel, (n ≤ fuel)%nat → ∃ s', tt_recv_pending fuel s = (Ok tt, s')).
Proof.
  intros Hsteps good.
  assert (thread_typed s ∧ stage_txn (tt_stage s) = good) as [[Hst Hsent] Hgood].
  { revert Hsteps. apply (rtc_ind_r (λ z, thread_typed z ∧ stage_txn (tt_stage z) = good)).
    - split; [|done]. split; [apply stage_typed_new|by apply Forall_nil].
    - intros y z _ Hyz [Hy Heq]. destruct (tt_step_typed _ _ Hyz Hy) as [? ->]. done. }
  rewrite Hgood in Hsent. split_and!; [done..| |].
  - intros b x Hb Hx. rewrite Forall_forall in Hsent. specialize (Hsent _ Hb).
    unfold batch_typed in Hsent. rewrite Forall_forall in Hsent. by apply Hsent.
  - intros Hoc b rest Hp Hb.
    exists (match tt_stage s with TVBitcoin v | TVAvalanche v => enough_fuel b v | _ => O end).
    intros fuel Hf. destruct (validator_progress fuel b (tt_stage s)) as (out & v' & Hv); [done..| |by destruct (tt_stage s)|].
    { unfold batch_typed. rewrite Hgood. by apply Forall_forall. }
    unfold tt_recv_pending, log_err, zoom, chan_send, mbind, M_bind, gets, modify, mret, M_ret.
    rewrite Hp. cbv beta iota. change (tt_stage (s <| tt_pending := rest |>)) with (tt_stage s).
    rewrite Hv. cbv beta iota. destruct (chan_open _); eauto.
Qed.
End Thread.

(** ** Witnesses: a grant and a payment that spends it, then a coinbase *)

#[local] Existing Instances sample_externals sample_bincode_btc sample_transport sample_channel
  sample_profile canonical_order.
#[local] Instance sample_bincode_avax : Bincode AvalancheTxn := {|
  serialize := λ _, inl [6]; deserialize := λ _, inr (mkErr "not needed");
|}.
#[local] Instance sample_bincode_hashes : Bincode (list Hash) := {|
  serialize := inl; deserialize := inl;
|}.

Definition wt_config : ChainConfig := CCBitcoin (BCBasic BitcoinBasicConfig_default).
(** What a peer sends, in one task up to the point where it is handed over. *)
Definition wt_receive (txns : list Txn) (s : TxnValThread) : TxnValThread :=
  Nat.iter (2 * length txns + 1) (λ s, (tt_task_step CSDummy 0 s).2) (tt_spawn (tt_recv_peer 2 txns s).2).2.

Lemma wt_receive_run txns s :
  (tt_recv_peer 2 txns s).1 = Ok tt →
  tt_can_spawn true (tt_recv_peer 2 txns s).2 = true →
  rtc (tt_step CSDummy) s (wt_receive txns s).
Proof.
  intros Hok Hcan. assert (∀ z, (tt_task_step CSDummy 0 z).1 = Ok tt) as Htask.
  { intros z. unfold tt_task_step, gets, modify, mbind, M_bind, mret, M_ret. cbv beta iota.
    destruct (tt_tasks z !! 0%nat) as [t|]; [|done].
    by destruct (val_task_step CSDummy t (tt_txns_seen z)) as [[] ?]. }
  etrans; [apply rtc_once, (tt_step_peer _ 2 txns); by rewrite <- Hok, <- surjective_pairing|].
  etrans; [apply rtc_once, (tt_step_spawn _ true); [done|by apply surjective_pairing]|].
  unfold wt_receive. induction (2 * length txns + 1)%nat as [|n IH]; [done|]. cbn.
  eapply rtc_r; [exact IH|]. apply (tt_step_task _ 0). rewrite surjective_pairing at 1. f_equal. apply Htask.
Qed.

Definition wt_s0 : TxnValThread := tt_new 1 wt_config.
Definition wt_s1 : TxnValThread := (tt_recv_pending 5 (wt_receive [w_parent] wt_s0)).2.
Definition wt_s2 : TxnValThread := wt_receive [w_spend] wt_s1.

Lemma validation_thread_types_witness :
  ((stage_typed (tt_stage wt_s2) ∧ stage_txn (tt_stage wt_s2) = btc_client_txn) ∧
   (∀ b x, b ∈ tt_sent wt_s2 → x ∈ b → btc_client_txn x.2.1) ∧
   (false = false → ∀ b rest, tt_pending wt_s2 = b :: rest → (∀ x, x ∈ b → btc_client_txn x.2.1) →
    ∃ n, ∀ fuel, (n ≤ fuel)%nat → ∃ s', tt_recv_pending fuel wt_s2 = (Ok tt, s'))) ∧
  tt_sent wt_s2 = [[(2, (w_parent, mkTxnCtx 12803))]] ∧ tt_pending wt_s2 = [[(2, (w_spend, mkTxnCtx 1318402))]].
Proof.
  split; [|split; by vm_compute].
  apply (validation_thread_types CSDummy 1 wt_config wt_s2).
  etrans; [|apply wt_receive_run; by vm_compute].
  etrans; [apply (wt_receive_run [w_parent]); by vm_compute|].
  apply rtc_once, (tt_step_pending _ 5). by vm_compute.
Defined.

(** A coinbase passes the signature check, so a peer that sends one ends the thread. *)
Lemma peer_coinbase_panics : (tt_recv_pending 5 (wt_receive [TBitcoin (BIncentive 50 [7])] wt_s0)).1 = Panic.
Proof. by vm_compute. Qed.

(** So does a transaction of another chain. *)
Lemma peer_foreign_txn_panics : (tt_recv_pending 5 (wt_receive [TDummy (mkDummyTxn 5 [7] [] [])] wt_s0)).1 = Panic.
Proof. by vm_compute. Qed.
