(* ===== verification/Delay.v ===== *)
(** * The delays of the threads

    Each of the seven threads of a node keeps a pool of simulated compute time
    ([delay], an AtomicF64), to which its stage and the tasks it spawns add what is
    too short to sleep. An arm of its loop sleeps the pool off when it has grown: it
    loads the pool, takes a core, sleeps, and stores 0. The tasks run on other threads
    of the runtime, so what they add while the arm is at it falls between its steps. *)

From S2P Require Import Prelude F64.
Local Open Scope N_scope.

(** [src/src/consts.rs]: 50 ms, for each thread under its own name. *)
Definition millis (n : N) : N := n * 1000000.
Definition COMMIT_DELAY_INTERVAL : N := millis 50.
Definition BLK_DISS_DELAY_INTERVAL : N := millis 50.
Definition BLK_MNG_DELAY_INTERVAL : N := millis 50.
Definition DECIDE_DELAY_INTERVAL : N := millis 50.
Definition PACE_DELAY_INTERVAL : N := millis 50.
Definition TXM_DISSEM_DELAY_INTERVAL : N := millis 50.
Definition TXN_BATCH_DELAY_INTERVAL : N := millis 50.

(** Where the arm is: not running, waiting for a core, asleep. *)
Inductive DelayPhase :=
| Waiting
| Acquiring (sleep_time : f64)
| Asleep (sleep_time : f64) (until : Instant).

Record DelayArm := mkDelayArm {
  da_delay : f64;
  da_insert_delay_time : Instant;
  da_phase : DelayPhase;
}.
#[export] Instance DelayArm_eta : Eta DelayArm := λ r,
  mkDelayArm (da_delay r) (da_insert_delay_time r) (da_phase r).

Definition delay_new (interval : N) (now : Instant) : DelayArm := mkDelayArm f64_zero (now + interval) Waiting.

(** [now]: when the guard is evaluated, [later]: when the next time is set. *)
Definition delay_load (interval : N) (now later : Instant) : M DelayArm unit :=
  s ← gets (λ s, s);
  match da_phase s with
  | Waiting =>
    if (da_insert_delay_time s <? now)%N then
      let sleep_time := da_delay s in
      if f64_ltb (f64_lit 5 100) sleep_time then modify (λ s, s <| da_phase := Acquiring sleep_time |>)
      else modify (λ s, s <| da_insert_delay_time := later + interval |>)
    else mret tt
  | _ => mret tt
  end.

(** [core_group.acquire()] has returned, a permit or an error. *)
Definition delay_acquired (permit : bool) (now : Instant) : M DelayArm unit :=
  s ← gets (λ s, s);
  match da_phase s with
  | Acquiring sleep_time =>
    if permit then
      duration ← lift_res (from_secs_f64 sleep_time);
      modify (λ s, s <| da_phase := Asleep sleep_time (now + duration) |>)
    else modify (λ s, s <| da_phase := Waiting |>)
  | _ => mret tt
  end.

(** The sleep is over. *)
Definition delay_store (interval : N) (now : Instant) : M DelayArm unit :=
  s ← gets (λ s, s);
  match da_phase s with
  | Asleep _ until =>
    if (until <=? now)%N then
      modify (λ s, s <| da_delay := f64_zero |> <| da_insert_delay_time := now + interval |> <| da_phase := Waiting |>)
    else mret tt
  | _ => mret tt
  end.

(** What can happen to the pool of a thread. *)
Inductive DelayEvent :=
| DeIllusion (timeout : N)              (* a task in [process_illusion] *)
| DeFetchAdd (time : f64)               (* [delay.fetch_add(time)] of a stage *)
| DeLoad (now later : Instant)
| DeAcquired (permit : bool) (now : Instant)
| DeStore (now : Instant).

Definition delay_step (interval : N) (ev : DelayEvent) : M DelayArm unit :=
  match ev with
  | DeIllusion timeout => modify (λ s, s <| da_delay ::= process_illusion timeout |>)
  | DeFetchAdd time => modify (λ s, s <| da_delay ::= λ d, f64_add d time |>)
  | DeLoad now later => delay_load interval now later
  | DeAcquired permit now => delay_acquired permit now
  | DeStore now => delay_store interval now
  end.

(** The seven threads. *)
Definition txn_validation_delay := delay_step TXN_BATCH_DELAY_INTERVAL.
Definition txn_dissemination_delay := delay_step TXM_DISSEM_DELAY_INTERVAL.
Definition pacemaker_delay := delay_step PACE_DELAY_INTERVAL.
Definition block_management_delay := delay_step BLK_MNG_DELAY_INTERVAL.
Definition block_dissemination_delay := delay_step BLK_DISS_DELAY_INTERVAL.
Definition decision_delay := delay_step DECIDE_DELAY_INTERVAL.
Definition commit_delay := delay_step COMMIT_DELAY_INTERVAL.

(** ** What becomes of what is added *)

(** What an event adds to the pool. *)
Definition adds (ev : DelayEvent) : list f64 :=
  match ev with
  | DeIllusion timeout => if (timeout / 1000000 <? 1)%N then [as_secs_f64 timeout] else []
  | DeFetchAdd time => [time]
  | _ => []
  end.

(** Added one after the other. *)
Definition pool_of (l : list f64) : f64 := foldl f64_add f64_zero l.

(** The arm is between its load and its store. *)
Definition busy (s : DelayArm) : bool := if da_phase s is Waiting then false else true.

(** The runs of a thread: [added] so far, in order; [slept], the sleeps completed;
    [during], what was added while the arm was between its load and its store. *)
Inductive delay_run (interval : N) (now0 : Instant) : list f64 → list f64 → list f64 → DelayArm → Prop :=
| delay_run_new : delay_run interval now0 [] [] [] (delay_new interval now0)
| delay_run_step added slept during s ev s' :
    delay_run interval now0 added slept during s → delay_step interval ev s = (Ok tt, s') →
    delay_run interval now0 (added ++ adds ev)
      (slept ++ match da_phase s, da_phase s' with Asleep t _, Waiting => [t] | _, _ => [] end)
      (during ++ if busy s then adds ev else []) s'.

(** The additions, in order: rounds of what was slept off and what was lost, then what
    the arm has loaded and what is new. *)
Definition accounted (added slept during : list f64) (s : DelayArm) : Prop :=
  ∃ (rounds : list (list f64 * list f64)) loaded fresh,
    added = concat ((λ r : list f64 * list f64, r.1 ++ r.2) <$> rounds) ++ loaded ++ fresh ∧
    slept = pool_of <$> rounds.*1 ∧
    da_delay s = pool_of (loaded ++ fresh) ∧
    match da_phase s with
    | Waiting => loaded = []
    | Acquiring t | Asleep t _ => t = pool_of loaded ∧ f64_ltb (f64_lit 5 100) t = true
    end ∧
    Forall (λ t, f64_ltb (f64_lit 5 100) t = true) slept ∧
    (during = [] → concat rounds.*2 = [] ∧ (busy s = true → fresh = [])).

Lemma pool_of_app l1 l2 : pool_of (l1 ++ l2) = foldl f64_add (pool_of l1) l2.
Proof. apply foldl_app. Qed.

(** What a task or a stage adds. *)
Lemma adds_accounted interval ev added slept during s s' :
  accounted added slept during s → (∀ now later, ev ≠ DeLoad now later) → (∀ p now, ev ≠ DeAcquired p now) →
  (∀ now, ev ≠ DeStore now) → delay_step interval ev s = (Ok tt, s') →
  da_phase s' = da_phase s ∧ accounted (added ++ adds ev) slept (during ++ if busy s then adds ev else []) s'.
Proof.
  intros (rounds & loaded & fresh & Ha & Hs & Hd & Hp & Hall & Hdur) H1 H2 H3 Heq.
  assert (s' = s <| da_delay := foldl f64_add (da_delay s) (adds ev) |>) as ->.
  { destruct ev as [timeout|time|now later|permit now|now]; cbn in Heq;
      [..|by destruct (H1 now later)|by destruct (H2 permit now)|by destruct (H3 now)];
      injection Heq as <-; unfold process_illusion; cbn; [|done]. by destruct (timeout / 1000000 <? 1). }
  split; [done|]. exists rounds, loaded, (fresh ++ adds ev). split_and!; cbn.
  - by rewrite Ha, <- !app_assoc.
  - done.
  - by rewrite Hd, app_assoc, (pool_of_app (loaded ++ fresh)).
  - done.
  - done.
  - unfold busy. cbn. intros [Hd0 Ha0]%app_nil. destruct (Hdur Hd0) as [Hl Hf]. split; [done|]. intros Hb.
    unfold busy in *. destruct (da_phase s); [done|..]; by rewrite Hf, Ha0.
Qed.

(** The steps of the arm add nothing. *)
Lemma load_accounted interval now later added slept during s s' :
  accounted added slept during s → delay_load interval now later s = (Ok tt, s') →
  accounted added slept during s' ∧ (da_phase s' = Waiting → da_phase s = Waiting).
Proof.
  intros Hac Heq. unfold delay_load in Heq. m_inv. destruct (da_phase s) as [|t|t until] eqn:Hph; [|m_inv; split; [done|congruence]..].
  split; [|done]. destruct (da_insert_delay_time s <? now); [destruct (f64_ltb _ _) eqn:Hlt|]; m_inv; [..|done];
    destruct Hac as (rounds & loaded & fresh & Ha & Hs & Hd & Hp & Hall & Hdur); rewrite Hph in Hp; subst loaded.
  - exists rounds, fresh, []. cbn. rewrite !app_nil_r. split_and!; try done. intros Hd0. by destruct (Hdur Hd0).
  - exists rounds, [], fresh. cbn. rewrite Hph. split_and!; try done. intros Hd0. destruct (Hdur Hd0) as [Hl _].
    done.
Qed.

Lemma acquired_accounted permit now added slept during s s' :
  accounted added slept during s → delay_acquired permit now s = (Ok tt, s') →
  accounted added slept during s' ∧ (∀ t until, da_phase s = Asleep t until → da_phase s' = Asleep t until).
Proof.
  intros Hac Heq. unfold delay_acquired in Heq. m_inv. destruct (da_phase s) as [|t|t until] eqn:Hph; [m_inv; split; [done|congruence]| |].
  - split; [|done]. destruct Hac as (rounds & loaded & fresh & Ha & Hs & Hd & Hp & Hall & Hdur). rewrite Hph in Hp.
    destruct permit; m_inv; [exists rounds, loaded, fresh|exists rounds, [], (loaded ++ fresh)]; cbn; split_and!; try done; try apply Hp.
    + intros Hd0. destruct (Hdur Hd0) as [Hl Hf]. split; [done|]. intros _. apply Hf. unfold busy. by rewrite Hph.
    + intros Hd0. by destruct (Hdur Hd0).
  - m_inv. split; [done|congruence].
Qed.

Lemma store_accounted interval now added slept during s s' :
  accounted added slept during s → delay_store interval now s = (Ok tt, s') →
  accounted added
    (slept ++ match da_phase s, da_phase s' with Asleep t _, Waiting => [t] | _, _ => [] end) during s'.
Proof.
  intros Hac Heq. unfold delay_store in Heq. m_inv.
  destruct (da_phase s) as [|t|t until] eqn:Hph; [m_inv; by rewrite app_nil_r..|].
  destruct (until <=? now); m_inv; [|by rewrite Hph, app_nil_r].
  destruct Hac as (rounds & loaded & fresh & Ha & Hs & Hd & Hp & Hall & Hdur). rewrite Hph in Hp.
  destruct Hp as [-> Hlt]. exists (rounds ++ [(loaded, fresh)]), [], []. cbn. split_and!; try done.
  - rewrite fmap_app, concat_app, app_nil_r. cbn. by rewrite app_nil_r, Ha.
  - by rewrite !fmap_app, Hs.
  - apply Forall_app. split; [done|]. by constructor.
  - intros Hd0. destruct (Hdur Hd0) as [Hl Hf]. split; [|done]. rewrite fmap_app, concat_app, Hl. cbn.
    rewrite Hf; [done|]. unfold busy. by rewrite Hph.
Qed.

Lemma delay_run_accounted interval now0 added slept during s :
  delay_run interval now0 added slept during s → accounted added slept during s.
Proof.
  induction 1 as [|added slept during s ev s' Hrun IH Heq].
  { exists [], [], []. by split_and!. }
  assert (∀ b : bool, during ++ (if b then [] else []) = during) as Hb by (intros []; apply app_nil_r).
  destruct ev as [timeout|time|now later|permit now|now].
  1-2: match type of Heq with delay_step _ ?ev _ = _ =>
      destruct (adds_accounted interval ev added slept during s s' IH) as [Hp Hac]; [done..|] end; rewrite Hp;
    replace (slept ++ _) with slept by (destruct (da_phase s); by rewrite app_nil_r); done.
  - cbn [adds]. destruct (load_accounted _ _ _ _ _ _ _ _ IH Heq) as [Hac Hp]. rewrite app_nil_r, Hb.
    replace (slept ++ _) with slept; [done|]. destruct (da_phase s); [by rewrite app_nil_r..|].
    destruct (da_phase s'); [by specialize (Hp eq_refl)|by rewrite app_nil_r..].
  - cbn [adds]. destruct (acquired_accounted _ _ _ _ _ _ _ IH Heq) as [Hac Hp]. rewrite app_nil_r, Hb.
    replace (slept ++ _) with slept; [done|]. destruct (da_phase s) as [| |t until]; [by rewrite app_nil_r..|].
    rewrite (Hp t until eq_refl). by rewrite app_nil_r.
  - cbn [adds]. rewrite app_nil_r, Hb. by eapply store_accounted.
Qed.

(** C21: what becomes of the simulated compute time of a thread. However the tasks and
    the stage that add to the pool interleave with the arm that sleeps it off: the
    additions are, in order, rounds, each of which was first slept off, for exactly the
    floating-point sum of its first additions, more than 50 ms, and then had the
    additions made since the pool was loaded overwritten by the store of 0; then what
    the pool still holds. If nothing is added while the arm is at it, as in the threads
    whose stage runs in the loop itself, nothing is lost: every addition was slept off
    or is in the pool. *)
Theorem delays_accounted interval now0 added slept during s :
  delay_run interval now0 added slept during s →
  ∃ (rounds : list (list f64 * list f64)) pending,
    added = concat ((λ r : list f64 * list f64, r.1 ++ r.2) <$> rounds) ++ pending ∧
    slept = pool_of <$> rounds.*1 ∧
    Forall (λ t, f64_ltb (f64_lit 5 100) t = true) slept ∧
    da_delay s = pool_of pending ∧
    (during = [] → added = concat rounds.*1 ++ pending).
Proof.
  intros (rounds & loaded & fresh & Ha & Hs & Hd & _ & Hall & Hdur)%delay_run_accounted.
  exists rounds, (loaded ++ fresh). split_and!; try done. intros Hd0. destruct (Hdur Hd0) as [Hl _].
  rewrite Ha. f_equal. clear -Hl. induction rounds as [|[r1 r2] rounds IH]; [done|]. cbn in *.
  apply app_nil in Hl as [-> Hl]. by rewrite app_nil_r, IH.
Qed.

(** ** Witness: an addition while the arm sleeps is lost *)

Definition w_delay_events : list DelayEvent :=
  replicate 60 (DeIllusion 900000) ++
  [DeLoad (millis 60) (millis 61); DeAcquired true (millis 61); DeIllusion 900000; DeStore (millis 120);
   DeIllusion 500000; DeLoad (millis 180) (millis 181)].

(** A run as a function of its events. *)
Fixpoint delay_trace (interval : N) (evs : list DelayEvent) (r : list f64 * list f64 * list f64 * DelayArm) :
    option (list f64 * list f64 * list f64 * DelayArm) :=
  match evs with
  | [] => Some r
  | ev :: evs =>
    let '(added, slept, during, s) := r in
    match delay_step interval ev s with
    | (Ok _, s') => delay_trace interval evs
        (added ++ adds ev,
         slept ++ match da_phase s, da_phase s' with Asleep t _, Waiting => [t] | _, _ => [] end,
         during ++ (if busy s then adds ev else []), s')
    | _ => None
    end
  end.

Lemma delay_trace_run interval now0 evs : ∀ added slept during s added' slept' during' s',
  delay_run interval now0 added slept during s →
  delay_trace interval evs (added, slept, during, s) = Some (added', slept', during', s') →
  delay_run interval now0 added' slept' during' s'.
Proof.
  induction evs as [|ev evs IH]; intros added slept during s added' slept' during' s' Hrun Ht; cbn in Ht; [by simplify_eq|].
  destruct (delay_step interval ev s) as [[[]|e| |] s1] eqn:Hs; try done. eapply IH; [|exact Ht]. by econstructor.
Qed.

Definition w_delay_end : list f64 * list f64 * list f64 * DelayArm :=
  default ([], [], [], delay_new 0 0)
    (delay_trace TXN_BATCH_DELAY_INTERVAL w_delay_events ([], [], [], delay_new TXN_BATCH_DELAY_INTERVAL 0)).

(** 62 additions; the sum of the first 60 is slept off, the next one is lost. *)
Example w_delay_lost :
  length w_delay_end.1.1.1 = 62%nat ∧ w_delay_end.1.1.2 = [pool_of (replicate 60 (as_secs_f64 900000))] ∧
  w_delay_end.1.2 = [as_secs_f64 900000] ∧ da_delay w_delay_end.2 = as_secs_f64 500000.
Proof. split_and!; by vm_compute. Qed.

Lemma delays_accounted_witness :
  ∃ (rounds : list (list f64 * list f64)) pending,
    w_delay_end.1.1.1 = concat ((λ r : list f64 * list f64, r.1 ++ r.2) <$> rounds) ++ pending ∧
    w_delay_end.1.1.2 = pool_of <$> rounds.*1 ∧
    Forall (λ t, f64_ltb (f64_lit 5 100) t = true) w_delay_end.1.1.2 ∧
    da_delay w_delay_end.2 = pool_of pending ∧
    (w_delay_end.1.2 = [] → w_delay_end.1.1.1 = concat rounds.*1 ++ pending).
Proof.
  apply (delays_accounted TXN_BATCH_DELAY_INTERVAL 0).
  apply (delay_trace_run _ _ w_delay_events [] [] [] (delay_new TXN_BATCH_DELAY_INTERVAL 0)); [constructor|by vm_compute].
Defined.
