(* ===== verification/Node.v ===== *)
(** * A node

    src/src/node.rs and the receiving half of src/src/peers/peers.rs: the threads of
    Threads.v and Dissem.v, the channels between them, and the messages of the
    peers. [node_step] runs one arm of one [select!]; a run of the node is any
    sequence of events, as the scheduler, the clock and the network may choose.

    A channel is the list of the messages in it, latest first. The stages share one
    messenger; each has its own view of it here, as a stage never reads what
    another has sent. A panic ends the thread it is in, the others go on. *)

From S2P Require Import Prelude F64 Protocol Peers Config TxnValidation Dissem Stages Threads.
From S2P Require BtcMgmt.
Local Open Scope N_scope.

(** The threads [Node::init] spawns. *)
Inductive Thread :=
| TxnValidationTh | TxnDisseminationTh | PacemakerTh | BlockManagementTh
| BlockDisseminationTh | DecisionTh | CommitTh.
#[export] Instance Thread_eq_dec : EqDecision Thread.
Proof. solve_decision. Defined.

(** [recv()]: the oldest message and what is left. *)
Definition chan_recv {T : Type} (c : list T) : option (T * list T) :=
  match last c with Some x => Some (x, removelast c) | None => None end.

(** What can happen to a node: a call of [send_req], a message from the mailbox, an
    arm of a thread. *)
Inductive Event :=
| EvClient (txn : Txn)
| EvMailbox (src : NodeId) (content : MsgType)
| EvRequest | EvPeerTxns | EvSpawn (expired : bool) | EvValTask (i : nat) | EvValPending (fuel : nat)
| EvValidated | EvDisseminate (expired : bool)
| EvPace | EvFeedback | EvPeerPmaker
| EvTxnReady | EvPrepare (e : Env) | EvPropose (e : Env) | EvPeerBlk (rand rand' : bytes)
| EvBlkTask (i : nat) | EvBlkPending (e : Env) | EvPmaker | EvBlkReq | EvReport
| EvNewBlock
| EvNewTail (e : Env) | EvCommitReady | EvTimeout (e : Env) | EvConsensus (e : Env)
| EvCommit.

Section Node.
Context {Bm Dc Pm : Type} {SB : BlockManagement Bm} {SD : DecisionStage Dc} {SP : Pacemaker Pm}
  `{Externals} `{!Bincode BitcoinTxn} `{!Bincode AvalancheTxn} `{!Bincode BlockHeader}
  `{!Bincode (list Hash)} `{BuildProfile} `{HashOrder} `{Transport} `{Channel}.

Record Node := mkNode {
  nd_txn_crypto : CryptoScheme;
  nd_txns_seen : gmap Hash bool;
  nd_txn_validation : TxnValThread;
  nd_txn_dissemination : TxnDissemThread;
  nd_pacemaker : PaceThread Pm;
  nd_block_management : BlkMgmtThread Bm;
  nd_block_dissemination : BlkDissemThread;
  nd_decision : DecisionThread Dc;
  (* [executed_recv], handed to the client *)
  nd_executed : list (N * list Txn);
  nd_dead : list Thread;
  (* [req_recv] and the channels of [PeerMessenger::new] *)
  nd_req : list Txn;
  nd_peer_txn : list (NodeId * list Txn);
  nd_peer_blk : list (NodeId * Block);
  nd_peer_consensus : list (NodeId * bytes);
  nd_peer_pmaker : list (NodeId * bytes);
  nd_peer_blk_req : list (NodeId * bytes);
}.
#[export] Instance Node_eta : Eta Node := λ r,
  mkNode (nd_txn_crypto r) (nd_txns_seen r) (nd_txn_validation r) (nd_txn_dissemination r)
    (nd_pacemaker r) (nd_block_management r) (nd_block_dissemination r) (nd_decision r)
    (nd_executed r) (nd_dead r) (nd_req r) (nd_peer_txn r) (nd_peer_blk r) (nd_peer_consensus r)
    (nd_peer_pmaker r) (nd_peer_blk_req r).

(** [Node::init], given the stages the configuration chooses. A stage that cannot be
    made would leave its thread dead from the start: no such node here. *)
Definition node_new (id : NodeId) (txn_crypto : CryptoScheme) (config : ChainConfig)
    (dissem_txns : bool) (pm : PeerMessenger) (bm : Bm) (dc : Dc) (pmaker : Pm) : res Node :=
  td ← get_txn_dissemination id dissem_txns config;
  bd ← get_block_dissemination id config;
  Ok (mkNode txn_crypto ∅ (tt_new id config) (mkTxnDissemThread td pm [] false [])
    (mkPaceThread pmaker []) (bt_new id bm) (mkBlkDissemThread bd pm []) (mkDecisionThread dc [])
    [] [] [] [] [] [] [] []).

(** [Node::send_req] *)
Definition send_req (txn : Txn) : M Node unit := zoom nd_req (λ c n, n <| nd_req := c |>) (chan_send txn).

(** ** [peer_receiver_thread] *)

Definition peer_receive (src : NodeId) (content : MsgType) : M Node unit :=
  _ ← log_err (match content with
      | NewTxn txn_batch =>
        zoom nd_peer_txn (λ c n, n <| nd_peer_txn := c |>) (chan_send (src, txn_batch))
      | NewBlock blk => zoom nd_peer_blk (λ c n, n <| nd_peer_blk := c |>) (chan_send (src, blk))
      | ConsensusMsg msg =>
        zoom nd_peer_consensus (λ c n, n <| nd_peer_consensus := c |>) (chan_send (src, msg))
      | PMakerMsg msg =>
        zoom nd_peer_pmaker (λ c n, n <| nd_peer_pmaker := c |>) (chan_send (src, msg))
      | BlockReq msg =>
        zoom nd_peer_blk_req (λ c n, n <| nd_peer_blk_req := c |>) (chan_send (src, msg))
      end);
  mret tt.

(** ** The threads in their places *)

(** The map of verdicts is one object in both threads. *)
Definition get_txn_val (n : Node) : TxnValThread :=
  (nd_txn_validation n) <| tt_txns_seen := nd_txns_seen n |>.
Definition put_txn_val (t : TxnValThread) (n : Node) : Node :=
  n <| nd_txn_validation := t |> <| nd_txns_seen := tt_txns_seen t |>.
Definition get_blk_mgmt (n : Node) : BlkMgmtThread Bm :=
  (nd_block_management n) <| bt_txns_seen := nd_txns_seen n |>.
Definition put_blk_mgmt (t : BlkMgmtThread Bm) (n : Node) : Node :=
  n <| nd_block_management := t |> <| nd_txns_seen := bt_txns_seen t |>.

Definition on_txn_val {A : Type} : M TxnValThread A → M Node A := zoom get_txn_val put_txn_val.
Definition on_txn_dissem {A : Type} : M TxnDissemThread A → M Node A :=
  zoom nd_txn_dissemination (λ t n, n <| nd_txn_dissemination := t |>).
Definition on_pace {A : Type} : M (PaceThread Pm) A → M Node A :=
  zoom nd_pacemaker (λ t n, n <| nd_pacemaker := t |>).
Definition on_blk_mgmt {A : Type} : M (BlkMgmtThread Bm) A → M Node A := zoom get_blk_mgmt put_blk_mgmt.
Definition on_blk_dissem {A : Type} : M BlkDissemThread A → M Node A :=
  zoom nd_block_dissemination (λ t n, n <| nd_block_dissemination := t |>).
Definition on_decide {A : Type} : M (DecisionThread Dc) A → M Node A :=
  zoom nd_decision (λ t n, n <| nd_decision := t |>).

(** The arm of a channel: nothing happens while the channel is empty. *)
Definition on_recv {X : Type} (get : Node → list X) (put : list X → Node → Node) (arm : X → M Node unit) :
    M Node unit :=
  c ← gets get;
  match chan_recv c with
  | None => mret tt
  | Some (x, rest) => modify (put rest) ;; arm x
  end.

Definition when (b : bool) (m : M Node unit) : M Node unit := if b then m else mret tt.

(** The arms of each thread. A call that waits, such as [wait_to_propose], is asked
    whether it returns. *)
Definition txn_validation_arm (ev : Event) : option (M Node unit) :=
  match ev with
  | EvRequest => Some (
    n ← gets (λ n, n);
    when (tt_can_recv (nd_txn_validation n))
      (on_recv nd_req (λ c n, n <| nd_req := c |>) (λ txn,
        c ← gets nd_req;
        left ← on_txn_val (tt_recv_req txn (rev c));
        modify (λ n, n <| nd_req := rev left |>))))
  | EvPeerTxns => Some (on_recv nd_peer_txn (λ c n, n <| nd_peer_txn := c |>) (λ x,
      on_txn_val (tt_recv_peer x.1 x.2)))
  | EvSpawn expired => Some (
    n ← gets (λ n, n);
    when (tt_can_spawn expired (nd_txn_validation n)) (on_txn_val tt_spawn))
  | EvValTask i => Some (c ← gets nd_txn_crypto; on_txn_val (tt_task_step c i))
  | EvValPending fuel => Some (on_txn_val (tt_recv_pending fuel))
  | _ => None
  end.

Definition txn_dissemination_arm (ev : Event) : option (M Node unit) :=
  match ev with
  | EvValidated => Some (on_recv (λ n, tt_sent (nd_txn_validation n))
      (λ c n, n <| nd_txn_validation ::= λ t, t <| tt_sent := c |> |>)
      (λ batch, on_txn_dissem (td_recv batch)))
  | EvDisseminate expired => Some (
    n ← gets (λ n, n);
    when (td_can_send expired (nd_txn_dissemination n))
      (_ ← log_err (on_txn_dissem td_send); mret tt))
  | _ => None
  end.

Definition pacemaker_arm (ev : Event) : option (M Node unit) :=
  match ev with
  | EvPace => Some (
    n ← gets (λ n, n);
    when (pk_wait_to_propose (pt_pmaker (nd_pacemaker n))) (on_pace pt_propose))
  | EvFeedback => Some (on_recv (λ n, dc_feedback (dt_stage (nd_decision n)))
      (λ c n, n <| nd_decision ::= λ t, t <| dt_stage ::= dc_set_feedback c |> |>)
      (λ feedback, on_pace (pt_feedback feedback)))
  | EvPeerPmaker => Some (on_recv nd_peer_pmaker (λ c n, n <| nd_peer_pmaker := c |>) (λ x,
      on_pace (pt_peer_msg x.1 x.2)))
  | _ => None
  end.

Definition block_management_arm (ev : Event) : option (M Node unit) :=
  match ev with
  | EvTxnReady => Some (on_recv (λ n, td_ready (nd_txn_dissemination n))
      (λ c n, n <| nd_txn_dissemination ::= λ t, t <| td_ready := c |> |>)
      (λ batch, on_blk_mgmt (bt_txn_ready batch)))
  | EvPrepare e => Some (
    n ← gets (λ n, n);
    match bt_blk_state (nd_block_management n) with
    | BtcMgmt.Working => on_blk_mgmt (bt_prepare e)
    | _ => mret tt
    end)
  | EvPropose e => Some (
    n ← gets (λ n, n);
    r ← log_err (lift_res (bm_wait_to_propose e (bt_stage (nd_block_management n))));
    match r with Some true => on_blk_mgmt (bt_propose e) | _ => mret tt end)
  | EvPeerBlk rand rand' => Some (on_recv nd_peer_blk (λ c n, n <| nd_peer_blk := c |>) (λ x,
      on_blk_mgmt (bt_peer_blk rand rand' x.1 x.2)))
  | EvBlkTask i => Some (c ← gets nd_txn_crypto; on_blk_mgmt (bt_task_step c i))
  | EvBlkPending e => Some (on_blk_mgmt (bt_recv_pending e))
  | EvPmaker => Some (on_recv (λ n, pt_sent (nd_pacemaker n))
      (λ c n, n <| nd_pacemaker ::= λ t, t <| pt_sent := c |> |>)
      (λ msg, on_blk_mgmt (bt_pmaker msg)))
  | EvBlkReq => Some (on_recv nd_peer_blk_req (λ c n, n <| nd_peer_blk_req := c |>) (λ x,
      on_blk_mgmt (bt_blk_req x.1 x.2)))
  | EvReport => Some (on_blk_mgmt bt_report)
  | _ => None
  end.

Definition block_dissemination_arm (ev : Event) : option (M Node unit) :=
  match ev with
  | EvNewBlock => Some (on_recv (λ n, bt_sent (nd_block_management n))
      (λ c n, n <| nd_block_management ::= λ t, t <| bt_sent := c |> |>)
      (λ x, _ ← log_err (on_blk_dissem (bd_recv x.1 x.2)); mret tt))
  | _ => None
  end.

Definition decision_arm (ev : Event) : option (M Node unit) :=
  match ev with
  | EvNewTail e => Some (on_recv (λ n, bd_ready (nd_block_dissemination n))
      (λ c n, n <| nd_block_dissemination ::= λ t, t <| bd_ready := c |> |>)
      (λ x, on_decide (dt_new_tail e x.1 x.2)))
  | EvCommitReady => Some (
    n ← gets (λ n, n);
    when (dc_commit_ready (dt_stage (nd_decision n))) (on_decide dt_commit))
  | EvTimeout e => Some (
    n ← gets (λ n, n);
    when (dc_timeout e (dt_stage (nd_decision n))) (on_decide (dt_timeout e)))
  | EvConsensus e => Some (on_recv nd_peer_consensus (λ c n, n <| nd_peer_consensus := c |>) (λ x,
      on_decide (dt_peer_msg e x.1 x.2)))
  | _ => None
  end.

Definition commit_arm (ev : Event) : option (M Node unit) :=
  match ev with
  | EvCommit => Some (on_recv (λ n, dt_committed (nd_decision n))
      (λ c n, n <| nd_decision ::= λ t, t <| dt_committed := c |> |>)
      (λ x, zoom nd_executed (λ c n, n <| nd_executed := c |>) (ct_commit x.1 x.2)))
  | _ => None
  end.

(** Whose arm an event is; the client and the mailbox are on no thread of these. *)
Definition arm_of (ev : Event) : option Thread * M Node unit :=
  match ev with
  | EvClient txn => (None, _ ← log_err (send_req txn); mret tt)
  | EvMailbox src content => (None, peer_receive src content)
  | _ =>
    match txn_validation_arm ev, txn_dissemination_arm ev, pacemaker_arm ev, block_management_arm ev,
      block_dissemination_arm ev, decision_arm ev, commit_arm ev with
    | Some m, _, _, _, _, _, _ => (Some TxnValidationTh, m)
    | _, Some m, _, _, _, _, _ => (Some TxnDisseminationTh, m)
    | _, _, Some m, _, _, _, _ => (Some PacemakerTh, m)
    | _, _, _, Some m, _, _, _ => (Some BlockManagementTh, m)
    | _, _, _, _, Some m, _, _ => (Some BlockDisseminationTh, m)
    | _, _, _, _, _, Some m, _ => (Some DecisionTh, m)
    | _, _, _, _, _, _, Some m => (Some CommitTh, m)
    | _, _, _, _, _, _, _ => (None, mret tt)
    end
  end.

(** One event. An event whose bound on loops is too small does not count. *)
Definition node_step (ev : Event) (n : Node) : Node :=
  let '(th, m) := arm_of ev in
  match th with
  | Some th =>
    if decide (th ∈ nd_dead n) then n
    else match m n with
         | (OutOfFuel, _) => n
         | (Panic, n') => n' <| nd_dead ::= cons th |>
         | (_, n') => n'
         end
  | None => (m n).2
  end.

Definition node_run (evs : list Event) (n : Node) : Node := foldl (λ n ev, node_step ev n) n evs.
End Node.
Arguments Node : clear implicits.
