(* ===== verification/NodeProps.v ===== *)
(** * A node: the quota of proposals

    The pacemaker, block management, block dissemination and the decision stage of
    a node pass a quota of proposals around. Each stage promises what it does with
    its share (the classes below); the bound on the blocks in flight follows for
    every run of a node whose stages keep these promises. *)

From S2P Require Import Prelude F64 Protocol Peers Utils Config Samples TxnValidation Dissem.
From S2P Require Import Stages Threads ThreadProps Node.
From S2P Require BtcMgmt AvaMgmt AvaDecide Blizzard.
Local Open Scope N_scope.

Section AvaMgmt.
Import AvaMgmt.
Context `{BuildProfile} `{HashOrder} `{Externals} `{!Bincode BlockHeader} `{!Bincode AvalancheTxn}
  `{!Bincode BitcoinTxn} `{!Bincode PeerReq} `{Transport}.

Lemma am_record_keeps txn ctx : keeps blk_quota (am_record_new_txn txn ctx).
Proof. unfold am_record_new_txn. keeps_auto. Qed.

Lemma release_children_keeps cs : keeps blk_quota (release_children cs).
Proof. induction cs; cbn; keeps_auto. Qed.

Lemma am_prepare_keeps fuel : keeps blk_quota (am_prepare_new_block fuel).
Proof. pose proof release_children_keeps. induction fuel; cbn; keeps_auto. Qed.

Lemma scan_txns_keeps l : ∀ idx sc, keeps blk_quota (scan_txns idx l sc).
Proof. induction l as [|[t c] l IH]; intros; cbn; [|unfold scan_txn, add_valid]; keeps_auto. Qed.

Lemma recheck_txns_keeps idxs : ∀ st, keeps blk_quota (recheck_txns idxs st).
Proof.
  induction idxs as [|i idxs IH]; intros st; cbn; [|unfold recheck_txn, add_valid]; keeps_auto.
Qed.

Lemma resolve_keeps proposer blk_id d : ∀ st, keeps blk_quota (resolve proposer blk_id d st).
Proof. pose proof recheck_txns_keeps. induction d; intros; cbn; keeps_auto. Qed.

Lemma am_validate_keeps rand b c : keeps blk_quota (am_validate_block rand b c).
Proof.
  pose proof scan_txns_keeps. pose proof resolve_keeps.
  unfold am_validate_block, flush_frontier. keeps_auto.
Qed.

Lemma am_blk_req_keeps peer msg : keeps blk_quota (am_handle_peer_blk_req peer msg).
Proof. unfold am_handle_peer_blk_req. keeps_auto. Qed.
End AvaMgmt.

(** ** What the stages promise *)

(** Block management: [bq] is the quota it holds; a proposal costs one. *)
Class QuotaLaws (Bm : Type) {SB : BlockManagement Bm} := {
  bq : Bm → N;
  bq_record : ∀ txn ctx, keeps bq (bm_record_new_txn txn ctx);
  bq_prepare : ∀ e, keeps bq (bm_prepare_new_block e);
  bq_get : ∀ e s, match bm_get_new_block e s with
    | (Ok _, s') => bq s' + 1 ≤ bq s | (_, s') => bq s' ≤ bq s end;
  bq_validate : ∀ e b c, keeps bq (bm_validate_block e b c);
  bq_pmaker : ∀ msg, raises 1 bq (bm_handle_pmaker_msg msg);
  bq_blk_req : ∀ peer msg, keeps bq (bm_handle_peer_blk_req peer msg);
  bq_report : keeps bq bm_report;
}.

(** Decision: [dq] counts its open queries and the feedback not yet taken; only
    the node's own block opens one. *)
Class QueryLaws (Dc : Type) {SD : DecisionStage Dc} := {
  dq_id : Dc → NodeId;
  dq : Dc → N;
  dq_new_tail : ∀ e src tail s,
    dq (dc_new_tail e src tail s).2 ≤ dq s + (if decide (src = dq_id s) then 1 else 0);
  dq_commit : raises 0 dq dc_next_to_commit;
  dq_timeout : ∀ e, raises 0 dq (dc_handle_timeout e);
  dq_peer_msg : ∀ e src msg, raises 0 dq (dc_handle_peer_msg e src msg);
  dq_id_new_tail : ∀ e src tail, keeps dq_id (dc_new_tail e src tail);
  dq_id_commit : keeps dq_id dc_next_to_commit;
  dq_id_timeout : ∀ e, keeps dq_id (dc_handle_timeout e);
  dq_id_peer_msg : ∀ e src msg, keeps dq_id (dc_handle_peer_msg e src msg);
  dq_take : ∀ c x s, dc_feedback s = c ++ [x] →
    dq (dc_set_feedback c s) + 1 ≤ dq s ∧ dq_id (dc_set_feedback c s) = dq_id s;
}.

(** Pacemaker: [pq] is what it may still hand out. *)
Class PaceLaws (Pm : Type) {SP : Pacemaker Pm} := {
  pq : Pm → N;
  pq_get : ∀ s, pk_wait_to_propose s = true → match pk_get_propose_msg s with
    | (Ok _, s') => pq s' + 1 ≤ pq s | (_, s') => pq s' ≤ pq s end;
  pq_feedback : ∀ msg, raises 1 pq (pk_handle_feedback msg);
  pq_peer_msg : ∀ src msg, raises 0 pq (pk_handle_peer_msg src msg);
}.

(** ** The stages of an Avalanche node keep the promises *)

Section AvaQuota.
Context `{BuildProfile} `{HashOrder} `{Externals} `{!Bincode BlockHeader} `{!Bincode AvalancheTxn}
  `{!Bincode BitcoinTxn} `{!Bincode AvaMgmt.PeerReq} `{Transport}.

Lemma am_get_quota now rand s :
  match AvaMgmt.am_get_new_block now rand s with
  | (Ok _, s') => AvaMgmt.blk_quota s' + 1 ≤ AvaMgmt.blk_quota s
  | (_, s') => AvaMgmt.blk_quota s' ≤ AvaMgmt.blk_quota s
  end.
Proof.
  change (wlp (AvaMgmt.am_get_new_block now rand)
    (λ _ s', AvaMgmt.blk_quota s' + 1 ≤ AvaMgmt.blk_quota s)
    (λ s', AvaMgmt.blk_quota s' ≤ AvaMgmt.blk_quota s) s).
  unfold AvaMgmt.am_get_new_block. wlp_step. wlp_step. wlp_step. wlp_step; [|lia].
  match goal with Hq : bool_decide _ = true |- _ => apply bool_decide_eq_true in Hq as Hpos end.
  wlp_steps; cbn; lia.
Qed.

Lemma am_pmaker_raises msg : raises 1 AvaMgmt.blk_quota (AvaMgmt.am_handle_pmaker_msg msg).
Proof. intros s. cbn. lia. Qed.

Lemma am_report_keeps : keeps AvaMgmt.blk_quota AvaMgmt.am_report.
Proof. done. Qed.

#[export] Instance avalanche_quota : QuotaLaws AvaMgmt.AvalancheBM := {|
  bq := AvaMgmt.blk_quota;
  bq_record := am_record_keeps;
  bq_prepare e := am_prepare_keeps (env_fuel e);
  bq_get e := am_get_quota (env_now e) (env_rand e);
  bq_validate e := am_validate_keeps (env_rand e);
  bq_pmaker := am_pmaker_raises;
  bq_blk_req := am_blk_req_keeps;
  bq_report := am_report_keeps;
|}.
End AvaQuota.

Section PaceQuota.
Context `{BuildProfile}.

Lemma fi_get_quota s : fi_wait_to_propose s = true →
  match fi_get_propose_msg s with
  | (Ok _, s') => quota s' + 1 ≤ quota s | (_, s') => quota s' ≤ quota s
  end.
Proof.
  intros Hw. change (wlp fi_get_propose_msg (λ _ s', quota s' + 1 ≤ quota s) (λ s', quota s' ≤ quota s) s).
  unfold fi_get_propose_msg. wlp_steps; [|done]. cbn.
  unfold fi_wait_to_propose in Hw. apply negb_true_iff, N.eqb_neq in Hw.
  match goal with Hs : u64_sub _ _ = Ok _ |- _ => unfold u64_sub in Hs; rename Hs into Hsub end.
  destruct (N.leb_spec 1 (quota s)); [|lia]. injection Hsub as <-. lia.
Qed.

Lemma fi_feedback_raises msg : raises 1 quota (fi_handle_feedback msg).
Proof.
  intros s. unfold fi_handle_feedback, mbind, M_bind, gets, lift_res, modify.
  destruct (u64_add (quota s) 1) as [q|e| |] eqn:Hadd; cbn; [|lia..].
  apply u64_add_inv in Hadd as [[-> _]|(_ & _ & ->)]; [lia|]. apply N.Div0.mod_le.
Qed.

Lemma fi_peer_raises src msg : raises 0 quota (fi_handle_peer_msg src msg).
Proof. intros s. cbn. lia. Qed.

#[export] Instance fixed_inflight_laws : PaceLaws FixedInflightBlkPaceMaker := {|
  pq := quota;
  pq_get := fi_get_quota;
  pq_feedback := fi_feedback_raises;
  pq_peer_msg := fi_peer_raises;
|}.
End PaceQuota.

(** The two decision stages have the same queries; the proof is for both. *)
Section AvaQueries.
Import AvaDecide.
Context `{Externals} `{!Bincode (N * list bool)} `{!Bincode VoteMsg} `{Transport} `{Channel}.

Definition ad_queries (s : AvalancheDecision) : N :=
  N.of_nat (size (query_pool s)) + N.of_nat (length (pmaker_feedback s)).
(** All that the bound is about. *)
Definition ad_kept (s : AvalancheDecision) := (ad_id s, query_pool s, pmaker_feedback s).

Lemma keeps_ad_kept {A} (m : M AvalancheDecision A) : keeps ad_kept m → keeps ad_queries m.
Proof.
  intros Hm s. specialize (Hm s). unfold ad_kept in Hm. injection Hm as _ Hq Hf.
  unfold ad_queries. by rewrite Hq, Hf.
Qed.

Lemma strongly_kept fuel : ∀ h, keeps ad_kept (is_strongly_preferred fuel h).
Proof.
  induction fuel as [|fuel IH]; intros h; cbn; keeps_auto.
  all: induction (parents _); cbn; keeps_auto.
Qed.

Lemma conflict_sets_kept fuel h c keys : ∀ acc, keeps ad_kept (vote_conflict_sets fuel h c keys acc).
Proof. induction keys; intros acc; cbn; [|unfold vote_conflict_set]; keeps_auto. Qed.

Lemma vote_parents_kept rec ps :
  (∀ h dedup, keeps ad_kept (rec h dedup)) → ∀ acc dedup, keeps ad_kept (vote_parents rec ps acc dedup).
Proof. intros Hrec. induction ps; intros acc dedup; cbn; keeps_auto. Qed.

Lemma helper_kept fuel : ∀ h dedup, keeps ad_kept (handle_votes_helper fuel h dedup).
Proof.
  pose proof conflict_sets_kept. induction fuel as [|fuel IH]; intros h dedup; cbn; keeps_auto.
  all: first [by apply vote_parents_kept|unfold vote_txn; keeps_auto].
Qed.

Lemma reset_counts_kept fuel : ∀ frontier dedup, keeps ad_kept (reset_counts fuel frontier dedup).
Proof. induction fuel; intros [|h frontier] dedup; cbn; [..|unfold reset_count]; keeps_auto. Qed.

Lemma tally_kept fuel txns : ∀ av acc, keeps ad_kept (tally fuel txns av acc).
Proof.
  pose proof helper_kept. pose proof reset_counts_kept.
  induction txns as [|[h|] txns IH]; intros [|v av] acc; cbn [tally]; keeps_auto.
Qed.

Lemma vote_batch_kept fuel ts : ∀ cs, keeps ad_kept (vote_batch fuel ts cs).
Proof.
  pose proof strongly_kept. induction ts as [|t ts IH]; intros [|c cs]; cbn; [..|
    unfold vote_on, record_txn, query_txn]; keeps_auto.
Qed.

Lemma send_votes_kept proposer blk vs : keeps ad_kept (send_votes proposer blk vs).
Proof. unfold send_votes. keeps_auto. Qed.

Lemma ad_feedback_raises msg : raises 1 ad_queries (feedback msg).
Proof.
  apply (raises_zoom _ _ _ _ (λ f, N.of_nat (length f))); [intros t s; unfold ad_queries; cbn; lia|].
  intros c. unfold chan_send. destruct (chan_open c); cbn; lia.
Qed.

(** Closing a query makes room for its feedback. *)
Lemma handle_votes_queries fuel blk : raises 0 ad_queries (handle_votes fuel blk).
Proof.
  intros s. unfold handle_votes. unfold mbind at 1, M_bind at 1, gets at 1.
  destruct (query_pool s !! blk) as [txns|] eqn:Hq; [|cbn; lia].
  unfold mbind at 1, M_bind at 1, modify at 1.
  match goal with |- context [?m (s <| query_pool ::= delete blk |>)] =>
    assert (raises 1 ad_queries m) as Hm end.
  { pose proof tally_kept.
    repeat (apply raises_after; [apply keeps_ad_kept; keeps_auto|intros ?]). apply ad_feedback_raises. }
  specialize (Hm (s <| query_pool ::= delete blk |>)).
  assert (ad_queries (s <| query_pool ::= delete blk |>) + 1 = ad_queries s) as Hs; [|lia].
  unfold ad_queries. cbn. rewrite map_size_delete, Hq.
  assert (size (query_pool s) ≠ 0)%nat; [|lia]. intros Hz%map_size_empty_iff. by rewrite Hz in Hq.
Qed.

Lemma record_votes_queries fuel blk src vs : raises 0 ad_queries (record_votes fuel blk src vs).
Proof.
  pose proof handle_votes_queries. unfold record_votes.
  apply raises_after; [by apply keeps_ad_kept; keeps_auto|intros fin].
  case_decide; [by apply raises_keeps|].
  repeat (apply raises_after; [apply keeps_ad_kept; keeps_auto|intros ?]).
  case_match; [done|by apply raises_keeps].
Qed.

(** Only the node's own block opens a query. *)
Lemma ad_new_tail_queries fuel now src tail s :
  ad_queries (new_tail fuel now src tail s).2 ≤ ad_queries s + (if decide (src = ad_id s) then 1 else 0).
Proof.
  set (k := if decide (src = ad_id s) then 1 else 0).
  apply (wlp_state _ (λ s', ad_queries s' ≤ ad_queries s + k)). unfold new_tail.
  assert (ad_queries s ≤ ad_queries s + k) as Hle by lia.
  destruct tail as [|[b c] []]; [by apply wlp_ret| |by apply wlp_panic].
  destruct (header b) as [|? ? ? ?|proposer blk_id depth|?]; try by apply wlp_panic.
  wlp_step. wlp_step; [|done]. wlp_step. wlp_step; [|done].
  match goal with Hx : bool_decide (src = _) = true |- _ => apply bool_decide_eq_true in Hx as Hsrc end.
  wlp_step. wlp_step; [|done]. wlp_step.
  assert (∀ s', ad_kept s' = ad_kept s → ad_id s' = ad_id s ∧ ad_queries s' = ad_queries s) as Hkept.
  { unfold ad_kept, ad_queries. intros s' [= -> -> ->]. done. }
  eapply wlp_mono; [apply (wlp_keeps ad_kept), vote_batch_kept| |intros s' [_ ?]%Hkept; lia].
  intros vs s' [Hid Hq]%Hkept. wlp_step. wlp_step.
  destruct (decide (proposer = ad_id s')) as [Hown|Hown].
  - wlp_step. wlp_step. eapply wlp_mono; [apply raises_wlp, record_votes_queries|intros ? s2|intros s2].
    all: cbn beta; match goal with |- ad_queries _ ≤ ad_queries ?s1 + 0 → _ =>
      assert (ad_queries s1 ≤ ad_queries s' + 1) as Hs1
        by (unfold ad_queries; cbn; rewrite map_size_insert; case_match; unfold id; lia);
      assert (k = 1) as -> by (unfold k; rewrite decide_True; [done|congruence]); lia end.
  - eapply wlp_mono; [apply (wlp_keeps ad_queries), keeps_ad_kept, send_votes_kept|intros ? s2|intros s2].
    all: cbn beta; intros ->; lia.
Qed.

Lemma ad_next_queries : raises 0 ad_queries next_to_commit.
Proof. apply raises_keeps, keeps_ad_kept. unfold next_to_commit. keeps_auto. Qed.

Lemma ad_timeout_queries fuel : raises 0 ad_queries (handle_timeout fuel).
Proof.
  unfold handle_timeout. repeat (apply raises_after; [apply keeps_ad_kept; keeps_auto|intros ?]).
  case_decide; [by apply raises_keeps|apply handle_votes_queries].
Qed.

Lemma ad_peer_queries fuel src content : raises 0 ad_queries (handle_peer_msg fuel src content).
Proof.
  unfold handle_peer_msg. do 2 (apply raises_after; [apply keeps_ad_kept; keeps_auto|intros ?]).
  case_decide; [by apply raises_keeps|].
  repeat (apply raises_after; [apply keeps_ad_kept; keeps_auto|intros ?]).
  case_match; [apply record_votes_queries|by apply raises_keeps].
Qed.

Lemma keeps_ad_id {A} (m : M AvalancheDecision A) : keeps ad_kept m → keeps ad_id m.
Proof. intros Hm s. specialize (Hm s). unfold ad_kept in Hm. by injection Hm. Qed.

Lemma record_votes_id fuel blk src vs : keeps ad_id (record_votes fuel blk src vs).
Proof.
  assert (∀ txns av acc, keeps ad_id (tally fuel txns av acc)) by (intros; apply keeps_ad_id, tally_kept).
  unfold record_votes, handle_votes, feedback. keeps_auto.
Qed.

Lemma ad_new_tail_id fuel now src tail : keeps ad_id (new_tail fuel now src tail).
Proof.
  assert (∀ ts cs, keeps ad_id (vote_batch fuel ts cs)) by (intros; apply keeps_ad_id, vote_batch_kept).
  assert (∀ p b vs, keeps ad_id (send_votes p b vs)) by (intros; apply keeps_ad_id, send_votes_kept).
  pose proof record_votes_id. unfold new_tail. keeps_auto.
Qed.

Lemma ad_next_id : keeps ad_id next_to_commit.
Proof. unfold next_to_commit. keeps_auto. Qed.

Lemma ad_timeout_id fuel : keeps ad_id (handle_timeout fuel).
Proof.
  assert (∀ txns av acc, keeps ad_id (tally fuel txns av acc)) by (intros; apply keeps_ad_id, tally_kept).
  unfold handle_timeout, handle_votes, feedback. keeps_auto.
Qed.

Lemma ad_peer_id fuel src content : keeps ad_id (handle_peer_msg fuel src content).
Proof. pose proof record_votes_id. unfold handle_peer_msg. keeps_auto. Qed.

Lemma ad_set_queries c x s : pmaker_feedback s = c ++ [x] →
  ad_queries (set_feedback c s) + 1 ≤ ad_queries s ∧ ad_id (set_feedback c s) = ad_id s.
Proof. intros Hf. unfold ad_queries, set_feedback. cbn. rewrite Hf, length_app. cbn. split; [lia|done]. Qed.

#[export] Instance avalanche_queries : QueryLaws AvalancheDecision := {|
  dq_id := ad_id;
  dq := ad_queries;
  dq_new_tail e := ad_new_tail_queries (env_fuel e) (env_now e);
  dq_commit := ad_next_queries;
  dq_timeout e := ad_timeout_queries (env_fuel e);
  dq_peer_msg e := ad_peer_queries (env_fuel e);
  dq_id_new_tail e := ad_new_tail_id (env_fuel e) (env_now e);
  dq_id_commit := ad_next_id;
  dq_id_timeout e := ad_timeout_id (env_fuel e);
  dq_id_peer_msg e := ad_peer_id (env_fuel e);
  dq_take := ad_set_queries;
|}.
End AvaQueries.

(** ** The threads, given the promises *)

Lemma wlp_log_err {S A : Type} (m : M S A) (Q : option A → S → Prop) (R : S → Prop) s :
  wlp m (λ a, Q (Some a)) (λ s', Q None s' ∧ R s') s → wlp (log_err m) Q R s.
Proof. unfold wlp, log_err. by destruct (m s) as [[a|e| |] s'] => [|[]|[]|[]]. Qed.

Lemma chan_recv_some {T : Type} (c : list T) x rest : chan_recv c = Some (x, rest) → c = rest ++ [x].
Proof.
  unfold chan_recv. destruct (last c) as [y|] eqn:Hl; [|done]. intros [= -> <-].
  apply last_Some in Hl as [l' ->]. by rewrite removelast_last.
Qed.

(** The node's own tails in a channel. *)
Definition own (id : NodeId) (l : list (NodeId * list (Block * BlkCtx))) : N :=
  N.of_nat (length (filter (λ x, x.1 = id) l)).

Lemma own_cons id x l : own id (x :: l) = own id l + (if decide (x.1 = id) then 1 else 0).
Proof. unfold own. rewrite filter_cons. case_decide; cbn [length]; lia. Qed.
Lemma own_snoc id l x : own id (l ++ [x]) = own id l + (if decide (x.1 = id) then 1 else 0).
Proof. unfold own. rewrite filter_app, length_app, filter_cons, filter_nil. case_decide; cbn [length]; lia. Qed.

Section Bound.
Context {Bm Dc Pm : Type} {SB : BlockManagement Bm} {SD : DecisionStage Dc} {SP : Pacemaker Pm}
  {LB : QuotaLaws Bm} {LD : QueryLaws Dc} {LP : PaceLaws Pm}
  `{Externals} `{!Bincode BitcoinTxn} `{!Bincode AvalancheTxn} `{!Bincode BlockHeader}
  `{!Bincode (list Hash)} `{BuildProfile} `{HashOrder} `{Transport} `{Channel} (id : NodeId).
Implicit Types (t : BlkMgmtThread Bm) (c : N).

(** Blocks on their way through block management are those of peers. *)
Definition peers_only t : Prop :=
  bt_id t = id ∧ Forall (λ k, bk_src k ≠ id) (bt_tasks t) ∧ Forall (λ x, x.1 ≠ id) (bt_pending t).

Definition blk_share t : N := bq (bt_stage t) + own id (bt_sent t).
Definition blk_ok c t : Prop := peers_only t ∧ blk_share t ≤ c.

Lemma wlp_on_stage {A : Type} (m : M Bm A) c t :
  keeps bq m → blk_ok c t → wlp (log_err (on_stage m)) (λ _, blk_ok c) (blk_ok c) t.
Proof.
  intros Hm Hok. apply wlp_log_err. unfold on_stage. apply wlp_zoom.
  assert (∀ s', bq s' = bq (bt_stage t) → blk_ok c (t <| bt_stage := s' |>)) as Hs.
  { intros s' Hs'. destruct Hok as [Hp Hc]. split; [done|]. unfold blk_share in *. cbn. lia. }
  eapply wlp_mono; [by apply (wlp_keeps bq)|intros a s'; apply Hs|]. intros s' Hs'. split; by apply Hs.
Qed.

Lemma wlp_bt_send src tail c t :
  peers_only t → blk_share t + (if decide (src = id) then 1 else 0) ≤ c →
  wlp (bt_send src tail) (λ _, blk_ok c) (blk_ok c) t.
Proof.
  intros Hp Hc. unfold bt_send. wlp_step. apply wlp_log_err, wlp_zoom. unfold blk_share in *.
  apply wlp_chan_send; [apply wlp_ret|split; [apply wlp_ret|]]; (split; [done|]); unfold blk_share; cbn.
  - rewrite own_cons. cbn. lia.
  - lia.
  - lia.
Qed.

Lemma wlp_bt_txn_ready batch c t : blk_ok c t → wlp (bt_txn_ready batch) (λ _, blk_ok c) (blk_ok c) t.
Proof.
  intros Hok. unfold bt_txn_ready. wlp_step.
  eapply wlp_mono; [apply (wlp_mfor (λ _, blk_ok c)); [|done]| |done].
  - intros x xs s Hs. wlp_step. eapply wlp_mono; [apply wlp_on_stage; [apply bq_record|done]| |done].
    intros o s' Hs'. by apply wlp_ret.
  - intros u s Hs. apply wlp_modify. by destruct (bt_blk_state s).
Qed.

Lemma wlp_bt_prepare e c t : blk_ok c t → wlp (bt_prepare e) (λ _, blk_ok c) (blk_ok c) t.
Proof.
  intros Hok. unfold bt_prepare. wlp_step.
  eapply wlp_mono; [apply wlp_on_stage; [apply bq_prepare|done]| |done].
  intros [b|] s Hs; [by apply wlp_modify|by apply wlp_ret].
Qed.

Lemma wlp_bt_propose e c t : blk_ok c t → wlp (bt_propose e) (λ _, blk_ok c) (blk_ok c) t.
Proof.
  intros [Hp Hc]. unfold bt_propose. wlp_step. apply wlp_log_err. unfold on_stage. apply wlp_zoom.
  pose proof (bq_get e (bt_stage t)) as Hget. unfold blk_share in Hc. unfold wlp at 1.
  destruct (bm_get_new_block e (bt_stage t)) as [[[b bc]|err| |] s'].
  - wlp_steps. cbn [bt_id]. assert (bt_id t = id) as Hid by apply Hp.
    apply wlp_bt_send; [done|]. unfold blk_share. cbn. rewrite Hid, decide_True by done. lia.
  - split; [apply wlp_ret|]; (split; [done|]); unfold blk_share; cbn; lia.
  - split; [apply wlp_ret|]; (split; [done|]); unfold blk_share; cbn; lia.
  - split; [apply wlp_ret|]; (split; [done|]); unfold blk_share; cbn; lia.
Qed.

Lemma wlp_bt_peer_blk rand rand' src b c t :
  blk_ok c t → wlp (bt_peer_blk rand rand' src b) (λ _, blk_ok c) (blk_ok c) t.
Proof.
  intros Hok. pose proof Hok as [(Hid & Htasks & Hpend) Hc]. unfold bt_peer_blk. wlp_steps.
  case_decide as Hsrc; [by apply wlp_ret|]. wlp_step. apply wlp_log_err, wlp_lift.
  2: { split; [by apply wlp_ret|done]. }
  intros h _. case_decide; [by apply wlp_ret|]. wlp_step. wlp_step.
  destruct (BlkCtx_from_blk rand' b) as [bc|e| |]; [|by apply wlp_ret..].
  apply wlp_modify. split; [|done]. split_and!; [done| |done]. cbn.
  apply Forall_app. split; [done|]. apply Forall_singleton. cbn. congruence.
Qed.

(** A task hands on the block it was given. *)
Lemma blk_task_src crypto k seen :
  match (blk_task_step crypto k seen).1 with
  | TaskGoes k' => bk_src k' = bk_src k
  | TaskDone (Some x) => x.1 = bk_src k
  | _ => True
  end.
Proof.
  unfold blk_task_step. destruct (bk_insert k) as [[h []]|]; [done..|].
  destruct (bk_todo k) as [|[t ctx] rest]; [done|]. cbn.
  destruct (seen !! tc_id ctx) as [[]|]; [done..|]. by destruct (txn_validate crypto t) as [[]| | |].
Qed.

Lemma wlp_bt_task crypto i c t :
  blk_ok c t → wlp (bt_task_step crypto i) (λ _, blk_ok c) (blk_ok c) t.
Proof.
  intros Hok. pose proof Hok as [(Hid & Htasks & Hpend) Hc]. unfold bt_task_step. wlp_steps.
  destruct (bt_tasks t !! i) as [k|] eqn:Hi; [|by apply wlp_ret].
  pose proof (blk_task_src crypto k (bt_txns_seen t)) as Hsrc.
  assert (bk_src k ≠ id) as Hk by (by eapply Forall_lookup_1 in Hi; [|exact Htasks]).
  destruct (blk_task_step crypto k (bt_txns_seen t)) as [[k'|[x|]|] seen']; cbn in Hsrc; wlp_steps;
    (split; [|done]); split_and!; cbn; try done; try by apply Forall_delete.
  - apply Forall_insert; [done|]. congruence.
  - apply Forall_app. split; [done|]. apply Forall_singleton. congruence.
Qed.

Lemma wlp_bt_pending e c t : blk_ok c t → wlp (bt_recv_pending e) (λ _, blk_ok c) (blk_ok c) t.
Proof.
  intros Hok. pose proof Hok as [(Hid & Htasks & Hpend) Hc]. unfold bt_recv_pending. wlp_steps.
  destruct (bt_pending t) as [|[src [b bc]] rest] eqn:Hp; [by apply wlp_ret|].
  apply Forall_cons in Hpend as [Hsrc Hrest]. cbn in Hsrc. wlp_steps.
  eapply wlp_mono; [apply (wlp_on_stage _ c); [apply bq_validate|done]| |done].
  intros [[|y tail]|] t' [Hp' Hc']; [by apply wlp_ret| |by apply wlp_ret]. wlp_steps.
  apply wlp_bt_send; [done|]. rewrite decide_False by done. unfold blk_share in *. cbn. lia.
Qed.

Lemma wlp_bt_pmaker msg c t : blk_ok c t → wlp (bt_pmaker msg) (λ _, blk_ok (c + 1)) (blk_ok (c + 1)) t.
Proof.
  intros [Hp Hc]. unfold bt_pmaker. wlp_step. apply wlp_log_err. unfold on_stage. apply wlp_zoom.
  eapply wlp_mono; [apply raises_wlp, bq_pmaker| |]; cbn beta.
  - intros u s' Hs'. apply wlp_ret. split; [done|]. unfold blk_share in *. cbn. lia.
  - intros s' Hs'. split; [apply wlp_ret|]; (split; [done|]); unfold blk_share in *; cbn; lia.
Qed.

Lemma wlp_bt_blk_req peer msg c t : blk_ok c t → wlp (bt_blk_req peer msg) (λ _, blk_ok c) (blk_ok c) t.
Proof.
  intros Hok. unfold bt_blk_req. wlp_step.
  eapply wlp_mono; [apply wlp_on_stage; [apply bq_blk_req|done]| |done]. intros o s' Hs'. by apply wlp_ret.
Qed.

Lemma wlp_bt_report c t : blk_ok c t → wlp bt_report (λ _, blk_ok c) (blk_ok c) t.
Proof.
  intros [Hp Hc]. unfold bt_report, on_stage. apply wlp_zoom.
  eapply wlp_mono; [apply (wlp_keeps bq), bq_report| |]; cbn beta; intros;
    (split; [done|]); unfold blk_share in *; cbn; lia.
Qed.

(** ** The other threads *)

Definition pace_share (p : PaceThread Pm) : N := pq (pt_pmaker p) + N.of_nat (length (pt_sent p)).

Lemma wlp_pt_propose c p : pk_wait_to_propose (pt_pmaker p) = true → pace_share p ≤ c →
  wlp pt_propose (λ _ p', pace_share p' ≤ c) (λ p', pace_share p' ≤ c) p.
Proof.
  intros Hw Hc. unfold pt_propose. wlp_step. apply wlp_log_err. unfold on_pmaker. apply wlp_zoom.
  pose proof (pq_get (pt_pmaker p) Hw) as Hget. unfold pace_share in *. unfold wlp at 1.
  destruct (pk_get_propose_msg (pt_pmaker p)) as [[msg|err| |] s'].
  - wlp_step. apply wlp_log_err, wlp_zoom.
    apply wlp_chan_send; [apply wlp_ret|split; [apply wlp_ret|]]; cbn -[N.of_nat]; lia.
  - split; [apply wlp_ret|]; cbn; lia.
  - split; [apply wlp_ret|]; cbn; lia.
  - split; [apply wlp_ret|]; cbn; lia.
Qed.

Lemma wlp_on_pmaker (m : M Pm unit) k c p : raises k pq m → pace_share p + k ≤ c →
  wlp (_ ← log_err (on_pmaker m); mret tt) (λ _ p', pace_share p' ≤ c) (λ p', pace_share p' ≤ c) p.
Proof.
  intros Hm Hc. wlp_step. apply wlp_log_err. unfold on_pmaker. apply wlp_zoom. unfold pace_share in *.
  eapply wlp_mono; [apply raises_wlp, Hm| |]; cbn beta; intros; [apply wlp_ret; cbn in *; lia|].
  split; [apply wlp_ret|]; cbn in *; lia.
Qed.

Definition dec_ok (c : N) (d : DecisionThread Dc) : Prop := dq_id (dt_stage d) = id ∧ dq (dt_stage d) ≤ c.

Lemma wlp_on_decision (m : M Dc unit) k c d :
  keeps dq_id m → dq (m (dt_stage d)).2 ≤ dq (dt_stage d) + k → dec_ok c d →
  wlp (_ ← log_err (on_decision m); mret tt) (λ _, dec_ok (c + k)) (dec_ok (c + k)) d.
Proof.
  intros Hid Hm [Hd Hc]. wlp_step. apply wlp_log_err. unfold on_decision. apply wlp_zoom.
  specialize (Hid (dt_stage d)). unfold wlp at 1.
  assert (∀ s', dq_id s' = dq_id (dt_stage d) → dq s' ≤ dq (dt_stage d) + k →
    dec_ok (c + k) (d <| dt_stage := s' |>)) as Hs by (intros; split; cbn; [congruence|lia]).
  destruct (m (dt_stage d)) as [[u|err| |] s']; cbn in Hid, Hm; [apply wlp_ret|split; [apply wlp_ret|]..]; exact (Hs _ Hid Hm).
Qed.

Lemma wlp_dt_commit c d : dec_ok c d → wlp dt_commit (λ _, dec_ok c) (dec_ok c) d.
Proof.
  intros [Hd Hc]. unfold dt_commit. wlp_step. apply wlp_log_err. unfold on_decision. apply wlp_zoom.
  pose proof (dq_id_commit (dt_stage d)) as Hid. pose proof (dq_commit (dt_stage d)) as Hq. unfold wlp at 1.
  assert (∀ s', dq_id s' = dq_id (dt_stage d) → dq s' ≤ dq (dt_stage d) + 0 →
    ∀ l, dec_ok c (mkDecisionThread s' l)) as Hs by (intros; split; cbn; [congruence|lia]).
  destruct (dc_next_to_commit (dt_stage d)) as [[x|err| |] s']; cbn in Hid, Hq;
    [|split; [apply wlp_ret|]; by apply Hs..].
  wlp_step. apply wlp_log_err, wlp_zoom.
  apply wlp_chan_send; [apply wlp_ret|split; [apply wlp_ret|]]; by apply Hs.
Qed.

(** ** The node *)

Abbreviation Nd := (Node Bm Dc Pm).
Implicit Types (n : Nd).

(** Where the quota is: still with the pacemaker, on its way to block management or
    held there, with a proposed block that waits for dissemination or for the
    decision stage, with an open query, or on its way back as feedback. *)
Definition inflight n : N :=
  pace_share (nd_pacemaker n) + blk_share (nd_block_management n) +
  own id (bd_ready (nd_block_dissemination n)) + dq (dt_stage (nd_decision n)).

Record node_ok (max : N) n : Prop := {
  no_peers : peers_only (nd_block_management n);
  no_id : dq_id (dt_stage (nd_decision n)) = id;
  no_quota : inflight n ≤ max;
}.

Section Arms.
Context (max : N).

Definition stays {A : Type} (m : M Nd A) : Prop := ∀ n, node_ok max n → node_ok max (m n).2.

(** What the quota depends on. *)
Definition shares n :=
  (nd_pacemaker n, nd_block_management n, bd_ready (nd_block_dissemination n), dt_stage (nd_decision n)).

Lemma keeps_stays {A : Type} (m : M Nd A) : keeps shares m → stays m.
Proof.
  intros Hm n []. specialize (Hm n). unfold shares in Hm. injection Hm as Hp Hb Hd Hs.
  split; unfold inflight; rewrite ?Hp, ?Hb, ?Hd, ?Hs; done.
Qed.

Lemma stays_recv {X : Type} (get : Nd → list X) put arm :
  (∀ n ms x, node_ok max n → get n = ms ++ [x] → node_ok max (arm x (put ms n)).2) → stays (on_recv get put arm).
Proof.
  intros Harm n Hn. unfold on_recv, mbind, M_bind, gets, modify.
  destruct (chan_recv (get n)) as [[x ms]|] eqn:Hc; [|done]. apply Harm; [done|by apply chan_recv_some].
Qed.

Lemma stays_logged (m : M Nd unit) : stays m → stays (_ ← log_err m; mret tt).
Proof.
  intros Hm n Hn. specialize (Hm n Hn). unfold mbind, M_bind, log_err, mret, M_ret.
  by destruct (m n) as [[]].
Qed.

(** An arm of block management that raises its share by [k]. *)
Lemma node_blk (m : M (BlkMgmtThread Bm) unit) k n :
  (∀ c t, blk_ok c t → wlp m (λ _, blk_ok (c + k)) (blk_ok (c + k)) t) →
  peers_only (nd_block_management n) → dq_id (dt_stage (nd_decision n)) = id → inflight n + k ≤ max →
  node_ok max (on_blk_mgmt m n).2.
Proof.
  intros Hm Hp Hid Hq. apply (wlp_state _ (node_ok max)), wlp_zoom.
  assert (∀ t, blk_ok (blk_share (nd_block_management n) + k) t → node_ok max (put_blk_mgmt t n)) as Hput.
  { intros t [Hp' Hc]. split; [done|done|]. unfold inflight, put_blk_mgmt in *. cbn. lia. }
  eapply wlp_mono; [apply (Hm (blk_share (nd_block_management n)))| |]; [by split|intros ? t; apply Hput|intros t; apply Hput].
Qed.

Lemma stays_blk (m : M (BlkMgmtThread Bm) unit) :
  (∀ c t, blk_ok c t → wlp m (λ _, blk_ok c) (blk_ok c) t) → stays (on_blk_mgmt m).
Proof.
  intros Hm n [Hp Hid Hq]. apply (node_blk _ 0); [|done..|lia].
  intros c t Hok. rewrite N.add_0_r. by apply Hm.
Qed.

Lemma stays_when b (m : M Nd unit) : (b = true → stays m) → stays (when b m).
Proof. destruct b; [by intros Hm; apply Hm|by intros _ n]. Qed.

Lemma stays_blk_recv {X : Type} (get : Nd → list X) put (m : X → M (BlkMgmtThread Bm) unit) :
  (∀ ms n, shares (put ms n) = shares n) →
  (∀ x c t, blk_ok c t → wlp (m x) (λ _, blk_ok c) (blk_ok c) t) →
  stays (on_recv get put (λ x, on_blk_mgmt (m x))).
Proof.
  intros Hput Hm. apply stays_recv. intros n ms x Hn _. apply stays_blk; [apply Hm|].
  destruct Hn. specialize (Hput ms n). unfold shares in Hput. injection Hput as Hp Hb Hd Hs.
  split; unfold inflight; rewrite ?Hp, ?Hb, ?Hd, ?Hs; done.
Qed.

Lemma stays_pmaker :
  stays (on_recv (λ n, pt_sent (nd_pacemaker n))
    (λ ms n, n <| nd_pacemaker ::= λ p, p <| pt_sent := ms |> |>) (λ msg, on_blk_mgmt (bt_pmaker msg))).
Proof.
  apply stays_recv. intros n ms msg [Hp Hid Hq] Hms.
  apply (node_blk _ 1); [intros c t; apply wlp_bt_pmaker|done|done|].
  unfold inflight, pace_share in *. cbn in *. rewrite Hms, length_app in Hq. cbn in Hq. lia.
Qed.

Lemma stays_pace (m : M (PaceThread Pm) unit) k n :
  (∀ c p, p = nd_pacemaker n → pace_share p + k ≤ c →
    wlp m (λ _ p', pace_share p' ≤ c) (λ p', pace_share p' ≤ c) p) →
  peers_only (nd_block_management n) → dq_id (dt_stage (nd_decision n)) = id → inflight n + k ≤ max →
  node_ok max (on_pace m n).2.
Proof.
  intros Hm Hp Hid Hq. apply (wlp_state _ (node_ok max)), wlp_zoom.
  assert (∀ p, pace_share p ≤ pace_share (nd_pacemaker n) + k → node_ok max (n <| nd_pacemaker := p |>)) as Hput.
  { intros p Hc. split; [done|done|]. unfold inflight in *. cbn. lia. }
  eapply wlp_mono; [by apply (Hm (pace_share (nd_pacemaker n) + k))|intros ? p; apply Hput|intros p; apply Hput].
Qed.

Lemma stays_feedback :
  stays (on_recv (λ n, dc_feedback (dt_stage (nd_decision n)))
    (λ ms n, n <| nd_decision ::= λ d, d <| dt_stage ::= dc_set_feedback ms |> |>)
    (λ feedback, on_pace (pt_feedback feedback))).
Proof.
  apply stays_recv. intros n ms msg [Hp Hid Hq] Hms.
  destruct (dq_take _ _ _ Hms) as [Htake Hid']. apply (stays_pace _ 1).
  - intros c p _ Hc. apply (wlp_on_pmaker _ 1); [apply pq_feedback|done].
  - done.
  - cbn. by rewrite Hid'.
  - unfold inflight in *. cbn. lia.
Qed.

Lemma stays_new_block :
  stays (on_recv (λ n, bt_sent (nd_block_management n))
    (λ ms n, n <| nd_block_management ::= λ t, t <| bt_sent := ms |> |>)
    (λ x, _ ← log_err (on_blk_dissem (bd_recv x.1 x.2)); mret tt)).
Proof.
  apply stays_recv. intros n ms [src tail] [Hp Hid Hq] Hms. cbn [fst snd].
  set (n1 := n <| nd_block_management ::= λ t, t <| bt_sent := ms |> |>).
  assert (inflight n = inflight n1 + (if decide (src = id) then 1 else 0)) as Hfl.
  { unfold inflight, blk_share, n1. cbn. rewrite Hms, own_snoc. cbn. lia. }
  apply (wlp_state _ (node_ok max)). wlp_step. apply wlp_log_err. unfold on_blk_dissem. apply wlp_zoom.
  set (Q := λ d, node_ok max (n1 <| nd_block_dissemination := d |>)).
  assert (∀ d, own id (bd_ready d) ≤ own id (bd_ready (nd_block_dissemination n)) +
    (if decide (src = id) then 1 else 0) → Q d) as HQ.
  { intros d Hd. split; [done|done|]. unfold inflight, n1, blk_share in *. cbn in *. lia. }
  apply (wlp_mono _ (λ _, Q) _ Q); [|done|done]. unfold bd_recv. wlp_step. wlp_step.
  destruct (last tail); [|apply wlp_ret, HQ; cbn; lia]. wlp_step.
  eapply wlp_mono; [apply (wlp_keeps bd_ready)|intros u d Hd|intros d Hd]; cbn beta.
  - by apply keeps_zoom.
  - apply wlp_zoom, wlp_chan_send; apply HQ; cbn; rewrite Hd; [rewrite own_cons|]; cbn; lia.
  - apply HQ. rewrite Hd. cbn. lia.
Qed.

Lemma stays_decide (m : M (DecisionThread Dc) unit) k n :
  (∀ c d, d = nd_decision n → dec_ok c d → wlp m (λ _, dec_ok (c + k)) (dec_ok (c + k)) d) →
  peers_only (nd_block_management n) → dq_id (dt_stage (nd_decision n)) = id → inflight n + k ≤ max →
  node_ok max (on_decide m n).2.
Proof.
  intros Hm Hp Hid Hq. apply (wlp_state _ (node_ok max)), wlp_zoom.
  assert (∀ d, dec_ok (dq (dt_stage (nd_decision n)) + k) d → node_ok max (n <| nd_decision := d |>)) as Hput.
  { intros d [Hd Hc]. split; [done|done|]. unfold inflight in *. cbn. lia. }
  eapply wlp_mono; [by apply (Hm (dq (dt_stage (nd_decision n))))|intros ? p; apply Hput|intros p; apply Hput].
Qed.

Lemma stays_new_tail e :
  stays (on_recv (λ n, bd_ready (nd_block_dissemination n))
    (λ ms n, n <| nd_block_dissemination ::= λ d, d <| bd_ready := ms |> |>)
    (λ x, on_decide (dt_new_tail e x.1 x.2))).
Proof.
  apply stays_recv. intros n ms [src tail] [Hp Hid Hq] Hms.
  apply (stays_decide _ (if decide (src = id) then 1 else 0)); [|done|done|].
  - intros c d -> Hd. apply wlp_on_decision; [apply dq_id_new_tail| |done].
    pose proof (dq_new_tail e src tail (dt_stage (nd_decision n))) as Hn.
    cbn in *. do 2 case_decide; first [lia|congruence].
  - unfold inflight in *. cbn in *. rewrite Hms, own_snoc in Hq. cbn in Hq. lia.
Qed.

Lemma stays_txn_validation ev m : txn_validation_arm ev = Some m → stays m.
Proof.
  unfold txn_validation_arm, on_txn_val. intros Hev. apply keeps_stays.
  destruct ev; try done; injection Hev as <-; unfold when, on_recv; keeps_auto.
Qed.

Lemma stays_txn_dissemination ev m : txn_dissemination_arm ev = Some m → stays m.
Proof.
  unfold txn_dissemination_arm. intros Hev.
  destruct ev; try done; injection Hev as <-.
  - apply keeps_stays. unfold on_recv, on_txn_dissem. keeps_auto.
  - intros n Hn. unfold mbind at 1, M_bind at 1, gets at 1. apply stays_when; [|done].
    intros _. apply stays_logged, keeps_stays. unfold on_txn_dissem. keeps_auto.
Qed.

Lemma stays_pacemaker ev m : pacemaker_arm ev = Some m → stays m.
Proof.
  unfold pacemaker_arm. intros Hev. destruct ev; try done; injection Hev as <-.
  - intros n [Hp Hid Hq]. unfold mbind, M_bind, gets, when.
    destruct (pk_wait_to_propose (pt_pmaker (nd_pacemaker n))) eqn:Hw; [|by split].
    apply (stays_pace _ 0); [|done|done|lia]. intros c p -> Hc. apply wlp_pt_propose; [done|lia].
  - apply stays_feedback.
  - apply stays_recv. intros n ms x [Hp Hid Hq] _. apply (stays_pace _ 0); [|done|done|].
    + intros c p _ Hc. apply (wlp_on_pmaker _ 0); [apply pq_peer_msg|done].
    + unfold inflight in *. cbn in *. lia.
Qed.

Lemma stays_block_management ev m : block_management_arm ev = Some m → stays m.
Proof.
  unfold block_management_arm. intros Hev. destruct ev; try done; injection Hev as <-.
  - apply stays_blk_recv; [done|]. intros. by apply wlp_bt_txn_ready.
  - intros n Hn. unfold mbind, M_bind, gets.
    destruct (bt_blk_state (nd_block_management n)); try done.
    apply stays_blk; [|done]. intros. by apply wlp_bt_prepare.
  - intros n Hn. unfold mbind, M_bind, gets, log_err, lift_res.
    destruct (bm_wait_to_propose e (bt_stage (nd_block_management n))) as [[]| | |]; try done.
    apply stays_blk; [|done]. intros. by apply wlp_bt_propose.
  - apply stays_blk_recv; [done|]. intros. by apply wlp_bt_peer_blk.
  - intros n Hn. unfold mbind, M_bind, gets. apply stays_blk; [|done]. intros. by apply wlp_bt_task.
  - apply stays_blk. intros. by apply wlp_bt_pending.
  - apply stays_pmaker.
  - apply stays_blk_recv; [done|]. intros. by apply wlp_bt_blk_req.
  - apply stays_blk. intros. by apply wlp_bt_report.
Qed.

Lemma stays_block_dissemination ev m : block_dissemination_arm ev = Some m → stays m.
Proof.
  unfold block_dissemination_arm. intros Hev. destruct ev; try done; injection Hev as <-.
  apply stays_new_block.
Qed.

Lemma stays_decision ev m : decision_arm ev = Some m → stays m.
Proof.
  unfold decision_arm. intros Hev. destruct ev; try done; injection Hev as <-.
  - apply stays_new_tail.
  - intros n [Hp Hid Hq]. unfold mbind, M_bind, gets, when. case_match; [|by split].
    apply (stays_decide _ 0); [|done|done|lia]. intros c d _ Hd. rewrite N.add_0_r. by apply wlp_dt_commit.
  - intros n [Hp Hid Hq]. unfold mbind, M_bind, gets, when. case_match; [|by split].
    apply (stays_decide _ 0); [|done|done|lia]. intros c d _ Hd.
    apply wlp_on_decision; [apply dq_id_timeout|apply dq_timeout|done].
  - apply stays_recv. intros n ms x [Hp Hid Hq] _. apply (stays_decide _ 0); [|done|done|].
    + intros c d _ Hd. apply wlp_on_decision; [apply dq_id_peer_msg|apply dq_peer_msg|done].
    + unfold inflight in *. cbn in *. lia.
Qed.

Lemma stays_commit ev m : commit_arm ev = Some m → stays m.
Proof.
  unfold commit_arm. intros Hev. destruct ev; try done; injection Hev as <-.
  apply keeps_stays. unfold on_recv. keeps_auto.
Qed.

Lemma node_step_ok ev n : node_ok max n → node_ok max (node_step ev n).
Proof.
  intros Hn. unfold node_step. destruct (arm_of ev) as [th m] eqn:Harm.
  assert (stays m) as Hm.
  { unfold arm_of in Harm.
    destruct (txn_validation_arm ev) eqn:E1; [|destruct (txn_dissemination_arm ev) eqn:E2;
      [|destruct (pacemaker_arm ev) eqn:E3; [|destruct (block_management_arm ev) eqn:E4;
      [|destruct (block_dissemination_arm ev) eqn:E5; [|destruct (decision_arm ev) eqn:E6;
      [|destruct (commit_arm ev) eqn:E7]]]]]].
    all: destruct ev; try done; injection Harm as <- <-.
    all: eauto using stays_txn_validation, stays_txn_dissemination, stays_pacemaker,
      stays_block_management, stays_block_dissemination, stays_decision, stays_commit.
    all: apply stays_logged, keeps_stays; unfold send_req; keeps_auto. }
  specialize (Hm n Hn). destruct th as [th|]; [|done]. case_decide; [done|].
  destruct (m n) as [[]]; cbn in Hm; try done. destruct Hm. by split.
Qed.
End Arms.

Lemma node_run_ok max evs n : node_ok max n → node_ok max (node_run evs n).
Proof. revert n. induction evs as [|ev evs IH]; intros n Hn; [done|]. by apply IH, node_step_ok. Qed.

Lemma node_new_ok txn_crypto config dissem_txns pm bm dc pmaker n :
  node_new id txn_crypto config dissem_txns pm bm dc pmaker = Ok n → dq_id dc = id →
  node_ok (pq pmaker + bq bm + dq dc) n.
Proof.
  unfold node_new. intros Hn Hid. res_inv. split; [|done|].
  - split_and!; [done|by apply Forall_nil|by apply Forall_nil].
  - unfold inflight, pace_share, blk_share, own. cbn. lia.
Qed.
End Bound.

Section Avalanche.
Context `{Externals} `{!Bincode BitcoinTxn} `{!Bincode AvalancheTxn} `{!Bincode BlockHeader}
  `{!Bincode (list Hash)} `{!Bincode AvaMgmt.PeerReq} `{!Bincode (N * list bool)}
  `{!Bincode AvaDecide.VoteMsg} `{BuildProfile} `{HashOrder} `{Transport} `{Channel}.

(** An Avalanche node with the stages its configuration chooses. *)
Definition avalanche_node (id : NodeId) (txn_crypto p2p_crypto : CryptoScheme)
    (config : AvalancheBasicConfig) (dissem_txns : bool) (pm : PeerMessenger) (now : Instant) :
    res (Node AvaMgmt.AvalancheBM AvaDecide.AvalancheDecision FixedInflightBlkPaceMaker) :=
  bm ← AvaMgmt.am_new id config pm now;
  dc ← AvaDecide.ad_new id p2p_crypto config pm;
  node_new id txn_crypto (CCAvalanche (ACBasic config)) dissem_txns pm bm dc
    (fi_new (cf_max_inflight_blk config)).

(** C12: across the threads of an Avalanche node, whatever the scheduler, the clock,
    the peers and the clients do and whatever thread panics: the blocks the node
    has proposed and not yet seen decided, in the channels or under vote, never
    exceed [max_inflight_blk]. *)
Theorem inflight_blocks_bounded id txn_crypto p2p_crypto config dissem_txns pm now n evs :
  avalanche_node id txn_crypto p2p_crypto config dissem_txns pm now = Ok n →
  let n' := node_run evs n in
  own id (bt_sent (nd_block_management n')) + own id (bd_ready (nd_block_dissemination n')) +
  N.of_nat (size (AvaDecide.query_pool (dt_stage (nd_decision n')))) ≤ cf_max_inflight_blk config.
Proof.
  unfold avalanche_node. intros Hn. cbv zeta. res_inv.
  match goal with Hx : AvaMgmt.am_new _ _ _ _ = Ok ?b, Hy : AvaDecide.ad_new _ _ _ _ = Ok ?d,
    Hz : node_new _ _ _ _ _ _ _ _ = Ok _ |- _ =>
    rename b into bm, d into dc, Hx into Hbm, Hy into Hdc, Hz into Hnew end.
  assert (AvaMgmt.blk_quota bm = 0) as Hq by (unfold AvaMgmt.am_new in Hbm; by res_inv).
  assert (AvaDecide.ad_id dc = id ∧ ad_queries dc = 0) as [Hid Hd]
    by (unfold AvaDecide.ad_new in Hdc; by res_inv).
  pose proof (node_new_ok id _ _ _ _ _ _ _ _ Hnew Hid) as Hok.
  apply (node_run_ok _ _ evs) in Hok as [_ _ Htot].
  unfold inflight, pace_share, blk_share in Htot. cbn in Htot. rewrite Hq, Hd in Htot.
  unfold ad_queries in Htot. lia.
Qed.
End Avalanche.

(** ** A run from a client's request to its execution *)

#[local] Existing Instances sample_externals sample_bincode_btc sample_bincode_header
  sample_transport sample_channel sample_profile canonical_order.
#[local] Instance node_bincode_avax : Bincode AvalancheTxn := {|
  serialize := λ t, match t with
    | AGrant v r nonce => inl [3; v; nonce]
    | ASend s ins r o rem _ => inl [2; o; rem]
    | _ => inl [6] end;
  deserialize := λ _, inr (mkErr "not needed");
|}.
#[local] Instance node_bincode_hashes : Bincode (list Hash) := {| serialize := inl; deserialize := inl |}.
#[local] Instance node_bincode_req : Bincode AvaMgmt.PeerReq :=
  {| serialize := λ _, inl []; deserialize := λ _, inr (mkErr "not needed") |}.
#[local] Instance node_bincode_ballot : Bincode (N * list bool) :=
  {| serialize := λ _, inl []; deserialize := λ _, inr (mkErr "not needed") |}.
#[local] Instance node_bincode_vote : Bincode AvaDecide.VoteMsg :=
  {| serialize := λ _, inl []; deserialize := λ _, inr (mkErr "not needed") |}.

(** One voter, blocks of one transaction, two blocks in flight. *)
Definition w_config : AvalancheBasicConfig :=
  mkAvalancheBasicConfig 1 1 (f64_lit 8 10) 1 1 (f64_of_N 5) (f64_of_N 5) 2 DBroadcast.
Definition w_env : Env := mkEnv 9 [] 0 f64_one f64_one 9.
Definition w_request : Txn := TAvalanche (AGrant 50 [7] 1).
Definition w_events : list Event :=
  [EvClient w_request; EvRequest; EvSpawn true; EvValTask 0; EvValTask 0; EvValTask 0; EvValPending 5;
   EvValidated; EvDisseminate true; EvPace; EvPmaker; EvTxnReady; EvPrepare w_env; EvPropose w_env;
   EvNewBlock].
Definition w_rest : list Event := [EvNewTail w_env; EvCommitReady; EvCommit; EvFeedback].
Definition w_node : res (Node AvaMgmt.AvalancheBM AvaDecide.AvalancheDecision FixedInflightBlkPaceMaker) :=
  avalanche_node 1 CSDummy CSDummy w_config true sample_messenger 0.

Lemma inflight_blocks_bounded_witness : ∃ n, w_node = Ok n ∧
  let n' := node_run w_events n in
  own 1 (bt_sent (nd_block_management n')) + own 1 (bd_ready (nd_block_dissemination n')) +
  N.of_nat (size (AvaDecide.query_pool (dt_stage (nd_decision n')))) ≤ 2.
Proof.
  eexists. split; [vm_compute; reflexivity|].
  apply (inflight_blocks_bounded 1 CSDummy CSDummy w_config true sample_messenger 0 _ w_events).
  vm_compute. reflexivity.
Defined.

(** After these events the block is on its way to the decision stage; after the
    rest the request is executed, the quota is back, and every thread lives. *)
Lemma w_run_executes : ∃ n, w_node = Ok n ∧
  own 1 (bd_ready (nd_block_dissemination (node_run w_events n))) = 1 ∧
  let n' := node_run (w_events ++ w_rest) n in
  nd_executed n' = [(0, [w_request])] ∧ pt_pmaker (nd_pacemaker n') = fi_new 2 ∧ nd_dead n' = [].
Proof. eexists. split_and!; [vm_compute; reflexivity|by vm_compute..]. Qed.
