(* ===== verification/FlowGen.v ===== *)
(** * The clients: flow generators

    src/copycat_flowgen/src/{lib,bitcoin,chain_replication}.rs: what makes the
    transactions of an experiment and counts what is committed. The values
    [rand::random] will return are a list in the state ([draws]), which the calls
    consume; a call that needs more of them than there are is out of fuel. The
    generator of Avalanche is in AvaFlowGen.v. *)

From S2P Require Import Prelude F64 Protocol Peers.
Local Open Scope N_scope.

Abbreviation ClientId := N (only parsing).
Abbreviation FlowGenId := N (only parsing).

(** [f64::ln] (crate libm of the platform). *)
Class Ln := f64_ln : f64 → f64.

Record Stats := mkStats {
  num_committed : N;
  chain_length : N;
  commit_confidence : f64;
  inflight_txns : N;
  latencies : list f64;
}.

Definition UNSET : N := 0.

(** The batch size and the batches per second of a request rate. *)
Definition batch_rate (max_batch_freq max_inflight frequency : N) : N * N :=
  if decide (frequency = UNSET) then (max_inflight, UNSET)
  else if (frequency <? max_batch_freq)%N then (1, frequency)
  else (frequency / max_batch_freq, max_batch_freq).

(** [rand::random::<usize>() % len] *)
Definition rand_index (r len : N) : res N := if decide (len = 0) then Panic else Ok (r mod len).

(** [if idx >= avoid { idx += 1 }] *)
Definition skip (avoid idx : N) : N := if (avoid <=? idx)%N then idx + 1 else idx.

Lemma skip_avoids a i : skip a i ≠ a.
Proof. unfold skip. destruct (N.leb_spec a i); lia. Qed.

Definition nth {A : Type} (l : list A) (i : N) : res A :=
  match l !! N.to_nat i with Some x => Ok x | None => Panic end.

Lemma nth_ok {A : Type} (l : list A) i x : nth l i = Ok x → l !! N.to_nat i = Some x.
Proof. unfold nth. case_match; congruence. Qed.

(** The time to the next batch, for a uniform [u]. *)
Definition interarrival `{Ln} (u : f64) (batch_frequency : N) : res N :=
  from_secs_f64 (f64_div (f64_opp (f64_ln (f64_sub f64_one u))) (f64_of_N batch_frequency)).

(** [num_accounts / client_list.len()], 0 without clients *)
Definition accounts_per_client (num_accounts : N) (client_list : list ClientId) : N :=
  if decide (length client_list = O) then 0 else num_accounts / N.of_nat (length client_list).

(** [(id << 32) | i] *)
Definition account_seed (id : FlowGenId) (i : N) : N := N.lor (N.shiftl id 32 mod two64) i.

(** [wait_next]: does its loop return, once [next_batch_time] has come? *)
Definition can_send (clients : list ClientId) (max_inflight in_flight : N) : bool :=
  negb (bool_decide (clients = [])) && (bool_decide (max_inflight = UNSET) || (in_flight <? max_inflight)%N).

(** ** Bitcoin *)

Record ChainInfo := mkChainInfo {
  ci_chain_length : N;
  txn_count : gmap N N;
  total_committed : N;  (* includes false commits *)
}.
#[export] Instance ChainInfo_eta : Eta ChainInfo := λ r,
  mkChainInfo (ci_chain_length r) (txn_count r) (total_committed r).

Record BitcoinFlowGen := mkBitcoinFlowGen {
  bf_max_inflight : N;
  bf_batch_frequency : N;
  bf_batch_size : N;
  bf_next_batch_time : Instant;
  bf_crypto : CryptoScheme;
  bf_client_list : list ClientId;
  bf_utxos : gmap ClientId (gmap PubKey (list (Hash * N)));
  bf_accounts : gmap ClientId (list (PubKey * PrivKey));
  bf_in_flight : gmap Hash Instant;
  bf_chain_info : gmap NodeId ChainInfo;
  bf_latencies : list f64;
  bf_draws : list N;
}.
#[export] Instance BitcoinFlowGen_eta : Eta BitcoinFlowGen := λ r,
  mkBitcoinFlowGen (bf_max_inflight r) (bf_batch_frequency r) (bf_batch_size r)
    (bf_next_batch_time r) (bf_crypto r) (bf_client_list r) (bf_utxos r) (bf_accounts r)
    (bf_in_flight r) (bf_chain_info r) (bf_latencies r) (bf_draws r).

Abbreviation BF := (M BitcoinFlowGen) (only parsing).

Section Bitcoin.
Context `{Externals} `{!Bincode BitcoinTxn} `{!Bincode AvalancheTxn} `{!Bincode (list Hash)}
  `{BuildProfile} `{HashOrder} `{Ln}.

(** The accounts of the clients, [i] seeds having been used. *)
Definition bf_add_account (crypto : CryptoScheme) (id : FlowGenId) (client : ClientId) (i : N)
    (acc : gmap ClientId (gmap PubKey (list (Hash * N))) * gmap ClientId (list (PubKey * PrivKey))) :=
  let kp := gen_key_pair crypto (account_seed id i) in
  (<[client := <[kp.1 := []]> (default ∅ (acc.1 !! client))]> acc.1,
   <[client := default [] (acc.2 !! client) ++ [kp]]> acc.2).

Fixpoint bf_add_accounts (crypto : CryptoScheme) (id : FlowGenId) (client : ClientId) (n : nat) (i : N)
    (acc : gmap ClientId (gmap PubKey (list (Hash * N))) * gmap ClientId (list (PubKey * PrivKey))) :=
  match n with
  | O => acc
  | S n' => bf_add_accounts crypto id client n' (i + 1) (bf_add_account crypto id client i acc)
  end.

Fixpoint bf_add_clients (crypto : CryptoScheme) (id : FlowGenId) (per_client : N) (clients : list ClientId)
    (i : N) (acc : gmap ClientId (gmap PubKey (list (Hash * N))) * gmap ClientId (list (PubKey * PrivKey))) :=
  match clients with
  | [] => acc
  | client :: rest =>
    bf_add_clients crypto id per_client rest (i + per_client)
      (bf_add_accounts crypto id client (N.to_nat per_client) i acc)
  end.

Definition bf_new (id : FlowGenId) (client_list : list ClientId) (num_accounts max_inflight frequency : N)
    (crypto : CryptoScheme) (now : Instant) (draws : list N) : BitcoinFlowGen :=
  let accounts_per_node := accounts_per_client num_accounts client_list in
  let '(utxos, accounts) := bf_add_clients crypto id accounts_per_node client_list 0 (∅, ∅) in
  let '(batch_size, batch_frequency) := batch_rate 20 max_inflight frequency in
  mkBitcoinFlowGen max_inflight batch_frequency batch_size now crypto client_list utxos accounts
    ∅ ∅ [] draws.

(** [setup_txns]: a grant for every account. *)
Definition bf_grant (node : ClientId) (account : PubKey) : BF (ClientId * Txn) :=
  let txn := TBitcoin (BGrant 100 account) in
  hash ← lift_res (txn_compute_id txn);
  modify (λ s, s <| bf_utxos ::= λ u,
    <[node := let m := default ∅ (u !! node) in <[account := default [] (m !! account) ++ [(hash, 100)]]> m]> u |>) ;;
  mret (node, txn).

Fixpoint bf_grants (l : list (ClientId * PubKey)) : BF (list (ClientId * Txn)) :=
  match l with
  | [] => mret []
  | (node, account) :: l' => t ← bf_grant node account; ts ← bf_grants l'; mret (t :: ts)
  end.

Definition bf_setup_txns : BF (list (ClientId * Txn)) :=
  utxos ← gets bf_utxos;
  bf_grants (map_iter utxos ≫= λ e : ClientId * gmap PubKey (list (Hash * N)),
    (λ a : PubKey * list (Hash * N), (e.1, a.1)) <$> map_iter e.2).

Definition bf_can_send (s : BitcoinFlowGen) : bool :=
  can_send (bf_client_list s) (bf_max_inflight s) (N.of_nat (size (bf_in_flight s))).

(** The loop that chooses a sender with something to spend, and a receiver. *)
Fixpoint choose_sender (accounts : list (PubKey * PrivKey)) (utxos : gmap PubKey (list (Hash * N)))
    (draws : list N) : res (((PubKey * PrivKey) * PubKey * (Hash * N) * list (Hash * N)) * list N) :=
  match draws with
  | r1 :: r2 :: draws' =>
    sender ← rand_index r1 (N.of_nat (length accounts));
    others ← u64_sub (N.of_nat (length accounts)) 1;
    receiver ← rand_index r2 others;
    let receiver := skip sender receiver in
    sk ← nth accounts sender;
    rk ← nth accounts receiver;
    match utxos !! sk.1 with
    | None => Panic
    | Some [] => choose_sender accounts utxos draws'
    | Some (u :: us) => Ok ((sk, rk.1, u, us), draws')
    end
  | _ => OutOfFuel
  end.

Definition draw : BF N :=
  ds ← gets bf_draws;
  match ds with
  | [] => out_of_fuel
  | d :: ds' => modify (λ s, s <| bf_draws := ds' |>) ;; mret d
  end.

(** [utxos.get_mut(&node).unwrap().get_mut(pk).unwrap().push_back(u)], if it has a
    value *)
Definition bf_push (node : ClientId) (pk : PubKey) (hash : Hash) (value : N) : BF unit :=
  if (0 <? value)%N then
    s ← gets (λ s, s);
    m ← unwrap (bf_utxos s !! node);
    q ← unwrap (m !! pk);
    modify (λ s, s <| bf_utxos := <[node := <[pk := q ++ [(hash, value)]]> m]> (bf_utxos s) |>)
  else mret tt.

(** One transaction of a batch. *)
Definition bf_next_txn (now : Instant) : BF (ClientId * Txn) :=
  s ← gets (λ s, s);
  r ← draw;
  idx ← lift_res (rand_index r (N.of_nat (length (bf_client_list s))));
  node ← lift_res (nth (bf_client_list s) idx);
  accounts ← unwrap (bf_accounts s !! node);
  utxos ← unwrap (bf_utxos s !! node);
  ds ← gets bf_draws;
  c ← lift_res (choose_sender accounts utxos ds);
  let '(sender, recver_pk, (in_utxo_raw, amount), rest, ds') := c in
  modify (λ s, s <| bf_draws := ds' |> <| bf_utxos ::= <[node := <[sender.1 := rest]> utxos]> |>) ;;
  serialized_in_utxo ← lift_res (of_result (serialize [in_utxo_raw]));
  sg ← lift_res (sign (bf_crypto s) sender.2 serialized_in_utxo);
  let out_utxo := N.min amount 10 in
  let remainder := amount - out_utxo in
  let txn := TBitcoin (BSend sender.1 [in_utxo_raw] recver_pk out_utxo remainder sg.1 400 1000000 true) in
  txn_hash ← lift_res (txn_compute_id txn);
  bf_push node sender.1 txn_hash remainder ;;
  bf_push node recver_pk txn_hash out_utxo ;;
  modify (λ s, s <| bf_in_flight ::= <[txn_hash := now]> |>) ;;
  mret (node, txn).

Fixpoint bf_next_txns (now : Instant) (n : nat) : BF (list (ClientId * Txn)) :=
  match n with
  | O => mret []
  | S n' => t ← bf_next_txn now; ts ← bf_next_txns now n'; mret (t :: ts)
  end.

(** [next_txn_batch]; [u]: the uniform draw for the time of the next one. *)
Definition bf_next_txn_batch (now : Instant) (u : f64) : BF (list (ClientId * Txn)) :=
  s ← gets (λ s, s);
  room ← (if decide (bf_max_inflight s = UNSET) then mret (bf_batch_size s)
          else d ← lift_res (u64_sub (bf_max_inflight s) (N.of_nat (size (bf_in_flight s))));
               mret (N.min (bf_batch_size s) d));
  batch ← bf_next_txns now (N.to_nat room);
  (if decide (bf_batch_frequency s = UNSET) then mret tt
   else t ← lift_res (interarrival u (bf_batch_frequency s));
        modify (λ s, s <| bf_next_batch_time ::= N.add t |>)) ;;
  mret batch.

(** A committed transaction: its latency, if this generator made it. *)
Definition bf_record_commit (now : Instant) (txn : Txn) : BF unit :=
  hash ← lift_res (txn_compute_id txn);
  flight ← gets bf_in_flight;
  match flight !! hash with
  | None => mret tt
  | Some start_time =>
    modify (λ s, s <| bf_in_flight ::= delete hash |>
                   <| bf_latencies ::= λ l, l ++ [as_secs_f64 (now - start_time)] |>)
  end.

(** The numbers from [a] to [b], [b] excluded. *)
Definition range (a b : N) : list N := (λ i, a + N.of_nat i) <$> seq 0 (N.to_nat (b - a)).

(** [for height in blk_height..chain_length + 1 { txn_count.remove(&height) }] *)
Definition drop_heights (blk_height chain_length : N) (counts : gmap N N) : gmap N N :=
  foldl (λ m h, delete h m) counts (range blk_height (chain_length + 1)).

Definition bf_txn_committed (now : Instant) (node : NodeId) (txns : list Txn) (blk_height : N) : BF unit :=
  infos ← gets bf_chain_info;
  let chain_info := default (mkChainInfo 0 ∅ 0) (infos !! node) in
  modify (λ s, s <| bf_chain_info ::= <[node := chain_info]> |>) ;;
  bound ← lift_res (u64_add (ci_chain_length chain_info) 1);
  massert (blk_height <=? bound)%N ;;
  let n := N.of_nat (length txns) in
  let counts := <[blk_height := n]> (drop_heights blk_height (ci_chain_length chain_info) (txn_count chain_info)) in
  modify (λ s, s <| bf_chain_info ::= <[node := mkChainInfo blk_height counts (total_committed chain_info)]> |>) ;;
  total ← lift_res (u64_add (total_committed chain_info) n);
  modify (λ s, s <| bf_chain_info ::= <[node := mkChainInfo blk_height counts total]> |>) ;;
  mfor txns (bf_record_commit now).

(** [(1..chain_length + 1).map(|h| txn_count.get(&h).unwrap()).sum()] *)
Fixpoint sum_counts (counts : gmap N N) (heights : list N) : res N :=
  match heights with
  | [] => Ok 0
  | h :: hs => match counts !! h with
               | Some n => r ← sum_counts counts hs; u64_add n r
               | None => Panic end
  end.

(** What [get_stats] makes of one node. *)
Definition info_stats (info : ChainInfo) : res (N * N * f64) :=
  num_committed ← (if (0 <? ci_chain_length info)%N
                   then sum_counts (txn_count info) (range 1 (ci_chain_length info + 1)) else Ok 0);
  Ok (num_committed, ci_chain_length info,
      f64_div (f64_of_N num_committed) (f64_of_N (total_committed info))).

Definition merge_stats (acc e : N * N * f64) : N * N * f64 :=
  (N.max acc.1.1 e.1.1, N.max acc.1.2 e.1.2, f64_add acc.2 e.2).

Fixpoint all_stats (infos : list (NodeId * ChainInfo)) : res (list (N * N * f64)) :=
  match infos with
  | [] => Ok []
  | (_, info) :: infos' => st ← info_stats info; sts ← all_stats infos'; Ok (st :: sts)
  end.

Definition bf_get_stats : BF Stats :=
  s ← gets (λ s, s);
  sts ← lift_res (all_stats (map_iter (bf_chain_info s)));
  let r := match sts with [] => (0, 0, f64_zero) | st :: sts => foldl merge_stats st sts end in
  let confidence := if decide (size (bf_chain_info s) = O) then f64_one
                    else f64_div r.2 (f64_of_N (N.of_nat (size (bf_chain_info s)))) in
  modify (λ s, s <| bf_latencies := [] |>) ;;
  mret (mkStats r.1.1 r.1.2 confidence (N.of_nat (size (bf_in_flight s))) (bf_latencies s)).
End Bitcoin.

(** ** Chain replication *)

Record LogInfo := mkLogInfo { li_num_blks : N; li_num_txns : N }.

Record ChainReplicationFlowGen := mkChainReplicationFlowGen {
  (* fields to generate load *)
  cf_max_inflight : N;
  cf_batch_frequency : N;
  cf_batch_size : N;
  cf_next_batch_time : Instant;
  cf_client_list : list ClientId;
  next_txn_id : Hash;
  cf_in_flight : gmap Hash Instant;
  (* fields to create transactions *)
  content : bytes;
  pub_key : PubKey;
  cf_signature : Signature;
  (* statistics *)
  cf_stats : gmap NodeId LogInfo;
  cf_latencies : list f64;
  cf_draws : list N;
}.
#[export] Instance ChainReplicationFlowGen_eta : Eta ChainReplicationFlowGen := λ r,
  mkChainReplicationFlowGen (cf_max_inflight r) (cf_batch_frequency r) (cf_batch_size r)
    (cf_next_batch_time r) (cf_client_list r) (next_txn_id r) (cf_in_flight r) (content r) (pub_key r)
    (cf_signature r) (cf_stats r) (cf_latencies r) (cf_draws r).

Abbreviation CF := (M ChainReplicationFlowGen) (only parsing).

Section ChainReplication.
Context `{Externals} `{!Bincode BitcoinTxn} `{!Bincode AvalancheTxn} `{!Bincode (list Hash)}
  `{BuildProfile} `{HashOrder} `{Ln}.

(** The content is [txn_size] zeros; every transaction carries its signature. *)
Definition cf_new (client_list : list ClientId) (txn_size max_inflight frequency : N)
    (crypto : CryptoScheme) (now : Instant) (draws : list N) : res ChainReplicationFlowGen :=
  let '(batch_size, batch_frequency) := batch_rate 100 max_inflight frequency in
  let txn_content := replicate (N.to_nat txn_size) 0 in
  let kp := gen_key_pair crypto 0 in
  (* [unwrap] *)
  match sign crypto kp.2 txn_content with
  | Ok sg => Ok (mkChainReplicationFlowGen max_inflight batch_frequency batch_size now client_list 0 ∅
      txn_content kp.1 sg.1 ∅ [] draws)
  | _ => Panic
  end.

Definition cf_setup_txns : CF (list (ClientId * Txn)) := mret [].

Definition cf_can_send (s : ChainReplicationFlowGen) : bool :=
  can_send (cf_client_list s) (cf_max_inflight s) (N.of_nat (size (cf_in_flight s))).

Definition cf_draw : CF N :=
  ds ← gets cf_draws;
  match ds with
  | [] => out_of_fuel
  | d :: ds' => modify (λ s, s <| cf_draws := ds' |>) ;; mret d
  end.

Definition cf_next_txn (now : Instant) : CF (ClientId * Txn) :=
  r ← cf_draw;
  s ← gets (λ s, s);
  idx ← lift_res (rand_index r (N.of_nat (length (cf_client_list s))));
  client_id ← lift_res (nth (cf_client_list s) idx);
  let txn := TDummy (mkDummyTxn (next_txn_id s) (content s) (pub_key s) (cf_signature s)) in
  txn_hash ← lift_res (txn_compute_id txn);
  next ← lift_res (u256_add (next_txn_id s) 1);
  modify (λ s, s <| next_txn_id := next |> <| cf_in_flight ::= <[txn_hash := now]> |>) ;;
  mret (client_id, txn).

Fixpoint cf_next_txns (now : Instant) (n : nat) : CF (list (ClientId * Txn)) :=
  match n with
  | O => mret []
  | S n' => t ← cf_next_txn now; ts ← cf_next_txns now n'; mret (t :: ts)
  end.

Definition cf_next_txn_batch (now : Instant) (u : f64) : CF (list (ClientId * Txn)) :=
  s ← gets (λ s, s);
  room ← (if decide (cf_max_inflight s = UNSET) then mret (cf_batch_size s)
          else d ← lift_res (u64_sub (cf_max_inflight s) (N.of_nat (size (cf_in_flight s))));
               mret (N.min (cf_batch_size s) d));
  batch ← cf_next_txns now (N.to_nat room);
  (if decide (cf_batch_frequency s = UNSET) then mret tt
   else t ← lift_res (interarrival u (cf_batch_frequency s));
        modify (λ s, s <| cf_next_batch_time ::= N.add t |>)) ;;
  mret batch.

Definition cf_record_commit (now : Instant) (txn : Txn) : CF unit :=
  hash ← lift_res (txn_compute_id txn);
  flight ← gets cf_in_flight;
  match flight !! hash with
  | None => mret tt
  | Some start_time =>
    modify (λ s, s <| cf_in_flight ::= delete hash |>
                   <| cf_latencies ::= λ l, l ++ [as_secs_f64 (now - start_time)] |>)
  end.

(** Blocks are committed in order on every node. *)
Definition cf_txn_committed (now : Instant) (node : NodeId) (txns : list Txn) (blk_height : N) : CF unit :=
  infos ← gets cf_stats;
  let log_info := default (mkLogInfo 0 0) (infos !! node) in
  modify (λ s, s <| cf_stats ::= <[node := log_info]> |>) ;;
  bound ← lift_res (u64_add (li_num_blks log_info) 1);
  massert (bool_decide (blk_height = bound)) ;;
  modify (λ s, s <| cf_stats ::= <[node := mkLogInfo bound (li_num_txns log_info)]> |>) ;;
  total ← lift_res (u64_add (li_num_txns log_info) (N.of_nat (length txns)));
  modify (λ s, s <| cf_stats ::= <[node := mkLogInfo bound total]> |>) ;;
  mfor txns (cf_record_commit now).

Definition cf_get_stats : CF Stats :=
  s ← gets (λ s, s);
  let infos := (λ e : NodeId * LogInfo, (li_num_txns e.2, li_num_blks e.2)) <$> map_iter (cf_stats s) in
  let r := match infos with
           | [] => (0, 0)
           | i :: infos => foldl (λ acc e, (N.max acc.1 e.1, N.max acc.2 e.2)) i infos end in
  modify (λ s, s <| cf_latencies := [] |>) ;;
  mret (mkStats r.1 r.2 f64_one (N.of_nat (size (cf_in_flight s))) (cf_latencies s)).
End ChainReplication.
