(* ===== verification/AvaFlowGen.v ===== *)
(** * The clients of an Avalanche network

    src/copycat_flowgen/src/avalanche.rs: a generator that, at a given rate, sends
    pairs of payments that spend one output, each extended by a chain of payments
    long enough for it to be decided, and counts how many of them were committed
    on both sides. Random values as in FlowGen.v; [rand::random::<f64>] takes its
    value from a list of its own. *)

From S2P Require Import Prelude F64 Protocol Peers FlowGen.
Local Open Scope N_scope.

Record DagInfo := mkDagInfo { di_num_blks : N; di_txn_count : N }.

Record AvalancheFlowGen := mkAvalancheFlowGen {
  avax_commit_depth : N;
  af_max_inflight : N;
  af_batch_frequency : N;
  af_batch_size : N;
  conflict_rate : f64;
  af_next_batch_time : Instant;
  af_crypto : CryptoScheme;
  af_client_list : list ClientId;
  af_utxos : gmap ClientId (list (N * Hash * N));  (* (utxo_owner_idx, txn_hash, utxo_value) *)
  af_accounts : gmap ClientId (list (PubKey * PrivKey));
  af_in_flight : gmap Hash Instant;
  nonce : N;
  in_flight_conflict : gmap Hash Hash;
  conflicting_utxos : list ((ClientId * N) * Hash * N * (ClientId * ClientId));
  conflict_set : gset Hash;
  conflicts_sent : N;       (* pair of conflicting txns sent *)
  conflicts_recv : N;       (* pair of which one txn has been received *)
  conflicts_committed : N;  (* pair of which both txns have been received *)
  dag_info : gmap NodeId DagInfo;
  af_latencies : list f64;
  inflight_snapshot : gset Hash;
  af_draws : list N;
  af_rates : list f64;
}.
#[export] Instance AvalancheFlowGen_eta : Eta AvalancheFlowGen := λ r,
  mkAvalancheFlowGen (avax_commit_depth r) (af_max_inflight r) (af_batch_frequency r)
    (af_batch_size r) (conflict_rate r) (af_next_batch_time r) (af_crypto r) (af_client_list r)
    (af_utxos r) (af_accounts r) (af_in_flight r) (nonce r) (in_flight_conflict r)
    (conflicting_utxos r) (conflict_set r) (conflicts_sent r) (conflicts_recv r)
    (conflicts_committed r) (dag_info r) (af_latencies r) (inflight_snapshot r) (af_draws r)
    (af_rates r).

Abbreviation AF := (M AvalancheFlowGen) (only parsing).

(** A batch is pushed onto as it is made. *)
Abbreviation Batch := (list (ClientId * Txn)) (only parsing).

Section Avalanche.
Context `{Externals} `{!Bincode BitcoinTxn} `{!Bincode AvalancheTxn} `{!Bincode (list Hash)}
  `{BuildProfile} `{HashOrder} `{Ln}.

Fixpoint af_key_pairs (crypto : CryptoScheme) (id : FlowGenId) (n : nat) (i : N) : list (PubKey * PrivKey) :=
  match n with
  | O => []
  | S n' => gen_key_pair crypto (account_seed id i) :: af_key_pairs crypto id n' (i + 1)
  end.

Fixpoint af_add_clients (crypto : CryptoScheme) (id : FlowGenId) (per_client : N) (clients : list ClientId)
    (i : N) (acc : gmap ClientId (list (N * Hash * N)) * gmap ClientId (list (PubKey * PrivKey))) :=
  match clients with
  | [] => acc
  | client :: rest =>
    af_add_clients crypto id per_client rest (i + per_client)
      (<[client := default [] (acc.1 !! client)]> acc.1,
       <[client := af_key_pairs crypto id (N.to_nat per_client) i]> acc.2)
  end.

Definition af_new (id : FlowGenId) (client_list : list ClientId) (num_accounts max_inflight frequency : N)
    (conflict_rate : f64) (crypto : CryptoScheme) (now : Instant) (draws : list N) (rates : list f64) :
    res AvalancheFlowGen :=
  let accounts_per_node := accounts_per_client num_accounts client_list in
  if (accounts_per_node <=? 1)%N then Panic
  else
    let '(utxos, accounts) := af_add_clients crypto id accounts_per_node client_list 0 (∅, ∅) in
    let '(batch_size, batch_frequency) := batch_rate 100 max_inflight frequency in
    Ok (mkAvalancheFlowGen 50 max_inflight batch_frequency batch_size conflict_rate now crypto
      client_list utxos accounts ∅ 2 ∅ [] ∅ 0 0 0 ∅ [] ∅ draws rates).

(** [get_inflight_count] *)
Definition get_inflight_count (s : AvalancheFlowGen) : res N :=
  a ← u64_sub (N.of_nat (size (af_in_flight s))) (N.of_nat (size (in_flight_conflict s)));
  b ← u64_add a (conflicts_sent s);
  u64_sub b (conflicts_recv s).

(** [setup_txns]: a grant for every account. *)
Definition af_grant (client : ClientId) (idx : N) (pk : PubKey) : AF (ClientId * Txn) :=
  let txn := TAvalanche (AGrant 10 pk 0) in
  txn_id ← lift_res (txn_compute_id txn);
  utxos ← gets af_utxos;
  u ← unwrap (utxos !! client);
  modify (λ s, s <| af_utxos ::= <[client := u ++ [(idx, txn_id, 10)]]> |>) ;;
  mret (client, txn).

Fixpoint af_grants (l : list (ClientId * (N * PubKey))) : AF Batch :=
  match l with
  | [] => mret []
  | (client, (idx, pk)) :: l' => t ← af_grant client idx pk; ts ← af_grants l'; mret (t :: ts)
  end.

Definition af_setup_txns : AF Batch :=
  accounts ← gets af_accounts;
  af_grants (map_iter accounts ≫= λ e : ClientId * list (PubKey * PrivKey),
    imap (λ i (a : PubKey * PrivKey), (e.1, (N.of_nat i, a.1))) e.2).

(** [wait_next]: does its loop return? *)
Definition af_can_send (s : AvalancheFlowGen) : res bool :=
  if decide (af_client_list s = []) then Ok false
  else if decide (af_max_inflight s = UNSET) then Ok (can_send (af_client_list s) UNSET 0)
  else n ← get_inflight_count s; Ok (can_send (af_client_list s) (af_max_inflight s) n).

Definition af_draw : AF N :=
  ds ← gets af_draws;
  match ds with
  | [] => out_of_fuel
  | d :: ds' => modify (λ s, s <| af_draws := ds' |>) ;; mret d
  end.

(** [rand::random::<usize>() % len] *)
Definition af_index (len : N) : AF N := r ← af_draw; lift_res (rand_index r len).

Definition af_rate : AF f64 :=
  rs ← gets af_rates;
  match rs with
  | [] => out_of_fuel
  | r :: rs' => modify (λ s, s <| af_rates := rs' |>) ;; mret r
  end.

(** A payment of [out_utxo] from account [sender] on one output, signed. *)
Definition af_payment (sender : PubKey * PrivKey) (in_utxo_raw : Hash) (receiver : PubKey)
    (out_utxo remainder : N) : AF Txn :=
  serialized_in_utxo ← lift_res (of_result (serialize [in_utxo_raw]));
  crypto ← gets af_crypto;
  sg ← lift_res (sign crypto sender.2 serialized_in_utxo);
  mret (TAvalanche (ASend sender.1 [in_utxo_raw] receiver out_utxo remainder sg.1)).

(** A random account other than the sender: [rand % (len - 1)], then skip. *)
Definition af_receiver (accounts : list (PubKey * PrivKey)) (sender_idx : N) : AF N :=
  others ← lift_res (u64_sub (N.of_nat (length accounts)) 1);
  r ← af_index others;
  mret (skip sender_idx r).

Definition af_in_flight_insert (hash : Hash) (now : Instant) : AF unit :=
  modify (λ s, s <| af_in_flight ::= <[hash := now]> |>).

(** An ordinary payment: a random output of a random client. *)
Definition af_next_payment (now : Instant) (batch : Batch) : AF Batch :=
  s ← gets (λ s, s);
  client_idx ← af_index (N.of_nat (length (af_client_list s)));
  client ← lift_res (nth (af_client_list s) client_idx);
  accounts ← unwrap (af_accounts s !! client);
  utxos ← unwrap (af_utxos s !! client);
  send_utxo_idx ← af_index (N.of_nat (length utxos));
  u ← lift_res (nth utxos send_utxo_idx);
  let '(sender_idx, in_utxo_raw, in_utxo_amount) := u in
  let utxos := delete (N.to_nat send_utxo_idx) utxos in
  modify (λ s, s <| af_utxos ::= <[client := utxos]> |>) ;;
  sender ← lift_res (nth accounts sender_idx);
  massert (1 <? N.of_nat (length accounts))%N ;;
  let out_utxo := N.min in_utxo_amount 10 in
  let remainder := in_utxo_amount - out_utxo in
  serialized_in_utxo ← lift_res (of_result (serialize [in_utxo_raw]));
  sg ← lift_res (sign (af_crypto s) sender.2 serialized_in_utxo);
  recver_idx ← af_receiver accounts sender_idx;
  recver ← lift_res (nth accounts recver_idx);
  let txn := TAvalanche (ASend sender.1 [in_utxo_raw] recver.1 out_utxo remainder sg.1) in
  txn_hash ← lift_res (txn_compute_id txn);
  let utxos := if (0 <? remainder)%N then utxos ++ [(sender_idx, txn_hash, remainder)] else utxos in
  let utxos := if (0 <? out_utxo)%N then utxos ++ [(recver_idx, txn_hash, out_utxo)] else utxos in
  modify (λ s, s <| af_utxos ::= <[client := utxos]> |>) ;;
  af_in_flight_insert txn_hash now ;;
  mret (batch ++ [(client, txn)]).

(** The output a pair of conflicting payments spends: the end of an earlier chain,
    or that of a new grant, sent to two clients. Also: how much the batch grew. *)
Definition af_conflict_source (now : Instant) (batch : Batch) :
    AF (((ClientId * N) * Hash * N * (ClientId * ClientId)) * Batch * N) :=
  s ← gets (λ s, s);
  if (0 <? length (conflicting_utxos s))%nat then
    i ← af_index (N.of_nat (length (conflicting_utxos s)));
    c ← lift_res (nth (conflicting_utxos s) i);
    modify (λ s, s <| conflicting_utxos ::= delete (N.to_nat i) |>) ;;
    mret (c, batch, 0)
  else
    client_idx ← af_index (N.of_nat (length (af_client_list s)));
    client ← lift_res (nth (af_client_list s) client_idx);
    accounts ← unwrap (af_accounts s !! client);
    owner_idx ← af_index (N.of_nat (length accounts));
    owner ← lift_res (nth accounts owner_idx);
    let grant_txn := TAvalanche (AGrant 10 owner.1 (nonce s)) in
    nonce' ← lift_res (u64_add (nonce s) 1);
    modify (λ s, s <| nonce := nonce' |>) ;;
    grant_txn_hash ← lift_res (txn_compute_id grant_txn);
    af_in_flight_insert grant_txn_hash now ;;
    client2_idx ← lift_res (rand_index (client_idx + 1) (N.of_nat (length (af_client_list s))));
    client2 ← lift_res (nth (af_client_list s) client2_idx);
    mret (((client, owner_idx), grant_txn_hash, 10, (client, client2)),
          batch ++ [(client, grant_txn); (client2, grant_txn)], 1).

(** Two transactions of which only one can be committed are in flight. *)
Definition af_record_pair (h1 h2 : Hash) (now : Instant) : AF unit :=
  af_in_flight_insert h1 now ;;
  af_in_flight_insert h2 now ;;
  modify (λ s, s <| in_flight_conflict ::= <[h1 := h2]> |>) ;;
  modify (λ s, s <| in_flight_conflict ::= <[h2 := h1]> |>) ;;
  n ← gets conflicts_sent;
  n' ← lift_res (u64_add n 1);
  modify (λ s, s <| conflicts_sent := n' |>).

(** Both orders, one for each client. *)
Definition pair_batch (client1 client2 : ClientId) (txn1 txn2 : Txn) : Batch :=
  [(client1, txn1); (client1, txn2); (client2, txn2); (client2, txn1)].

(** One side of the extension: the account that received pays on. *)
Definition af_extend (accounts : list (PubKey * PrivKey)) (sender_idx : N) (in_hash : Hash) (value : N) :
    AF (N * Txn * Hash) :=
  sender ← lift_res (nth accounts sender_idx);
  recver_idx ← af_receiver accounts sender_idx;
  recver ← lift_res (nth accounts recver_idx);
  txn ← af_payment sender in_hash recver.1 value 0;
  hash ← lift_res (txn_compute_id txn);
  mret (recver_idx, txn, hash).

Fixpoint af_extend_pair (n : nat) (now : Instant) (accounts : list (PubKey * PrivKey))
    (client1 client2 : ClientId) (value : N) (side1 side2 : N * Hash) (batch : Batch) :
    AF ((N * Hash) * (N * Hash) * Batch) :=
  match n with
  | O => mret (side1, side2, batch)
  | S n' =>
    e1 ← af_extend accounts side1.1 side1.2 value;
    e2 ← af_extend accounts side2.1 side2.2 value;
    af_record_pair e1.2 e2.2 now ;;
    af_extend_pair n' now accounts client1 client2 value (e1.1.1, e1.2) (e2.1.1, e2.2)
      (batch ++ pair_batch client1 client2 e1.1.2 e2.1.2)
  end.

(** A pair of conflicting payments with their extensions. *)
Definition af_next_conflict (now : Instant) (batch : Batch) : AF (Batch * N) :=
  src ← af_conflict_source now batch;
  let '((client, sender_idx), in_txn_hash, value, (client1, client2), batch, grown) := src in
  s ← gets (λ s, s);
  accounts ← unwrap (af_accounts s !! client);
  sender ← lift_res (nth accounts sender_idx);
  serialized_in_utxo ← lift_res (of_result (serialize [in_txn_hash]));
  sg ← lift_res (sign (af_crypto s) sender.2 serialized_in_utxo);
  recver1_idx ← af_receiver accounts sender_idx;
  recver1 ← lift_res (nth accounts recver1_idx);
  let txn1 := TAvalanche (ASend sender.1 [in_txn_hash] recver1.1 value 0 sg.1) in
  base_txn1_hash ← lift_res (txn_compute_id txn1);
  others ← lift_res (u64_sub (N.of_nat (length accounts)) 2);
  r2 ← af_index others;
  let recver2_idx := skip recver1_idx (skip sender_idx r2) in
  recver2 ← lift_res (nth accounts recver2_idx);
  let txn2 := TAvalanche (ASend sender.1 [in_txn_hash] recver2.1 value 0 sg.1) in
  base_txn2_hash ← lift_res (txn_compute_id txn2);
  af_record_pair base_txn1_hash base_txn2_hash now ;;
  let batch := batch ++ pair_batch client1 client2 txn1 txn2 in
  e ← af_extend_pair (N.to_nat (avax_commit_depth s)) now accounts client1 client2 value
        (recver1_idx, base_txn1_hash) (recver2_idx, base_txn2_hash) batch;
  let '((recver1_idx, txn1_hash), (recver2_idx, txn2_hash), batch) := e in
  modify (λ s, s <| conflicting_utxos ::= λ l, l ++
    [((client, recver1_idx), txn1_hash, value, (client1, client2));
     ((client, recver2_idx), txn2_hash, value, (client1, client2))] |>) ;;
  mret (batch, grown + 1 + avax_commit_depth s).

(** [while cur_batch_size < batch_size]; [fuel] bounds the rounds, each of which
    adds one at least. *)
Fixpoint af_fill (fuel : nat) (now : Instant) (batch_size cur_batch_size : N) (batch : Batch) : AF Batch :=
  if (batch_size <=? cur_batch_size)%N then mret batch
  else match fuel with
  | O => out_of_fuel
  | S fuel' =>
    r ← af_rate;
    rate ← gets conflict_rate;
    if f64_ltb rate r then
      batch ← af_next_payment now batch;
      af_fill fuel' now batch_size (cur_batch_size + 1) batch
    else
      b ← af_next_conflict now batch;
      af_fill fuel' now batch_size (cur_batch_size + b.2) b.1
  end.

Definition af_next_txn_batch (now : Instant) (u : f64) : AF Batch :=
  s ← gets (λ s, s);
  batch_size ← (if decide (af_max_inflight s = UNSET) then mret (af_batch_size s)
                else n ← lift_res (get_inflight_count s);
                     d ← lift_res (u64_sub (af_max_inflight s) n);
                     mret (N.min (af_batch_size s) d));
  batch ← af_fill (N.to_nat batch_size) now batch_size 0 [];
  (if decide (af_batch_frequency s = UNSET) then mret tt
   else t ← lift_res (interarrival u (af_batch_frequency s));
        modify (λ s, s <| af_next_batch_time ::= N.add t |>)) ;;
  mret batch.

(** ** Commits *)

(** A committed transaction: its latency, and what it says of its rival. *)
Definition af_record_commit (now : Instant) (txn : Txn) : AF unit :=
  hash ← lift_res (txn_compute_id txn);
  flight ← gets af_in_flight;
  match flight !! hash with
  | Some time =>
    modify (λ s, s <| af_in_flight ::= delete hash |>
                   <| af_latencies ::= λ l, l ++ [as_secs_f64 (now - time)] |>)
  | None => mret tt
  end ;;
  s ← gets (λ s, s);
  match in_flight_conflict s !! hash with
  | None => mret tt
  | Some conflict_hash =>
    modify (λ s, s <| in_flight_conflict ::= delete hash |>) ;;
    if decide (hash ∈ conflict_set s) then
      n ← lift_res (u64_add (conflicts_committed s) 1);
      modify (λ s, s <| conflicts_committed := n |> <| conflict_set ::= λ c, c ∖ {[hash]} |>)
    else
      n ← lift_res (u64_add (conflicts_recv s) 1);
      modify (λ s, s <| conflicts_recv := n |> <| conflict_set ::= λ c, {[conflict_hash]} ∪ c |>)
  end.

Definition af_txn_committed (now : Instant) (node : NodeId) (txns : list Txn) (_blk_height : N) : AF unit :=
  infos ← gets dag_info;
  let chain_info := default (mkDagInfo 0 0) (infos !! node) in
  modify (λ s, s <| dag_info ::= <[node := chain_info]> |>) ;;
  blks ← lift_res (u64_add (di_num_blks chain_info) 1);
  modify (λ s, s <| dag_info ::= <[node := mkDagInfo blks (di_txn_count chain_info)]> |>) ;;
  count ← lift_res (u64_add (di_txn_count chain_info) (N.of_nat (length txns)));
  modify (λ s, s <| dag_info ::= <[node := mkDagInfo blks count]> |>) ;;
  mfor txns (af_record_commit now).

(** [debug]: [cfg!(debug_assertions)] *)
Definition af_get_stats (debug : bool) : AF Stats :=
  s ← gets (λ s, s);
  let infos := (λ e : NodeId * DagInfo, (di_txn_count e.2, di_num_blks e.2)) <$> map_iter (dag_info s) in
  let r := match infos with
           | [] => (0, 0)
           | i :: infos => foldl (λ acc e, (N.max acc.1 e.1, N.max acc.2 e.2)) i infos end in
  let confidence :=
    if decide (conflicts_recv s = 0) then f64_one
    else f64_sub f64_one (f64_div (f64_of_N (conflicts_committed s)) (f64_of_N (conflicts_recv s))) in
  modify (λ s, if (debug : bool) then s <| inflight_snapshot := dom (af_in_flight s) |> else s) ;;
  modify (λ s, s <| af_latencies := [] |>) ;;
  n ← lift_res (get_inflight_count s);
  mret (mkStats r.1 r.2 confidence n (af_latencies s)).
End Avalanche.

(** [get_flow_gen] of lib.rs. *)
Inductive SomeFlowGen :=
| FGBitcoin (g : BitcoinFlowGen)
| FGAvalanche (g : AvalancheFlowGen)
| FGChainReplication (g : ChainReplicationFlowGen).

Definition get_flow_gen `{Externals} `{BuildProfile} (id : FlowGenId) (client_list : list ClientId)
    (num_accounts max_inflight frequency : N) (conflict_rate : f64) (chain : ChainType)
    (crypto : CryptoScheme) (now : Instant) (draws : list N) (rates : list f64) : res SomeFlowGen :=
  match chain with
  | CTDummy => Panic
  | CTBitcoin => Ok (FGBitcoin (bf_new id client_list num_accounts max_inflight frequency crypto now draws))
  | CTAvalanche =>
    g ← af_new id client_list num_accounts max_inflight frequency conflict_rate crypto now draws rates;
    Ok (FGAvalanche g)
  | CTChainReplication =>
    g ← cf_new client_list num_accounts max_inflight frequency crypto now draws; Ok (FGChainReplication g)
  end.
