(* ===== verification/FlowGenProps.v ===== *)
(** * The client of an Avalanche network: properties

    Its count of transactions in flight never underflows. *)

From S2P Require Import Prelude F64 Protocol Peers Samples FlowGen AvaFlowGen.
Local Open Scope N_scope.

(** Skipping a second index can bring back the first: of the accounts 0, 1, 2, sender 1 and first receiver 0 leave the
    sender as second receiver. *)
Example second_receiver_can_be_sender : skip 0 (skip 1 0) = 1.
Proof. done. Qed.

(** ** Avalanche: what is in flight *)

(** How many pairs the commits [l] would count as received, given the rivals still
    in flight and those whose rival was received. *)
Fixpoint would_recv (l : list Hash) (m : gmap Hash Hash) (c : gset Hash) : N :=
  match l with
  | [] => 0
  | h :: l' =>
    match m !! h with
    | None => would_recv l' m c
    | Some h' =>
      if decide (h ∈ c) then would_recv l' (delete h m) (c ∖ {[h]})
      else 1 + would_recv l' (delete h m) ({[h']} ∪ c)
    end
  end.

Section Pair.
Context (h1 h2 : Hash).
Implicit Types (m : gmap Hash Hash) (c : gset Hash).

Definition others (x : Hash) : Prop := x ≠ h1 ∧ x ≠ h2.
#[export] Instance others_dec x : Decision (others x).
Proof. unfold others. apply _. Defined.
#[export] Typeclasses Opaque others.

(** Two states that differ on [h1] and [h2] only. *)
Definition same_others m c m' c' : Prop :=
  ∀ x, others x → m !! x = m' !! x ∧ (x ∈ c ↔ x ∈ c').

(** Neither can be counted any more. *)
Definition spent m c : Prop := ∀ x, ¬ others x → is_Some (m !! x) → x ∈ c.

(** The two are rivals. *)
Definition rivals m : Prop :=
  (∀ x, m !! h1 = Some x → x = h2) ∧ (∀ x, m !! h2 = Some x → x = h1).

Lemma would_recv_others l : ∀ m c m' c',
  same_others m c m' c' → rivals m →
  (spent m c → would_recv l m c ≤ would_recv (filter others l) m' c') ∧
  would_recv l m c ≤ 1 + would_recv (filter others l) m' c'.
Proof.
  induction l as [|h l IH]; intros m c m' c' Hsame Hriv; [by cbn; split; [intros _|]; lia|].
  rewrite filter_cons. cbn [would_recv].
  assert (∀ x, rivals (delete x m)) as Hrivd.
  { intros x. split; intros y [_ Hy]%lookup_delete_Some; by apply Hriv. }
  destruct (decide (others h)) as [Ho|Ho].
  - destruct (Hsame h Ho) as [Hm Hc]. cbn [would_recv]. rewrite <- Hm.
    destruct (m !! h) as [h'|] eqn:Hh; [|by apply IH].
    assert (∀ d d', (∀ x, others x → x ∈ d ↔ x ∈ d') → same_others (delete h m) d (delete h m') d') as Hdel.
    { intros d d' Hd x Hx. split; [|by apply Hd]. destruct (Hsame x Hx) as [Hmx _].
      destruct (decide (x = h)) as [->|]; [by rewrite !lookup_delete_eq|by rewrite !lookup_delete_ne]. }
    assert (∀ d, (spent m c → ∀ x, ¬ others x → x ∈ c → x ∈ d) → spent m c → spent (delete h m) d) as Hsp.
    { intros d Hd Hs x Hx [y [_ Hy]%lookup_delete_Some]. apply Hd; [done|done|]. apply Hs; [done|by exists y]. }
    destruct (decide (h ∈ c)) as [Hin|Hin].
    + rewrite decide_True by (by apply Hc).
      destruct (IH (delete h m) (c ∖ {[h]}) (delete h m') (c' ∖ {[h]})) as [IH1 IH2]; [|done|split; [|done]].
      { apply Hdel. intros x Hx. destruct (Hsame x Hx). set_solver. }
      intros Hs. apply IH1, Hsp; [|done]. intros _ x Hx. assert (x ≠ h) by congruence. set_solver.
    + rewrite decide_False by (by intros ?%Hc).
      destruct (IH (delete h m) ({[h']} ∪ c) (delete h m') ({[h']} ∪ c')) as [IH1 IH2]; [|done|split; [|lia]].
      { apply Hdel. intros x Hx. destruct (Hsame x Hx). set_solver. }
      intros Hs. enough (would_recv l (delete h m) ({[h']} ∪ c) ≤ would_recv (filter others l) (delete h m') ({[h']} ∪ c')) by lia.
      apply IH1, Hsp; [|done]. set_solver.
  - destruct (m !! h) as [h'|] eqn:Hh; [|by apply IH].
    assert (∀ d, (∀ x, others x → x ∈ d ↔ x ∈ c) → same_others (delete h m) d m' c') as Hdel.
    { intros d Hd x Hx. destruct (Hsame x Hx) as [Hmx Hcx]. split.
      - rewrite lookup_delete_ne by (intros ->; done). done.
      - rewrite Hd by done. done. }
    assert (¬ others h') as Ho'.
    { unfold others in *. destruct Hriv as [Hr1 Hr2]. intros [Hn1 Hn2].
      destruct (decide (h = h1)) as [->|]; [by apply Hr1 in Hh|].
      destruct (decide (h = h2)) as [->|]; [by apply Hr2 in Hh|]. tauto. }
    destruct (decide (h ∈ c)) as [Hin|Hin].
    + destruct (IH (delete h m) (c ∖ {[h]}) m' c') as [IH1 IH2]; [|done|split; [|done]].
      { apply Hdel. intros x Hx. assert (x ≠ h) by congruence. set_solver. }
      intros Hs. apply IH1. intros x Hx [y [Hne Hy]%lookup_delete_Some].
      assert (x ∈ c) by (apply Hs; [done|by exists y]). set_solver.
    + split; [intros Hs; exfalso; apply Hin, Hs; [done|by exists h']|].
      destruct (IH (delete h m) ({[h']} ∪ c) m' c') as [IH1 _]; [|done|].
      { apply Hdel. intros x Hx. assert (x ≠ h') by congruence. set_solver. }
      enough (would_recv l (delete h m) ({[h']} ∪ c) ≤ would_recv (filter others l) m' c') by lia.
      apply IH1. intros x Hx [y [Hne Hy]%lookup_delete_Some]. apply elem_of_union_l, elem_of_singleton.
      unfold others in *. destruct Hriv as [Hr1 Hr2].
      assert (x = h1 ∨ x = h2) as [->| ->] by (destruct (decide (x = h1)), (decide (x = h2)); tauto).
      * assert (h = h2) as -> by (destruct (decide (h = h1)), (decide (h = h2)); subst; tauto).
        by apply Hr2 in Hh.
      * assert (h = h1) as -> by (destruct (decide (h = h1)), (decide (h = h2)); subst; tauto).
        by apply Hr1 in Hh.
Qed.

(** A new pair makes room for one more. *)
Lemma would_recv_pair l m c :
  would_recv l (<[h2 := h1]> (<[h1 := h2]> m)) c ≤ 1 + would_recv (filter others l) m c.
Proof.
  apply would_recv_others.
  - intros x [Hx1 Hx2]. by rewrite !lookup_insert_ne.
  - split; intros x; [destruct (decide (h1 = h2)) as [->|]|]; rewrite ?lookup_insert_eq; [congruence| |congruence].
    rewrite lookup_insert_ne by done. rewrite lookup_insert_eq. congruence.
Qed.
End Pair.

Section Flight.
Context `{Externals} `{!Bincode BitcoinTxn} `{!Bincode AvalancheTxn} `{!Bincode (list Hash)}
  `{BuildProfile} `{HashOrder} `{Ln}.
Implicit Types (s : AvalancheFlowGen) (k : N).

(** Rivals are in flight, no more pairs can be received than were sent, and the
    draws left bound the pairs still to be sent ([k]: draws made for a pair not
    recorded yet). *)
Record flight_ok k s : Prop := {
  fl_sub : dom (in_flight_conflict s) ⊆ dom (af_in_flight s);
  fl_recv : ∀ l, conflicts_recv s + would_recv l (in_flight_conflict s) (conflict_set s) ≤ conflicts_sent s;
  fl_room : conflicts_sent s + N.of_nat (length (af_draws s)) + k < two64;
}.

Lemma flight_weaken k k' s : k' ≤ k → flight_ok k s → flight_ok k' s.
Proof. intros Hk [? ? ?]. split; [done|done|lia]. Qed.

Lemma flight_zero k s : flight_ok k s → flight_ok 0 s.
Proof. apply flight_weaken. lia. Qed.

(** [flows i j m]: [m] keeps the invariant, [i] draws to spare before and [j] after. *)
Definition flows {A : Type} (i j : N) (m : AF A) : Prop :=
  ∀ s, flight_ok i s → wlp m (λ _, flight_ok j) (flight_ok 0) s.

Lemma flows_ret {A : Type} (a : A) i : flows i i (mret a).
Proof. intros s Hs. by apply wlp_ret. Qed.
Lemma flows_out_of_fuel {A : Type} i j : flows i j (out_of_fuel (A:=A)).
Proof. intros s Hs. apply wlp_out_of_fuel. by eapply flight_zero. Qed.
Lemma flows_gets {A : Type} (f : AvalancheFlowGen → A) i : flows i i (gets f).
Proof. intros s Hs. by apply wlp_gets. Qed.
Lemma flows_lift {A : Type} (r : res A) i : flows i i (lift_res r).
Proof. intros s Hs. apply wlp_lift; [done|by eapply flight_zero]. Qed.
Lemma flows_unwrap {A : Type} (o : option A) i : flows i i (unwrap o).
Proof. intros s Hs. apply wlp_unwrap; [done|by eapply flight_zero]. Qed.
Lemma flows_assert b i : flows i i (massert b).
Proof. intros s Hs. apply wlp_assert; [done|by eapply flight_zero]. Qed.
Lemma flows_modify f i j : (∀ s, flight_ok i s → flight_ok j (f s)) → flows i j (modify f).
Proof. intros Hf s Hs. apply wlp_modify. by apply Hf. Qed.

Lemma flows_bind {A B : Type} i j k (m : AF A) (r : A → AF B) :
  flows i j m → (∀ a, flows j k (r a)) → flows i k (m ≫= r).
Proof.
  intros Hm Hr s Hs. apply wlp_bind. eapply wlp_mono; [by apply Hm| |done].
  intros a s' Hs'. by apply Hr.
Qed.

Lemma flows_weaken {A : Type} i j j' (m : AF A) : flows i j m → j' ≤ j → flows i j' m.
Proof.
  intros Hm Hj s Hs. eapply wlp_mono; [by apply Hm| |done].
  intros a s'. by apply flight_weaken.
Qed.

Lemma flows_insert h now i : flows i i (af_in_flight_insert h now).
Proof. apply flows_modify. intros s [? ? ?]. split; [cbn; set_solver|done|done]. Qed.

Create HintDb flowsdb.
#[local] Hint Resolve flows_ret flows_out_of_fuel flows_gets flows_lift flows_unwrap flows_assert
  flows_insert : flowsdb.

(** What leaves the pairs and the draws alone. *)
#[local] Hint Extern 1 (flows _ _ (modify _)) =>
  apply flows_modify; intros ? [? ? ?]; split; by repeat case_match : flowsdb.

Ltac flows_auto :=
  repeat lazymatch goal with
  | |- flows _ _ (_ ≫= _) => eapply flows_bind; [|intros ?]
  | |- flows _ _ (let '(_, _) := ?p in _) => destruct p
  | |- flows _ _ (match ?b with _ => _ end) => destruct b
  | |- flows _ ?j _ => first [is_evar j; solve [eauto with flowsdb]
                             |eapply flows_weaken; [solve [eauto with flowsdb]|lia]]
  end.

(** A draw pays for a pair. *)
Lemma flows_draw i : flows i (i + 1) af_draw.
Proof.
  intros s Hs. unfold af_draw. wlp_step. wlp_step. destruct (af_draws s) as [|d ds] eqn:Hd.
  { apply wlp_out_of_fuel. by eapply flight_zero. }
  wlp_steps. destruct Hs as [? ? Hr]. split; [done|done|]. rewrite Hd in Hr. cbn in *. lia.
Qed.
#[local] Hint Resolve flows_draw : flowsdb.

Lemma flows_index len i : flows i (i + 1) (af_index len).
Proof. unfold af_index. flows_auto. Qed.
#[local] Hint Resolve flows_index : flowsdb.

Lemma flows_rate i : flows i i af_rate.
Proof. unfold af_rate. flows_auto. Qed.

Lemma flows_receiver accounts x i : flows i (i + 1) (af_receiver accounts x).
Proof. unfold af_receiver. flows_auto. Qed.

Lemma flows_payment sender h receiver out rem i : flows i i (af_payment sender h receiver out rem).
Proof. unfold af_payment. flows_auto. Qed.

Lemma flows_pair h1 h2 now i : flows (i + 1) i (af_record_pair h1 h2 now).
Proof.
  intros s [Hsub Hrecv Hroom]. unfold af_record_pair, af_in_flight_insert.
  do 10 wlp_step.
  match goal with |- context [u64_add ?x 1] => change x with (conflicts_sent s) end.
  rewrite u64_add_ok by lia. apply wlp_bind, (wlp_ret (conflicts_sent s + 1)), wlp_modify.
  split; cbn -[N.add would_recv] in *.
  - set_solver.
  - intros l. specialize (Hrecv (filter (others h1 h2) l)).
    pose proof (would_recv_pair h1 h2 l (in_flight_conflict s) (conflict_set s)). lia.
  - lia.
Qed.
#[local] Hint Resolve flows_rate flows_receiver flows_payment flows_pair : flowsdb.

Lemma flows_next_payment now batch i : flows i i (af_next_payment now batch).
Proof. unfold af_next_payment. flows_auto. Qed.

Lemma flows_conflict_source now batch i : flows i i (af_conflict_source now batch).
Proof. unfold af_conflict_source. flows_auto. Qed.

Lemma flows_extend accounts x h value i : flows i (i + 1) (af_extend accounts x h value).
Proof. unfold af_extend. flows_auto. Qed.
#[local] Hint Resolve flows_next_payment flows_conflict_source flows_extend : flowsdb.

Lemma flows_extend_pair n now accounts c1 c2 value : ∀ i p1 p2 batch,
  flows i i (af_extend_pair n now accounts c1 c2 value p1 p2 batch).
Proof. induction n as [|n IH]; intros i p1 p2 batch; cbn [af_extend_pair]; flows_auto. Qed.
#[local] Hint Resolve flows_extend_pair : flowsdb.

Lemma flows_next_conflict now batch i : flows i i (af_next_conflict now batch).
Proof. unfold af_next_conflict. flows_auto. Qed.
#[local] Hint Resolve flows_next_conflict : flowsdb.

Lemma flows_fill fuel now size i : ∀ cur batch, flows i i (af_fill fuel now size cur batch).
Proof. induction fuel as [|fuel IH]; intros cur batch; cbn [af_fill]; flows_auto. Qed.
#[local] Hint Resolve flows_fill : flowsdb.

Lemma flows_next_txn_batch now u i : flows i i (af_next_txn_batch now u).
Proof. unfold af_next_txn_batch. flows_auto. Qed.

Lemma flows_grants l i : flows i i (af_grants l).
Proof. induction l as [|[client [idx pk]] l IH]; cbn [af_grants]; unfold af_grant; flows_auto. Qed.
#[local] Hint Resolve flows_next_txn_batch flows_grants : flowsdb.

Lemma would_recv_ext l : ∀ m c c',
  (∀ x, is_Some (m !! x) → x ∈ c ↔ x ∈ c') → would_recv l m c = would_recv l m c'.
Proof.
  induction l as [|h l IH]; intros m c c' Hc; [done|]. cbn [would_recv].
  destruct (m !! h) as [h'|] eqn:Hh; [|by apply IH].
  assert (∀ x, is_Some (delete h m !! x) → x ≠ h ∧ (x ∈ c ↔ x ∈ c')) as Hd.
  { intros x [y [Hne Hy]%lookup_delete_Some]. split; [done|]. apply Hc. by exists y. }
  destruct (decide (h ∈ c)) as [Hin|Hin].
  - rewrite decide_True by (apply Hc; [by exists h'|done]). apply IH. intros x [? ?]%Hd. set_solver.
  - rewrite decide_False by (rewrite <- Hc by (by exists h'); done). f_equal. apply IH.
    intros x [? ?]%Hd. set_solver.
Qed.

Lemma flows_record_commit now txn i : flows i i (af_record_commit now txn).
Proof.
  intros s Hs. unfold af_record_commit. wlp_step. apply wlp_lift; [intros h _|by eapply flight_zero].
  wlp_step. wlp_step. apply wlp_bind.
  apply (wlp_mono _ (λ _ s', flight_ok i (s' <| af_in_flight := af_in_flight s |>) ∧
    dom (af_in_flight s) ⊆ {[h]} ∪ dom (af_in_flight s')) _ (λ _, False) _ s); [| |done].
  { destruct (af_in_flight s !! h) as [t|] eqn:Ht; wlp_steps.
    - destruct Hs as [? ? ?]. split; [done|]. cbn. rewrite dom_delete_L. intros x Hx.
      destruct (decide (x = h)); set_solver.
    - destruct Hs as [? ? ?]. split; [done|set_solver]. }
  clear Hs. intros _ s' [[Hsub Hrecv Hroom] Hdom]. cbn in Hsub, Hrecv, Hroom.   (* the rival of [h], if it is still in flight *)
  do 2 wlp_step. destruct (in_flight_conflict s' !! h) as [h'|] eqn:Hh.
  - assert (dom (delete h (in_flight_conflict s')) ⊆ dom (af_in_flight s')) as Hsub'.
    { rewrite dom_delete_L. set_solver. }
    assert (∀ l, conflicts_recv s' + would_recv (h :: l) (in_flight_conflict s') (conflict_set s') ≤ conflicts_sent s')
      as Hrecv' by (intros l; apply Hrecv).
    cbn [would_recv] in Hrecv'. rewrite Hh in Hrecv'.
    do 2 wlp_step. destruct (decide (h ∈ conflict_set s')) as [Hin|Hin].
    + assert (∀ l, would_recv l (delete h (in_flight_conflict s')) (conflict_set s') =
                   would_recv l (delete h (in_flight_conflict s')) (conflict_set s' ∖ {[h]})) as Hext.
      { intros l. apply would_recv_ext. intros x [y [Hne Hy]%lookup_delete_Some]. set_solver. }
      wlp_steps; split; cbn -[N.add would_recv]; try done; try lia.
      intros l. by rewrite Hext.
    + specialize (Hrecv' []) as Hnil. cbn [would_recv] in Hnil.
      rewrite u64_add_ok by lia. apply wlp_bind, (wlp_ret (conflicts_recv s' + 1)), wlp_modify.
      split; cbn -[N.add would_recv]; [done| |lia]. intros l. specialize (Hrecv' l). lia.
  - wlp_steps. split; [|done|done]. cbn. intros x Hx. assert (x ≠ h); [|set_solver].
    intros ->. apply elem_of_dom in Hx as [y Hy]. congruence.
Qed.

Lemma flows_txn_committed now node txns height i : flows i i (af_txn_committed now node txns height).
Proof.
  unfold af_txn_committed. flows_auto.
  intros s Hs. apply (wlp_mfor (λ _, flight_ok i)); [|done]. intros txn txns' s'. apply flows_record_commit.
Qed.

Lemma flows_setup i : flows i i af_setup_txns.
Proof. unfold af_setup_txns. flows_auto. Qed.

Lemma flows_get_stats debug i : flows i i (af_get_stats debug).
Proof. unfold af_get_stats. flows_auto. Qed.

(** ** The generator as the client runs it *)

Inductive af_call :=
| AFSetup
| AFBatch (now : Instant) (u : f64)
| AFCommitted (now : Instant) (node : NodeId) (txns : list Txn) (height : N)
| AFStats (debug : bool).

(** The state a call leaves, whatever its outcome. *)
Definition af_after (s : AvalancheFlowGen) (c : af_call) : AvalancheFlowGen :=
  match c with
  | AFSetup => (af_setup_txns s).2
  | AFBatch now u => (af_next_txn_batch now u s).2
  | AFCommitted now node txns height => (af_txn_committed now node txns height s).2
  | AFStats debug => (af_get_stats debug s).2
  end.

Lemma flows_state {A : Type} (m : AF A) i s : flows i i m → flight_ok i s → flight_ok 0 (m s).2.
Proof.
  intros Hm Hs. apply (wlp_state m (flight_ok 0)). eapply wlp_mono; [by apply Hm| |done].
  intros a s'. apply flight_zero.
Qed.

Lemma after_flows s c : flight_ok 0 s → flight_ok 0 (af_after s c).
Proof.
  destruct c; cbn [af_after]; apply flows_state;
    [apply flows_setup|apply flows_next_txn_batch|apply flows_txn_committed|apply flows_get_stats].
Qed.

Lemma run_flows cs : ∀ s, flight_ok 0 s → flight_ok 0 (foldl af_after s cs).
Proof. induction cs as [|c cs IH]; intros s Hs; [done|]. by apply IH, after_flows. Qed.

Lemma new_flows id clients num_accounts max_inflight freq rate crypto now draws rates s :
  N.of_nat (length draws) < two64 →
  af_new id clients num_accounts max_inflight freq rate crypto now draws rates = Ok s → flight_ok 0 s.
Proof.
  intros Hd Hs. unfold af_new in Hs. repeat case_match; simplify_eq. split; cbn; [set_solver| |lia].
  intros l. assert (would_recv l ∅ ∅ = 0) as ->; [|lia].
  induction l as [|h l IH]; [done|]. cbn [would_recv]. by rewrite lookup_empty.
Qed.

(** C40: whatever an Avalanche client does from its creation (grants, batches,
    commit reports from any nodes, of any transactions and in any order, duplicates
    included, statistics, and errors on the way), [get_inflight_count] does not
    underflow: the transactions in flight less those with a rival, plus the pairs
    sent less the pairs of which one side was received, is a number, so neither the
    pacing of the batches nor the statistics panic on it. *)
Theorem inflight_count_never_underflows id clients num_accounts max_inflight freq rate crypto now draws rates s0 cs :
  N.of_nat (length draws) < two64 →
  af_new id clients num_accounts max_inflight freq rate crypto now draws rates = Ok s0 →
  let s := foldl af_after s0 cs in
  N.of_nat (size (af_in_flight s)) + conflicts_sent s < two64 →
  ∃ n, get_inflight_count s = Ok n ∧
    n + N.of_nat (size (in_flight_conflict s)) + conflicts_recv s =
      N.of_nat (size (af_in_flight s)) + conflicts_sent s ∧
    conflicts_recv s ≤ conflicts_sent s.
Proof.
  intros Hd Hnew s Hroom.
  assert (flight_ok 0 s) as [Hsub Hrecv _] by (eapply run_flows, new_flows; done).
  apply subseteq_size in Hsub. rewrite !size_dom in Hsub. specialize (Hrecv []). cbn [would_recv] in Hrecv.
  unfold get_inflight_count. rewrite u64_sub_ok by lia. cbn. rewrite u64_add_ok by lia. cbn.
  rewrite u64_sub_ok by lia. eexists. split; [done|]. lia.
Qed.
End Flight.

(** ** Witness: two clients, four accounts, a batch of pairs, one side committed *)

#[local] Existing Instances sample_externals sample_bincode_btc sample_profile canonical_order.
#[local] Instance flow_bincode_avax : Bincode AvalancheTxn := {|
  serialize := λ t, match t with
    | AGrant v r n => inl (3 :: n :: take 1 r)
    | ASend s ins r o rem _ => inl (2 :: default 0 (h ← head ins; mret (h mod 251)) :: take 1 r)
    | _ => inl []
    end;
  deserialize := λ _, inr (mkErr "not needed");
|}.
#[local] Instance flow_bincode_hashes : Bincode (list Hash) := {| serialize := inl; deserialize := inl |}.
#[local] Instance flow_ln : Ln := λ _, f64_zero.

(** [res] with a value. *)
Definition w_flow_get {A : Type} (r : res A) (a : A) : A := match r with Ok x => x | _ => a end.

Definition w_flow_draws : list N := N.of_nat <$> seq 0 400.
Definition w_flow_new : res AvalancheFlowGen :=
  af_new 0 [0; 1] 8 60 UNSET f64_one CSDummy 0 w_flow_draws (replicate 9 f64_zero).
Definition w_flow_s0 : AvalancheFlowGen :=
  w_flow_get w_flow_new (mkAvalancheFlowGen 0 0 0 0 f64_one 0 CSDummy [] ∅ ∅ ∅ 0 ∅ [] ∅ 0 0 0 ∅ [] ∅ [] []).
Definition w_flow_sent : list Txn :=
  snd <$> w_flow_get (af_next_txn_batch 5 f64_zero (af_setup_txns w_flow_s0).2).1 [].
Definition w_flow_calls : list af_call :=
  [AFSetup; AFBatch 5 f64_zero; AFCommitted 9 0 (take 9 w_flow_sent) 1;
   AFCommitted 9 1 (take 9 w_flow_sent) 1; AFStats true].

Definition w_flow_end : AvalancheFlowGen := foldl af_after w_flow_s0 w_flow_calls.

(** Of the pairs sent, both sides of two are committed. *)
Example w_flow_counts :
  (size (af_in_flight w_flow_end), size (in_flight_conflict w_flow_end), conflicts_sent w_flow_end,
    conflicts_recv w_flow_end, conflicts_committed w_flow_end) =
  (200%nat, 200%nat, 102, 2, 2).
Proof. by vm_compute. Qed.

Lemma inflight_count_never_underflows_witness :
  ∃ n, get_inflight_count w_flow_end = Ok n ∧
    n + N.of_nat (size (in_flight_conflict w_flow_end)) + conflicts_recv w_flow_end =
      N.of_nat (size (af_in_flight w_flow_end)) + conflicts_sent w_flow_end ∧
    conflicts_recv w_flow_end ≤ conflicts_sent w_flow_end.
Proof.
  apply (inflight_count_never_underflows 0 [0; 1] 8 60 UNSET f64_one CSDummy 0 w_flow_draws
    (replicate 9 f64_zero) w_flow_s0 w_flow_calls); by vm_compute.
Defined.
