(* ===== verification/Clients.v ===== *)
(** * What a client makes, at the nodes it sends it to

    Shared by ClientProps.v (Bitcoin) and AvaClientProps.v (Avalanche): signatures
    made with generated keys, and transactions each justified by those made before
    it, which a validator takes in whatever order they reach it. *)

From S2P Require Import Prelude F64 Protocol Peers TxnValidation TxnValProps.
Local Open Scope N_scope.

(** ** Signatures *)

Section Signing.
Context `{Externals}.

(** A signature made with a generated key verifies (k256). *)
Class SignatureLaws : Prop :=
  verify_sign : ∀ seed b sg, k256_sign (k256_gen_key_pair seed).2 b = inl sg →
    k256_verify (k256_gen_key_pair seed).1 b sg = inl true.

Lemma scheme_verifies `{!SignatureLaws} cs seed b sg :
  sign cs (gen_key_pair cs seed).2 b = Ok sg →
  ∃ d, verify cs (gen_key_pair cs seed).1 b sg.1 = Ok (true, d).
Proof.
  destruct cs; cbn; [intros _; eauto..|]. unfold ecdsa_sign, ecdsa_verify. intros Hs.
  destruct (k256_sign _ b) as [sg'|e] eqn:Hk; [|done]. cbn in Hs. injection Hs as <-. cbn.
  rewrite (verify_sign _ _ _ Hk). cbn. eauto.
Qed.

(** Key pairs that were generated. *)
Definition generated (crypto : CryptoScheme) (kp : PubKey * PrivKey) : Prop :=
  ∃ seed, kp = gen_key_pair crypto seed.

Lemma generated_verifies `{!SignatureLaws} crypto kp b sg :
  generated crypto kp → sign crypto kp.2 b = Ok sg → ∃ d, verify crypto kp.1 b sg.1 = Ok (true, d).
Proof. intros [seed ->]. apply scheme_verifies. Qed.
End Signing.

(** ** Transactions justified by those before them *)

(** [J made t]: those of [made] justify [t]. *)
Inductive chain_made (J : list Txn → Txn → Prop) : list Txn → Prop :=
| chain_nil : chain_made J []
| chain_snoc made t : chain_made J made → J made t → chain_made J (made ++ [t]).

Lemma chain_justified (J : list Txn → Txn → Prop) made t :
  chain_made J made → t ∈ made → ∃ before after, made = before ++ t :: after ∧ J before t.
Proof.
  induction 1 as [|made t' Hmade IH Hj]; [by intros ?%elem_of_nil|].
  intros [Ht| ->%list_elem_of_singleton]%elem_of_app; [|by exists made, []].
  destruct (IH Ht) as (before & after & -> & Hb). exists before, (after ++ [t']). by rewrite <- app_assoc.
Qed.

Lemma chain_app (J : list Txn → Txn → Prop) more : ∀ made,
  chain_made J made → (∀ pre t post, more = pre ++ t :: post → J (made ++ pre) t) →
  chain_made J (made ++ more).
Proof.
  induction more as [|t more IH]; intros made Hmade Hj; [by rewrite app_nil_r|].
  rewrite cons_middle, app_assoc. apply IH.
  - apply chain_snoc; [done|]. rewrite <- (app_nil_r made). by eapply (Hj []).
  - intros pre t' post ->. rewrite <- app_assoc. by apply (Hj (t :: pre) t' post).
Qed.

Section Validated.
Context `{Externals} `{!Bincode BitcoinTxn} `{!Bincode AvalancheTxn} `{!Bincode (list Hash)}
  `{HashOrder} {C : TxnCheck} {ins : Txn → list Hash} {L : TxnCheckLaws C ins}.
Context (J : list Txn → Txn → Prop).

(** All of [made] is in the pool. *)
Definition pooled (made : list Txn) (pool : Pool) : Prop :=
  ∀ t h, t ∈ made → txn_compute_id t = Ok h → pool !! h = Some (t, mkTxnCtx h).

(** What is justified is valid where its justification is in the pool. *)
Hypothesis J_valid : ∀ made t pool, pooled made pool → J made t → check_txn pool t = Ok (inl true).

Lemma chain_validated made hist val txn_of :
  chain_made J made → val_reach hist val →
  (∀ x, x ∈ hist → txn_of (tc_id x.2.2) = x.2.1) →
  (∀ t, t ∈ made → ∃ src h, txn_compute_id t = Ok h ∧ (src, (t, mkTxnCtx h)) ∈ hist) →
  pooled made (tv_pool val).
Proof.
  intros Hmade Hval Hids. induction Hmade as [|made t Hmade IH Hj]; intros Hrec t' h Ht' Hid.
  { by apply elem_of_nil in Ht'. }
  assert (pooled made (tv_pool val)) as Hpool by (apply IH; intros t1 Ht1; apply Hrec; set_solver).
  apply elem_of_app in Ht' as [Ht'| ->%list_elem_of_singleton]; [by apply Hpool|].
  destruct (Hrec t) as (src & h' & Hid' & Hin); [set_solver|]. assert (h' = h) as -> by congruence.
  apply (val_reach_valid txn_of hist val (src, (t, mkTxnCtx h))); [done|done|done|]. by eapply J_valid.
Qed.
End Validated.
