(* ===== verification/ClientProps.v ===== *)
(** * A Bitcoin client and the nodes it sends to

    The transactions the generator of FlowGen.v makes, against the validator of
    TxnValidation.v: each spends an output of an earlier one that belongs to its
    sender, so whatever the order in which they reach the validator, they are validated. *)

From S2P Require Import Prelude F64 Protocol Peers Samples TxnValidation TxnValProps Clients FlowGen.
Local Open Scope N_scope.

(** ** The client as it runs *)

Inductive bf_call :=
| BFSetup
| BFBatch (now : Instant) (u : f64)
| BFCommitted (now : Instant) (node : NodeId) (txns : list Txn) (height : N)
| BFStats.

Section Client.
Context `{Externals} `{!Bincode BitcoinTxn} `{!Bincode AvalancheTxn} `{!Bincode (list Hash)}
  `{BuildProfile} `{HashOrder} `{Ln}.

(** A call, with the transactions it returns. *)
Definition bf_run (c : bf_call) : BF (list (ClientId * Txn)) :=
  match c with
  | BFSetup => bf_setup_txns
  | BFBatch now u => bf_next_txn_batch now u
  | BFCommitted now node txns height => bf_txn_committed now node txns height ;; mret []
  | BFStats => bf_get_stats ;; mret []
  end.

(** The states of a client whose calls return, with what it has made so far. *)
Inductive bf_reach (s0 : BitcoinFlowGen) : list Txn → BitcoinFlowGen → Prop :=
| bf_reach_new : bf_reach s0 [] s0
| bf_reach_call made s c out s' :
    bf_reach s0 made s → bf_run c s = (Ok out, s') → bf_reach s0 (made ++ out.*2) s'.

(** ** What is made *)

(** An output of [made] that [pk] may spend. *)
Definition funded (made : list Txn) (pk : PubKey) (h : Hash) (v : N) : Prop :=
  v ≤ 100 ∧ ∃ t, TBitcoin t ∈ made ∧ txn_compute_id (TBitcoin t) = Ok h ∧ btc_owned pk t = Some v.

(** A grant, or a signed payment of such an output. *)
Definition justified (crypto : CryptoScheme) (made : list Txn) (t : Txn) : Prop :=
  (∃ d, txn_validate crypto t = Ok (true, d)) ∧
  match t with
  | TBitcoin (BGrant _ _) => True
  | TBitcoin (BSend sender [h] _ out rem _ _ _ _) => funded made sender h (out + rem)
  | _ => False
  end.

Lemma funded_app made made' pk h v : funded made pk h v → funded (made ++ made') pk h v.
Proof. intros (? & t & ? & ? & ?). split; [done|]. exists t. split; [set_solver|done]. Qed.

(** The accounts of a client: generated, and distinct. *)
Definition accounts_ok (crypto : CryptoScheme) (accs : list (PubKey * PrivKey)) : Prop :=
  NoDup accs.*1 ∧ Forall (generated crypto) accs.

Definition utxos_ok (made : list Txn) (m : gmap PubKey (list (Hash * N))) : Prop :=
  ∀ pk q h v, m !! pk = Some q → (h, v) ∈ q → funded made pk h v.

Record client_ok (crypto : CryptoScheme) (made : list Txn) (s : BitcoinFlowGen) : Prop := {
  co_crypto : bf_crypto s = crypto;
  co_accounts : map_Forall (λ _, accounts_ok crypto) (bf_accounts s);
  co_utxos : map_Forall (λ _, utxos_ok made) (bf_utxos s);
  co_made : chain_made (justified crypto) made;
}.

Lemma utxos_ok_app made made' m : utxos_ok made m → utxos_ok (made ++ made') m.
Proof. intros Hm pk q h v Hq Hin. apply funded_app. by eapply Hm. Qed.

Lemma utxos_ok_push made m pk q h v :
  utxos_ok made m → (∀ h' v', (h', v') ∈ q → funded made pk h' v') → funded made pk h v →
  utxos_ok made (<[pk := q ++ [(h, v)]]> m).
Proof.
  intros Hm Hq Hf pk' q' h' v' [[<- <-]|[Hne Hq']]%lookup_insert_Some Hin; [|by eapply Hm].
  apply elem_of_app in Hin as [Hin|Hin%list_elem_of_singleton]; [by apply Hq|by simplify_eq].
Qed.

Lemma utxos_ok_tail made m pk u us :
  utxos_ok made m → m !! pk = Some (u :: us) → utxos_ok made (<[pk := us]> m).
Proof.
  intros Hm Hq pk' q' h' v' [[<- <-]|[Hne Hq']]%lookup_insert_Some Hin; [|by eapply Hm].
  eapply Hm; [done|]. by right.
Qed.

(** Adding a justified transaction, with any new sets of outputs it funds. *)
Lemma client_ok_snoc crypto made t s :
  client_ok crypto made s → justified crypto made t → client_ok crypto (made ++ [t]) s.
Proof.
  intros [? ? Hu ?] Hj. split; [done|done| |by apply chain_snoc].
  intros node m Hm. apply utxos_ok_app. by eapply Hu.
Qed.

Lemma client_ok_utxos crypto made s node m :
  client_ok crypto made s → utxos_ok made m →
  client_ok crypto made (s <| bf_utxos ::= <[node := m]> |>).
Proof. intros [? ? ? ?] Hm. split; try done. cbn. by apply map_Forall_insert_2. Qed.

(** What reads and writes neither accounts nor outputs. *)
Definition client_data (s : BitcoinFlowGen) := (bf_crypto s, bf_accounts s, bf_utxos s).
Lemma client_ok_data crypto made s s' :
  client_data s' = client_data s → client_ok crypto made s → client_ok crypto made s'.
Proof. unfold client_data. intros [= Hc Ha Hu] [? ? ? ?]. by split; rewrite ?Hc, ?Ha, ?Hu. Qed.

(** ** Grants *)

Lemma grant_justified crypto made v pk : justified crypto made (TBitcoin (BGrant v pk)).
Proof. split; [|done]. cbn. eauto. Qed.

Lemma bf_grant_ok crypto made node account s t s' :
  client_ok crypto made s → bf_grant node account s = (Ok t, s') → client_ok crypto (made ++ [t.2]) s'.
Proof.
  intros Hs Heq. unfold bf_grant in Heq. m_inv. cbn [snd].
  match goal with Hid : txn_compute_id _ = Ok ?x |- _ => rename x into h, Hid into Hid end.
  pose proof (client_ok_snoc _ _ _ _ Hs (grant_justified crypto made 100 account)) as Hs'.
  set (made' := made ++ _) in *.
  assert (utxos_ok made' (default ∅ (bf_utxos s !! node))) as Hm.
  { destruct (bf_utxos s !! node) as [m|] eqn:Hm; [by eapply (co_utxos _ _ _ Hs')|]. by intros ? ? ? ? ?. }
  refine (client_ok_data _ _ _ _ _ (client_ok_utxos _ _ _ node _ Hs' (utxos_ok_push _ _ account _ h 100 Hm _ _)));
    [done| |].
  - intros h' v' Hin. destruct (default ∅ (bf_utxos s !! node) !! account) as [q|] eqn:Hq; [by eapply Hm|].
    by apply elem_of_nil in Hin.
  - split; [lia|]. eexists. split_and!; [|done|cbn; by rewrite decide_True]. set_solver.
Qed.

Lemma bf_grants_ok crypto l : ∀ made s out s',
  client_ok crypto made s → bf_grants l s = (Ok out, s') → client_ok crypto (made ++ out.*2) s'.
Proof.
  induction l as [|[node account] l IH]; intros made s out s' Hs Heq; cbn [bf_grants] in Heq; m_inv.
  - by rewrite app_nil_r.
  - rewrite fmap_cons, cons_middle, app_assoc. eapply IH; [|done]. by eapply bf_grant_ok.
Qed.

(** ** Payments *)

(** The sender has an output, and the receiver is another account. *)
Lemma choose_sender_ok crypto accs utxos : accounts_ok crypto accs → ∀ draws sk rpk u us draws',
  choose_sender accs utxos draws = Ok ((sk, rpk, u, us), draws') →
  sk ∈ accs ∧ sk.1 ≠ rpk ∧ utxos !! sk.1 = Some (u :: us).
Proof.
  intros [Hnd _]. fix IH 1. intros [|r1 [|r2 draws]] sk rpk u us draws' Heq; [done|done|].
  cbn [choose_sender] in Heq. res_inv.
  repeat match goal with Hn : nth _ _ = Ok _ |- _ => apply nth_ok in Hn end.
  destruct (utxos !! x2.1) as [[|u' us']|] eqn:Hu; [by eapply IH|simplify_eq|done].
  split_and!; [by eapply list_elem_of_lookup_2| |done].
  intros Heq. apply (skip_avoids x x1), N2Nat.inj. eapply NoDup_lookup; [done| |];
    rewrite list_lookup_fmap; [by rewrite H7|by rewrite H6, <- Heq].
Qed.

Lemma bf_push_ok crypto made node pk h v s s' r :
  client_ok crypto made s → funded made pk h v → bf_push node pk h v s = (Ok r, s') →
  client_ok crypto made s'.
Proof.
  intros Hs Hf Heq. unfold bf_push in Heq. destruct (0 <? v)%N; m_inv; [|done].
  match goal with Hm : bf_utxos s !! node = Some ?m, Hq : ?m !! pk = Some ?q |- _ =>
    refine (client_ok_data _ _ _ _ _ (client_ok_utxos _ _ _ node _ Hs (utxos_ok_push _ m pk q h v _ _ Hf)));
      [done|by eapply (co_utxos _ _ _ Hs)|intros h' v' Hin; by eapply (co_utxos _ _ _ Hs _ _ Hm)] end.
Qed.

Lemma bf_draw_data s r s' : draw s = (Ok r, s') → client_data s' = client_data s.
Proof. unfold draw. intros Heq. m_inv. destruct (bf_draws s); m_inv; done. Qed.

(** A payment of an output of the sender, split between the receiver and itself. *)
Lemma payment_justified `{!SignatureLaws} crypto made accs sk h amount recver b sg :
  accounts_ok crypto accs → sk ∈ accs → funded made sk.1 h amount →
  serialize [h] = inl b → sign crypto sk.2 b = Ok sg →
  justified crypto made (TBitcoin (BSend sk.1 [h] recver (N.min amount 10)
    (amount - N.min amount 10) sg.1 400 1000000 true)).
Proof.
  intros [_ Hgen] Hin Hf Hb Hsg. rewrite Forall_forall in Hgen. specialize (Hgen _ Hin). split.
  - cbn [txn_validate btc_validate]. rewrite Hb. cbn. by eapply generated_verifies.
  - by replace (N.min amount 10 + (amount - N.min amount 10)) with amount by lia.
Qed.

(** The two outputs of a payment go to its two accounts. *)
Lemma payment_pushed crypto made node sender recver h amount sg id s r1 s1 r2 s2 :
  let t := TBitcoin (BSend sender [h] recver (N.min amount 10) (amount - N.min amount 10) sg 400 1000000 true) in
  client_ok crypto (made ++ [t]) s → txn_compute_id t = Ok id → sender ≠ recver → amount ≤ 100 →
  bf_push node sender id (amount - N.min amount 10) s = (Ok r1, s1) →
  bf_push node recver id (N.min amount 10) s1 = (Ok r2, s2) →
  client_ok crypto (made ++ [t]) s2.
Proof.
  intros t Hs Hid Hne Ha H1' H2'.
  eapply bf_push_ok; [eapply bf_push_ok; [done| |done]| |done]; (split; [lia|]);
    eexists; (split_and!; [|done|]; [set_solver|cbn]).
  - rewrite decide_False by (intros ->; done). by rewrite decide_True.
  - by rewrite decide_True.
Qed.

Lemma bf_next_txn_ok `{!SignatureLaws} crypto made now s t s' :
  client_ok crypto made s → bf_next_txn now s = (Ok t, s') → client_ok crypto (made ++ [t.2]) s'.
Proof.
  intros Hs Heq. unfold bf_next_txn in Heq. m_inv.
  match goal with Hd : draw _ = _, Ha : bf_accounts s !! _ = Some _, Hu : bf_utxos s !! _ = Some _,
    Hc : choose_sender _ _ _ = Ok _ |- _ =>
    apply bf_draw_data in Hd; apply (co_accounts _ _ _ Hs) in Ha as Haccs;
    apply (co_utxos _ _ _ Hs) in Hu as Hutxos; rename Hc into Hchoose, Hd into Hdata end.
  match type of Hchoose with _ = Ok ?x => destruct x as [[[[sk rpk] [h amount]] rest] ds'] end.
  apply (choose_sender_ok _ _ _ Haccs) in Hchoose as (Hin & Hne & Hq).
  pose proof (client_ok_data _ _ _ _ Hdata Hs) as Hs2.
  assert (funded made sk.1 h amount) as Hf by (eapply Hutxos; [done|by left]).
  m_inv. cbn [snd].
  repeat match goal with
  | Hb : of_result (serialize _) = Ok _ |- _ => destruct (serialize [h]) as [b|e] eqn:Hser; [|done]; injection Hb as <-
  | Hsg : sign _ _ _ = Ok _ |- _ => rewrite (co_crypto _ _ _ Hs) in Hsg;
      pose proof (payment_justified _ _ _ _ _ _ rpk _ _ Haccs Hin Hf Hser Hsg) as Hj; clear Hsg
  end.
  match goal with H1 : bf_push _ sk.1 _ _ _ = _, H2 : bf_push _ rpk _ _ _ = (_, ?s2) |- _ =>
    apply (client_ok_data _ _ s2); [done|]; refine (payment_pushed _ _ _ _ _ _ _ _ _ _ _ _ _ _ _ _ Hne _ H1 H2) end;
    [|done|by apply Hf].
  apply client_ok_snoc; [|done].
  refine (client_ok_data _ _ _ _ _ (client_ok_utxos _ _ _ _ _ Hs2 (utxos_ok_tail _ _ _ _ _ Hutxos Hq))). done.
Qed.

Lemma bf_next_txns_ok `{!SignatureLaws} crypto now n : ∀ made s out s',
  client_ok crypto made s → bf_next_txns now n s = (Ok out, s') → client_ok crypto (made ++ out.*2) s'.
Proof.
  induction n as [|n IH]; intros made s out s' Hs Heq; cbn [bf_next_txns] in Heq; m_inv.
  - by rewrite app_nil_r.
  - rewrite fmap_cons, cons_middle, app_assoc. eapply IH; [|done]. by eapply bf_next_txn_ok.
Qed.

(** Commit reports and statistics leave the accounts and the outputs alone. *)
Lemma committed_keeps now node txns height : keeps client_data (bf_txn_committed now node txns height).
Proof. unfold bf_txn_committed, bf_record_commit. keeps_auto. Qed.

Lemma stats_keep : keeps client_data bf_get_stats.
Proof. unfold bf_get_stats. keeps_auto. Qed.

Lemma client_ok_keeps {A : Type} crypto made (m : BF A) s r s' :
  keeps client_data m → m s = (r, s') → client_ok crypto made s → client_ok crypto made s'.
Proof. intros Hm Heq. apply client_ok_data. specialize (Hm s). by rewrite Heq in Hm. Qed.

Lemma bf_run_ok `{!SignatureLaws} crypto made c s out s' :
  client_ok crypto made s → bf_run c s = (Ok out, s') → client_ok crypto (made ++ out.*2) s'.
Proof.
  intros Hs Heq. destruct c as [|now u|now node txns height|]; cbn [bf_run] in Heq.
  - unfold bf_setup_txns in Heq. m_inv. by eapply bf_grants_ok.
  - unfold bf_next_txn_batch in Heq. m_inv.
    match goal with H1 : (if decide (_ = UNSET) then mret (bf_batch_size s) else _) _ = _, H2 : bf_next_txns _ _ _ = _,
      H3 : (if decide (_ = UNSET) then mret () else _) _ = _ |- _ =>
      eapply client_ok_keeps; [|exact H3|]; [destruct (decide _); keeps_auto|];
      eapply bf_next_txns_ok; [|exact H2]; eapply client_ok_keeps; [|exact H1|done]; destruct (decide _); keeps_auto end.
  - m_inv. rewrite app_nil_r. eapply client_ok_keeps; [|done|done]. apply committed_keeps.
  - m_inv. rewrite app_nil_r. eapply client_ok_keeps; [|done|done]. apply stats_keep.
Qed.

Lemma bf_reach_ok `{!SignatureLaws} crypto s0 made s :
  bf_reach s0 made s → client_ok crypto [] s0 → client_ok crypto made s.
Proof. induction 1; intros Hs0; [done|]. eapply bf_run_ok; eauto. Qed.

(** ** Making the accounts *)

(** New accounts hold nothing, and their keys are generated. *)
Definition fresh (crypto : CryptoScheme)
    (a : gmap ClientId (gmap PubKey (list (Hash * N))) * gmap ClientId (list (PubKey * PrivKey))) : Prop :=
  map_Forall (λ _ m, map_Forall (λ _ q, q = []) m) a.1 ∧
  map_Forall (λ _ l, Forall (generated crypto) l) a.2.

Lemma bf_add_accounts_fresh crypto id client n : ∀ i acc,
  fresh crypto acc → fresh crypto (bf_add_accounts crypto id client n i acc).
Proof.
  induction n as [|n IH]; intros i [us accs] [Hu Ha]; [done|]. cbn [bf_add_accounts].
  apply IH. split; cbn.
  - apply map_Forall_insert_2; [|done]. apply map_Forall_insert_2; [done|].
    destruct (us !! client) as [m|] eqn:Hm; [by apply (Hu client)|apply map_Forall_empty].
  - apply map_Forall_insert_2; [|done]. apply Forall_app. split; [|by repeat econstructor].
    destruct (accs !! client) as [l|] eqn:Hl; [by apply (Ha client)|done].
Qed.

Lemma bf_add_clients_fresh crypto id per_client clients : ∀ i acc,
  fresh crypto acc → fresh crypto (bf_add_clients crypto id per_client clients i acc).
Proof.
  induction clients as [|client clients IH]; intros i acc Hacc; [done|]. cbn [bf_add_clients].
  by apply IH, bf_add_accounts_fresh.
Qed.

Lemma bf_new_ok id clients num_accounts max_inflight freq crypto now draws :
  let s := bf_new id clients num_accounts max_inflight freq crypto now draws in
  map_Forall (λ _ accs, NoDup accs.*1) (bf_accounts s) → client_ok crypto [] s.
Proof.
  cbn zeta. unfold bf_new. intros Hnd.
  pose proof (bf_add_clients_fresh crypto id (accounts_per_client num_accounts clients) clients 0 (∅, ∅)) as Hf.
  destruct (bf_add_clients _ _ _ _ _ _) as [us accs]. destruct (batch_rate _ _ _) as [bs bq].
  destruct Hf as [Hu Ha]; [split; apply map_Forall_empty|]. cbn in *. split; cbn; [done| | |constructor].
  - intros client l Hl. split; [by eapply Hnd|by eapply Ha].
  - intros client m Hm pk q h v Hq Hin. rewrite (Hu _ _ Hm _ _ Hq) in Hin. by apply elem_of_nil in Hin.
Qed.

(** ** At a validator *)

(** A validator in whose pool is all of [made] takes what [made] justifies. *)
Lemma justified_valid crypto made t (pool : gmap Hash (Txn * TxnCtx)) :
  pooled made pool → justified crypto made t → btc_check pool t = Ok (inl true).
Proof.
  intros Hpool [_ Hj]. destruct t as [|[|sender [|h [|]] recver out rem sg sb rt sc|]|]; try done.
  destruct Hj as (Hv & t & Ht & Hid & Ho). cbn. rewrite (Hpool _ _ Ht Hid). cbn.
  rewrite Ho, u64_add_ok by (unfold two64; lia). cbn. rewrite u64_add_ok by (unfold two64; lia). cbn.
  by rewrite bool_decide_eq_true_2.
Qed.

(** C15: what a Bitcoin client makes, a validator takes. Whatever the random values,
    the pace and the commit reports, when the accounts of each client are distinct, every
    grant and payment a client's calls return is well signed; and any transaction
    validator that has been given them, in whatever order and batches, interleaved with
    whatever else, with each one's identifier its own, holds every one of them as
    validated. (Before its validator, a node drops a transaction it has first seen in a
    block: ThreadProps.v.) *)
Theorem client_txns_validated `{!SignatureLaws} id clients num_accounts max_inflight freq crypto now draws
    made s hist val txn_of :
  map_Forall (λ _ accs, NoDup accs.*1)
    (bf_accounts (bf_new id clients num_accounts max_inflight freq crypto now draws)) →
  bf_reach (bf_new id clients num_accounts max_inflight freq crypto now draws) made s →
  val_reach (C := btc_check) hist val →
  (∀ x, x ∈ hist → txn_of (tc_id x.2.2) = x.2.1) →
  (∀ t, t ∈ made → ∃ src h, txn_compute_id t = Ok h ∧ (src, (t, mkTxnCtx h)) ∈ hist) →
  ∀ t, t ∈ made →
    (∃ d, txn_validate crypto t = Ok (true, d)) ∧
    ∃ h, txn_compute_id t = Ok h ∧ tv_pool val !! h = Some (t, mkTxnCtx h).
Proof.
  intros Hnd Hreach Hval Hids Hrec t Ht.
  assert (chain_made (justified crypto) made) as Hmade by (eapply co_made, bf_reach_ok, bf_new_ok; done).
  split; [by destruct (chain_justified _ _ _ Hmade Ht) as (? & ? & _ & ? & _)|].
  destruct (Hrec t Ht) as (src & h & Hid & _). exists h. split; [done|].
  by apply (chain_validated (C := btc_check) (L := btc_check_laws) _ (justified_valid crypto) made hist val txn_of).
Qed.
End Client.

(** ** Witness: grants and a batch of payments, received in reverse order *)

#[local] Existing Instances sample_externals sample_profile canonical_order.
#[local] Instance client_bincode_btc : Bincode BitcoinTxn := {|
  serialize := λ t, match t with
    | BIncentive v r => inl (1 :: v :: r)
    | BSend s ins r o rem _ _ _ _ => inl (2 :: o :: rem :: s ++ ((λ h, h mod 251) <$> ins))
    | BGrant v r => inl (3 :: v :: r)
    end;
  deserialize := λ _, inr (mkErr "not needed");
|}.
#[local] Instance client_bincode_avax : Bincode AvalancheTxn := {|
  serialize := λ _, inl []; deserialize := λ _, inr (mkErr "not needed") |}.
#[local] Instance client_bincode_hashes : Bincode (list Hash) := {| serialize := inl; deserialize := inl |}.
#[local] Instance client_ln : Ln := λ _, f64_zero.
#[local] Instance sample_signatures : SignatureLaws.
Proof. intros seed b sg [= <-]. cbn. by rewrite bool_decide_eq_true_2. Qed.

Definition w_client_new : BitcoinFlowGen := bf_new 0 [0; 1] 4 3 UNSET CSECDSA 0 [0; 0; 0; 1; 1; 0; 0; 1; 0].
Definition w_client_out (c : bf_call) (s : BitcoinFlowGen) : list (ClientId * Txn) :=
  match (bf_run c s).1 with Ok out => out | _ => [] end.
Definition w_client_s1 : BitcoinFlowGen := (bf_run BFSetup w_client_new).2.
Definition w_client_s2 : BitcoinFlowGen := (bf_run (BFBatch 7 f64_zero) w_client_s1).2.
Definition w_client_made : list Txn :=
  (w_client_out BFSetup w_client_new).*2 ++ (w_client_out (BFBatch 7 f64_zero) w_client_s1).*2.

Definition w_client_id (t : Txn) : Hash := match txn_compute_id t with Ok h => h | _ => 0 end.
Definition w_client_recv (t : Txn) : Received := (5, (t, mkTxnCtx (w_client_id t))).
Definition w_client_hist : list Received := w_client_recv <$> reverse w_client_made.
Definition w_client_txn_of (h : Hash) : Txn :=
  default (TBitcoin (BGrant 0 [])) ((list_to_map ((λ t, (w_client_id t, t)) <$> w_client_made) : gmap Hash Txn) !! h).

Definition w_client_val : TxnVal := (validate (C := btc_check) 9 w_client_hist btc_val_new).2.

(** Seven transactions, all of them in the pool at the end. *)
Example w_client_counts :
  (length w_client_made, size (tv_pool w_client_val)) = (7%nat, 7%nat).
Proof. by vm_compute. Qed.

Lemma client_txns_validated_witness :
  Forall (λ t,
    (∃ d, txn_validate CSECDSA t = Ok (true, d)) ∧
    ∃ h, txn_compute_id t = Ok h ∧ tv_pool w_client_val !! h = Some (t, mkTxnCtx h)) w_client_made.
Proof.
  apply Forall_forall.
  apply (client_txns_validated 0 [0; 1] 4 3 UNSET CSECDSA 0 [0; 0; 0; 1; 1; 0; 0; 1; 0] w_client_made
    w_client_s2 w_client_hist _ w_client_txn_of).
  - apply (bool_decide_unpack _). by vm_compute.
  - apply (bf_reach_call _ ((w_client_out BFSetup w_client_new).*2) w_client_s1 (BFBatch 7 f64_zero)); [|by vm_compute].
    apply (bf_reach_call _ [] w_client_new BFSetup); [constructor|by vm_compute].
  - apply (val_reach_batch [] btc_val_new 9 w_client_hist
      match (validate (C := btc_check) 9 w_client_hist btc_val_new).1 with Ok out => out | _ => [] end);
      [constructor|by vm_compute].
  - apply Forall_forall. vm_compute. repeat constructor.
  - intros t Ht. exists 5, (w_client_id t). split.
    + revert t Ht. apply Forall_forall. vm_compute. repeat constructor.
    + unfold w_client_hist. apply (list_elem_of_fmap_2 w_client_recv). by apply elem_of_reverse.
Defined.
