(* ===== verification/AvaClientProps.v ===== *)
(** * An Avalanche client and the nodes it sends to

    The transactions the generator of AvaFlowGen.v makes (grants, payments, pairs of
    conflicting payments and the chains that extend them) against the validator of
    TxnValidation.v. The validator knows nothing of conflicts: both sides of a pair
    are validated, and which is committed is for the decision stage to settle. *)

From S2P Require Import Prelude F64 Protocol Peers Samples TxnValidation TxnValProps FlowGen AvaFlowGen Clients.
Local Open Scope N_scope.

(** ** The client as it runs *)

Inductive avc_call :=
| AVSetup
| AVBatch (now : Instant) (u : f64)
| AVCommitted (now : Instant) (node : NodeId) (txns : list Txn) (height : N)
| AVStats (debug : bool).

Section Client.
Context `{Externals} `{!Bincode BitcoinTxn} `{!Bincode AvalancheTxn} `{!Bincode (list Hash)}
  `{BuildProfile} `{HashOrder} `{Ln}.

(** A call, with the transactions it returns. *)
Definition avc_run (c : avc_call) : AF (list (ClientId * Txn)) :=
  match c with
  | AVSetup => af_setup_txns
  | AVBatch now u => af_next_txn_batch now u
  | AVCommitted now node txns height => af_txn_committed now node txns height ;; mret []
  | AVStats debug => af_get_stats debug ;; mret []
  end.

(** The states of a client whose calls return, with what it has made so far. *)
Inductive avc_reach (s0 : AvalancheFlowGen) : list Txn → AvalancheFlowGen → Prop :=
| avc_reach_new : avc_reach s0 [] s0
| avc_reach_call made s c out s' :
    avc_reach s0 made s → avc_run c s = (Ok out, s') → avc_reach s0 (made ++ out.*2) s'.

(** ** What is made *)

(** An output of [made] that [pk] may spend; none is worth more than a payment. *)
Definition avc_funded (made : list Txn) (pk : PubKey) (h : Hash) (v : N) : Prop :=
  v ≤ 10 ∧ ∃ t, TAvalanche t ∈ made ∧ txn_compute_id (TAvalanche t) = Ok h ∧ avax_owned pk t = Ok (Some v).

(** A grant, or a signed payment of such an output, without remainder. *)
Definition avc_justified (crypto : CryptoScheme) (made : list Txn) (t : Txn) : Prop :=
  (∃ d, txn_validate crypto t = Ok (true, d)) ∧
  match t with
  | TAvalanche (AGrant _ _ _) => True
  | TAvalanche (ASend sender [h] _ out rem _) => rem = 0 ∧ avc_funded made sender h out
  | _ => False
  end.

(** Account [idx] of [accs] may spend the output. *)
Definition holds (made : list Txn) (accs : list (PubKey * PrivKey)) (idx : N) (h : Hash) (v : N) : Prop :=
  ∃ kp, nth accs idx = Ok kp ∧ avc_funded made kp.1 h v.

(** What the client keeps of its accounts' outputs is so, given [made]. *)
Record avc_ok (crypto : CryptoScheme) (made : list Txn) (s : AvalancheFlowGen) : Prop := {
  ac_crypto : af_crypto s = crypto;
  ac_accounts : map_Forall (λ _ accs, Forall (generated crypto) accs) (af_accounts s);
  ac_utxos : ∀ client accs q idx h v,
    af_accounts s !! client = Some accs → af_utxos s !! client = Some q → (idx, h, v) ∈ q → holds made accs idx h v;
  ac_conflicting : ∀ client accs idx h v clients,
    af_accounts s !! client = Some accs → ((client, idx), h, v, clients) ∈ conflicting_utxos s →
    holds made accs idx h v;
  ac_made : chain_made (avc_justified crypto) made;
}.

Lemma avc_funded_mono made made' pk h v : made ⊆ made' → avc_funded made pk h v → avc_funded made' pk h v.
Proof. intros Hsub (? & t & ? & ?). split; [done|]. exists t. set_solver. Qed.

Lemma holds_mono made made' accs idx h v : made ⊆ made' → holds made accs idx h v → holds made' accs idx h v.
Proof. intros Hsub (kp & ? & ?). exists kp. split; [done|]. by eapply avc_funded_mono. Qed.

Lemma holds_app made made' accs idx h v : holds made accs idx h v → holds (made ++ made') accs idx h v.
Proof. apply holds_mono. set_solver. Qed.

Lemma avc_ok_snoc crypto made t s :
  avc_ok crypto made s → avc_justified crypto made t → avc_ok crypto (made ++ [t]) s.
Proof.
  intros [? ? Hu Hc ?] Hj. split; [done|done| | |by apply chain_snoc]; intros; apply holds_app; eauto.
Qed.

(** The accounts and their outputs. *)
Definition avc_data (s : AvalancheFlowGen) := (af_crypto s, af_accounts s, af_utxos s, conflicting_utxos s).
Lemma avc_ok_data crypto made s s' : avc_data s' = avc_data s → avc_ok crypto made s → avc_ok crypto made s'.
Proof. unfold avc_data. intros [= Hc Ha Hu Hn] [? ? ? ? ?]. by split; rewrite ?Hc, ?Ha, ?Hu, ?Hn. Qed.

Lemma avc_ok_keeps {A : Type} crypto made (m : AF A) s :
  keeps avc_data m → avc_ok crypto made s → wlp m (λ _, avc_ok crypto made) (λ _, True) s.
Proof.
  intros Hm Hs. eapply wlp_mono; [by apply (wlp_keeps avc_data)| |done]. intros x s' Heq. by apply (avc_ok_data crypto made s).
Qed.

(** New outputs of one client, each held by an account of it. *)
Lemma avc_ok_utxos crypto made s client q :
  avc_ok crypto made s →
  (∀ accs idx h v, af_accounts s !! client = Some accs → (idx, h, v) ∈ q → holds made accs idx h v) →
  avc_ok crypto made (s <| af_utxos ::= <[client := q]> |>).
Proof.
  intros [? ? Hu ? ?] Hq. split; try done. cbn. intros client' accs q' idx h v Ha.
  intros [[<- <-]|[_ Hq']]%lookup_insert_Some Hin; [by eapply Hq|by eapply Hu].
Qed.

(** A payment of what [kp] holds pays the receiver in full. *)
Lemma avc_payment_ok `{!SignatureLaws} crypto made kp h v recver b sg :
  generated crypto kp → avc_funded made kp.1 h v → of_result (serialize [h]) = Ok b → sign crypto kp.2 b = Ok sg →
  let t := TAvalanche (ASend kp.1 [h] recver v 0 sg.1) in
  avc_justified crypto made t ∧ ∀ id, txn_compute_id t = Ok id → avc_funded (made ++ [t]) recver id v.
Proof.
  intros Hgen Hf Hb Hsg t. destruct (serialize [h]) as [b'|] eqn:Hser; [|done]. injection Hb as ->. split.
  - split; [|done]. cbn [t txn_validate avax_validate]. rewrite Hser. cbn. by eapply generated_verifies.
  - intros id Hid. destruct Hf as [Hv _]. split; [done|]. eexists.
    split_and!; [|done|cbn; by rewrite decide_True]. set_solver.
Qed.

Lemma nth_generated crypto (accs : list (PubKey * PrivKey)) i kp :
  Forall (generated crypto) accs → nth accs i = Ok kp → generated crypto kp.
Proof. unfold nth. intros Hg Hn. case_match; simplify_eq. by eapply Forall_lookup_1. Qed.

Lemma avc_justified_app crypto made made' t : avc_justified crypto made t → avc_justified crypto (made ++ made') t.
Proof.
  intros [Hv Hj]. split; [done|]. repeat case_match; try done. destruct Hj as (? & ? & t' & ? & ?).
  do 2 (split; [done|]). exists t'. set_solver.
Qed.

(** Transactions each justified by what was there before them all. *)
Lemma avc_ok_more crypto made more s :
  avc_ok crypto made s → Forall (avc_justified crypto made) more → avc_ok crypto (made ++ more) s.
Proof.
  intros [? ? Hu Hc ?] Hj. split; [done|done|intros; apply holds_app; eauto..|].
  apply chain_app; [done|]. intros pre t post ->. apply avc_justified_app.
  rewrite Forall_app, Forall_cons in Hj. tauto.
Qed.

Lemma avc_ok_pair crypto made batch c1 c2 t1 t2 s :
  avc_ok crypto (made ++ batch.*2) s →
  avc_justified crypto (made ++ batch.*2) t1 → avc_justified crypto (made ++ batch.*2) t2 →
  avc_ok crypto (made ++ (batch ++ pair_batch c1 c2 t1 t2).*2) s.
Proof.
  intros Hs Hj1 Hj2. rewrite fmap_app, app_assoc. apply avc_ok_more; [done|].
  unfold pair_batch. cbn. by repeat apply Forall_cons_2.
Qed.

(** ** Steps of the generator *)

(** Draws leave the data alone. *)
Lemma af_index_keeps len : keeps avc_data (af_index len).
Proof. unfold af_index, af_draw. keeps_auto. Qed.
Lemma af_rate_keeps : keeps avc_data af_rate.
Proof. unfold af_rate. keeps_auto. Qed.
Lemma af_receiver_keeps accounts x : keeps avc_data (af_receiver accounts x).
Proof. unfold af_receiver. keeps_auto. apply af_index_keeps. Qed.
Lemma af_flight_keeps h now : keeps avc_data (af_in_flight_insert h now).
Proof. unfold af_in_flight_insert. keeps_auto. Qed.
Lemma af_pair_keeps h1 h2 now : keeps avc_data (af_record_pair h1 h2 now).
Proof. unfold af_record_pair, af_in_flight_insert. keeps_auto. Qed.
#[local] Hint Resolve af_index_keeps af_rate_keeps af_receiver_keeps af_flight_keeps af_pair_keeps : keepsdb.

(** Run a call that leaves the data alone; [Hdata] says so. *)
Ltac data_step Hdata :=
  eapply wlp_mono; [apply (wlp_keeps avc_data); solve [eauto with keepsdb|destruct (decide _); keeps_auto]|intros ? ? Hdata; cbn beta in Hdata |- *|done].

Lemma data_trans (s1 s2 s3 : AvalancheFlowGen) :
  avc_data s2 = avc_data s1 → avc_data s3 = avc_data s2 → avc_data s3 = avc_data s1.
Proof. congruence. Qed.

(** One side of an extension. *)
Lemma af_extend_ok `{!SignatureLaws} crypto made accounts idx h v s :
  af_crypto s = crypto → Forall (generated crypto) accounts → holds made accounts idx h v →
  wlp (af_extend accounts idx h v)
    (λ e s', avc_data s' = avc_data s ∧ avc_justified crypto made (e.1.2) ∧ holds (made ++ [e.1.2]) accounts e.1.1 e.2 v)
    (λ _, True) s.
Proof.
  intros Hc Hgen (kp & Hkp & Hf). unfold af_extend. wlp_step. wlp_step; [|done]. assert (a = kp) as -> by congruence.
  wlp_step. data_step Hdata. wlp_step. wlp_step; [|done]. wlp_step. unfold af_payment.
  wlp_step. wlp_step; [|done]. do 3 wlp_step. wlp_step; [|done]. do 2 wlp_step. wlp_step; [|done]. wlp_step. cbn [fst snd].
  match goal with Hs : sign (af_crypto ?s') _ _ = Ok _ |- _ => assert (af_crypto s' = crypto) as Hcr by
    (unfold avc_data in Hdata; congruence); rewrite Hcr in Hs end.
  edestruct (avc_payment_ok crypto made kp) as [Hj Hfund]; [by eapply nth_generated|done..|].
  split; [done|]. split; [exact Hj|]. eexists. split; [done|]. by apply Hfund.
Qed.

(** A whole pair of chains. *)
Lemma af_extend_pair_ok `{!SignatureLaws} crypto made n now accounts c1 c2 v : ∀ side1 side2 batch s,
  Forall (generated crypto) accounts → avc_ok crypto (made ++ batch.*2) s →
  holds (made ++ batch.*2) accounts side1.1 side1.2 v → holds (made ++ batch.*2) accounts side2.1 side2.2 v →
  wlp (af_extend_pair n now accounts c1 c2 v side1 side2 batch)
    (λ r s', avc_data s' = avc_data s ∧ avc_ok crypto (made ++ r.2.*2) s' ∧
      holds (made ++ r.2.*2) accounts r.1.1.1 r.1.1.2 v ∧ holds (made ++ r.2.*2) accounts r.1.2.1 r.1.2.2 v)
    (λ _, True) s.
Proof.
  induction n as [|n IH]; intros side1 side2 batch s Hgen Hs H1' H2'; cbn [af_extend_pair]; [by wlp_step|].
  wlp_step. eapply wlp_mono; [eapply af_extend_ok; [apply Hs|done|exact H1']| |done].
  intros e1 s1 (Hd1 & Hj1 & Hh1). cbn beta. wlp_step.
  eapply wlp_mono; [eapply af_extend_ok; [|done|exact H2']| |done].
  { by apply (avc_ok_data crypto (made ++ batch.*2) s s1 Hd1 Hs). }
  intros e2 s2 (Hd2 & Hj2 & Hh2). cbn beta. wlp_step. data_step Hd3.
  pose proof (data_trans _ _ _ (data_trans _ _ _ Hd1 Hd2) Hd3) as Hd.
  eapply wlp_mono; [apply IH; [done|..]| |done].
  - by apply (avc_ok_data _ _ _ _ Hd), avc_ok_pair.
  - cbn [fst snd]. rewrite fmap_app, app_assoc. eapply holds_mono; [|exact Hh1]. set_solver.
  - cbn [fst snd]. rewrite fmap_app, app_assoc. eapply holds_mono; [|exact Hh2]. set_solver.
  - intros r s3 (Hd4 & Hr). split; [by eapply data_trans|done].
Qed.

(** Where a pair of conflicting payments starts. *)
Lemma af_conflict_source_ok crypto made now batch s :
  avc_ok crypto (made ++ batch.*2) s →
  wlp (af_conflict_source now batch)
    (λ r s', avc_ok crypto (made ++ r.1.2.*2) s' ∧
      ∀ accs, af_accounts s' !! r.1.1.1.1.1.1 = Some accs →
        holds (made ++ r.1.2.*2) accs r.1.1.1.1.1.2 r.1.1.1.1.2 r.1.1.1.2)
    (λ _, True) s.
Proof.
  intros Hs. unfold af_conflict_source. do 2 wlp_step. case_match.
  - wlp_step. data_step Hdata. wlp_step. wlp_step; [|done]. do 3 wlp_step. cbn [fst snd].
    pose proof (avc_ok_data _ _ _ _ Hdata Hs) as Hs'. destruct a0 as [[[[client idx] h] v] clients]. cbn [fst snd].
    match goal with Hn : nth _ _ = Ok _ |- _ => apply nth_ok, list_elem_of_lookup_2 in Hn end.
    split; [|intros accs Ha; eapply (ac_conflicting _ _ _ Hs); [|done]; unfold avc_data in Hdata; cbn in Ha; congruence].
    destruct Hs' as [? ? ? Hc ?]. split; try done. cbn. intros client' accs idx' h' v' cs' Ha Hin.
    eapply Hc; [done|]. by apply list_subseteq_delete in Hin.
  - wlp_step. data_step Hd1. wlp_step. wlp_step; [|done]. wlp_step. wlp_step; [|done]. wlp_step. data_step Hd2.
    wlp_step. wlp_step; [|done]. wlp_step. wlp_step; [|done]. do 3 wlp_step. wlp_step; [|done].
    wlp_step. data_step Hd3. wlp_step. wlp_step; [|done]. wlp_step. wlp_step; [|done]. wlp_step. cbn [fst snd].
    pose proof (data_trans _ _ _ (data_trans _ _ _ Hd1 Hd2) Hd3) as Hd.
    rewrite fmap_app, app_assoc. cbn. split.
    + apply (avc_ok_data _ _ _ _ Hd), avc_ok_more; [done|].
      repeat apply Forall_cons_2; [split; [cbn; eauto|done]..|done].
    + unfold avc_data in Hd. intros accs Ha. eexists. split; [|split; [done|]].
      * match goal with Ha' : af_accounts s !! _ = Some ?a1 |- _ => assert (accs = a1) as -> by congruence end. done.
      * eexists. split_and!; [|done|cbn; by rewrite decide_True]. set_solver.
Qed.

(** A pair of conflicting payments with their extensions. *)
Lemma af_next_conflict_ok `{!SignatureLaws} crypto made now batch s :
  avc_ok crypto (made ++ batch.*2) s →
  wlp (af_next_conflict now batch) (λ r s', avc_ok crypto (made ++ r.1.*2) s') (λ _, True) s.
Proof.
  intros Hs. unfold af_next_conflict. wlp_step. eapply wlp_mono; [by apply af_conflict_source_ok| |done].
  intros [[[[[[client idx] h] v] [c1 c2]] batch1] grown] s1 [Hs1 Hh]. cbn [fst snd] in *.
  do 3 wlp_step. wlp_step; [|done]. wlp_step. wlp_step; [|done]. wlp_step. wlp_step; [|done]. wlp_step. wlp_step; [|done].
  wlp_step. data_step Hd1. wlp_step. wlp_step; [|done]. wlp_step. wlp_step; [|done]. wlp_step. wlp_step; [|done].
  wlp_step. data_step Hd2. wlp_step. wlp_step; [|done]. wlp_step. wlp_step; [|done]. wlp_step. data_step Hd3.
  rename a into accs, a0 into kp. destruct (Hh accs) as (kp' & Hkp & Hf); [done|].
  assert (kp' = kp) as -> by congruence.
  assert (Forall (generated crypto) accs) as Hgen by (by eapply (ac_accounts _ _ _ Hs1)).
  match goal with Hsg : sign _ _ ?b = Ok ?sg |- _ => rewrite (ac_crypto _ _ _ Hs1) in Hsg;
    pose proof (λ r, avc_payment_ok crypto (made ++ batch1.*2) kp h v r b sg (nth_generated _ _ _ _ Hgen Hkp) Hf
      ltac:(done) Hsg) as Hpay end.
  pose proof (data_trans _ _ _ (data_trans _ _ _ Hd1 Hd2) Hd3) as Hd.
  wlp_step. eapply wlp_mono; [apply af_extend_pair_ok; [done| |..]| |done].
  - by apply (avc_ok_data _ _ _ _ Hd), avc_ok_pair; [|apply Hpay..].
  - eexists. split; [done|]. eapply avc_funded_mono; [|by apply Hpay]. rewrite fmap_app. set_solver.
  - eexists. split; [done|]. eapply avc_funded_mono; [|by apply Hpay]. rewrite fmap_app. set_solver.
  - intros [[[i1 h1] [i2 h2]] batch2] s3 (Hd3' & Hs3 & Hh1 & Hh2). cbn [fst snd] in *. do 3 wlp_step. cbn [fst snd].
    destruct Hs3 as [? Ha ? Hc ?]. split; try done. cbn. intros client' accs' idx' h' v' cs' Ha' Hin.
    apply elem_of_app in Hin as [Hin|Hin]; [by eapply Hc|].
    assert (client' = client) as -> by set_solver.
    assert (accs' = accs) as -> by (unfold avc_data in *; congruence).
    rewrite !elem_of_cons in Hin. destruct Hin as [[= -> -> -> _]|[[= -> -> -> _]|Hin%elem_of_nil]]; done.
Qed.

(** An ordinary payment. *)
Lemma af_next_payment_ok `{!SignatureLaws} crypto made now batch s :
  avc_ok crypto (made ++ batch.*2) s →
  wlp (af_next_payment now batch) (λ r s', avc_ok crypto (made ++ r.*2) s') (λ _, True) s.
Proof.
  intros Hs. unfold af_next_payment. do 3 wlp_step. data_step Hd1. wlp_step. wlp_step; [|done]. wlp_step. wlp_step; [|done].
  wlp_step. wlp_step; [|done]. wlp_step. data_step Hd2. wlp_step. wlp_step; [|done].
  rename a0 into client, a1 into accs, a2 into q. match goal with Hn : nth q _ = Ok ?u |- _ => destruct u as [[idx h] v];
    apply nth_ok, list_elem_of_lookup_2 in Hn; rename Hn into Hin end.
  do 3 wlp_step. wlp_step; [|done]. wlp_step. wlp_step; [|done]. wlp_step. wlp_step; [|done]. wlp_step. wlp_step; [|done].
  wlp_step. data_step Hd3. wlp_step. wlp_step; [|done]. wlp_step. wlp_step; [|done]. do 3 wlp_step. data_step Hd4. wlp_step.
  rename a0 into kp. destruct (ac_utxos _ _ _ Hs client accs q idx h v) as (kp' & Hkp & Hf); [done..|].
  assert (kp' = kp) as -> by congruence. assert (v ≤ 10) as Hv by apply Hf.
  replace (v `min` 10) with v in * by lia. rewrite N.sub_diag in *. cbn [N.ltb N.compare] in Hd4.
  match goal with Hsg : sign _ _ ?b = Ok ?sg, Ht : txn_compute_id ?t = _ |- _ => rewrite (ac_crypto _ _ _ Hs) in Hsg;
    match t with TAvalanche (ASend _ _ ?r _ _ _) =>
      destruct (avc_payment_ok crypto (made ++ batch.*2) kp h v r b sg) as [Hj Hfund]; [|done..|];
      [eapply nth_generated; [|done]; by eapply (ac_accounts _ _ _ Hs)|] end end.
  rewrite fmap_app, app_assoc. cbn.
  match type of Hd4 with context [insert client ?q'] =>
    apply (avc_ok_data _ _ (s <| af_utxos ::= <[client := q']> |>)) end.
  - unfold avc_data in *. cbn in *. rewrite Hd4. clear Hd4. injection Hd3 as -> -> -> ->.
    rewrite insert_insert_eq. congruence.
  - apply avc_ok_utxos; [by apply avc_ok_snoc|]. intros accs' idx' h' v' Ha Hin'. assert (accs' = accs) as -> by congruence.
    assert (∀ idx h v, (idx, h, v) ∈ delete (N.to_nat a3) q → holds (made ++ batch.*2) accs idx h v) as Hq.
    { intros i1 h1 v1 Hi%list_subseteq_delete. by eapply (ac_utxos _ _ _ Hs). }
    destruct (0 <? v); [|by apply holds_app, Hq]. apply elem_of_app in Hin' as [Hin'|Hin'%list_elem_of_singleton].
    + by apply holds_app, Hq.
    + injection Hin' as -> -> ->. eexists. split; [done|]. by apply Hfund.
Qed.

(** ** Calls *)

Lemma af_fill_ok `{!SignatureLaws} crypto made fuel now size : ∀ cur batch s,
  avc_ok crypto (made ++ batch.*2) s →
  wlp (af_fill fuel now size cur batch) (λ r s', avc_ok crypto (made ++ r.*2) s') (λ _, True) s.
Proof.
  induction fuel as [|fuel IH]; intros cur batch s Hs; cbn [af_fill]; case_match; wlp_steps; [done..|].
  data_step Hd. do 2 wlp_step. pose proof (avc_ok_data _ _ _ _ Hd Hs) as Hs'. case_match; wlp_step.
  - eapply wlp_mono; [by apply af_next_payment_ok| |done]. intros b s1 Hs1. by apply IH.
  - eapply wlp_mono; [by apply af_next_conflict_ok| |done]. intros b s1 Hs1. by apply IH.
Qed.

Lemma af_next_txn_batch_ok `{!SignatureLaws} crypto made now u s :
  avc_ok crypto made s →
  wlp (af_next_txn_batch now u) (λ r s', avc_ok crypto (made ++ r.*2) s') (λ _, True) s.
Proof.
  intros Hs. unfold af_next_txn_batch. do 3 wlp_step. data_step Hd1.
  pose proof (avc_ok_data _ _ _ _ Hd1 Hs) as Hs1. wlp_step.
  eapply wlp_mono; [apply (af_fill_ok crypto made); by rewrite app_nil_r| |done]. intros b s2 Hs2. cbn beta. wlp_step.
  data_step Hd2. wlp_step. by apply (avc_ok_data _ _ _ _ Hd2).
Qed.

(** [pk] is the key of account [idx] of the client. *)
Definition account_key (accounts : gmap ClientId (list (PubKey * PrivKey))) (x : ClientId * (N * PubKey)) : Prop :=
  ∃ accs kp, accounts !! x.1 = Some accs ∧ nth accs x.2.1 = Ok kp ∧ kp.1 = x.2.2.

Lemma af_grant_ok crypto made client idx pk s :
  avc_ok crypto made s → account_key (af_accounts s) (client, (idx, pk)) →
  wlp (af_grant client idx pk) (λ t s', avc_ok crypto (made ++ [t.2]) s' ∧ af_accounts s' = af_accounts s) (λ _, True) s.
Proof.
  intros Hs (accs & kp & Ha & Hkp & Hpk). cbn [fst snd] in *. unfold af_grant. wlp_step. wlp_step; [|done].
  do 3 wlp_step. wlp_step; [|done]. do 3 wlp_step. split; [|done]. cbn [snd].
  assert (avc_justified crypto made (TAvalanche (AGrant 10 pk 0))) as Hj by (split; [cbn; eauto|done]).
  apply avc_ok_utxos; [by apply avc_ok_snoc|]. intros accs' i h v Ha' Hin. assert (accs' = accs) as -> by congruence.
  apply elem_of_app in Hin as [Hin|Hin%list_elem_of_singleton]; [apply holds_app; by eapply (ac_utxos _ _ _ Hs)|].
  injection Hin as -> -> ->. exists kp. split; [done|]. split; [done|]. eexists.
  split_and!; [|done|cbn; by rewrite decide_True]. set_solver.
Qed.

Lemma af_grants_ok crypto l : ∀ made s,
  avc_ok crypto made s → Forall (account_key (af_accounts s)) l →
  wlp (af_grants l) (λ r s', avc_ok crypto (made ++ r.*2) s') (λ _, True) s.
Proof.
  induction l as [|[client [idx pk]] l IH]; intros made s Hs Hl; cbn [af_grants].
  { wlp_step. by rewrite app_nil_r. }
  apply Forall_cons in Hl as [Hx Hl]. wlp_step. eapply wlp_mono; [by apply af_grant_ok| |done].
  intros t s1 [Hs1 Ha]. cbn beta. wlp_step. eapply wlp_mono; [apply IH; [done|by rewrite Ha]| |done].
  intros ts s2 Hs2. cbn beta. wlp_step. by rewrite fmap_cons, cons_middle, app_assoc.
Qed.

Lemma af_setup_ok crypto made s :
  avc_ok crypto made s → wlp af_setup_txns (λ r s', avc_ok crypto (made ++ r.*2) s') (λ _, True) s.
Proof.
  intros Hs. unfold af_setup_txns. do 2 wlp_step. apply af_grants_ok; [done|].
  apply Forall_forall. intros x ([client accs] & Hx & Hin)%list_elem_of_bind. cbn [fst snd] in *.
  apply elem_of_lookup_imap in Hx as (i & kp & -> & Hi). exists accs, kp. split; [|split; [|done]]; cbn.
  - by apply elem_of_map_iter in Hin.
  - unfold nth. by rewrite Nat2N.id, Hi.
Qed.

Lemma af_committed_keeps now node txns height : keeps avc_data (af_txn_committed now node txns height).
Proof. unfold af_txn_committed, af_record_commit. keeps_auto. Qed.

Lemma af_stats_keep debug : keeps avc_data (af_get_stats debug).
Proof. unfold af_get_stats. keeps_auto. by case_match. Qed.

Lemma avc_run_ok `{!SignatureLaws} crypto made c s :
  avc_ok crypto made s → wlp (avc_run c) (λ r s', avc_ok crypto (made ++ r.*2) s') (λ _, True) s.
Proof.
  intros Hs. destruct c; cbn [avc_run]; [by apply af_setup_ok|by apply af_next_txn_batch_ok|..]; wlp_step.
  - eapply wlp_mono; [apply avc_ok_keeps; [apply af_committed_keeps|done]| |done].
    intros ? s' Hs'. wlp_step. by rewrite app_nil_r.
  - eapply wlp_mono; [apply avc_ok_keeps; [apply af_stats_keep|done]| |done].
    intros ? s' Hs'. wlp_step. by rewrite app_nil_r.
Qed.

Lemma avc_reach_ok `{!SignatureLaws} crypto s0 made s :
  avc_reach s0 made s → avc_ok crypto [] s0 → avc_ok crypto made s.
Proof.
  intros Hr Hs0. induction Hr as [|made s c out s' Hr IH Hc]; [done|].
  pose proof (avc_run_ok crypto made c s IH) as Hrun. unfold wlp in Hrun. by rewrite Hc in Hrun.
Qed.

(** ** Making the accounts *)

Lemma af_key_pairs_generated crypto id n : ∀ i, Forall (generated crypto) (af_key_pairs crypto id n i).
Proof. induction n as [|n IH]; intros i; cbn; constructor; [by eexists|apply IH]. Qed.

Lemma af_add_clients_fresh crypto id per_client clients : ∀ i acc,
  map_Forall (λ _ q, q = []) acc.1 → map_Forall (λ _ accs, Forall (generated crypto) accs) acc.2 →
  let r := af_add_clients crypto id per_client clients i acc in
  map_Forall (λ _ q, q = []) r.1 ∧ map_Forall (λ _ accs, Forall (generated crypto) accs) r.2.
Proof.
  induction clients as [|client clients IH]; intros i [us accs] Hu Ha; [done|]. cbn [af_add_clients].
  apply IH; cbn in *; apply map_Forall_insert_2; try done; [|apply af_key_pairs_generated].
  destruct (us !! client) as [q|] eqn:Hq; [by apply (Hu client)|done].
Qed.

Lemma af_new_ok id clients num_accounts max_inflight freq rate crypto now draws rates s :
  af_new id clients num_accounts max_inflight freq rate crypto now draws rates = Ok s → avc_ok crypto [] s.
Proof.
  unfold af_new. case_match; [done|]. intros Hs.
  pose proof (af_add_clients_fresh crypto id (accounts_per_client num_accounts clients) clients 0 (∅, ∅)) as Hf.
  destruct (af_add_clients _ _ _ _ _ _) as [us accs]. destruct (batch_rate _ _ _) as [bs bq]. injection Hs as <-.
  destruct Hf as [Hu Ha]; [apply map_Forall_empty..|]. split; cbn in *; [done|done| | |constructor].
  - intros client accs' q idx h v _ Hq Hin. rewrite (Hu _ _ Hq) in Hin. by apply elem_of_nil in Hin.
  - intros client accs' idx h v cs _ Hin. by apply elem_of_nil in Hin.
Qed.

(** ** At a validator *)

Lemma avc_justified_valid crypto made t (pool : Pool) :
  pooled made pool → avc_justified crypto made t → avax_check pool t = Ok (inl true).
Proof.
  intros Hpool [_ Hj]. destruct t as [| |[sender [|h [|]] recver out rem sg| | |]]; try done.
  destruct Hj as (-> & Hv & t & Ht & Hid & Ho). cbn. rewrite (Hpool _ _ Ht Hid). cbn.
  rewrite Ho. cbn. rewrite u64_add_ok by (unfold two64; lia). cbn. rewrite u64_add_ok by (unfold two64; lia). cbn.
  by rewrite N.add_0_r, bool_decide_eq_true_2.
Qed.

(** C16: what an Avalanche client makes, a validator takes, both sides of every conflict
    included. Whatever the random values, the rate of conflicts and the commit
    reports, every grant and payment a client's calls return is well signed, spends
    one output of an earlier one in full and leaves no remainder; and any transaction
    validator that has been given them, in whatever order and batches, interleaved with
    whatever else, with each one's identifier its own, holds every one of them as
    validated: the two payments of a pair, and the chains that extend them. (Before its
    validator, a node drops a transaction it has first seen in a block:
    ThreadProps.v.) *)
Theorem conflicts_are_validated `{!SignatureLaws} id clients num_accounts max_inflight freq rate crypto now
    draws rates s0 made s hist val txn_of :
  af_new id clients num_accounts max_inflight freq rate crypto now draws rates = Ok s0 →
  avc_reach s0 made s →
  val_reach (C := avax_check) hist val →
  (∀ x, x ∈ hist → txn_of (tc_id x.2.2) = x.2.1) →
  (∀ t, t ∈ made → ∃ src h, txn_compute_id t = Ok h ∧ (src, (t, mkTxnCtx h)) ∈ hist) →
  ∀ t, t ∈ made →
    (∃ d, txn_validate crypto t = Ok (true, d)) ∧
    (∃ h, txn_compute_id t = Ok h ∧ tv_pool val !! h = Some (t, mkTxnCtx h)) ∧
    (∀ sender ins recver out rem sg, t = TAvalanche (ASend sender ins recver out rem sg) →
      rem = 0 ∧ ∃ h, ins = [h] ∧ avc_funded made sender h out).
Proof.
  intros Hnew Hreach Hval Hids Hrec t Ht.
  assert (chain_made (avc_justified crypto) made) as Hmade by (eapply ac_made, avc_reach_ok, af_new_ok; done).
  split_and!.
  - by destruct (chain_justified _ _ _ Hmade Ht) as (? & ? & _ & ? & _).
  - destruct (Hrec t Ht) as (src & h & Hid & _). exists h. split; [done|].
    by apply (chain_validated (C := avax_check) (L := avax_check_laws) _ (avc_justified_valid crypto) made hist val txn_of).
  - intros sender ins recver out rem sg ->. destruct (chain_justified _ _ _ Hmade Ht) as (before & after & -> & _ & Hj).
    destruct ins as [|h [|]]; [done| |done]. destruct Hj as [-> Hf]. split; [done|]. exists h. split; [done|].
    eapply avc_funded_mono; [|done]. set_solver.
Qed.
End Client.

(** ** Witness: grants and a batch with conflicts, received in reverse order *)

#[local] Existing Instances sample_externals sample_bincode_btc sample_profile canonical_order.
#[local] Instance avc_bincode_avax : Bincode AvalancheTxn := {|
  serialize := λ t, match t with
    | AGrant v r n => inl (3 :: n :: take 1 r)
    | ASend s ins r o rem _ => inl (2 :: default 0 (h ← head ins; mret (h mod 251)) :: take 1 r)
    | _ => inl []
    end;
  deserialize := λ _, inr (mkErr "not needed");
|}.
#[local] Instance avc_bincode_hashes : Bincode (list Hash) := {| serialize := inl; deserialize := inl |}.
#[local] Instance avc_ln : Ln := λ _, f64_zero.
#[local] Instance avc_signatures : SignatureLaws.
Proof. intros seed b sg [= <-]. cbn. by rewrite bool_decide_eq_true_2. Qed.

(** Two rounds: the first makes a payment, the second a pair and its extensions. *)
Definition w_avc_draws : list N := N.of_nat <$> seq 0 400.
Definition w_avc_new : res AvalancheFlowGen :=
  af_new 0 [0; 1] 8 5 UNSET (f64_div f64_one (f64_add f64_one f64_one)) CSECDSA 0 w_avc_draws [f64_one; f64_zero].
Definition w_avc_s0 : AvalancheFlowGen :=
  match w_avc_new with Ok s => s
  | _ => mkAvalancheFlowGen 0 0 0 0 f64_one 0 CSDummy [] ∅ ∅ ∅ 0 ∅ [] ∅ 0 0 0 ∅ [] ∅ [] [] end.
Definition w_avc_out (c : avc_call) (s : AvalancheFlowGen) : list (ClientId * Txn) :=
  match (avc_run c s).1 with Ok out => out | _ => [] end.
Definition w_avc_s1 : AvalancheFlowGen := (avc_run AVSetup w_avc_s0).2.
Definition w_avc_s2 : AvalancheFlowGen := (avc_run (AVBatch 7 f64_zero) w_avc_s1).2.
Definition w_avc_made : list Txn :=
  (w_avc_out AVSetup w_avc_s0).*2 ++ (w_avc_out (AVBatch 7 f64_zero) w_avc_s1).*2.

Definition w_avc_id (t : Txn) : Hash := match txn_compute_id t with Ok h => h | _ => 0 end.
Definition w_avc_hist : list Received := (λ t, (5, (t, mkTxnCtx (w_avc_id t)))) <$> reverse w_avc_made.
Definition w_avc_txn_of (h : Hash) : Txn :=
  default (TAvalanche APlaceHolder)
    ((list_to_map ((λ t, (w_avc_id t, t)) <$> w_avc_made) : gmap Hash Txn) !! h).
Definition w_avc_val : TxnVal := (validate (C := avax_check) 120 w_avc_hist avax_val_new).2.

(** Eight grants, a payment, a grant for the pair and 51 pairs; what two clients are
    sent is made twice. *)
Example w_avc_counts :
  (length w_avc_made, size (af_in_flight w_avc_s2), size (tv_pool w_avc_val)) = (215%nat, 104%nat, 112%nat).
Proof. by vm_compute. Qed.

(** Every one has an identifier. *)
Lemma w_avc_ids t : t ∈ w_avc_made → txn_compute_id t = Ok (w_avc_id t).
Proof.
  assert (forallb (λ t, match txn_compute_id t with Ok _ => true | _ => false end) w_avc_made = true) as Hids by by vm_compute.
  rewrite forallb_forall in Hids. intros Ht%list_elem_of_In%Hids. unfold w_avc_id. by destruct (txn_compute_id t).
Qed.

Lemma conflicts_are_validated_witness :
  Forall (λ t,
    (∃ d, txn_validate CSECDSA t = Ok (true, d)) ∧
    (∃ h, txn_compute_id t = Ok h ∧ tv_pool w_avc_val !! h = Some (t, mkTxnCtx h)) ∧
    (∀ sender ins recver out rem sg, t = TAvalanche (ASend sender ins recver out rem sg) →
      rem = 0 ∧ ∃ h, ins = [h] ∧ avc_funded w_avc_made sender h out)) w_avc_made.
Proof.
  apply Forall_forall.
  apply (conflicts_are_validated 0 [0; 1] 8 5 UNSET (f64_div f64_one (f64_add f64_one f64_one)) CSECDSA 0
    w_avc_draws [f64_one; f64_zero] w_avc_s0 w_avc_made w_avc_s2 w_avc_hist _ w_avc_txn_of).
  - by vm_compute.
  - apply (avc_reach_call _ ((w_avc_out AVSetup w_avc_s0).*2) w_avc_s1 (AVBatch 7 f64_zero)); [|by vm_compute].
    apply (avc_reach_call _ [] w_avc_s0 AVSetup); [constructor|by vm_compute].
  - apply (val_reach_batch [] avax_val_new 120 w_avc_hist
      match (validate (C := avax_check) 120 w_avc_hist avax_val_new).1 with Ok out => out | _ => [] end);
      [constructor|by vm_compute].
  - apply Forall_forall. apply (bool_decide_unpack _). by vm_compute.
  - intros t Ht. exists 5, (w_avc_id t). split.
    + by apply w_avc_ids.
    + unfold w_avc_hist. apply list_elem_of_fmap. exists t. split; [done|]. by apply elem_of_reverse.
Defined.
