(* ===== verification/Cluster.v ===== *)
(** * A cluster of nodes and its clients

    src/copycat_cluster/src/main.rs runs several nodes and one generator of
    transactions in a process, src/copycat_server/src/main.rs one node and its
    generator; src/copycat_flowgen/src/lib.rs has the trait of the generators. From
    the parsed arguments and files on: who sends to whom, the set-up, and the arms of
    the loop that sends batches, passes commits on to the generator and writes the
    statistics. The columns of the statistics that are read off the machine are left
    out. Nodes take steps in between ([CeNode]), messages of other nodes included. *)

From S2P Require Import Prelude F64 Protocol Peers Utils Config TxnValidation Stages Threads Node FlowGen AvaFlowGen.
Local Open Scope N_scope.

(** [f64::round] of a positive number, as usize: the nearest integer, ties upwards. *)
Definition f64_round_as_usize (x : f64) : N :=
  match x with
  | SpecFloat.S754_finite false m e =>
    let v := if (0 <=? e)%Z then (Z.pos m * 2 ^ e)%Z
             else let d := (2 ^ (- e))%Z in ((2 * Z.pos m + d) / (2 * d))%Z in
    N.min (Z.to_N v) (two64 - 1)
  | SpecFloat.S754_infinity false => two64 - 1
  | _ => 0
  end.

(** ** The trait [FlowGen] *)

Section Gen.
Context `{Externals} `{!Bincode BitcoinTxn} `{!Bincode AvalancheTxn} `{!Bincode (list Hash)}
  `{BuildProfile} `{HashOrder} `{Ln}.

Definition on_gen {A : Type} (b : BF A) (a : AF A) (c : CF A) : M SomeFlowGen A := λ g,
  match g with
  | FGBitcoin s => let r := b s in (r.1, FGBitcoin r.2)
  | FGAvalanche s => let r := a s in (r.1, FGAvalanche r.2)
  | FGChainReplication s => let r := c s in (r.1, FGChainReplication r.2)
  end.

Definition fg_setup_txns : M SomeFlowGen (list (ClientId * Txn)) :=
  on_gen bf_setup_txns af_setup_txns cf_setup_txns.
Definition fg_can_send (g : SomeFlowGen) : res bool :=
  match g with
  | FGBitcoin s => Ok (bf_can_send s)
  | FGAvalanche s => af_can_send s
  | FGChainReplication s => Ok (cf_can_send s)
  end.
Definition fg_next_txn_batch (now : Instant) (u : f64) : M SomeFlowGen (list (ClientId * Txn)) :=
  on_gen (bf_next_txn_batch now u) (af_next_txn_batch now u) (cf_next_txn_batch now u).
Definition fg_txn_committed (now : Instant) (node : NodeId) (txns : list Txn) (blk_height : N) :
    M SomeFlowGen unit :=
  on_gen (bf_txn_committed now node txns blk_height) (af_txn_committed now node txns blk_height)
    (cf_txn_committed now node txns blk_height).
Definition fg_get_stats (debug : bool) : M SomeFlowGen Stats :=
  on_gen bf_get_stats (af_get_stats debug) cf_get_stats.
End Gen.

(** ** Arguments *)

(** [CliArgs::validate] of the cluster and of the server. *)
Definition cluster_threads (num_threads : N) : N := if (num_threads <? 8)%N then 8 else num_threads.
Definition server_args (num_threads frequency max_inflight : N) : N * N :=
  (if (num_threads <? 8)%N then 8 else num_threads,
   if decide (frequency = 0 ∧ max_inflight = 0) then 100000 else max_inflight).

(** The topology of the local nodes; [parsed]: what the file holds, if one is given
    and can be read. *)
Definition cluster_topology (local_nodes : list NodeId) (nodes : gset NodeId) (parsed : option Pipes) :
    gmap NodeId (gset NodeId) :=
  match parsed with
  | None => fully_connected_topology local_nodes nodes
  | Some pipes => get_topology local_nodes pipes
  end.

(** Every local node must have a configuration. *)
Fixpoint cluster_configs `{HashOrder} (topology : gmap NodeId (gset NodeId)) (nodes : gset NodeId)
    (local_nodes : list NodeId) (configs : gmap NodeId NodeConfig) : res (gmap NodeId NodeConfig) :=
  match local_nodes with
  | [] => Ok configs
  | id :: rest =>
    match configs !! id, topology !! id with
    | Some config, Some neighbors =>
      cluster_configs topology nodes rest (<[id := Config.validate neighbors nodes config]> configs)
    | _, _ => Panic
    end
  end.

Definition cluster_clients (num_clients : option N) (local_nodes : list NodeId) : list ClientId :=
  range 0 (default (N.of_nat (length local_nodes)) num_clients).

(** [txn_span] nodes for a client, in a circle; all of them for 0. *)
Fixpoint span_dsts (local_nodes : list NodeId) (idx : N) (offsets : list N) : res (list NodeId) :=
  match offsets with
  | [] => Ok []
  | offset :: rest =>
    i ← rand_index (idx + offset) (N.of_nat (length local_nodes));
    node ← nth local_nodes i;
    dsts ← span_dsts local_nodes idx rest;
    Ok (node :: dsts)
  end.

Definition client_dsts (local_nodes : list NodeId) (txn_span idx : N) : res (list NodeId) :=
  if decide (txn_span = 0) then Ok local_nodes else span_dsts local_nodes idx (range 0 txn_span).

Fixpoint cluster_dsts (local_nodes : list NodeId) (txn_span : N) (idx : N) (client_list : list ClientId)
    (req_dsts : gmap ClientId (list NodeId)) : res (gmap ClientId (list NodeId)) :=
  match client_list with
  | [] => Ok req_dsts
  | client :: rest =>
    dsts ← client_dsts local_nodes txn_span idx;
    cluster_dsts local_nodes txn_span (idx + 1) rest (<[client := dsts]> req_dsts)
  end.

(** ** The cluster *)

(** A line of the statistics file. *)
Record StatsRow := mkStatsRow {
  sr_run_time : N; sr_throughput : f64; sr_chain_length : N; sr_commit_confidence : f64 }.

(** What can happen: a step of a node, of the task that redirects what a node has
    executed, of the loop of [main]. *)
Inductive ClusterEvent :=
| CeNode (id : NodeId) (ev : Event)
| CeRedirect (id : NodeId)
| CeRequest (now : Instant) (u : f64)
| CeCommitted (now : Instant)
| CeReport (elapsed : N) (report_interval : f64) (debug : bool).

Section Cluster.
Context {Bm Dc Pm : Type} {SB : BlockManagement Bm} {SD : DecisionStage Dc} {SP : Pacemaker Pm}
  `{Externals} `{!Bincode BitcoinTxn} `{!Bincode AvalancheTxn} `{!Bincode BlockHeader}
  `{!Bincode (list Hash)} `{BuildProfile} `{HashOrder} `{Transport} `{Channel} `{Ln}.

Record Cluster := mkCluster {
  cl_req_dsts : gmap ClientId (list NodeId);
  cl_node_map : gmap NodeId (Node Bm Dc Pm);
  (* [combine_rx], latest first *)
  cl_combine : list (NodeId * (N * list Txn));
  cl_flow_gen : SomeFlowGen;
  cl_txns_sent : N;
  cl_prev_committed : N;
  (* the two files, latest first *)
  cl_stats_file : list StatsRow;
  cl_latency_file : list f64;
  (* [main] has returned or panicked *)
  cl_over : bool;
}.
#[export] Instance Cluster_eta : Eta Cluster := λ r,
  mkCluster (cl_req_dsts r) (cl_node_map r) (cl_combine r) (cl_flow_gen r) (cl_txns_sent r)
    (cl_prev_committed r) (cl_stats_file r) (cl_latency_file r) (cl_over r).

Definition cluster_new (req_dsts : gmap ClientId (list NodeId)) (node_map : gmap NodeId (Node Bm Dc Pm))
    (flow_gen : SomeFlowGen) : Cluster :=
  mkCluster req_dsts node_map [] flow_gen 0 0 [] [] false.

Definition on_flow {A : Type} : M SomeFlowGen A → M Cluster A :=
  zoom cl_flow_gen (λ g s, s <| cl_flow_gen := g |>).

(** [node.send_req(txn)] at [node_map.get(id).unwrap()]; the loop returns on an error. *)
Definition send_to (txn : Txn) (id : NodeId) : M Cluster unit :=
  nodes ← gets cl_node_map;
  node ← unwrap (nodes !! id);
  let r := send_req txn node in
  modify (λ s, s <| cl_node_map ::= <[id := r.2]> |>) ;;
  lift_res r.1.

Definition send_batch (batch : list (ClientId * Txn)) : M Cluster unit :=
  mfor batch (λ x : ClientId * Txn,
    req_dsts ← gets cl_req_dsts;
    receiving_node_ids ← unwrap (req_dsts !! x.1);
    mfor receiving_node_ids (send_to x.2)).

(** The set-up: [setup_txns().await.unwrap()], to all receivers. *)
Definition cluster_setup : M Cluster unit :=
  r ← log_err (on_flow fg_setup_txns);
  match r with
  | None => panic
  | Some init_txns => send_batch init_txns
  end.

(** The arms of the loop. *)
Definition cluster_request (now : Instant) (u : f64) : M Cluster unit :=
  g ← gets cl_flow_gen;
  ready ← lift_res (fg_can_send g);
  if (ready : bool) then
    r ← log_err (on_flow (fg_next_txn_batch now u));
    match r with
    | None => mret tt
    | Some next_req_batch =>
      sent ← gets cl_txns_sent;
      sent' ← lift_res (u64_add sent (N.of_nat (length next_req_batch)));
      modify (λ s, s <| cl_txns_sent := sent' |>) ;;
      send_batch next_req_batch
    end
  else mret tt.

Definition cluster_committed (now : Instant) : M Cluster unit :=
  c ← gets cl_combine;
  match chan_recv c with
  | None => mret tt
  | Some ((node, (height, txn_batch)), rest) =>
    modify (λ s, s <| cl_combine := rest |>) ;;
    _ ← log_err (on_flow (fg_txn_committed now node txn_batch height)); mret tt
  end.

Definition cluster_report (elapsed : N) (report_interval : f64) (debug : bool) : M Cluster unit :=
  stats ← on_flow (fg_get_stats debug);
  prev_committed ← gets cl_prev_committed;
  newly_committed ← lift_res (u64_sub (num_committed stats) prev_committed);
  let row := mkStatsRow (f64_round_as_usize (as_secs_f64 elapsed))
               (f64_div (f64_of_N newly_committed) report_interval)
               (chain_length stats) (commit_confidence stats) in
  modify (λ s, s <| cl_stats_file ::= cons row |>
                 <| cl_latency_file ::= λ l, rev (latencies stats) ++ l |>
                 <| cl_txns_sent := 0 |> <| cl_prev_committed := num_committed stats |>).

(** The task of a node that moves what it executed to [combine_tx]. *)
Definition cluster_redirect (id : NodeId) : M Cluster unit :=
  nodes ← gets cl_node_map;
  match nodes !! id with
  | None => mret tt
  | Some node =>
    match chan_recv (nd_executed node) with
    | None => mret tt
    | Some (msg, rest) =>
      modify (λ s, s <| cl_node_map ::= <[id := node <| nd_executed := rest |>]> |>) ;;
      _ ← log_err (zoom cl_combine (λ c s, s <| cl_combine := c |>) (chan_send (id, msg))); mret tt
    end
  end.

(** The loop ends when an arm returns or panics, and the process with it; an arm
    that lacks random values does not count. *)
Definition main_arm (m : M Cluster unit) (s : Cluster) : Cluster :=
  match m s with
  | (Ok _, s') => s'
  | (OutOfFuel, _) => s
  | (_, s') => s' <| cl_over := true |>
  end.

(** Requests reach a node through [send_req] alone. *)
Definition is_client (ev : Event) : bool := match ev with EvClient _ => true | _ => false end.

Definition cluster_step (ev : ClusterEvent) (s : Cluster) : Cluster :=
  if cl_over s then s
  else match ev with
  | CeNode id ev =>
    match cl_node_map s !! id with
    | Some node => if is_client ev then s else s <| cl_node_map ::= <[id := node_step ev node]> |>
    | None => s
    end
  | CeRedirect id => (cluster_redirect id s).2
  | CeRequest now u => main_arm (cluster_request now u) s
  | CeCommitted now => main_arm (cluster_committed now) s
  | CeReport elapsed report_interval debug => main_arm (cluster_report elapsed report_interval debug) s
  end.

Definition cluster_run (evs : list ClusterEvent) (s : Cluster) : Cluster :=
  foldl (λ s ev, cluster_step ev s) s evs.

(** ** The server: one node, one client *)

Record Server := mkServer {
  sv_id : NodeId;
  sv_node : Node Bm Dc Pm;
  sv_flow_gen : SomeFlowGen;
  sv_stats_file : list f64;
  sv_latency_file : list f64;
}.
#[export] Instance Server_eta : Eta Server := λ r,
  mkServer (sv_id r) (sv_node r) (sv_flow_gen r) (sv_stats_file r) (sv_latency_file r).

Definition sv_flow {A : Type} : M SomeFlowGen A → M Server A :=
  zoom sv_flow_gen (λ g s, s <| sv_flow_gen := g |>).
Definition sv_send (txn : Txn) : M Server unit :=
  zoom sv_node (λ n s, s <| sv_node := n |>) (send_req txn).

(** An error ends the set-up, later ones are logged. *)
Definition server_setup : M Server unit :=
  r ← log_err (sv_flow fg_setup_txns);
  match r with
  | None => panic
  | Some init_txns => mfor init_txns (λ x : ClientId * Txn, sv_send x.2)
  end.

Definition server_request (now : Instant) (u : f64) : M Server unit :=
  g ← gets sv_flow_gen;
  ready ← lift_res (fg_can_send g);
  if (ready : bool) then
    r ← log_err (sv_flow (fg_next_txn_batch now u));
    match r with
    | None => mret tt
    | Some next_req_batch =>
      mfor next_req_batch (λ x : ClientId * Txn, _ ← log_err (sv_send x.2); mret tt)
    end
  else mret tt.

Definition server_committed (now : Instant) : M Server unit :=
  s ← gets (λ s, s);
  match chan_recv (nd_executed (sv_node s)) with
  | None => mret tt
  | Some ((height, txns), rest) =>
    modify (λ s, s <| sv_node ::= λ n, n <| nd_executed := rest |> |>) ;;
    _ ← log_err (sv_flow (fg_txn_committed now (sv_id s) txns height)); mret tt
  end.

Definition server_report (elapsed : N) (debug : bool) : M Server unit :=
  stats ← sv_flow (fg_get_stats debug);
  let tput := f64_div (f64_of_N (num_committed stats)) (as_secs_f64 elapsed) in
  modify (λ s, s <| sv_stats_file ::= cons tput |>
                 <| sv_latency_file ::= λ l, rev (latencies stats) ++ l |>).
End Cluster.
Arguments Cluster : clear implicits.
Arguments Server : clear implicits.
