(* ===== verification/ClusterProps.v ===== *)
(** * A cluster: properties

    What the nodes of a cluster decide reaches the generator in order: the way of a
    commit from the decision stage of a node through its commit stage, the redirecting
    task and the loop of [main]. *)

From S2P Require Import Prelude F64 Protocol Peers Samples Stages Threads Node NodeProps FlowGen AvaFlowGen Cluster.
Local Open Scope N_scope.

Lemma keeps_log_err {S T A : Type} (f : S → T) (m : M S A) : keeps f m → keeps f (log_err m).
Proof. intros Hm s. specialize (Hm s). unfold log_err. by destruct (m s) as [[]]. Qed.

(** A loop panics in one of its rounds. *)
Lemma mfor_panics {S A : Type} (f : A → M S unit) (xs : list A) : ∀ st : S,
  (mfor xs f st).1 = Panic → ∃ x st', x ∈ xs ∧ (f x st').1 = Panic.
Proof.
  induction xs as [|x xs IH]; intros st Hp; [done|]. cbn in Hp. unfold mbind, M_bind in Hp.
  destruct (f x st) as [[u|e| |] st'] eqn:Hf; try done.
  - apply IH in Hp as (y & st2 & Hy & Hp). exists y, st2. split; [by right|done].
  - exists x, st. by rewrite Hf; split; [left|].
Qed.

Lemma zoom_state {S T A : Type} (get : S → T) put (m : M T A) s :
  (zoom get put m s).2 = put (m (get s)).2 s.
Proof. unfold zoom. by destruct (m (get s)). Qed.

(** The oldest message of a channel, and the rest. *)
Lemma chan_recv_spec {T : Type} (c : list T) :
  match chan_recv c with Some (x, rest) => rev c = x :: rev rest | None => c = [] end.
Proof.
  unfold chan_recv. destruct c as [|y c] using rev_ind; [done|].
  rewrite last_snoc, removelast_last, rev_app_distr. done.
Qed.

(** *** Calls that have no bound to run out of *)

Definition unbounded {S A : Type} (m : M S A) : Prop := ∀ s, (m s).1 ≠ OutOfFuel.

Lemma unbounded_bind {S A B : Type} (m : M S A) (k : A → M S B) :
  unbounded m → (∀ a, unbounded (k a)) → unbounded (m ≫= k).
Proof. intros Hm Hk s. specialize (Hm s). unfold mbind, M_bind. destruct (m s) as [[a| | |] s']; [apply Hk|done..]. Qed.
Lemma unbounded_lift {S A : Type} (r : res A) : r ≠ OutOfFuel → unbounded (S := S) (lift_res r).
Proof. by intros Hr s. Qed.
Lemma unbounded_mfor {S A : Type} (xs : list A) (f : A → M S unit) : (∀ x, unbounded (f x)) → unbounded (mfor xs f).
Proof. intros Hf. induction xs as [|x xs IH]; [done|]. cbn. by apply unbounded_bind. Qed.
Lemma unbounded_assert {S : Type} (b : bool) : unbounded (S := S) (massert b).
Proof. by destruct b. Qed.
Lemma u64_add_bounded `{BuildProfile} a b : u64_add a b ≠ OutOfFuel.
Proof. unfold u64_add. by repeat case_match. Qed.

Ltac unbounded_auto :=
  repeat first
    [ done
    | progress intros
    | apply unbounded_bind
    | apply unbounded_lift
    | apply unbounded_assert
    | apply unbounded_mfor
    | apply u64_add_bounded
    | match goal with |- unbounded (match ?x with _ => _ end) => destruct x end
    | intros ?; done ].

Section Pipe.
Context {Bm Dc Pm : Type} {SB : BlockManagement Bm} {SD : DecisionStage Dc} {SP : Pacemaker Pm}
  `{Externals} `{!Bincode BitcoinTxn} `{!Bincode AvalancheTxn} `{!Bincode BlockHeader}
  `{!Bincode (list Hash)} `{BuildProfile} `{HashOrder} `{Transport} `{Channel} `{Ln}.
Implicit Types (n : Node Bm Dc Pm).

(** ** In a node *)

(** Both ends of the commit stage. *)
Definition commits_of_node n : list (N * list Txn) * list (N * list Txn) :=
  (nd_executed n, dt_committed (nd_decision n)).

(** What is on its way out of the node, oldest first. *)
Definition node_pipe n : list (N * list Txn) := rev (nd_executed n) ++ rev (dt_committed (nd_decision n)).

Lemma keeps_on_decide {A : Type} (m : M (DecisionThread Dc) A) :
  keeps dt_committed m → keeps commits_of_node (on_decide m).
Proof.
  intros Hm n. specialize (Hm (nd_decision n)). unfold on_decide, zoom, commits_of_node.
  destruct (m (nd_decision n)) as [r t]. cbn in *. by rewrite Hm.
Qed.

Lemma keeps_on_decision {A : Type} (m : M Dc A) : keeps dt_committed (on_decision m).
Proof. by apply keeps_zoom. Qed.

Lemma on_recv_keeps {X T : Type} (f : Node Bm Dc Pm → T) (get : Node Bm Dc Pm → list X) put arm :
  (∀ c n, f (put c n) = f n) → (∀ x, keeps f (arm x)) → keeps f (on_recv get put arm).
Proof. intros Hput Harm. unfold on_recv. keeps_auto; auto. Qed.

Ltac node_keeps :=
  repeat first
    [ apply keeps_log_err
    | apply on_recv_keeps; [intros ? ?; done|intros ?]
    | apply keeps_on_decide
    | apply keeps_on_decision
    | progress (unfold when, on_txn_val, on_txn_dissem, on_pace, on_blk_mgmt, on_blk_dissem, send_req,
        peer_receive, dt_new_tail, dt_timeout, dt_peer_msg)
    | keeps_step ].

(** The other arms touch neither end. *)
Lemma arm_keeps ev : ev ≠ EvCommit → ev ≠ EvCommitReady → keeps commits_of_node (arm_of ev).2.
Proof. intros Hc Hr. destruct ev; try done; cbn; node_keeps. Qed.

(** What an event adds to the decided blocks of a node. *)
Definition new_commits n n' : list (N * list Txn) :=
  take (length (dt_committed (nd_decision n')) - length (dt_committed (nd_decision n))) (dt_committed (nd_decision n')).

Lemma new_commits_same n n' : commits_of_node n' = commits_of_node n → new_commits n n' = [].
Proof. intros [= _ Hd]. unfold new_commits. by rewrite Hd, Nat.sub_diag. Qed.

Lemma node_step_state {T : Type} (f : Node Bm Dc Pm → T) ev n :
  (∀ n th, f (n <| nd_dead ::= cons th |>) = f n) →
  node_step ev n = n ∨ f (node_step ev n) = f ((arm_of ev).2 n).2.
Proof.
  intros Hf. unfold node_step. destruct (arm_of ev) as [[th|] m]; [|by right]. cbn.
  case_decide; [by left|]. destruct (m n) as [[]]; first [by left|by right|right; apply Hf].
Qed.

(** What the decision stage of a node hands out when the thread asks it, ... *)
Definition hands_out n : list (N * list Txn) :=
  if decide (DecisionTh ∈ nd_dead n) then [] else
  if dc_commit_ready (dt_stage (nd_decision n)) then
    match (dc_next_to_commit (dt_stage (nd_decision n))).1 with Ok blk => [blk] | _ => [] end
  else [].
(** ... which is what one arm of the thread does. *)
Definition node_decides (ev : Event) n : list (N * list Txn) :=
  match ev with EvCommitReady => hands_out n | _ => [] end.

(** The stages of the way out as relations on what is on it: [arrives] appends,
    [lost] drops one because a channel refused it, [refused] does not even take it. *)
Definition lossy : Prop := ∃ (T : Type) (c : list T), chan_open c = false.

Inductive moves (l : list (N * list Txn)) : list (N * list Txn) → list (N * list Txn) → Prop :=
| arrives new : moves l (l ++ new) new
| lost l1 x l2 : lossy → l = l1 ++ x :: l2 → moves l (l1 ++ l2) []
| refused new : lossy → moves l l new.

Lemma moves_same l l' : l' = l → moves l l' [].
Proof. intros ->. rewrite <- (app_nil_r l) at 2. constructor. Qed.

(** The thread passes on what the stage hands out, once and unchanged. *)
Lemma commit_ready_hands_out n :
  let n' := node_step EvCommitReady n in
  nd_executed n' = nd_executed n ∧
  dt_committed (nd_decision n') =
    (if chan_open (dt_committed (nd_decision n)) then hands_out n else []) ++ dt_committed (nd_decision n).
Proof.
  cbv zeta. unfold node_step, hands_out. cbn. unfold mbind, M_bind, gets, when.
  case_decide; [by destruct (chan_open _)|]. destruct (dc_commit_ready _); [|by destruct (chan_open _)].
  unfold on_decide, dt_commit, log_err, on_decision, zoom, mbind, M_bind, chan_send.
  destruct (dc_next_to_commit _) as [[blk|e| |] d]; cbn; [|by destruct (chan_open _)..].
  by destruct (chan_open (dt_committed (nd_decision n))).
Qed.

Lemma commit_ready_moves n : moves (node_pipe n) (node_pipe (node_step EvCommitReady n)) (hands_out n).
Proof.
  destruct (commit_ready_hands_out n) as [He Hd]. unfold node_pipe. rewrite He, Hd.
  destruct (chan_open _) eqn:Ho; [|apply refused; by exists _, (dt_committed (nd_decision n))].
  rewrite rev_app_distr. assert (rev (hands_out n) = hands_out n) as ->.
  { unfold hands_out. repeat case_match; done. }
  rewrite app_assoc. constructor.
Qed.

Lemma commit_ready_new n : ¬ lossy → new_commits n (node_step EvCommitReady n) = hands_out n.
Proof.
  intros Hopen. destruct (commit_ready_hands_out n) as [_ Hd]. unfold new_commits. rewrite Hd.
  destruct (chan_open _) eqn:Ho; [|by destruct Hopen; exists _, (dt_committed (nd_decision n))].
  by rewrite length_app, Nat.add_sub, take_app_length.
Qed.

Lemma ct_commit_state h b c : (ct_commit h b c).2 = if chan_open c then (h, b) :: c else c.
Proof.
  unfold ct_commit, log_err, lift_res, mbind, M_bind, chan_send. cbn. by destruct (chan_open c).
Qed.

(** The commit stage takes, and decides nothing. *)
Lemma commit_no_new n : new_commits n ((arm_of EvCommit).2 n).2 = [].
Proof.
  pose proof (chan_recv_spec (dt_committed (nd_decision n))) as Hrecv.
  cbn. unfold on_recv, mbind, M_bind, gets. cbn.
  destruct (chan_recv _) as [[[h b] rest]|]; [|by apply new_commits_same].
  unfold modify. rewrite zoom_state. unfold new_commits. cbn.
  assert (length rest - length (dt_committed (nd_decision n)) = 0)%nat as ->; [|done].
  rewrite <- (length_rev (dt_committed _)), Hrecv. cbn. rewrite length_rev. lia.
Qed.

Lemma commit_moves n :
  let n' := ((arm_of EvCommit).2 n).2 in moves (node_pipe n) (node_pipe n') [].
Proof.
  cbv zeta. pose proof (chan_recv_spec (dt_committed (nd_decision n))) as Hrecv.
  cbn. unfold on_recv, mbind, M_bind, gets. cbn.
  destruct (chan_recv _) as [[[h b] rest]|]; [|by apply moves_same].
  unfold modify. rewrite zoom_state. unfold node_pipe. cbn. rewrite Hrecv, ct_commit_state. destruct (chan_open (nd_executed n)) eqn:Hopen; cbn.
  - apply moves_same. by rewrite <- app_assoc.
  - apply (lost _ _ (h, b)); [|done]. by exists _, (nd_executed n).
Qed.

Lemma node_step_moves ev n : moves (node_pipe n) (node_pipe (node_step ev n)) (node_decides ev n).
Proof.
  assert (ev = EvCommitReady ∨ ev ≠ EvCommitReady) as [->|Hr] by (destruct ev; naive_solver); [apply commit_ready_moves|].
  assert (node_decides ev n = []) as -> by (by destruct ev).
  destruct (node_step_state commits_of_node ev n) as [->|Hst]; [done|by apply moves_same|].
  assert (node_pipe (node_step ev n) = node_pipe ((arm_of ev).2 n).2) as ->.
  { injection Hst as He Hd. unfold node_pipe. by rewrite He, Hd. }
  assert (ev = EvCommit ∨ ev ≠ EvCommit) as [->|Hc] by (destruct ev; naive_solver); [apply commit_moves|].
  apply moves_same. pose proof (arm_keeps _ Hc Hr n) as Hk. injection Hk as He Hd. unfold node_pipe. by rewrite He, Hd.
Qed.

(** Only [commit_ready] decides. *)
Lemma node_step_no_new ev n : ev ≠ EvCommitReady → new_commits n (node_step ev n) = [].
Proof.
  intros Hr. destruct (node_step_state commits_of_node ev n) as [->|Hst]; [done|by apply new_commits_same|].
  assert (new_commits n (node_step ev n) = new_commits n ((arm_of ev).2 n).2) as ->.
  { injection Hst as _ Hd. unfold new_commits. by rewrite Hd. }
  assert (ev = EvCommit ∨ ev ≠ EvCommit) as [->|Hc] by (destruct ev; naive_solver); [apply commit_no_new|].
  apply new_commits_same. by apply arm_keeps.
Qed.

(** Where nothing is refused, what is decided is what the channel grows by. *)
Lemma node_decides_new ev n : ¬ lossy → new_commits n (node_step ev n) = node_decides ev n.
Proof.
  intros Hopen. assert (ev = EvCommitReady ∨ ev ≠ EvCommitReady) as [->|Hr] by (destruct ev; naive_solver);
    [by apply commit_ready_new|]. rewrite node_step_no_new by done. by destruct ev.
Qed.

(** ** In the cluster *)

Implicit Types (s : Cluster Bm Dc Pm) (ev : ClusterEvent).

(** The commits of one node among those of all. *)
Definition commits_of {X : Type} (id : NodeId) (l : list (NodeId * X)) : list X :=
  snd <$> filter (λ x, x.1 = id) l.

(** What is on its way from a node to the generator, oldest first. *)
Definition pipe_of (id : NodeId) (combine : list (NodeId * (N * list Txn)))
    (nodes : gmap NodeId (Node Bm Dc Pm)) : list (N * list Txn) :=
  commits_of id (rev combine) ++ default [] (node_pipe <$> nodes !! id).
Definition pipe (id : NodeId) s : list (N * list Txn) := pipe_of id (cl_combine s) (cl_node_map s).

(** What an event decides: what the decision stage of a node hands out; and what it is
    to tell the generator of: the oldest commit that has come through. *)
Definition decided_by ev s : list (NodeId * (N * list Txn)) :=
  match ev with
  | CeNode id ev =>
    if cl_over s then [] else default [] ((λ n, pair id <$> node_decides ev n) <$> cl_node_map s !! id)
  | _ => []
  end.

Definition told_by ev s : list (NodeId * (N * list Txn)) :=
  match ev with
  | CeCommitted _ =>
    if cl_over s then [] else match chan_recv (cl_combine s) with Some (x, _) => [x] | None => [] end
  | _ => []
  end.

(** The generator after it is told of these. *)
Definition telling (now : Instant) (g : SomeFlowGen) (l : list (NodeId * (N * list Txn))) : SomeFlowGen :=
  foldl (λ g x, (fg_txn_committed now x.1 x.2.2 x.2.1 g).2) g l.

(** A run, with what was decided and what was told. *)
Inductive cluster_reach (s0 : Cluster Bm Dc Pm) :
    list (NodeId * (N * list Txn)) → list (NodeId * (N * list Txn)) → Cluster Bm Dc Pm → Prop :=
| cluster_reach_new : cluster_reach s0 [] [] s0
| cluster_reach_step decided told s ev :
    cluster_reach s0 decided told s →
    cluster_reach s0 (decided ++ decided_by ev s) (told ++ told_by ev s) (cluster_step ev s).

Lemma commits_of_app {X : Type} id (l1 l2 : list (NodeId * X)) :
  commits_of id (l1 ++ l2) = commits_of id l1 ++ commits_of id l2.
Proof. unfold commits_of. by rewrite filter_app, fmap_app. Qed.

Lemma commits_of_tagged {X : Type} id id' (l : list X) :
  commits_of id (pair id' <$> l) = if decide (id' = id) then l else [].
Proof.
  unfold commits_of. induction l as [|x l IH]; [by destruct (decide _)|].
  rewrite fmap_cons, filter_cons. cbn. destruct (decide (id' = id)); [|done]. cbn. by rewrite IH.
Qed.

Lemma moves_prefix l0 l l' new : moves l l' new → moves (l0 ++ l) (l0 ++ l') new.
Proof.
  intros [new'|l1 x l2 Hl ->|new' Hl]; [rewrite app_assoc; constructor| |by apply refused]. rewrite (app_assoc l0 l1 l2).
  apply (lost _ _ x); [done|]. by rewrite <- app_assoc.
Qed.

(** Storing a node changes the pipe of that node alone. *)
Lemma pipe_insert id id' n' c nodes :
  pipe_of id c (<[id' := n']> nodes) =
  if decide (id' = id) then commits_of id (rev c) ++ node_pipe n' else pipe_of id c nodes.
Proof.
  unfold pipe_of. destruct (decide (id' = id)) as [->|Hne];
    [by rewrite lookup_insert_eq|by rewrite lookup_insert_ne].
Qed.

Lemma pipe_lookup id n c nodes : nodes !! id = Some n → pipe_of id c nodes = commits_of id (rev c) ++ node_pipe n.
Proof. intros Hn. unfold pipe_of. by rewrite Hn. Qed.

Lemma commits_of_cons {X : Type} id id' (x : X) c :
  commits_of id (rev ((id', x) :: c)) = commits_of id (rev c) ++ (if decide (id' = id) then [x] else []).
Proof. cbn [rev]. rewrite commits_of_app. f_equal. apply (commits_of_tagged id id' [x]). Qed.

(** The loop of [main] sends without touching what is on its way out. *)
Lemma send_to_keeps id txn id' : keeps (pipe id) (send_to (Bm := Bm) (Dc := Dc) (Pm := Pm) txn id').
Proof.
  intros s. unfold send_to, mbind, M_bind, gets, unwrap. unfold pipe; cbn -[pipe_of].
  destruct (cl_node_map s !! id') as [n|] eqn:Hn; [|done]. unfold pipe; cbn -[pipe_of]. rewrite pipe_insert.
  destruct (decide (id' = id)) as [->|]; [|done]. rewrite (pipe_lookup _ _ _ _ Hn). f_equal.
  unfold send_req. by rewrite zoom_state.
Qed.

Lemma send_batch_keeps id batch : keeps (pipe id) (send_batch (Bm := Bm) (Dc := Dc) (Pm := Pm) batch).
Proof. unfold send_batch. keeps_auto. apply send_to_keeps. Qed.

Lemma on_flow_keeps {A : Type} id (m : M SomeFlowGen A) :
  keeps (pipe id) (on_flow (Bm := Bm) (Dc := Dc) (Pm := Pm) m).
Proof. by apply keeps_zoom. Qed.

Lemma request_keeps id now u : keeps (pipe id) (cluster_request (Bm := Bm) (Dc := Dc) (Pm := Pm) now u).
Proof.
  pose proof (send_batch_keeps id). unfold cluster_request.
  repeat first [apply keeps_log_err, on_flow_keeps|keeps_step].
Qed.

Lemma report_keeps id elapsed interval debug :
  keeps (pipe id) (cluster_report (Bm := Bm) (Dc := Dc) (Pm := Pm) elapsed interval debug).
Proof. unfold cluster_report. repeat first [apply on_flow_keeps|keeps_step]. Qed.

Lemma main_arm_state {T : Type} (f : Cluster Bm Dc Pm → T) m s :
  (∀ s', f (s' <| cl_over := true |>) = f s') → f (main_arm m s) = f s ∨ f (main_arm m s) = f (m s).2.
Proof. intros Hf. unfold main_arm. destruct (m s) as [[]]; first [by left|by right|right; apply Hf]. Qed.

Lemma main_arm_keeps id m s : keeps (pipe id) m → pipe id (main_arm m s) = pipe id s.
Proof. intros Hm. by destruct (main_arm_state (pipe id) m s) as [->| ->]. Qed.

Lemma redirect_moves id id' s : moves (pipe id s) (pipe id (cluster_redirect id' s).2) [].
Proof.
  unfold cluster_redirect, mbind, M_bind, gets. unfold pipe; cbn -[pipe_of].
  destruct (cl_node_map s !! id') as [n|] eqn:Hn; [|by apply moves_same].
  pose proof (chan_recv_spec (nd_executed n)) as Hrecv.
  destruct (chan_recv (nd_executed n)) as [[msg rest]|]; [|by apply moves_same].
  unfold modify, log_err, zoom, chan_send. unfold pipe; cbn -[pipe_of].
  assert (node_pipe n = msg :: node_pipe (n <| nd_executed := rest |>)) as Hpipe.
  { unfold node_pipe. cbn. by rewrite Hrecv. }
  destruct (chan_open (cl_combine s)) eqn:Hopen; cbn -[pipe_of];
    rewrite pipe_insert; destruct (decide (id' = id)) as [->|Hne].
  - apply moves_same. rewrite (pipe_lookup _ _ _ _ Hn), Hpipe, commits_of_cons, decide_True, <- app_assoc by done. done.
  - apply moves_same. unfold pipe_of. by rewrite commits_of_cons, decide_False, app_nil_r by done.
  - apply (lost _ _ msg); [by exists _, (cl_combine s)|]. by rewrite (pipe_lookup _ _ _ _ Hn), Hpipe.
  - by apply moves_same.
Qed.

Lemma node_event_moves id id' (ev : Event) s : cl_over s = false →
  moves (pipe id s) (pipe id (cluster_step (CeNode id' ev) s)) (commits_of id (decided_by (CeNode id' ev) s)).
Proof.
  intros Hover. unfold decided_by, cluster_step. rewrite Hover.
  destruct (cl_node_map s !! id') as [n|] eqn:Hn; [|by apply moves_same]. cbn -[commits_of].
  rewrite commits_of_tagged. destruct (is_client ev) eqn:Hcl.
  { destruct ev; try done. cbn. destruct (decide (id' = id)); by apply moves_same. }
  unfold pipe. cbn -[pipe_of commits_of]. rewrite pipe_insert.
  destruct (decide (id' = id)) as [->|]; [|by apply moves_same].
  rewrite (pipe_lookup _ _ _ _ Hn). apply moves_prefix, node_step_moves.
Qed.

(** Both ends of what is on its way in the cluster. *)
Definition channels s := (cl_combine s, cl_node_map s).

Lemma fg_txn_committed_bounded now node txns h : unbounded (fg_txn_committed now node txns h).
Proof.
  assert (∀ t, txn_compute_id t ≠ OutOfFuel) as Hid.
  { assert (∀ b, sha256 b ≠ OutOfFuel) as Hsha by (intros b; unfold sha256, u256_from_le_res; by repeat case_match).
    intros [t|t|t]; cbn; [done|unfold btc_compute_id|unfold avax_compute_id; case_match; try done];
      (destruct (serialize _); cbn; [apply Hsha|done]). }
  intros g. unfold fg_txn_committed, on_gen. destruct g as [g|g|g]; cbn; revert g;
    [change (unbounded (bf_txn_committed now node txns h)); unfold bf_txn_committed, bf_record_commit
    |change (unbounded (af_txn_committed now node txns h)); unfold af_txn_committed, af_record_commit
    |change (unbounded (cf_txn_committed now node txns h)); unfold cf_txn_committed, cf_record_commit]; unbounded_auto.
Qed.

(** The arm of a commit takes the oldest, and tells the generator of it. *)
Lemma cluster_committed_eq now s node h txns rest :
  chan_recv (cl_combine s) = Some ((node, (h, txns)), rest) →
  let r := fg_txn_committed now node txns h (cl_flow_gen s) in
  cluster_committed now s =
    (match r.1 with Panic => Panic | OutOfFuel => OutOfFuel | _ => Ok tt end,
     s <| cl_combine := rest |> <| cl_flow_gen := r.2 |>).
Proof.
  intros Hrecv. unfold cluster_committed, mbind, M_bind, gets, modify, log_err, on_flow, zoom. cbn. rewrite Hrecv. cbn.
  by destruct (fg_txn_committed _ _ _ _ _) as [[]].
Qed.

Lemma committed_step now s : cl_over s = false →
  let s' := cluster_step (CeCommitted now) s in
  channels s' = (match chan_recv (cl_combine s) with Some (_, rest) => rest | None => cl_combine s end, cl_node_map s) ∧
  cl_flow_gen s' = telling now (cl_flow_gen s) (told_by (CeCommitted now) s).
Proof.
  intros Hover. cbv zeta. unfold told_by, cluster_step, main_arm. rewrite Hover.
  destruct (chan_recv (cl_combine s)) as [[[node [h txns]] rest]|] eqn:Hrecv.
  - rewrite (cluster_committed_eq _ _ _ _ _ _ Hrecv). cbn.
    pose proof (fg_txn_committed_bounded now node txns h (cl_flow_gen s)) as Hb.
    by destruct (fg_txn_committed _ _ _ _ _) as [[]].
  - unfold cluster_committed, mbind, M_bind, gets. cbn. by rewrite Hrecv.
Qed.

Lemma committed_moves id now s :
  commits_of id (told_by (CeCommitted now) s) ++ pipe id (cluster_step (CeCommitted now) s) = pipe id s.
Proof.
  destruct (cl_over s) eqn:Hover; [unfold told_by, cluster_step; by rewrite Hover|].
  destruct (committed_step now s Hover) as [[= Hc Hn] _]. pose proof (chan_recv_spec (cl_combine s)) as Hrecv.
  unfold pipe at 1, told_by. rewrite Hc, Hn, Hover. destruct (chan_recv (cl_combine s)) as [[x rest]|]; [|done].
  unfold pipe, pipe_of. rewrite Hrecv, app_assoc, <- commits_of_app. done.
Qed.

(** Nodes and redirecting tasks tell the generator of nothing. *)
Lemma step_tells ev s :
  (∀ now u, ev ≠ CeRequest now u) → (∀ elapsed interval debug, ev ≠ CeReport elapsed interval debug) →
  cl_flow_gen (cluster_step ev s) =
    match ev with CeCommitted now => telling now (cl_flow_gen s) (told_by ev s) | _ => cl_flow_gen s end.
Proof.
  intros Hr Hp. destruct ev as [id e|id|now u|now|elapsed interval debug]; [| |by destruct (Hr now u)| |by destruct (Hp elapsed interval debug)].
  - unfold cluster_step. destruct (cl_over s), (cl_node_map s !! id); try done. by destruct (is_client e).
  - unfold cluster_step. destruct (cl_over s); [done|].
    assert (keeps cl_flow_gen (cluster_redirect (Bm := Bm) (Dc := Dc) (Pm := Pm) id)) as Hk; [|apply Hk].
    unfold cluster_redirect. repeat first [apply keeps_log_err|keeps_step].
  - destruct (cl_over s) eqn:Hover; [unfold told_by, cluster_step; by rewrite Hover|].
    by apply committed_step.
Qed.

Lemma pipe_step id ev s :
  moves (pipe id s) (commits_of id (told_by ev s) ++ pipe id (cluster_step ev s)) (commits_of id (decided_by ev s)).
Proof.
  destruct ev as [id' ev|id'|now u|now|elapsed interval debug]; [..|apply moves_same, committed_moves|];
    (destruct (cl_over s) eqn:Hover; [unfold told_by, decided_by, cluster_step; rewrite Hover; by apply moves_same|]).
  - by apply node_event_moves.
  - unfold cluster_step. rewrite Hover. apply redirect_moves.
  - unfold cluster_step. rewrite Hover. apply moves_same, main_arm_keeps, request_keeps.
  - unfold cluster_step. rewrite Hover. apply moves_same, main_arm_keeps, report_keeps.
Qed.

(** ** In a run *)

Lemma told_sublist s0 decided told s id :
  cluster_reach s0 decided told s → pipe id s0 = [] →
  commits_of id told ++ pipe id s `sublist_of` commits_of id decided.
Proof.
  intros Hreach Hs0. induction Hreach as [|decided told s ev _ IH]; [by rewrite Hs0|].
  rewrite !commits_of_app, <- app_assoc.
  destruct (pipe_step id ev s) as [new|l1 x l2 Hl Hpipe|new Hl].
  - rewrite app_assoc. by apply sublist_app.
  - rewrite app_nil_r. etrans; [|exact IH]. rewrite Hpipe. apply sublist_app; [done|].
    apply sublist_app; [done|]. by apply sublist_cons.
  - etrans; [exact IH|]. by apply sublist_inserts_r.
Qed.

Lemma told_exact s0 decided told s id :
  ¬ lossy → cluster_reach s0 decided told s → pipe id s0 = [] →
  commits_of id told ++ pipe id s = commits_of id decided.
Proof.
  intros Hopen Hreach Hs0. induction Hreach as [|decided told s ev _ IH]; [by rewrite Hs0|].
  rewrite !commits_of_app, <- app_assoc, <- IH.
  by destruct (pipe_step id ev s) as [new|l1 x l2 Hl Hpipe|new Hl]; [by rewrite app_assoc|..].
Qed.

Lemma setup_pipe req_dsts nodes g id :
  map_Forall (λ _ n, node_pipe n = []) nodes →
  pipe id (cluster_setup (Bm := Bm) (Dc := Dc) (Pm := Pm) (cluster_new req_dsts nodes g)).2 = [].
Proof.
  intros Hnodes. assert (keeps (pipe id) (cluster_setup (Bm := Bm) (Dc := Dc) (Pm := Pm))) as ->.
  { pose proof (send_batch_keeps id). unfold cluster_setup.
    repeat first [apply keeps_log_err, on_flow_keeps|keeps_step]. }
  unfold pipe, pipe_of. cbn. destruct (nodes !! id) as [n|] eqn:Hn; [|done]. cbn. by eapply Hnodes.
Qed.

(** A run as a function of its events. *)
Definition cluster_trace s0 (evs : list ClusterEvent) :=
  foldl (λ r ev, (r.1.1 ++ decided_by ev r.2, r.1.2 ++ told_by ev r.2, cluster_step ev r.2)) ([], [], s0) evs.

Lemma cluster_trace_reach s0 evs :
  let r := cluster_trace s0 evs in cluster_reach s0 r.1.1 r.1.2 r.2.
Proof.
  unfold cluster_trace. induction evs as [|ev evs IH] using rev_ind; [constructor|].
  rewrite foldl_app. cbn. by constructor.
Qed.

(** C13: the generator learns of commits in order. However the nodes of a cluster, the
    tasks that redirect what they execute and the loop of [main] interleave, and
    whatever stages the nodes run: what the generator is told of a node is what the
    node's decision stage handed out to its thread, in that order, none twice and none
    changed; as long as no channel closes, none is missing but those still on their way.
    Being told of a commit is a call of [txn_committed] with that node, height and
    batch, and apart from requests and reports nothing else touches the generator. *)
Theorem commits_reach_client_in_order req_dsts nodes g s0 decided told s id :
  map_Forall (λ _ n, node_pipe n = []) nodes →
  cluster_setup (cluster_new req_dsts nodes g) = (Ok tt, s0) →
  cluster_reach s0 decided told s →
  commits_of id told `sublist_of` commits_of id decided ∧
  (¬ lossy → commits_of id decided = commits_of id told ++ pipe id s) ∧
  ∀ ev, (∀ now u, ev ≠ CeRequest now u) → (∀ elapsed interval debug, ev ≠ CeReport elapsed interval debug) →
    cl_flow_gen (cluster_step ev s) =
      match ev with CeCommitted now => telling now (cl_flow_gen s) (told_by ev s) | _ => cl_flow_gen s end.
Proof.
  intros Hnodes Hsetup Hreach.
  assert (pipe id s0 = []) as Hs0 by (pose proof (setup_pipe req_dsts nodes g id Hnodes) as Hp; by rewrite Hsetup in Hp).
  split; [|split; [intros Hopen; by erewrite told_exact|intros ev; apply step_tells]].
  etrans; [|by eapply told_sublist]. by apply sublist_inserts_r.
Qed.
End Pipe.

(** ** Witness: from the grants of a client to the commit it is told of *)

#[local] Existing Instances sample_externals sample_bincode_btc sample_bincode_header
  sample_transport sample_channel sample_profile canonical_order
  node_bincode_avax node_bincode_hashes node_bincode_req node_bincode_ballot node_bincode_vote.
#[local] Instance cluster_ln : Ln := λ _, f64_zero.

Definition w_gen : SomeFlowGen :=
  match get_flow_gen 0 [0] 2 10 UNSET f64_zero CTAvalanche CSDummy 0 [0; 1; 2] [f64_one] with
  | Ok g => g
  | _ => FGBitcoin (bf_new 0 [0] 2 10 UNSET CSDummy 0 [])
  end.
Definition w_dsts : gmap ClientId (list NodeId) := {[0 := [1]]}.
Definition w_cl_events : list ClusterEvent :=
  (CeNode 1 <$> ([EvRequest; EvSpawn true] ++ replicate 6 (EvValTask 0) ++ drop 6 w_events ++ take 3 w_rest)) ++ [CeRedirect 1; CeCommitted 3; CeReport 60 f64_one false].
Definition w_cluster (n : Node AvaMgmt.AvalancheBM AvaDecide.AvalancheDecision FixedInflightBlkPaceMaker) :=
  cluster_setup (cluster_new w_dsts {[1 := n]} w_gen).

Definition w_granted : list (NodeId * (N * list Txn)) :=
  [(1, (0, [TAvalanche (AGrant 10 (replicate 8 0) 0)]))].

Lemma w_cluster_told : ∃ n, w_node = Ok n ∧
  let r := cluster_trace (w_cluster n).2 w_cl_events in r.1 = (w_granted, w_granted).
Proof. eexists. split; [vm_compute; reflexivity|by vm_compute]. Qed.

Lemma commits_reach_client_in_order_witness : ∃ n, w_node = Ok n ∧
  let r := cluster_trace (w_cluster n).2 w_cl_events in
  commits_of 1 r.1.2 `sublist_of` commits_of 1 r.1.1 ∧
  (¬ lossy → commits_of 1 r.1.1 = commits_of 1 r.1.2 ++ pipe 1 r.2) ∧
  ∀ ev, (∀ now u, ev ≠ CeRequest now u) → (∀ elapsed interval debug, ev ≠ CeReport elapsed interval debug) →
    cl_flow_gen (cluster_step ev r.2) =
      match ev with CeCommitted now => telling now (cl_flow_gen r.2) (told_by ev r.2) | _ => cl_flow_gen r.2 end.
Proof.
  eexists. split; [vm_compute; reflexivity|].
  match goal with |- context [w_cluster ?n] =>
    apply (commits_reach_client_in_order w_dsts {[1 := n]} w_gen (w_cluster n).2) end.
  - by apply map_Forall_singleton.
  - by vm_compute.
  - apply cluster_trace_reach.
Defined.

(** ** The throughput *)

(** A Bitcoin chain that is switched after commits can have fewer transactions at
    the next report than at the last: the difference underflows, and in a debug build
    ends the process. *)
Section Throughput.
#[local] Instance debug_profile : BuildProfile := true.

Definition w_txns : list Txn := [TBitcoin (BGrant 1 []); TBitcoin (BGrant 2 [])].
Definition w_btc_cluster : Cluster AvaMgmt.AvalancheBM AvaDecide.AvalancheDecision FixedInflightBlkPaceMaker :=
  (cluster_new ∅ ∅ (FGBitcoin (bf_new 0 [] 0 10 UNSET CSDummy 0 [])))
    <| cl_combine := [(1, (1, take 1 w_txns)); (1, (1, w_txns))] |>.

Lemma throughput_underflows :
  let s := cluster_run [CeCommitted 1; CeReport 60 f64_one false; CeCommitted 2] w_btc_cluster in
  cl_over s = false ∧ cl_prev_committed s = 2 ∧
  (cluster_report 120 f64_one false s).1 = Panic.
Proof. by vm_compute. Qed.
End Throughput.
