(* ===== verification/ClusterRepl.v ===== *)
(** * A chain-replication cluster and its client

    The composition of ChainRepl.v, Node.v, Cluster.v and the chain-replication
    generator of FlowGen.v: every node of a cluster commits the blocks 1, 2, 3, ... and
    the generator, which asserts that it is told of them in this order, is. *)

From S2P Require Import Prelude F64 Protocol Peers Config Samples ChainRepl Stages Threads Node NodeProps.
From S2P Require Import FlowGen AvaFlowGen Cluster ClusterProps.
Local Open Scope N_scope.

Section Repl.
Context {Bm Pm : Type} {SB : BlockManagement Bm} {SP : Pacemaker Pm}
  `{!Bincode Msg} `{Externals} `{!Bincode BitcoinTxn} `{!Bincode AvalancheTxn} `{!Bincode BlockHeader}
  `{!Bincode (list Hash)} `{BuildProfile} `{HashOrder} `{Transport} `{Channel} `{Ln}.
Abbreviation RNode := (Node Bm ChainReplicationDecision Pm).
Abbreviation RCluster := (Cluster Bm ChainReplicationDecision Pm).
Implicit Types (n : RNode) (s : RCluster).

(** ** In a node *)

(** The block a node commits next. *)
Definition due n : Hash := next_to_commit (dt_stage (nd_decision n)).

Lemma keeps_due_decide {A : Type} (m : M (DecisionThread ChainReplicationDecision) A) :
  keeps (λ t, next_to_commit (dt_stage t)) m → keeps due (on_decide (Bm := Bm) (Pm := Pm) m).
Proof.
  intros Hm n. specialize (Hm (nd_decision n)). unfold on_decide, zoom, due.
  by destruct (m (nd_decision n)) as [r t].
Qed.

Lemma keeps_due_stage {A : Type} (m : M ChainReplicationDecision A) :
  keeps next_to_commit m → keeps (λ t, next_to_commit (dt_stage t)) (on_decision m).
Proof.
  intros Hm t. specialize (Hm (dt_stage t)). unfold on_decision, zoom. by destruct (m (dt_stage t)).
Qed.

Lemma new_tail_due src tail : keeps next_to_commit (crd_new_tail src tail).
Proof. unfold crd_new_tail. keeps_auto. Qed.
Lemma peer_msg_due src msg : keeps next_to_commit (crd_handle_peer_msg src msg).
Proof. unfold crd_handle_peer_msg. keeps_auto. Qed.
Lemma timeout_due : keeps next_to_commit crd_handle_timeout.
Proof. unfold crd_handle_timeout. keeps_auto. Qed.

(** Only a commit changes it. *)
Ltac due_keeps :=
  repeat first
    [ apply keeps_log_err
    | apply on_recv_keeps; [intros ? ?; done|intros ?]
    | apply keeps_due_decide
    | apply keeps_due_stage; first [apply new_tail_due|apply peer_msg_due|apply timeout_due]
    | progress (unfold when, on_txn_val, on_txn_dissem, on_pace, on_blk_mgmt, on_blk_dissem, send_req,
        peer_receive, dt_new_tail, dt_timeout, dt_peer_msg)
    | keeps_step ].

Lemma arm_due ev : ev ≠ EvCommitReady → keeps due (arm_of ev).2.
Proof. intros Hr. destruct ev; try done; cbn; due_keeps. Qed.

(** A commit, if the channel takes it: the block that is due, and the next one is
    due from then on. *)
Lemma next_to_commit_out (d d' : ChainReplicationDecision) out :
  crd_next_to_commit d = (Ok out, d') →
  out.1 = next_to_commit d ∧ next_to_commit d' = next_to_commit d + 1 ∧ out.1 < two64.
Proof.
  unfold crd_next_to_commit. intros Heq. m_inv. unfold id in *.
  unfold u256_add, u256_as_u64 in *. repeat case_match; simplify_eq. cbn. split_and!; [done|done|by apply N.ltb_lt].
Qed.

Lemma next_to_commit_no_err (d : ChainReplicationDecision) e d' : crd_next_to_commit d ≠ (Err e, d').
Proof.
  unfold crd_next_to_commit, mbind, M_bind, gets, modify, massert, unwrap, lift_res, u256_add, u256_as_u64, mret, M_ret.
  intros Heq. repeat (case_match; simplify_eq).
Qed.

(** ** One event *)

(** The decision thread has panicked. *)
Definition decision_dead n : Prop := DecisionTh ∈ nd_dead n.

(** What an event does to the commits of a node: nothing, unless its thread dies; or
    the block that is due. *)
Definition commits_due n n' : Prop :=
  (new_commits n n' = [] ∧ (decision_dead n' ∨ due n' = due n)) ∨
  (∃ txns, new_commits n n' = [(due n, txns)] ∧ due n' = due n + 1 ∧ due n < two64).

Lemma dt_commit_due (t : DecisionThread ChainReplicationDecision) :
  ¬ lossy →
  match dt_commit t with
  | (Ok _, t') => ∃ txns, dt_committed t' = (next_to_commit (dt_stage t), txns) :: dt_committed t ∧
      next_to_commit (dt_stage t') = next_to_commit (dt_stage t) + 1 ∧ next_to_commit (dt_stage t) < two64
  | (Err _, _) => False
  | (_, t') => dt_committed t' = dt_committed t
  end.
Proof.
  intros Hopen. unfold dt_commit, log_err, on_decision, zoom, mbind, M_bind. cbn.
  pose proof (next_to_commit_out (dt_stage t)) as Hout. pose proof (next_to_commit_no_err (dt_stage t)) as Herr.
  destruct (crd_next_to_commit (dt_stage t)) as [[[h txns]|e| |] d'].
  - cbn. unfold chan_send. destruct (chan_open (dt_committed t)) eqn:Hc; [|by destruct Hopen; exists _, (dt_committed t)].
    destruct (Hout d' (h, txns)) as (Hh & ? & ?); [done|]. cbn in *. subst h. by exists txns.
  - by edestruct Herr.
  - done.
  - done.
Qed.

(** The dead stay dead. *)
Ltac dead_keeps :=
  repeat first
    [ apply keeps_log_err
    | apply on_recv_keeps; [intros ? ?; done|intros ?]
    | progress (unfold when, on_txn_val, on_txn_dissem, on_pace, on_blk_mgmt, on_blk_dissem, on_decide, send_req,
        peer_receive)
    | keeps_step ].

Lemma arm_dead ev : keeps nd_dead (arm_of (Bm := Bm) (Dc := ChainReplicationDecision) (Pm := Pm) ev).2.
Proof. destruct ev; cbn; dead_keeps. Qed.

Lemma node_step_dead ev n : nd_dead n ⊆ nd_dead (node_step ev n).
Proof.
  pose proof (arm_dead ev n) as Hd. unfold node_step. destruct (arm_of ev) as [[th|] m]; cbn in *; [|by rewrite Hd].
  case_decide; [done|]. destruct (m n) as [[]]; cbn in *; rewrite ?Hd; set_solver.
Qed.

Lemma node_step_due ev n :
  ¬ lossy → commits_due n (node_step ev n) ∧
    (decision_dead n → new_commits n (node_step ev n) = [] ∧ decision_dead (node_step ev n)).
Proof.
  intros Hopen. split; cycle 1.
  { intros Hdead. split; [|by apply node_step_dead].
    assert (ev = EvCommitReady ∨ ev ≠ EvCommitReady) as [->|Hev] by (destruct ev; naive_solver);
      [|by apply node_step_no_new].
    unfold node_step. destruct (arm_of EvCommitReady) as [th m] eqn:Harm. cbn in Harm. injection Harm as <- <-.
    rewrite decide_True by done. by apply new_commits_same. }
  assert (ev = EvCommitReady ∨ ev ≠ EvCommitReady) as [->|Hev] by (destruct ev; naive_solver); cycle 1.
  { left. split; [by apply node_step_no_new|right].
    destruct (node_step_state due ev n) as [->| ->]; [done..|]. by apply arm_due. }
  unfold node_step. destruct (arm_of EvCommitReady) as [th m] eqn:Harm. cbn in Harm. injection Harm as <- <-. case_decide; [by left; split; [apply new_commits_same|right]|].
  unfold mbind, M_bind, gets, when. cbn. destruct (crd_commit_ready _); [|by left; split; [apply new_commits_same|right]].
  pose proof (dt_commit_due (nd_decision n) Hopen) as Hdt. unfold on_decide, zoom.
  destruct (dt_commit (nd_decision n)) as [[u|e| |] t']; [|done|..].
  - destruct Hdt as (txns & Hc & Hd & Hlt). right. exists txns. split; [|done]. unfold new_commits. cbn. rewrite Hc. cbn.
    by replace (S (length (dt_committed (nd_decision n))) - length (dt_committed (nd_decision n)))%nat with 1%nat by lia.
  - left. split; [unfold new_commits; cbn; by rewrite Hdt, Nat.sub_diag|]. left. unfold decision_dead. cbn. by left.
  - left. split; [by apply new_commits_same|by right].
Qed.

(** ** In the cluster *)

(** The blocks numbered from 1. *)
Definition numbered (l : list (N * list Txn)) : Prop := l.*1 = N.of_nat <$> seq 1 (length l).

Lemma numbered_snoc l x : numbered l → x.1 = N.of_nat (S (length l)) → numbered (l ++ [x]).
Proof.
  unfold numbered. intros Hl Hx. rewrite fmap_app, Hl, length_app, Nat.add_1_r, seq_S, fmap_app. cbn. by rewrite Hx.
Qed.

Lemma numbered_lookup l k x : numbered l → l !! k = Some x → x.1 = N.of_nat (S k).
Proof.
  intros Hl Hk. pose proof (lookup_lt_Some _ _ _ Hk) as Hlt. apply (f_equal (λ l : list N, l !! k)) in Hl.
  rewrite !list_lookup_fmap, Hk, lookup_seq_lt in Hl by done. cbn in Hl. injection Hl as ->. done.
Qed.

(** What every node has decided, and what it has not. *)
Definition decided_ok (decided : list (NodeId * (N * list Txn))) s : Prop :=
  ∀ id, numbered (commits_of id decided) ∧
    Forall (λ x, x.1 < two64) (commits_of id decided) ∧
    ∀ n, cl_node_map s !! id = Some n →
      decision_dead n ∨ due n = N.of_nat (S (length (commits_of id decided))).

(** What matters of the nodes for the order of their commits. *)
Definition dues s : gmap NodeId (Hash * list Thread) := (λ n, (due n, nd_dead n)) <$> cl_node_map s.

Lemma dues_insert s s' id n n' :
  cl_node_map s !! id = Some n → cl_node_map s' = <[id := n']> (cl_node_map s) →
  due n' = due n → nd_dead n' = nd_dead n → dues s' = dues s.
Proof.
  intros Hn Hs' Hd Hdead. unfold dues. rewrite Hs', fmap_insert, Hd, Hdead, insert_id; [done|].
  by rewrite lookup_fmap, Hn.
Qed.

Lemma send_to_dues txn id : keeps dues (send_to (Bm := Bm) (Dc := ChainReplicationDecision) (Pm := Pm) txn id).
Proof.
  intros s. unfold send_to, mbind, M_bind, gets, unwrap, modify, lift_res. cbn -[dues].
  destruct (cl_node_map s !! id) as [n|] eqn:Hn; [|done]. cbn -[dues].
  unfold send_req, zoom. destruct (chan_send txn (nd_req n)) as [r c]. cbn -[dues].
  by eapply dues_insert.
Qed.

Lemma redirect_dues id : keeps dues (cluster_redirect (Bm := Bm) (Dc := ChainReplicationDecision) (Pm := Pm) id).
Proof.
  intros s. unfold cluster_redirect, mbind, M_bind, gets. cbn -[dues].
  destruct (cl_node_map s !! id) as [n|] eqn:Hn; [|done]. destruct (chan_recv (nd_executed n)) as [[msg rest]|]; [|done].
  unfold modify, log_err, zoom, chan_send. cbn -[dues]. destruct (chan_open (cl_combine s));
    by eapply dues_insert.
Qed.

Lemma request_dues now u : keeps dues (cluster_request (Bm := Bm) (Dc := ChainReplicationDecision) (Pm := Pm) now u).
Proof.
  pose proof send_to_dues. unfold cluster_request, send_batch, on_flow.
  repeat first [apply keeps_log_err|apply send_to_dues|keeps_step].
Qed.

Lemma setup_dues : keeps dues (cluster_setup (Bm := Bm) (Dc := ChainReplicationDecision) (Pm := Pm)).
Proof.
  unfold cluster_setup, send_batch, on_flow. repeat first [apply keeps_log_err|apply send_to_dues|keeps_step].
Qed.

Lemma committed_dues now : keeps dues (cluster_committed (Bm := Bm) (Dc := ChainReplicationDecision) (Pm := Pm) now).
Proof. unfold cluster_committed, on_flow. repeat first [apply keeps_log_err|keeps_step]. Qed.

Lemma report_dues elapsed interval debug :
  keeps dues (cluster_report (Bm := Bm) (Dc := ChainReplicationDecision) (Pm := Pm) elapsed interval debug).
Proof. unfold cluster_report, on_flow. keeps_auto. Qed.

(** Only nodes decide. *)
Lemma step_dues ev s : (∀ id e, ev ≠ CeNode id e) → dues (cluster_step ev s) = dues s ∧ decided_by ev s = [].
Proof.
  intros Hev. destruct ev as [id e|id|now u|now|elapsed interval debug]; [by destruct (Hev id e)|..];
    (split; [|done]); unfold cluster_step; destruct (cl_over s); try done.
  - apply redirect_dues.
  - destruct (main_arm_state dues (cluster_request now u) s) as [->| ->]; [done..|apply request_dues].
  - destruct (main_arm_state dues (cluster_committed now) s) as [->| ->]; [done..|apply committed_dues].
  - destruct (main_arm_state dues (cluster_report elapsed interval debug) s) as [->| ->]; [done..|apply report_dues].
Qed.

Lemma decided_ok_step decided s ev :
  ¬ lossy → decided_ok decided s → decided_ok (decided ++ decided_by ev s) (cluster_step ev s).
Proof.
  intros Hopen Hok id. specialize (Hok id) as (Hnum & Hlt & Hdue).
  assert ((∀ id e, ev ≠ CeNode id e) ∨ ∃ id' e, ev = CeNode id' e) as [Hev|(id' & e & ->)]
    by (destruct ev; naive_solver).
  { destruct (step_dues ev s Hev) as [Hd ->]. rewrite app_nil_r. split_and!; [done|done|].
    intros n Hn. apply (f_equal (.!! id)) in Hd. unfold dues in Hd. rewrite !lookup_fmap, Hn in Hd. cbn in Hd.
    destruct (cl_node_map s !! id) as [n0|]; [|done]. injection Hd as Hd1 Hd2. rewrite Hd1.
    unfold decision_dead. rewrite Hd2. by apply Hdue. }
  rewrite commits_of_app. unfold decided_by, cluster_step.
  destruct (cl_over s); [by rewrite app_nil_r|].
  destruct (cl_node_map s !! id') as [n|] eqn:Hn; [|by rewrite app_nil_r].
  cbn -[commits_of]. rewrite commits_of_tagged.
  destruct (is_client e) eqn:Hcl; [destruct e; try done; cbn; destruct (decide (id' = id)); by rewrite app_nil_r|].
  rewrite <- (node_decides_new e n Hopen). cbn -[commits_of].
  destruct (decide (id' = id)) as [->|Hne]; [|by rewrite app_nil_r, lookup_insert_ne].
  rewrite lookup_insert_eq. destruct (node_step_due e n Hopen) as [Hcd Hdead]. destruct (Hdue n Hn) as [Hd|Hd].
  { destruct (Hdead Hd) as [-> Hd']. rewrite app_nil_r. split_and!; [done|done|]. intros ? [= <-]. by left. }
  destruct Hcd as [[-> Hd']|(txns & -> & Hd' & Hlt')]; cbn [app].
  - rewrite app_nil_r. split_and!; [done|done|]. intros ? [= <-]. destruct Hd' as [?| ->]; [by left|by right].
  - split_and!; [by apply numbered_snoc|by apply Forall_app; repeat constructor|].
    intros ? [= <-]. right. rewrite Hd', Hd, length_app. cbn. lia.
Qed.

(** ** The generator *)

(** It has counted what it was told. *)
Definition counted (told : list (NodeId * (N * list Txn))) s : Prop :=
  cl_over s = false → ∃ g, cl_flow_gen s = FGChainReplication g ∧
    ∀ id, li_num_blks (default (mkLogInfo 0 0) (cf_stats g !! id)) = N.of_nat (length (commits_of id told)).

(** The counts of a generator. *)
Definition gen_counts (g : SomeFlowGen) : option (gmap NodeId LogInfo) :=
  match g with FGChainReplication g => Some (cf_stats g) | _ => None end.

Lemma counted_counts told s s' :
  gen_counts (cl_flow_gen s') = gen_counts (cl_flow_gen s) → cl_over s = false → counted told s → counted told s'.
Proof.
  intros Hg Hover Hs _. destruct (Hs Hover) as (g & Hgen & Hc). rewrite Hgen in Hg. cbn in Hg.
  destruct (cl_flow_gen s') as [| |g']; try done. injection Hg as Hg. exists g'. by rewrite Hg.
Qed.

Lemma next_batch_counts now u : keeps cf_stats (cf_next_txn_batch now u).
Proof.
  assert (∀ k : nat, keeps cf_stats (cf_next_txns now k)) as Hn.
  { induction k as [|k IH]; cbn [cf_next_txns]; [keeps_auto|]. unfold cf_next_txn, cf_draw. keeps_auto. }
  unfold cf_next_txn_batch. keeps_auto.
Qed.

Lemma record_commit_counts now txn : keeps cf_stats (cf_record_commit now txn).
Proof. unfold cf_record_commit. keeps_auto. Qed.

(** The next commit of a node is counted, however the call ends. *)
Lemma committed_counts now node txns (g : ChainReplicationFlowGen) :
  let n := li_num_blks (default (mkLogInfo 0 0) (cf_stats g !! node)) in
  n + 1 < two64 →
  ∃ total, cf_stats (cf_txn_committed now node txns (n + 1) g).2 = <[node := mkLogInfo (n + 1) total]> (cf_stats g).
Proof.
  intros n Hlt. apply (wlp_state _ (λ g', ∃ total, cf_stats g' = <[node := mkLogInfo (n + 1) total]> (cf_stats g))).
  unfold cf_txn_committed. do 4 wlp_step. fold n. rewrite (u64_add_ok n 1 Hlt). apply wlp_bind, (wlp_ret (n + 1)).
  wlp_step. rewrite bool_decide_eq_true_2 by done. apply (wlp_ret tt). do 3 wlp_step.
  apply wlp_lift; [intros total _|cbn; rewrite insert_insert_eq; by eexists]. do 2 wlp_step.
  eapply wlp_mono; [apply (wlp_keeps cf_stats), keeps_mfor; intros txn; apply record_commit_counts|cbn..].
  - intros _ g' ->. rewrite !insert_insert_eq. by eexists.
  - intros g' ->. rewrite !insert_insert_eq. by eexists.
Qed.

(** It panics for want of room in the count of transactions, or on a transaction
    that has no identifier. *)
Lemma committed_no_panic now node txns (g : ChainReplicationFlowGen) :
  let info := default (mkLogInfo 0 0) (cf_stats g !! node) in
  li_num_blks info + 1 < two64 → li_num_txns info + N.of_nat (length txns) < two64 →
  (cf_txn_committed now node txns (li_num_blks info + 1) g).1 = Panic → ∃ t, t ∈ txns ∧ txn_compute_id t = Panic.
Proof.
  intros info Hlt Htot. unfold cf_txn_committed, mbind, M_bind, gets, modify, lift_res, massert. cbn -[N.add].
  fold info. rewrite u64_add_ok by done. cbn -[N.add]. rewrite bool_decide_eq_true_2 by done. cbn -[N.add].
  rewrite u64_add_ok by done. cbn -[N.add]. intros Hp.
  apply mfor_panics in Hp as (t & s & Ht & Hp). exists t. split; [done|].
  unfold cf_record_commit, mbind, M_bind, gets, modify, lift_res in Hp. destruct (txn_compute_id t); try done.
  cbn in Hp. by destruct (cf_in_flight s !! _).
Qed.

(** The commit that is taken next from [combine_rx]. *)
Definition next_told s : option (NodeId * (N * list Txn)) := fst <$> chan_recv (cl_combine s).

(** It is the next of its node. *)
Lemma next_told_number s0 decided told s node h txns :
  ¬ lossy → cluster_reach s0 decided told s → pipe node s0 = [] → decided_ok decided s →
  next_told s = Some (node, (h, txns)) → h = N.of_nat (length (commits_of node told)) + 1 ∧ h < two64.
Proof.
  intros Hopen Hreach Hs0 Hok Hnext. pose proof (told_exact s0 decided told s node Hopen Hreach Hs0) as Htold.
  destruct (Hok node) as (Hnum & Hlt & _). rewrite <- Htold in Hnum, Hlt. clear Htold.
  unfold next_told in Hnext. pose proof (chan_recv_spec (cl_combine s)) as Hrecv.
  destruct (chan_recv (cl_combine s)) as [[x rest]|]; [|done]. injection Hnext as ->.
  assert ((commits_of node told ++ pipe node s) !! length (commits_of node told) = Some (h, txns)) as Hk.
  { rewrite lookup_app_r, Nat.sub_diag by lia. unfold pipe, pipe_of. rewrite Hrecv.
    change ((node, (h, txns)) :: rev rest) with ([(node, (h, txns))] ++ rev rest).
    rewrite commits_of_app. unfold commits_of at 1. by rewrite filter_cons_True. }
  split; [apply (numbered_lookup _ _ _ Hnum) in Hk; cbn in Hk; lia|]. by apply (Forall_lookup_1 _ _ _ _ Hlt) in Hk.
Qed.

Definition gcounts s : option (gmap NodeId LogInfo) := gen_counts (cl_flow_gen s).

Lemma on_flow_counts {A : Type} (b : BF A) (a : AF A) (c : CF A) :
  keeps cf_stats c → keeps gcounts (on_flow (Bm := Bm) (Dc := ChainReplicationDecision) (Pm := Pm) (on_gen b a c)).
Proof.
  intros Hk s. unfold on_flow, zoom, on_gen, gcounts. destruct (cl_flow_gen s) as [g|g|g]; cbn; [done..|].
  by rewrite Hk.
Qed.

Lemma send_to_counts txn id : keeps gcounts (send_to (Bm := Bm) (Dc := ChainReplicationDecision) (Pm := Pm) txn id).
Proof. unfold send_to. keeps_auto. Qed.

Lemma send_batch_counts batch :
  keeps gcounts (send_batch (Bm := Bm) (Dc := ChainReplicationDecision) (Pm := Pm) batch).
Proof. unfold send_batch. keeps_auto. apply send_to_counts. Qed.

Lemma request_counts now u : keeps gcounts (cluster_request (Bm := Bm) (Dc := ChainReplicationDecision) (Pm := Pm) now u).
Proof.
  unfold cluster_request, fg_next_txn_batch.
  repeat first [apply keeps_log_err, on_flow_counts, next_batch_counts|apply send_batch_counts|keeps_step].
Qed.

Lemma report_counts elapsed interval debug :
  keeps gcounts (cluster_report (Bm := Bm) (Dc := ChainReplicationDecision) (Pm := Pm) elapsed interval debug).
Proof.
  unfold cluster_report, fg_get_stats.
  repeat first [apply on_flow_counts; unfold cf_get_stats; keeps_auto|keeps_step].
Qed.

Lemma redirect_counts id : keeps gcounts (cluster_redirect (Bm := Bm) (Dc := ChainReplicationDecision) (Pm := Pm) id).
Proof. unfold cluster_redirect. repeat first [apply keeps_log_err|keeps_step]. Qed.

Lemma setup_counts : keeps gcounts (cluster_setup (Bm := Bm) (Dc := ChainReplicationDecision) (Pm := Pm)).
Proof.
  unfold cluster_setup, fg_setup_txns, cf_setup_txns.
  repeat first [apply keeps_log_err, on_flow_counts; keeps_auto|apply send_batch_counts|keeps_step].
Qed.

(** Only commits are counted. *)
Lemma step_counts ev s : (∀ now, ev ≠ CeCommitted now) → gcounts (cluster_step ev s) = gcounts s ∧ told_by ev s = [].
Proof.
  intros Hev. destruct ev as [id e|id|now u|now|elapsed interval debug]; try (by destruct (Hev now));
    (split; [|done]); unfold cluster_step; destruct (cl_over s); try done.
  - destruct (cl_node_map s !! id); [|done]. by destruct (is_client e).
  - apply redirect_counts.
  - destruct (main_arm_state gcounts (cluster_request now u) s) as [->| ->]; [done..|apply request_counts].
  - destruct (main_arm_state gcounts (cluster_report elapsed interval debug) s) as [->| ->]; [done..|apply report_counts].
Qed.

Lemma counted_step s0 decided told s ev :
  ¬ lossy → cluster_reach s0 decided told s → (∀ id, pipe id s0 = []) → decided_ok decided s →
  counted told s → counted (told ++ told_by ev s) (cluster_step ev s).
Proof.
  intros Hopen Hreach Hs0 Hok Hc Hover'. destruct (cl_over s) eqn:Hover.
  { unfold cluster_step in Hover'. by rewrite Hover, Hover in Hover'. }
  assert ((∀ now, ev ≠ CeCommitted now) ∨ ∃ now, ev = CeCommitted now) as [Hev|(now & ->)] by (destruct ev; naive_solver).
  { destruct (step_counts ev s Hev) as [Hg ->]. rewrite app_nil_r. by apply (counted_counts told s). }
  destruct (Hc Hover) as (g & Hg & Hn).
  pose proof (λ node h txns, next_told_number s0 decided told s node h txns Hopen Hreach (Hs0 node) Hok) as Hnext.
  unfold next_told in Hnext. unfold told_by, cluster_step in *. rewrite Hover in *.
  destruct (chan_recv (cl_combine s)) as [[[node [h txns]] rest]|] eqn:Hc'; cycle 1.
  { assert (main_arm (cluster_committed now) s = s) as ->.
    { unfold main_arm, cluster_committed, mbind, M_bind, gets. cbn. by rewrite Hc'. }
    rewrite app_nil_r. by exists g. }
  pose proof (cluster_committed_eq now s node h txns rest Hc') as Heq. destruct (Hnext _ _ _ eq_refl) as [Hh Hlt].
  pose proof (fg_txn_committed_bounded now node txns h (cl_flow_gen s)) as Hb.
  unfold main_arm in *. rewrite Heq in *. rewrite Hg in *. clear Heq. cbn in Hover', Hb |- *.
  pose proof (committed_counts now node txns g) as Hcc. cbn zeta in Hcc. rewrite (Hn node), <- Hh in Hcc.
  destruct (Hcc Hlt) as [total Ht].
  destruct (cf_txn_committed now node txns h g) as [r g'] eqn:Hr. cbn in Ht.
  assert (∀ id, li_num_blks (default (mkLogInfo 0 0) (cf_stats g' !! id)) =
    N.of_nat (length (commits_of id (told ++ [(node, (h, txns))])))) as Hn'.
  { intros id. rewrite commits_of_app, length_app, Ht. unfold commits_of at 2. rewrite filter_cons. cbn.
    destruct (decide (node = id)) as [->|Hne]; [rewrite lookup_insert_eq; cbn; lia|].
    rewrite lookup_insert_ne by done. rewrite Hn. cbn. lia. }
  destruct r; cbn in Hover', Hb |- *; [by exists g'..|done|done].
Qed.

(** ** The composition *)

Lemma repl_run decided told s0 s :
  ¬ lossy → (∀ id, pipe id s0 = []) → decided_ok [] s0 → counted [] s0 →
  cluster_reach s0 decided told s → decided_ok decided s ∧ counted told s.
Proof.
  intros Hopen Hs0 Hd0 Hc0 Hreach. induction Hreach as [|decided told s ev Hreach [IHd IHc]]; [done|].
  split; [by apply decided_ok_step|by eapply counted_step].
Qed.
End Repl.

Section Cluster.
Context `{!Bincode Msg} `{Externals} `{!Bincode BitcoinTxn} `{!Bincode AvalancheTxn} `{!Bincode BlockHeader}
  `{!Bincode (list Hash)} `{BuildProfile} `{HashOrder} `{Transport} `{Channel} `{Ln}.

(** [Node::init] with a chain-replication configuration. *)
Definition repl_node (id : NodeId) (txn_crypto : CryptoScheme) (config : ChainReplicationConfig)
    (dissem_txns : bool) (pm : PeerMessenger) :
    res (Node ChainReplicationBM ChainReplicationDecision DummyPacemaker) :=
  bm ← crb_new id config;
  dc ← crd_new id (CCChainReplication config) pm;
  node_new id txn_crypto (CCChainReplication config) dissem_txns pm bm dc tt.

Lemma repl_node_new id txn_crypto config dissem_txns pm n :
  repl_node id txn_crypto config dissem_txns pm = Ok n → node_pipe n = [] ∧ due n = 1.
Proof.
  unfold repl_node, node_new. intros Hn. res_inv. split; [done|].
  match goal with Hd : crd_new _ _ _ = Ok _ |- _ => unfold crd_new in Hd; repeat case_match; by simplify_eq end.
Qed.

(** C14: a chain-replication cluster tells its client of the blocks 1, 2, 3, ... of
    every node, and the generator's assertion that it does never fails. Whatever the
    threads of the nodes, the tasks that redirect what they execute and the loop of
    [main] do, in whatever order, and whatever messages the network delivers, as long
    as no channel closes: the decision stage of every node commits blocks of the
    heights 1, 2, 3, ... (a panic of the stage ends the sequence); what the generator
    has been told of a node is the first of them; the next it is told of a node has
    the height it expects, and telling it panics only for want of room in the count
    of transactions or on a transaction that cannot be hashed. *)
Theorem commits_are_numbered client_list txn_size max_inflight freq crypto t draws g req_dsts nodes s0 decided told
    (s : Cluster ChainReplicationBM ChainReplicationDecision DummyPacemaker) :
  cf_new client_list txn_size max_inflight freq crypto t draws = Ok g →
  map_Forall (λ id n, ∃ txn_crypto config dissem_txns pm, repl_node id txn_crypto config dissem_txns pm = Ok n) nodes →
  cluster_setup (cluster_new req_dsts nodes (FGChainReplication g)) = (Ok tt, s0) →
  ¬ lossy →
  cluster_reach s0 decided told s →
  (∀ id, numbered (commits_of id decided) ∧ commits_of id told `prefix_of` commits_of id decided) ∧
  (cl_over s = false → ∀ now node h txns, next_told s = Some (node, (h, txns)) →
    ∃ g', cl_flow_gen s = FGChainReplication g' ∧
      let info := default (mkLogInfo 0 0) (cf_stats g' !! node) in
      h = li_num_blks info + 1 ∧
      (li_num_txns info + N.of_nat (length txns) < two64 → (∀ t, t ∈ txns → txn_compute_id t ≠ Panic) →
        (cluster_committed now s).1 ≠ Panic)).
Proof.
  intros Hnew Hinit Hsetup Hopen Hreach.
  assert (∀ id n, nodes !! id = Some n → node_pipe n = [] ∧ due n = 1) as Hnodes.
  { intros id n Hn. destruct (Hinit id n Hn) as (? & ? & ? & ? & Hr). by eapply repl_node_new. }
  assert (∀ id, pipe id s0 = []) as Hs0.
  { intros id. pose proof (setup_pipe req_dsts nodes (FGChainReplication g) id) as Hp. rewrite Hsetup in Hp.
    apply Hp. intros id' n Hn. by apply (Hnodes id'). }
  destruct (repl_run decided told s0 s Hopen Hs0) as [Hd Hc]; [..|done|].
  { intros id. split; [done|]. split; [constructor|]. intros n Hn. right.
    pose proof (setup_dues (cluster_new req_dsts nodes (FGChainReplication g))) as Hdue. rewrite Hsetup in Hdue.
    apply (f_equal (.!! id)) in Hdue. unfold dues in Hdue. rewrite !lookup_fmap in Hdue. cbn in Hdue. rewrite Hn in Hdue. cbn in Hdue.
    destruct (nodes !! id) as [n0|] eqn:Hn0; [|done]. injection Hdue as -> _. by apply (Hnodes id). }
  { intros _. pose proof (setup_counts (cluster_new req_dsts nodes (FGChainReplication g))) as Hg. rewrite Hsetup in Hg.
    unfold gcounts in Hg. cbn in Hg. unfold cf_new in Hnew. repeat case_match; simplify_eq. cbn in Hg.
    destruct (cl_flow_gen s0) as [| |g']; try done. injection Hg as Hg. exists g'. split; [done|]. intros id.
    by rewrite Hg, lookup_empty. }
  split.
  - intros id. split; [apply Hd|]. exists (pipe id s). by rewrite (told_exact s0 decided told s id).
  - intros Hover now node h txns Hnext. destruct (Hc Hover) as (g' & Hg & Hn). exists g'. split; [done|].
    destruct (next_told_number s0 decided told s node h txns) as [Hh Hlt]; [done..|]. cbn zeta. rewrite Hn. split; [done|].
    intros Hroom Hids Hp. unfold next_told in Hnext.
    destruct (chan_recv (cl_combine s)) as [[x rest]|] eqn:Hrecv; [|done]. injection Hnext as ->.
    rewrite (cluster_committed_eq now s node h txns rest Hrecv), Hg in Hp. cbn in Hp.
    pose proof (committed_no_panic now node txns g') as Hno. cbn zeta in Hno. rewrite (Hn node), <- Hh in Hno.
    destruct (cf_txn_committed now node txns h g') as [[]] eqn:Hr; try done.
    destruct Hno as (t' & Ht & Hid); [done..|]. by eapply Hids.
Qed.
End Cluster.

(** ** Witness: the head of a chain of two, two blocks *)

#[local] Existing Instances sample_externals sample_bincode_btc sample_bincode_header
  sample_transport sample_channel sample_profile canonical_order node_bincode_avax node_bincode_hashes.
#[local] Instance repl_bincode_msg : Bincode Msg := {|
  serialize := λ m, inl [recved m];
  deserialize := λ b, match b with [h] => inl (mkMsg h) | _ => inr (mkErr "length") end;
|}.
#[local] Instance repl_ln : Ln := λ _, f64_zero.

Lemma sample_never_lossy : ¬ lossy.
Proof. by intros (T & c & Hc). Qed.

Definition w_repl_gen : res ChainReplicationFlowGen := cf_new [0] 3 2 UNSET CSDummy 0 [0; 0].
Definition w_repl_node : res (Node ChainReplicationBM ChainReplicationDecision DummyPacemaker) :=
  repl_node 1 CSDummy (mkChainReplicationConfig [1; 2] 100) false sample_messenger.

(** A transaction from the client into a block, the block's way to the decision
    stage, the acknowledgment of the tail, and the commit's way to the client. *)
Definition w_repl_send : list Event :=
  [EvRequest; EvRequest; EvSpawn true; EvValTask 0; EvValTask 0; EvValTask 0; EvValTask 0; EvValTask 0; EvValPending 9;
   EvValidated; EvDisseminate true; EvTxnReady].
Definition w_repl_block (h : Hash) : list Event :=
  [EvPrepare w_env; EvPropose w_env; EvNewBlock; EvNewTail w_env; EvMailbox 2 (ConsensusMsg [h]);
   EvConsensus w_env; EvCommitReady; EvCommit].
Definition w_repl_events : list ClusterEvent :=
  [CeRequest 1 f64_zero] ++ (CeNode 1 <$> (w_repl_send ++ w_repl_block 1 ++ w_repl_block 2)) ++
  [CeRedirect 1; CeRedirect 1; CeCommitted 5].
Definition w_repl_cluster (g : ChainReplicationFlowGen)
    (n : Node ChainReplicationBM ChainReplicationDecision DummyPacemaker) :=
  cluster_setup (cluster_new {[0 := [1]]} {[1 := n]} (FGChainReplication g)).

Lemma w_repl_commits : ∃ g n, w_repl_gen = Ok g ∧ w_repl_node = Ok n ∧
  let r := cluster_trace (w_repl_cluster g n).2 w_repl_events in
  (commits_of 1 r.1.1).*1 = [1; 2] ∧ (commits_of 1 r.1.2).*1 = [1] ∧
  (λ x, (x.1, x.2.1)) <$> next_told r.2 = Some (1, 2) ∧ cl_over r.2 = false.
Proof. eexists _, _. split_and!; [vm_compute; reflexivity..|]. by vm_compute. Qed.

Lemma commits_are_numbered_witness : ∃ g n, w_repl_gen = Ok g ∧ w_repl_node = Ok n ∧
  let r := cluster_trace (w_repl_cluster g n).2 w_repl_events in
  (∀ id, numbered (commits_of id r.1.1) ∧ commits_of id r.1.2 `prefix_of` commits_of id r.1.1) ∧
  (cl_over r.2 = false → ∀ now node h txns, next_told r.2 = Some (node, (h, txns)) →
    ∃ g', cl_flow_gen r.2 = FGChainReplication g' ∧
      let info := default (mkLogInfo 0 0) (cf_stats g' !! node) in
      h = li_num_blks info + 1 ∧
      (li_num_txns info + N.of_nat (length txns) < two64 → (∀ t, t ∈ txns → txn_compute_id t ≠ Panic) →
        (cluster_committed now r.2).1 ≠ Panic)).
Proof.
  eexists _, _. split; [vm_compute; reflexivity|]. split; [vm_compute; reflexivity|].
  match goal with |- context [w_repl_cluster ?g ?n] =>
    apply (commits_are_numbered [0] 3 2 UNSET CSDummy 0 [0; 0] g {[0 := [1]]} {[1 := n]} (w_repl_cluster g n).2) end.
  - by vm_compute.
  - apply map_Forall_singleton. exists CSDummy, (mkChainReplicationConfig [1; 2] 100), false, sample_messenger.
    by vm_compute.
  - by vm_compute.
  - apply sample_never_lossy.
  - apply cluster_trace_reach.
Defined.
