(* ===== verification/BtcStats.v ===== *)
(** * The statistics of a Bitcoin client

    [BitcoinFlowGen] keeps, per node, the length of the chain it was told of, the size
    of the block at each height and a running total. Abstractly it keeps the list of
    committed blocks: a report for a height replaces what was there and above. This
    file has the refinement: what [txn_committed] does to the maps is what [place] does
    to the list, and what [get_stats] returns is read off the lists. *)

From S2P Require Import Prelude F64 Protocol Peers Samples Stages Threads Node NodeProps FlowGen ClientProps.
From S2P Require Import AvaFlowGen Cluster ClusterProps.
Local Open Scope N_scope.

(** ** The abstract statistics *)

(** A block for height [h]; heights start at 1. *)
Definition place {A : Type} (l : list A) (h : N) (x : A) : list A :=
  if decide (h = 0) then [] else take (N.to_nat (h - 1)) l ++ [x].

(** The chain the reports [(height, block)] lead to. *)
Definition chain_of {A : Type} (reports : list (N * A)) : list A :=
  foldl (λ l r, place l r.1 r.2) [] reports.

Definition sum_list_N (l : list N) : N := foldr N.add 0 l.

(** The number of transactions in blocks, and in reports. *)
Definition size_of (blks : list (list Txn)) : N := sum_list_N ((λ b, N.of_nat (length b)) <$> blks).

Section Lists.
Context {A : Type}.
Implicit Types (l : list A).

Lemma chain_of_snoc (reports : list (N * A)) h x : chain_of (reports ++ [(h, x)]) = place (chain_of reports) h x.
Proof. unfold chain_of. by rewrite foldl_app. Qed.

Lemma place_length l h x : (N.to_nat h ≤ S (length l))%nat → length (place l h x) = N.to_nat h.
Proof. intros Hh. unfold place. case_decide; [by subst|]. rewrite length_app, length_take. cbn. lia. Qed.

Lemma place_lookup l h x i : (N.to_nat h ≤ S (length l))%nat →
  place l h x !! i = if decide (S i = N.to_nat h) then Some x else if decide (S i < N.to_nat h)%nat then l !! i else None.
Proof.
  intros Hh. unfold place. case_decide as H0; [subst; by rewrite !decide_False by lia|].
  assert (length (take (N.to_nat (h - 1)) l) = N.to_nat (h - 1)) as Hlen by (rewrite length_take; lia).
  repeat case_decide.
  - rewrite lookup_app_r, Hlen by lia. by replace (i - N.to_nat (h - 1))%nat with 0%nat by lia.
  - rewrite lookup_app_l, lookup_take_lt by lia. done.
  - apply lookup_ge_None. rewrite length_app, Hlen. cbn. lia.
Qed.
End Lists.

Lemma sum_list_N_app l1 l2 : sum_list_N (l1 ++ l2) = sum_list_N l1 + sum_list_N l2.
Proof. induction l1 as [|x l1 IH]; cbn; [done|]. unfold sum_list_N in *. lia. Qed.

Lemma size_of_app l1 l2 : size_of (l1 ++ l2) = size_of l1 + size_of l2.
Proof. unfold size_of. by rewrite fmap_app, sum_list_N_app. Qed.

Lemma size_of_take l n : size_of (take n l) ≤ size_of l.
Proof. rewrite <- (take_drop n l) at 2. rewrite size_of_app. lia. Qed.

(** No report is counted twice in a chain. *)
Lemma chain_of_size (reports : list (N * list Txn)) : size_of (chain_of reports) ≤ size_of reports.*2.
Proof.
  induction reports as [|[h b] reports IH] using rev_ind; [done|]. rewrite chain_of_snoc, fmap_app, size_of_app.
  unfold place. case_decide; [cbn; lia|]. rewrite size_of_app. cbn [fmap list_fmap snd].
  pose proof (size_of_take (chain_of reports) (N.to_nat (h - 1))). lia.
Qed.

(** ** The maps *)

Lemma drop_heights_lookup h n counts x :
  drop_heights h n counts !! x = if decide (h ≤ x ∧ x ≤ n) then None else counts !! x.
Proof.
  unfold drop_heights.
  assert (∀ l counts, foldl (λ m i, delete i m) counts l !! x = if decide (x ∈ l) then None else counts !! x) as ->.
  { clear. induction l as [|y l IH]; intros counts; cbn; [by rewrite decide_False by (by intros ?%elem_of_nil)|].
    rewrite IH. destruct (decide (x ∈ l)); [by rewrite decide_True by (by right)|].
    destruct (decide (x = y)) as [->|Hne]; [by rewrite lookup_delete_eq, decide_True by (by left)|].
    rewrite lookup_delete_ne by done. by rewrite decide_False by (by intros [?|?]%elem_of_cons). }
  apply decide_ext. unfold range. rewrite list_elem_of_fmap. split.
  - intros (i & -> & Hi%elem_of_seq). lia.
  - intros [Hle Hn]. exists (N.to_nat (x - h)). split; [lia|]. apply elem_of_seq. lia.
Qed.

Lemma chain_of_length {A : Type} (reports : list (N * A)) : (length (chain_of reports) ≤ length reports)%nat.
Proof.
  induction reports as [|[h b] reports IH] using rev_ind; [done|]. rewrite chain_of_snoc, length_app. cbn.
  unfold place. case_decide; [cbn; lia|]. rewrite length_app, length_take. cbn. lia.
Qed.

(** What the generator keeps of a node is what it was told of it. *)
Record refines (info : ChainInfo) (reports : list (N * list Txn)) : Prop := {
  rf_length : ci_chain_length info = N.of_nat (length (chain_of reports));
  rf_counts : ∀ i, txn_count info !! N.of_nat (S i) = (λ b, N.of_nat (length b)) <$> chain_of reports !! i;
  rf_total : total_committed info = size_of reports.*2;
}.

Lemma refines_new : refines (mkChainInfo 0 ∅ 0) [].
Proof. split; [done| |done]. intros i. cbn. by rewrite lookup_empty, lookup_nil. Qed.

(** A report, as [txn_committed] enters it. *)
Definition info_report (info : ChainInfo) (h : N) (txns : list Txn) : ChainInfo :=
  let n := N.of_nat (length txns) in
  mkChainInfo h (<[h := n]> (drop_heights h (ci_chain_length info) (txn_count info))) (total_committed info + n).

Lemma refines_report info reports h txns :
  refines info reports → h ≤ ci_chain_length info + 1 → refines (info_report info h txns) (reports ++ [(h, txns)]).
Proof.
  intros [Hlen Hcounts Htot] Hh. rewrite Hlen in Hh.
  assert (N.to_nat h ≤ S (length (chain_of reports)))%nat as Hh' by lia.
  unfold info_report. split; cbn -[N.add]; rewrite ?chain_of_snoc.
  - rewrite place_length by done. lia.
  - intros i. rewrite place_lookup by done. destruct (decide (S i = N.to_nat h)) as [Hi|Hi].
    { replace (N.of_nat (S i)) with h by lia. by rewrite lookup_insert_eq. }
    rewrite lookup_insert_ne by lia. rewrite drop_heights_lookup, Hlen. destruct (decide (S i < N.to_nat h)%nat).
    + rewrite decide_False by lia. apply Hcounts.
    + case_decide as Hd; [done|]. rewrite Hcounts.
      by rewrite lookup_ge_None_2 by (apply not_and_l in Hd as [?|?]; lia).
  - rewrite Htot, fmap_app, size_of_app. unfold size_of at 3. cbn -[N.add]. lia.
Qed.

(** The sum of the counts is the size of the chain. *)
Lemma sum_counts_chain `{BuildProfile} counts (blks : list (list Txn)) : ∀ k,
  (∀ i, counts !! N.of_nat (S (k + i)) = (λ b, N.of_nat (length b)) <$> blks !! i) → size_of blks < two64 →
  sum_counts counts ((λ i, 1 + N.of_nat i) <$> seq k (length blks)) = Ok (size_of blks).
Proof.
  induction blks as [|b blks IH]; intros k Hc Hlt; [done|]. cbn [length seq fmap list_fmap sum_counts].
  pose proof (Hc 0%nat) as H0. rewrite Nat.add_0_r in H0. replace (1 + N.of_nat k) with (N.of_nat (S k)) by lia.
  rewrite H0. cbn [fmap option_fmap option_map lookup list_lookup]. unfold size_of in Hlt |- *. cbn -[N.add] in Hlt |- *.
  change (foldr N.add 0 ((λ b, N.of_nat (length b)) <$> blks)) with (size_of blks) in *.
  change (sum_list_N ((λ b, N.of_nat (length b)) <$> blks)) with (size_of blks) in *.
  rewrite (IH (S k)); cbn -[N.add]; [by apply u64_add_ok| |lia].
  intros i. rewrite <- Nat.add_succ_r. apply (Hc (S i)).
Qed.

Section Stats.
Context `{Externals} `{!Bincode BitcoinTxn} `{!Bincode AvalancheTxn} `{!Bincode (list Hash)}
  `{BuildProfile} `{HashOrder} `{Ln}.
Implicit Types (s : BitcoinFlowGen).

(** ** The calls *)

(** What a call tells the generator. *)
Definition reports_of (c : bf_call) : list (NodeId * (N * list Txn)) :=
  match c with BFCommitted _ node txns height => [(node, (height, txns))] | _ => [] end.

(** The states of a generator whose calls return, with a result or an error, and
    what it has been told. *)
Inductive bf_told (s0 : BitcoinFlowGen) : list (NodeId * (N * list Txn)) → BitcoinFlowGen → Prop :=
| bf_told_new : bf_told s0 [] s0
| bf_told_ok told s c out s' :
    bf_told s0 told s → bf_run c s = (Ok out, s') → bf_told s0 (told ++ reports_of c) s'
| bf_told_err told s c e s' :
    bf_told s0 told s → bf_run c s = (Err e, s') → bf_told s0 (told ++ reports_of c) s'.

(** The information on a node, and on all of them. *)
Definition info_of s (node : NodeId) : ChainInfo := default (mkChainInfo 0 ∅ 0) (bf_chain_info s !! node).

Definition stats_ok (told : list (NodeId * (N * list Txn))) s : Prop :=
  (∀ node, refines (info_of s node) (commits_of node told)) ∧
  ∀ node, is_Some (bf_chain_info s !! node) → commits_of node told ≠ [].

Lemma record_commit_keeps now txn : keeps bf_chain_info (bf_record_commit now txn).
Proof. unfold bf_record_commit. keeps_auto. Qed.

(** A report that skips a height is refused; another is entered, however the rest of
    the call ends. *)
Lemma txn_committed_spec now node txns h s :
  let info := info_of s node in
  ci_chain_length info + 1 < two64 → total_committed info + N.of_nat (length txns) < two64 →
  (ci_chain_length info + 1 < h → (bf_txn_committed now node txns h s).1 = Panic) ∧
  (h ≤ ci_chain_length info + 1 →
    bf_chain_info (bf_txn_committed now node txns h s).2 = <[node := info_report info h txns]> (bf_chain_info s) ∧
    ((bf_txn_committed now node txns h s).1 = Panic → ∃ t, t ∈ txns ∧ txn_compute_id t = Panic)).
Proof.
  intros info Hlen Htot. unfold bf_txn_committed, mbind, M_bind, gets, modify, lift_res, massert. cbn -[N.add].
  fold (info_of s node). fold info. rewrite u64_add_ok by done. cbn -[N.add]. split; intros Hh.
  { by rewrite (proj2 (N.leb_gt _ _)). }
  rewrite (proj2 (N.leb_le _ _)) by done. cbn -[N.add]. rewrite u64_add_ok by done. cbn -[N.add]. split.
  - match goal with |- bf_chain_info (mfor _ _ ?s1).2 = _ =>
      rewrite (keeps_mfor bf_chain_info txns (bf_record_commit now) (record_commit_keeps now) s1) end.
    cbn -[N.add]. by rewrite !insert_insert_eq.
  - intros Hp. apply mfor_panics in Hp as (t & s1 & Ht & Hp). exists t. split; [done|].
    unfold bf_record_commit, mbind, M_bind, gets, modify, lift_res in Hp. destruct (txn_compute_id t); try done.
    cbn in Hp. by destruct (bf_in_flight s1 !! _).
Qed.

(** The other calls leave the information alone. *)
Lemma setup_keeps_info : keeps bf_chain_info bf_setup_txns.
Proof.
  assert (∀ l, keeps bf_chain_info (bf_grants l)) as Hg.
  { induction l as [|[node account] l IH]; cbn [bf_grants]; unfold bf_grant; keeps_auto. }
  unfold bf_setup_txns. keeps_auto.
Qed.

Lemma batch_keeps_info now u : keeps bf_chain_info (bf_next_txn_batch now u).
Proof.
  assert (∀ n : nat, keeps bf_chain_info (bf_next_txns now n)) as Hn.
  { induction n as [|n IH]; cbn [bf_next_txns]; unfold bf_next_txn, bf_push, draw; keeps_auto. }
  unfold bf_next_txn_batch. keeps_auto.
Qed.

Lemma stats_keep_info : keeps bf_chain_info bf_get_stats.
Proof. unfold bf_get_stats. keeps_auto. Qed.

(** Room for the counts. *)
Definition room (told : list (NodeId * (N * list Txn))) : Prop :=
  N.of_nat (length told) + 1 < two64 ∧ ∀ node, size_of (commits_of node told).*2 < two64.

Lemma room_app told told' : room (told ++ told') → room told.
Proof.
  intros [Hl Hs]. split; [rewrite length_app in Hl; lia|]. intros node. specialize (Hs node).
  rewrite commits_of_app, fmap_app, size_of_app in Hs. lia.
Qed.

Lemma commits_of_length {X : Type} node (l : list (NodeId * X)) : (length (commits_of node l) ≤ length l)%nat.
Proof. unfold commits_of. rewrite length_fmap. apply length_filter. Qed.

Lemma stats_ok_keeps told s s' : bf_chain_info s' = bf_chain_info s → stats_ok told s → stats_ok told s'.
Proof. unfold stats_ok, info_of. by intros ->. Qed.

Lemma stats_step told s c r s' :
  stats_ok told s → room (told ++ reports_of c) → bf_run c s = (r, s') → r ≠ Panic →
  stats_ok (told ++ reports_of c) s'.
Proof.
  intros Hs Hroom Heq Hr. destruct c as [|now u|now node txns h|]; cbn [reports_of bf_run] in *; rewrite ?app_nil_r.
  - eapply stats_ok_keeps; [|done]. pose proof (setup_keeps_info s) as Hk. by rewrite Heq in Hk.
  - eapply stats_ok_keeps; [|done]. pose proof (batch_keeps_info now u s) as Hk. by rewrite Heq in Hk.
  - destruct Hs as [Hs Hsome]. pose proof (Hs node) as [Hlen Hcounts Htot]. destruct Hroom as [Hl Hsz].
    rewrite length_app in Hl. cbn in Hl. specialize (Hsz node).
    assert (commits_of node (told ++ [(node, (h, txns))]) = commits_of node told ++ [(h, txns)]) as Hc.
    { rewrite commits_of_app. f_equal. unfold commits_of. by rewrite filter_cons_True. }
    rewrite Hc, fmap_app, size_of_app in Hsz. unfold size_of at 2 in Hsz. cbn in Hsz.
    pose proof (chain_of_length (commits_of node told)). pose proof (commits_of_length node told).
    destruct (txn_committed_spec now node txns h s) as [Hbad Hgood]; [rewrite Hlen; lia|rewrite Htot; lia|].
    assert (bf_chain_info (bf_txn_committed now node txns h s).2 = bf_chain_info s' ∧
      ((bf_txn_committed now node txns h s).1 = Panic → r = Panic)) as [Hs' Hp].
    { unfold mbind, M_bind in Heq. destruct (bf_txn_committed now node txns h s) as [[]]; by injection Heq as <- <-. }
    destruct (N.le_gt_cases h (ci_chain_length (info_of s node) + 1)) as [Hh|Hh]; [|by destruct Hr; auto].
    destruct (Hgood Hh) as [Hinfo _]. rewrite Hs' in Hinfo.
    split; intros node'; (destruct (decide (node' = node)) as [->|Hne];
      [rewrite Hc|rewrite commits_of_app, (commits_of_tagged node' node [(h, txns)] : commits_of node' [_] = _),
        decide_False, app_nil_r by done]).
    + unfold info_of. rewrite Hinfo, lookup_insert_eq. by apply refines_report.
    + unfold info_of. rewrite Hinfo, lookup_insert_ne by done. apply Hs.
    + intros _. by destruct (commits_of node told).
    + rewrite Hinfo, lookup_insert_ne by done. apply Hsome.
  - eapply stats_ok_keeps; [|done]. pose proof (stats_keep_info s) as Hk. unfold mbind, M_bind in Heq.
    destruct (bf_get_stats s) as [[]]; by injection Heq as <- <-.
Qed.

Lemma told_stats_ok s0 told s :
  bf_chain_info s0 = ∅ → bf_told s0 told s → room told → stats_ok told s.
Proof.
  intros Hempty Htold. induction Htold as [|told s c out s' _ IH Heq|told s c e s' _ IH Heq]; intros Hroom.
  - unfold stats_ok, info_of. rewrite Hempty. split; intros node; rewrite lookup_empty; [apply refines_new|by intros []].
  - eapply stats_step; [by eapply IH, room_app|done|done|done].
  - eapply stats_step; [by eapply IH, room_app|done|done|done].
Qed.

(** ** What is reported *)

Lemma info_stats_chain info reports :
  refines info reports → size_of reports.*2 < two64 →
  info_stats info = Ok (size_of (chain_of reports), N.of_nat (length (chain_of reports)),
    f64_div (f64_of_N (size_of (chain_of reports))) (f64_of_N (size_of reports.*2))).
Proof.
  intros [Hlen Hcounts Htot] Hlt. pose proof (chain_of_size reports). unfold info_stats.
  rewrite Hlen, Htot. destruct (chain_of reports) as [|b blks] eqn:Hc; [done|].
  rewrite (proj2 (N.ltb_lt _ _)) by (cbn; lia). unfold range.
  replace (N.to_nat (N.of_nat (length (b :: blks)) + 1 - 1)) with (length (b :: blks)) by lia.
  rewrite (sum_counts_chain _ (b :: blks) 0) by (done || lia). done.
Qed.

Definition node_stats (told : list (NodeId * (N * list Txn))) (node : NodeId) : N * N * f64 :=
  let reports := commits_of node told in
  (size_of (chain_of reports), N.of_nat (length (chain_of reports)),
   f64_div (f64_of_N (size_of (chain_of reports))) (f64_of_N (size_of reports.*2))).

Lemma all_stats_chain told infos :
  (∀ node info, (node, info) ∈ infos → refines info (commits_of node told)) → room told →
  all_stats infos = Ok ((λ e : NodeId * ChainInfo, node_stats told e.1) <$> infos).
Proof.
  intros Hinfos Hroom. induction infos as [|[node info] infos IH]; [done|]. cbn [all_stats].
  rewrite (info_stats_chain info (commits_of node told)); [|apply Hinfos; by left|apply Hroom].
  cbn -[size_of]. rewrite IH; [done|]. intros node' info' Hin. apply Hinfos. by right.
Qed.

(** [m] is the largest of the values, 0 without any. *)
Definition largest {A : Type} (f : A → N) (m : N) : Prop := (∀ x, f x ≤ m) ∧ (m = 0 ∨ ∃ x, m = f x).

Lemma merge_largest sts : ∀ st,
  let r := foldl merge_stats st sts in
  (∀ x, x ∈ st :: sts → x.1.1 ≤ r.1.1 ∧ x.1.2 ≤ r.1.2) ∧
  (∃ x, x ∈ st :: sts ∧ r.1.1 = x.1.1) ∧ (∃ x, x ∈ st :: sts ∧ r.1.2 = x.1.2).
Proof.
  induction sts as [|st' sts IH]; intros st; cbn [foldl].
  - split; [by intros x ->%list_elem_of_singleton|]. split; (exists st; split; [by left|done]).
  - destruct (IH (merge_stats st st')) as (Hle & (x & Hx & Hmx) & (y & Hy & Hmy)).
    assert (∀ z, z ∈ sts → z ∈ st :: st' :: sts) as Hsub by (intros z ?; by do 2 right).
    split_and!.
    + destruct (Hle (merge_stats st st')) as [H1' H2']; [by left|].
      intros z [->|[->|Hz]%elem_of_cons]%elem_of_cons; [..|apply Hle; by right]; split;
        (etrans; [|first [exact H1'|exact H2']]); first [apply N.le_max_l|apply N.le_max_r].
    + apply elem_of_cons in Hx as [->|Hx]; [|by eauto]. rewrite Hmx. cbn.
      destruct (N.max_dec st.1.1 st'.1.1) as [->| ->]; eexists; (split; [|done]); set_solver.
    + apply elem_of_cons in Hy as [->|Hy]; [|by eauto]. rewrite Hmy. cbn.
      destruct (N.max_dec st.1.2 st'.1.2) as [->| ->]; eexists; (split; [|done]); set_solver.
Qed.

Lemma get_stats_chain told s :
  stats_ok told s → room told →
  ∃ st s', bf_get_stats s = (Ok st, s') ∧
    largest (λ node, size_of (chain_of (commits_of node told))) (num_committed st) ∧
    largest (λ node, N.of_nat (length (chain_of (commits_of node told)))) (chain_length st) ∧
    inflight_txns st = N.of_nat (size (bf_in_flight s)).
Proof.
  intros [Hs Hsome] Hroom. unfold bf_get_stats, mbind, M_bind, gets, lift_res, modify. cbn -[node_stats].
  rewrite (all_stats_chain told); [|intros node info Hin%elem_of_map_iter; specialize (Hs node);
    unfold info_of in Hs; by rewrite Hin in Hs|done].
  eexists _, _. split; [done|]. cbn -[node_stats size_of].
  assert (∀ node, chain_of (commits_of node told) = [] ∨
    node_stats told node ∈ (λ e : NodeId * ChainInfo, node_stats told e.1) <$> map_iter (bf_chain_info s)) as Hall.
  { intros node. destruct (bf_chain_info s !! node) as [info|] eqn:Hi.
    - right. apply list_elem_of_fmap. exists (node, info). split; [done|]. by apply elem_of_map_iter.
    - left. destruct (Hs node) as [Hlen _ _]. unfold info_of in Hlen. rewrite Hi in Hlen. by destruct (chain_of _). }
  assert (∀ x, x ∈ (λ e : NodeId * ChainInfo, node_stats told e.1) <$> map_iter (bf_chain_info s) →
    ∃ node, x = node_stats told node) as Hnodes by (intros x ([node info] & -> & _)%list_elem_of_fmap; by exists node).
  destruct ((λ e : NodeId * ChainInfo, node_stats told e.1) <$> map_iter (bf_chain_info s)) as [|st sts].
  { split_and!; [split; [|by left]..|done]; intros node; destruct (Hall node) as [->|[]%elem_of_nil]; done. }
  destruct (merge_largest sts st) as (Hle & (x & Hx & Hmx) & (y & Hy & Hmy)).
  split_and!; [split..|done].
  - intros node. destruct (Hall node) as [->|Hin]; [cbn; lia|]. by apply (Hle (node_stats told node)).
  - right. destruct (Hnodes x Hx) as [node ->]. by exists node.
  - intros node. destruct (Hall node) as [->|Hin]; [cbn; lia|]. by apply (Hle (node_stats told node)).
  - right. destruct (Hnodes y Hy) as [node ->]. by exists node.
Qed.

Lemma bf_new_info id clients num_accounts max_inflight freq crypto t draws :
  bf_chain_info (bf_new id clients num_accounts max_inflight freq crypto t draws) = ∅.
Proof. unfold bf_new. by repeat case_match. Qed.

(** What becomes of a report. *)
Lemma report_verdict told s now node txns h :
  stats_ok told s → room told → size_of (commits_of node told).*2 + N.of_nat (length txns) < two64 →
  let r := (bf_txn_committed now node txns h s).1 in
  if (h <=? N.of_nat (length (chain_of (commits_of node told))) + 1)%N
  then r = Panic → ∃ t, t ∈ txns ∧ txn_compute_id t = Panic
  else r = Panic.
Proof.
  intros [Hs _] [Hl _] Hsz. cbn zeta. pose proof (Hs node) as [Hlen _ Htot].
  pose proof (chain_of_length (commits_of node told)). pose proof (commits_of_length node told).
  destruct (txn_committed_spec now node txns h s) as [Hbad Hgood]; [rewrite Hlen; lia|by rewrite Htot|].
  rewrite <- Hlen. destruct (N.leb_spec h (ci_chain_length (info_of s node) + 1)); [by apply Hgood|by apply Hbad].
Qed.

(** C20: the statistics of a Bitcoin client are those of the chains it was told of.
    Whatever it does from its creation (errors included), and whatever reports of
    whatever nodes it is given, as long as the counts have room: a report that skips a
    height of its node is refused with a panic; of any other only a transaction that
    cannot be hashed makes a panic; and [get_stats] returns (its sum over the heights
    finds every one of them), with, as the number of committed transactions and the
    length of the chain, the largest over the nodes of the chain its reports lead to,
    each report having replaced what its node had at that height and above. *)
Theorem stats_refine_reports id clients num_accounts max_inflight freq crypto t draws told s :
  bf_told (bf_new id clients num_accounts max_inflight freq crypto t draws) told s → room told →
  (∃ st s', bf_get_stats s = (Ok st, s') ∧
    largest (λ node, size_of (chain_of (commits_of node told))) (num_committed st) ∧
    largest (λ node, N.of_nat (length (chain_of (commits_of node told)))) (chain_length st) ∧
    inflight_txns st = N.of_nat (size (bf_in_flight s))) ∧
  (∀ now node txns h, size_of (commits_of node told).*2 + N.of_nat (length txns) < two64 →
    let r := (bf_txn_committed now node txns h s).1 in
    if (h <=? N.of_nat (length (chain_of (commits_of node told))) + 1)%N
    then r = Panic → ∃ t, t ∈ txns ∧ txn_compute_id t = Panic
    else r = Panic).
Proof.
  intros Htold Hroom. pose proof (told_stats_ok _ _ _ (bf_new_info _ _ _ _ _ _ _ _) Htold Hroom) as Hok.
  split; [by apply get_stats_chain|]. intros now node txns h. by apply report_verdict.
Qed.

(** A bound for every node. *)
Lemma reports_size_le (told : list (NodeId * (N * list Txn))) node : size_of (commits_of node told).*2 ≤ size_of (told.*2).*2.
Proof.
  induction told as [|[node' [h b]] told IH]; [done|]. cbn [fmap list_fmap snd].
  change ((node', (h, b)) :: told) with ([(node', (h, b))] ++ told).
  rewrite commits_of_app, fmap_app, size_of_app. change (b :: (told.*2).*2) with ([b] ++ (told.*2).*2).
  rewrite size_of_app. pose proof (commits_of_tagged node node' [(h, b)] : commits_of node [_] = _) as ->.
  case_decide; cbn -[size_of N.add]; [lia|]. change (size_of []) with 0. lia.
Qed.

(** Calls one after another, all of which return a result. *)
Fixpoint bf_calls (cs : list bf_call) (told : list (NodeId * (N * list Txn))) s :
    option (list (NodeId * (N * list Txn)) * BitcoinFlowGen) :=
  match cs with
  | [] => Some (told, s)
  | c :: cs =>
    match bf_run c s with (Ok _, s') => bf_calls cs (told ++ reports_of c) s' | _ => None end
  end.

Lemma bf_calls_told s0 cs : ∀ told s told' s',
  bf_told s0 told s → bf_calls cs told s = Some (told', s') → bf_told s0 told' s'.
Proof.
  induction cs as [|c cs IH]; intros told s told' s' Htold Hc; cbn in Hc; [by simplify_eq|].
  destruct (bf_run c s) as [[out|e| |] s1] eqn:Hr; try done. eapply IH; [|done]. by eapply bf_told_ok.
Qed.
End Stats.

(** ** Witness: two nodes, one of which switches after two commits *)

#[local] Existing Instances sample_externals sample_profile canonical_order sample_bincode_btc.
#[local] Instance stats_bincode_avax : Bincode AvalancheTxn := {|
  serialize := λ _, inl []; deserialize := λ _, inr (mkErr "not needed") |}.
#[local] Instance stats_bincode_hashes : Bincode (list Hash) := {| serialize := inl; deserialize := inl |}.
#[local] Instance stats_ln : Ln := λ _, f64_zero.

Definition w_stats_txn (v : N) : Txn := TBitcoin (BGrant v [v]).
Definition w_stats_calls : list bf_call :=
  [BFCommitted 1 1 [w_stats_txn 1; w_stats_txn 2] 1; BFCommitted 2 2 [w_stats_txn 1] 1;
   BFCommitted 3 1 [w_stats_txn 3] 2; BFStats; BFCommitted 4 1 [w_stats_txn 4] 1].
Definition w_stats_new : BitcoinFlowGen := bf_new 0 [0] 2 3 UNSET CSDummy 0 [].
Definition w_stats_end : list (NodeId * (N * list Txn)) * BitcoinFlowGen :=
  default ([], w_stats_new) (bf_calls w_stats_calls [] w_stats_new).

(** Three transactions committed before the switch, one after it. *)
Example w_stats_counts :
  (num_committed <$> (let r := bf_get_stats w_stats_end.2 in match r.1 with Ok st => Some st | _ => None end)) = Some 1 ∧
  size_of (commits_of 1 w_stats_end.1).*2 = 4.
Proof. by vm_compute. Qed.

Lemma stats_refine_reports_witness :
  (∃ st s', bf_get_stats w_stats_end.2 = (Ok st, s') ∧
    largest (λ node, size_of (chain_of (commits_of node w_stats_end.1))) (num_committed st) ∧
    largest (λ node, N.of_nat (length (chain_of (commits_of node w_stats_end.1)))) (chain_length st) ∧
    inflight_txns st = N.of_nat (size (bf_in_flight w_stats_end.2))) ∧
  (∀ now node txns h, size_of (commits_of node w_stats_end.1).*2 + N.of_nat (length txns) < two64 →
    let r := (bf_txn_committed now node txns h w_stats_end.2).1 in
    if (h <=? N.of_nat (length (chain_of (commits_of node w_stats_end.1))) + 1)%N
    then r = Panic → ∃ t, t ∈ txns ∧ txn_compute_id t = Panic
    else r = Panic).
Proof.
  apply (stats_refine_reports 0 [0] 2 3 UNSET CSDummy 0 [] w_stats_end.1 w_stats_end.2).
  - apply (bf_calls_told _ w_stats_calls [] w_stats_new); [constructor|by vm_compute].
  - split; [by vm_compute|]. intros node. eapply N.le_lt_trans; [apply (reports_size_le w_stats_end.1)|by vm_compute].
Defined.
