(* ===== verification/BtcClient.v ===== *)
(** * A Bitcoin node and its client

    Block management, the blocks on their way to the decision stage, the decision
    stage, and what it reports to the client, as one system: BtcInv.v and BtcCompose.v
    for the node, BtcStats.v for the client. Each part lags behind the one before it,
    so the decision stage follows an older main chain, and what the client has been
    told of is a chain that the decision stage may have left. *)

From S2P Require Import Prelude F64 Protocol Peers Config BtcMgmt BtcUtxo BtcChain BtcInv.
From S2P Require BtcDecide.
From S2P Require Import Samples BtcProps BtcCompose.
From S2P Require Import FlowGen ClientProps ClusterProps BtcStats.
Import BtcDecide (chained, blk_ids, last_id, follows, pool_has).
Local Open Scope N_scope.

Section System.
Context `{Externals} `{!Bincode BitcoinTxn} `{!Bincode BlockHeader} `{BuildProfile}
  `{HashOrder} `{Transport} `{Libm}.
Context (rank : Hash → nat).

(** ** The system *)

(** [bn_pipe]: the tails handed over and not taken yet, oldest first; [bn_reports]:
    what was committed, oldest first. *)
Record BtcNode := mkBtcNode {
  bn_bm : BitcoinBM;
  bn_pipe : list (list blk_rec);
  bn_dec : BtcDecide.BitcoinDecision;
  bn_reports : list (N * list Txn);
}.

(** One call in one of the threads: those of block management that do not touch the
    chain; a block proposed or received, which hands over what changed; the decision
    stage takes the next tail, or commits. *)
Inductive node_moves : BtcNode → BtcNode → Prop :=
| move_new_txn s p d rs t c ok s' :
    clean_txn (t, c) → record_new_txn t c s = (Ok ok, s') → node_moves (mkBtcNode s p d rs) (mkBtcNode s' p d rs)
| move_prepare s p d rs fuel root now u st s' :
    prepare_new_block fuel root now u s = (Ok st, s') → node_moves (mkBtcNode s p d rs) (mkBtcNode s' p d rs)
| move_pmaker s p d rs msg r s' :
    handle_pmaker_msg msg s = (r, s') → node_moves (mkBtcNode s p d rs) (mkBtcNode s' p d rs)
| move_blk_req s p d rs peer msg h r s' :
    u256_from_le msg = Some h → handle_peer_blk_req peer msg s = (r, s') →
    node_moves (mkBtcNode s p d rs) (mkBtcNode s' p d rs)
| move_propose s p d rs b c s' :
    get_new_block s = (Ok (b, c), s') → fresh_id rank s (bc_id c) →
    node_moves (mkBtcNode s p d rs) (mkBtcNode s' (p ++ [[(b, c)]]) d rs)
| move_block s p d rs b c r s' :
    arriving rank s b c → validate_block b c s = (Ok r, s') →
    node_moves (mkBtcNode s p d rs) (mkBtcNode s' (if r then p else p ++ [r]) d rs)
| move_block_err s p d rs b c e s' :
    arriving rank s b c → validate_block b c s = (Err e, s') → node_moves (mkBtcNode s p d rs) (mkBtcNode s' p d rs)
| move_deliver s r p d rs src d' :
    BtcDecide.new_tail src r d = (Ok tt, d') → node_moves (mkBtcNode s (r :: p) d rs) (mkBtcNode s p d' rs)
| move_commit s p d rs out d' :
    BtcDecide.commit_ready d = true → BtcDecide.next_to_commit d = (Ok out, d') →
    node_moves (mkBtcNode s p d rs) (mkBtcNode s p d' (rs ++ [out])).

Definition node_start (id diff : N) (pm : PeerMessenger) (config : BitcoinBasicConfig) : BtcNode :=
  mkBtcNode (new id diff pm) [] (BtcDecide.new id config) [].

(** ** The invariant *)

(** From the chain the decision stage follows to the main chain, through the tails
    that are on their way. *)
Inductive leads_to : list blk_rec → list (list blk_rec) → list blk_rec → Prop :=
| leads_nil l : leads_to l [] l
| leads_cons com old r p l :
    chained (com ++ old) → chained (com ++ r) → r ≠ [] → leads_to (com ++ r) p l → leads_to (com ++ old) (r :: p) l.

Lemma leads_snoc l p com old r :
  leads_to l p (com ++ old) → chained (com ++ old) → chained (com ++ r) → r ≠ [] → leads_to l (p ++ [r]) (com ++ r).
Proof.
  intros Hl. remember (com ++ old) as lm eqn:Hlm. induction Hl as [l|com' old' r' p l Hc1 Hc2 Hne Hl IH];
    intros Hc Hr Hrne; subst; cbn; (apply leads_cons; [done..|]); [constructor|by apply IH].
Qed.

(** The heights come in order, up to switches. *)
Definition in_order (rs : list (N * list Txn)) : Prop :=
  ∀ before h b after, rs = before ++ (h, b) :: after → 1 ≤ h ∧ h ≤ N.of_nat (length (chain_of before)) + 1.

Lemma in_order_snoc rs h b :
  in_order rs → 1 ≤ h → h ≤ N.of_nat (length (chain_of rs)) + 1 → in_order (rs ++ [(h, b)]).
Proof.
  intros Hrs Hh1 Hh2 before h' b' after Heq. destruct after as [|x after _] using rev_ind.
  - apply app_inj_tail in Heq as [-> [= -> ->]]. done.
  - rewrite app_comm_cons, app_assoc in Heq. apply app_inj_tail in Heq as [-> _]. by eapply Hrs.
Qed.

(** The transactions of blocks. *)
Definition bodies (l : list blk_rec) : list (list Txn) := (λ x : blk_rec, txns x.1) <$> l.

(** The decision stage has committed the first [n] blocks of the chain it follows,
    and the reports begin with them. *)
Record system_ok (s : BtcNode) : Prop := {
  sy_inv : btc_inv rank (bn_bm s);
  sy_order : in_order (bn_reports s);
  sy_chain : ∃ l lm n, follows (bn_dec s) l n ∧ chained l ∧ leads_to l (bn_pipe s) lm ∧
    is_path (block_pool (bn_bm s)) (chain_tail (bn_bm s)) lm ∧
    (n ≤ length (chain_of (bn_reports s)))%nat ∧
    take n (chain_of (bn_reports s)) = take n (bodies l);
}.

(** ** Calls that leave the chain alone *)

Definition chain_data (s : BitcoinBM) := (block_pool s, chain_tail s).

Lemma record_keeps_chain t c : keeps chain_data (record_new_txn t c).
Proof. unfold record_new_txn. keeps_auto. Qed.

Lemma pmaker_keeps_chain msg : keeps chain_data (handle_pmaker_msg msg).
Proof. unfold handle_pmaker_msg. keeps_auto. Qed.

Lemma blk_req_keeps_chain peer msg : keeps chain_data (handle_peer_blk_req peer msg).
Proof. unfold handle_peer_blk_req. keeps_auto. Qed.

Lemma prepare_keeps_chain fuel root now u : keeps chain_data (prepare_new_block fuel root now u).
Proof.
  assert (∀ h d, keeps chain_data (try_add_txn h d)) as Htry by (intros h d; unfold try_add_txn; keeps_auto).
  assert (∀ fuel m d, keeps chain_data (prepare_loop fuel m d)) as Hloop.
  { clear fuel. induction fuel as [|fuel IH]; intros m d; cbn [prepare_loop]; keeps_auto. }
  unfold prepare_new_block. keeps_auto.
Qed.

Lemma keeps_run {S A T : Type} (f : S → T) (m : M S A) s r s' : keeps f m → m s = (r, s') → f s' = f s.
Proof. intros Hk Heq. specialize (Hk s). by rewrite Heq in Hk. Qed.

(** ** Steps keep the invariant *)

Lemma system_frame s s' p d rs :
  system_ok (mkBtcNode s p d rs) → btc_inv rank s' → chain_data s' = chain_data s → system_ok (mkBtcNode s' p d rs).
Proof.
  intros [_ Ho (l & lm & n & Hch)] Hinv [= Hp Ht]. split; [done|done|]. cbn [bn_bm bn_pipe bn_dec bn_reports] in *. exists l, lm, n. by rewrite Hp, Ht.
Qed.

Lemma system_block s s' p d rs r :
  system_ok (mkBtcNode s p d rs) → btc_inv rank s' → switched s r s' →
  system_ok (mkBtcNode s' (if r then p else p ++ [r]) d rs).
Proof.
  intros [Hinv Ho (l & lm & n & Hf & Hc & Hl & Hpath & Hn & Hrs)] Hinv' Hsw. cbn [bn_bm bn_pipe bn_dec bn_reports] in *.
  split; [done|done|]. cbn [bn_bm bn_pipe bn_dec bn_reports]. destruct Hsw as [[-> (Ht & _ & Hp)]|(com & old & Hlo & Hln & Hlen)].
  - exists l, lm, n. rewrite Ht. split_and!; try done; by apply Hp.
  - assert (lm = com ++ old) as -> by exact (is_path_det rank _ _ (bi_pool _ _ Hinv) _ _ _ Hpath Hlo).
    destruct (path_chained rank _ _ (bi_pool _ _ Hinv) _ _ Hlo) as [Hc1 _].
    destruct (path_chained rank _ _ (bi_pool _ _ Hinv') _ _ Hln) as [Hc2 _].
    destruct r as [|x r]; [cbn in Hlen; lia|]. exists l, (com ++ x :: r), n. split_and!; try done.
    by eapply leads_snoc.
Qed.

Lemma system_deliver s r p d rs src d' :
  system_ok (mkBtcNode s (r :: p) d rs) → BtcDecide.new_tail src r d = (Ok tt, d') → system_ok (mkBtcNode s p d' rs).
Proof.
  intros [Hinv Ho (l & lm & n & Hf & Hc & Hl & Hpath & Hn & Hrs)] Heq. cbn [bn_bm bn_pipe bn_dec bn_reports] in *. split; [done|done|]. cbn [bn_bm bn_pipe bn_dec bn_reports].
  inversion Hl as [|com old r' p' l' Hc1 Hc2 Hne Hl']; subst.
  pose proof (BtcDecide.new_tail_spec src d com old r n Hf Hc1 Hc2 Hne) as Hw. unfold wp in Hw. rewrite Heq in Hw.
  destruct Hw as [Hf' _]. exists (com ++ r), lm, (Nat.min n (length com)). split_and!; try done; [lia|].
  apply (f_equal (take (Nat.min n (length com)))) in Hrs. rewrite !take_take in Hrs.
  replace (Nat.min (Nat.min n (length com)) n) with (Nat.min n (length com)) in Hrs by lia. rewrite Hrs.
  unfold bodies. rewrite !fmap_app, !take_app_le by (rewrite length_fmap; lia). done.
Qed.

(** A commit cuts the chain of the reports behind it. *)
Lemma chain_of_commit rs l n b c :
  take n (chain_of rs) = take n (bodies l) → l !! n = Some (b, c) →
  chain_of (rs ++ [(N.of_nat n + 1, txns b)]) = take (S n) (bodies l).
Proof.
  intros Hrs Hb. rewrite chain_of_snoc. unfold place. rewrite decide_False by lia.
  replace (N.to_nat (N.of_nat n + 1 - 1)) with n by lia. rewrite Hrs. symmetry. apply take_S_r.
  unfold bodies. by rewrite list_lookup_fmap, Hb.
Qed.

(** Without a tail that was lost on the way the next one has no parent. *)
Lemma lost_tail_panics d src b c r p :
  header_prev b = Ok p → p ≠ 0 → BtcDecide.block_pool d !! p = None →
  (BtcDecide.new_tail src ((b, c) :: r) d).1 = Panic.
Proof.
  intros Hp Hne Hnone. unfold BtcDecide.new_tail, BtcDecide.first_block, mbind, M_bind, gets, lift_res. cbn.
  rewrite Hp. cbn. by rewrite decide_False, Hnone.
Qed.

Lemma system_commit s p d rs out d' :
  system_ok (mkBtcNode s p d rs) → BtcDecide.commit_ready d = true → BtcDecide.next_to_commit d = (Ok out, d') →
  system_ok (mkBtcNode s p d' (rs ++ [out])).
Proof.
  intros [Hinv Ho (l & lm & n & Hf & Hc & Hl & Hpath & Hn & Hrs)] Hready Heq. cbn [bn_bm bn_pipe bn_dec bn_reports] in *.
  destruct (ready_commits d l n Hf Hc Hready) as (b & c & d2 & Hb & _ & Heq' & Hf'). rewrite Heq in Heq'.
  injection Heq' as -> ->.
  assert (chain_of (rs ++ [(N.of_nat n + 1, txns b)]) = take (S n) (bodies l)) as Hchain by (by eapply chain_of_commit).
  apply lookup_lt_Some in Hb. split; [done|apply in_order_snoc; [done|lia|lia]|]. cbn [bn_bm bn_pipe bn_dec bn_reports].
  exists l, lm, (S n). rewrite Hchain, take_take, Nat.min_id. split_and!; try done.
  rewrite length_take. unfold bodies. rewrite length_fmap. lia.
Qed.

Lemma system_step s s' : overflow_checks = false → node_moves s s' → system_ok s → system_ok s'.
Proof.
  intros Hov Hstep Hok. pose proof (sy_inv _ Hok) as Hinv. destruct Hstep; cbn in Hinv.
  - eapply system_frame; [done|eapply btc_step_inv; [done|by econstructor|done]|by eapply keeps_run; [apply record_keeps_chain|]].
  - eapply system_frame; [done|eapply btc_step_inv; [done|by econstructor|done]|by eapply keeps_run; [apply prepare_keeps_chain|]].
  - eapply system_frame; [done|eapply btc_step_inv; [done|by econstructor|done]|by eapply keeps_run; [apply pmaker_keeps_chain|]].
  - eapply system_frame; [done|eapply btc_step_inv; [done|by eapply step_blk_req|done]|by eapply keeps_run; [apply blk_req_keeps_chain|]].
  - destruct (sy_chain _ Hok) as (l & lm & n & _ & _ & _ & Hpath & _). cbn in Hpath.
    destruct (get_new_block_inv rank _ _ _ _ _ Hinv ltac:(done) ltac:(done) Hpath) as (Hinv' & _ & Hp & _).
    apply (system_block s s' p d rs [(b, c)] Hok Hinv'). right. exists lm, []. rewrite app_nil_r.
    split_and!; [done|done|cbn; lia].
  - pose proof (validate_block_wp rank s b c Hov Hinv ltac:(done)) as Hw. unfold wp in Hw.
    match goal with Heq : validate_block _ _ _ = _ |- _ => rewrite Heq in Hw end. destruct Hw as [Hinv' Hsw].
    by apply (system_block s s').
  - pose proof (validate_block_wp rank s b c Hov Hinv ltac:(done)) as Hw. unfold wp in Hw.
    match goal with Heq : validate_block _ _ _ = _ |- _ => rewrite Heq in Hw end. destruct Hw as [Hinv' Hst].
    apply (system_block s s' p d rs []); [done|done|by left].
  - by eapply system_deliver.
  - by eapply system_commit.
Qed.

Lemma system_run s s' : overflow_checks = false → rtc node_moves s s' → system_ok s → system_ok s'.
Proof. intros Hov. induction 1; eauto using system_step. Qed.

Lemma system_start id diff pm config : system_ok (node_start id diff pm config).
Proof.
  split; cbn.
  - apply btc_inv_new.
  - intros before h b after Heq. by destruct before.
  - exists [], [], 0%nat. split_and!; try done; constructor.
Qed.
End System.

(** ** With the client *)

Section Client.
Context `{Externals} `{!Bincode BitcoinTxn} `{!Bincode AvalancheTxn} `{!Bincode BlockHeader} `{!Bincode (list Hash)}
  `{BuildProfile} `{HashOrder} `{Transport} `{Libm} `{Ln}.
Context (rank : Hash → nat).

(** C10: what a Bitcoin client counts is what its nodes commit. For a node, in the
    release profile, whose block management, decision stage and the pipe between them
    run at their own pace, fed with blocks of clean transactions (distinct inputs,
    distinct outputs) whose chains repeat none, and whose tails all reach the decision
    stage (a lost one panics it, [lost_tail_panics]): the decision stage takes every tail and commits when it
    is ready, without a panic; it follows a chain, which is the main chain once the
    pipe is empty, and has committed its first [n] blocks: the chain that the
    reports lead to begins with their transactions, and a new commit makes it exactly
    the first [n + 1] blocks. Any client that has been told some of the reports of the
    node, among those of other nodes, with sums that fit in 64 bits, accepts the next
    one: its assertion on the height never fails, switches of the main chain included. *)
Theorem client_follows_main_chain id diff pm config s :
  overflow_checks = false → rtc (node_moves rank) (node_start id diff pm config) s →
  (∀ r p src, bn_pipe s = r :: p → ∃ d', BtcDecide.new_tail src r (bn_dec s) = (Ok tt, d')) ∧
  (∃ l n, follows (bn_dec s) l n ∧
    (bn_pipe s = [] → is_path (block_pool (bn_bm s)) (chain_tail (bn_bm s)) l) ∧
    take n (chain_of (bn_reports s)) = bodies (take n l) ∧
    (BtcDecide.commit_ready (bn_dec s) = true → ∃ out d', BtcDecide.next_to_commit (bn_dec s) = (Ok out, d') ∧
      chain_of (bn_reports s ++ [out]) = bodies (take (S n) l))) ∧
  (∀ gid clients num_accounts max_inflight freq crypto t draws told c node h txns now,
    bf_told (bf_new gid clients num_accounts max_inflight freq crypto t draws) told c → room told →
    size_of (commits_of node told).*2 + N.of_nat (length txns) < two64 →
    commits_of node told ++ [(h, txns)] `prefix_of` bn_reports s →
    (bf_txn_committed now node txns h c).1 = Panic → ∃ t, t ∈ txns ∧ txn_compute_id t = Panic).
Proof.
  intros Hov Hrun.
  pose proof (system_run rank _ _ Hov Hrun (system_start rank id diff pm config)) as Hok.
  destruct Hok as [_ Ho (l & lm & n & Hf & Hc & Hl & Hpath & Hn & Hrs)]. split_and!.
  - intros r p src Hp. rewrite Hp in Hl. inversion Hl as [|com old r' p' l' Hc1 Hc2 Hne _]; subst.
    pose proof (BtcDecide.new_tail_spec src (bn_dec s) com old r n Hf Hc1 Hc2 Hne) as Hw. unfold wp in Hw.
    destruct (BtcDecide.new_tail src r (bn_dec s)) as [[[]|e| |] d']; try done. by exists d'.
  - exists l, n. split; [done|]. split.
    { intros Hp. rewrite Hp in Hl. by inversion Hl; subst. }
    split; [rewrite Hrs; unfold bodies; by rewrite fmap_take|]. intros Hready.
    destruct (ready_commits _ l n Hf Hc Hready) as (b & c & d' & Hb & _ & Heq & _). eexists _, _. split; [done|].
    rewrite (chain_of_commit _ l n b c) by done. unfold bodies. by rewrite fmap_take.
  - intros gid clients num_accounts max_inflight freq crypto t draws told c node h txns now Htold Hroom Hsz [after Hpre] Hp.
    pose proof (told_stats_ok _ _ _ (bf_new_info _ _ _ _ _ _ _ _) Htold Hroom) as Hst.
    pose proof (report_verdict told c now node txns h Hst Hroom Hsz) as Hv. cbn zeta in Hv.
    rewrite <- app_assoc in Hpre. destruct (Ho _ _ _ _ Hpre) as [_ Hh].
    rewrite (proj2 (N.leb_le _ _) Hh) in Hv. by apply Hv.
Qed.
End Client.

(** ** Witness: a block proposed, handed over and committed *)

#[local] Existing Instances sample_externals sample_bincode_btc sample_bincode_header
  sample_transport sample_profile canonical_order sample_libm.
#[local] Instance follow_bincode_avax : Bincode AvalancheTxn := {|
  serialize := λ _, inl []; deserialize := λ _, inr (mkErr "not needed") |}.
#[local] Instance follow_bincode_hashes : Bincode (list Hash) := {| serialize := inl; deserialize := inl |}.
#[local] Instance follow_ln : Ln := λ _, f64_zero.

Definition w_sys0 : BtcNode :=
  node_start 1 1 sample_messenger (mkBitcoinBasicConfig 25 0 DGossip DGossip).
Definition w_d2 : BtcDecide.BitcoinDecision := (BtcDecide.next_to_commit w_d1).2.
Definition w_sys : BtcNode := mkBtcNode w_s3 [] w_d2 [(1, txns w_blk)].

Lemma w_sys_reached : rtc (node_moves w_rank) w_sys0 w_sys.
Proof.
  apply (rtc_l _ _ (mkBtcNode w_s1 [] w_d0 [])); [eapply move_new_txn; [apply w_clean|by vm_compute]|].
  apply (rtc_l _ _ (mkBtcNode w_s2 [] w_d0 [])); [eapply (move_prepare _ _ _ _ _ 2 99 0 f64_one); by vm_compute|].
  apply (rtc_l _ _ (mkBtcNode w_s3 ([] ++ [[(w_blk, w_blk_ctx)]]) w_d0 []));
    [by eapply move_propose; [apply w_propose|apply w_fresh]|].
  apply (rtc_l _ _ (mkBtcNode w_s3 [] w_d1 [])); [apply (move_deliver _ _ _ _ _ _ 1); by vm_compute|].
  apply rtc_once, (move_commit _ _ _ _ [] (1, txns w_blk)); by vm_compute.
Qed.

(** A client that was told nothing yet takes the report. *)
Lemma client_follows_main_chain_witness :
  (∃ l n, follows w_d2 l n ∧ is_path (block_pool w_s3) (chain_tail w_s3) l ∧
    take n (chain_of [(1, txns w_blk)]) = bodies (take n l)) ∧
  ((bf_txn_committed 9 1 (txns w_blk) 1 (bf_new 0 [0] 2 3 UNSET CSDummy 0 [])).1 = Panic →
    ∃ t, t ∈ txns w_blk ∧ txn_compute_id t = Panic).
Proof.
  destruct (client_follows_main_chain w_rank 1 1 sample_messenger (mkBitcoinBasicConfig 25 0 DGossip DGossip) w_sys
    eq_refl w_sys_reached) as (_ & (l & n & Hf & Hp & Ht & _) & Hv). split.
  - exists l, n. split; [exact Hf|]. split; [by apply Hp|exact Ht].
  - apply (Hv 0 [0] 2 3 UNSET CSDummy 0 [] [] (bf_new 0 [0] 2 3 UNSET CSDummy 0 [])).
    + constructor.
    + split; [by vm_compute|]. intros node. by vm_compute.
    + by vm_compute.
    + by exists [].
Defined.
