(* ===== verification/Startup.v ===== *)
(** * How the binaries start

    The [main] of src/copycat_cluster, src/copycat_server and src/copycat_mailbox up to
    their loops, with [Node::init] of a chain-replication node and
    [PeerMessenger::new]. What the mailbox crates and the file system answer is an
    argument: an [Err] is logged, and [main] returns; a missing entry panics. *)

From S2P Require Import Prelude F64 Protocol Peers Utils Config Dissem Stages Threads Node FlowGen AvaFlowGen.
From S2P Require Import Cluster ChainRepl Samples NodeProps ClusterRepl.
Local Open Scope N_scope.

Abbreviation MachineId := N (only parsing).
(** The machines of the configuration file, with the nodes they host. *)
Abbreviation Machines := (gmap MachineId (list NodeId)) (only parsing).

(** How a [main] ends without a panic. *)
Inductive Ending := Returns | Exits (code : Z).

Section Startup.
Context `{HashOrder}.

(** [machine_list.iter().flat_map(|(_, Machine { node_list, .. })| node_list.clone()).collect()] *)
Definition machine_nodes (machines : gmap MachineId (list NodeId)) : gset NodeId :=
  list_to_set (concat (snd <$> map_iter machines)).

(** [PeerMessenger::new]: the messenger and the channels of the receiver thread. *)
Definition peer_messenger_new (new_stub : res unit) (id : NodeId) (neighbors : gset NodeId) :
    res (PeerMessenger * (list (NodeId * list Txn) * list (NodeId * Block) * list (NodeId * bytes) *
      list (NodeId * bytes) * list (NodeId * bytes))) :=
  _ ← new_stub;
  Ok (mkPeerMessenger id neighbors 0 [], ([], [], [], [], [])).

(** ** The mailbox *)

Definition mailbox_threads (num_threads : N) : N := if (0 <? num_threads)%N then num_threads else 8.

(** Whatever [wait] answers, [main] then returns. *)
Definition mailbox_main {NetworkConfig PipeInfo : Type}
    (parse_network_config : gset NodeId → NetworkConfig → PipeInfo)
    (init : MachineId → gmap MachineId (list NodeId) → PipeInfo → res unit) (wait : res unit)
    (id : MachineId) (machine_config : res (gmap MachineId (list NodeId))) (network_config : res NetworkConfig) :
    Ending :=
  match machine_config with
  | Ok machine_list =>
    let nodes := machine_nodes machine_list in
    match network_config with
    | Ok network_config =>
      let pipe_info := parse_network_config nodes network_config in
      match init id machine_list pipe_info with
      | Ok _ => match wait with Ok _ => Returns | _ => Returns end
      | _ => Exits (-1)
      end
    | _ => Returns
    end
  | _ => Returns
  end.

(** ** The server *)

(** [.unwrap()] of a [Result] *)
Definition unwrap_result {A : Type} (r : res A) : res A := match r with Ok a => Ok a | _ => Panic end.
Definition unwrap_option {A : Type} (o : option A) : res A := match o with Some a => Ok a | None => Panic end.

(** The configuration of the node and its neighbors; [topology]: what the file holds,
    if one is named. *)
Definition server_start (id : NodeId) (config_file : res (gmap NodeId NodeConfig))
    (topology : option (res (list (NodeId * NodeId)))) : res (NodeConfig * gset NodeId) :=
  configs ← unwrap_result config_file;
  config ← unwrap_option (configs !! id);
  let neighbors := match topology with
    | None => ∅
    | Some (Ok pipes) => get_neighbors id pipes
    | Some _ => ∅
    end in
  Ok (config, neighbors).

(** ** The cluster *)

Section Nodes.
Context {Bm Dc Pm : Type} (init : NodeId → NodeConfig → gset NodeId → res (Node Bm Dc Pm)).

(** The loop over the local nodes, given [Node::init]. *)
Fixpoint start_nodes (local_nodes : list NodeId) (configs : gmap NodeId NodeConfig)
    (topology : gmap NodeId (gset NodeId)) (node_map : gmap NodeId (Node Bm Dc Pm)) :
    res (Ending + gmap NodeId (Node Bm Dc Pm)) :=
  match local_nodes with
  | [] => Ok (inr node_map)
  | id :: rest =>
    config ← unwrap_option (configs !! id);
    match init id config (default ∅ (topology !! id)) with
    | Ok node => start_nodes rest (delete id configs) (delete id topology) (<[id := node]> node_map)
    | Err _ => Ok (inl Returns)
    | Panic => Panic
    | OutOfFuel => OutOfFuel
    end
  end.

Definition cluster_start {NetworkConfig PipeInfo : Type}
    (parse_network_config : gset NodeId → NetworkConfig → PipeInfo)
    (mailbox_init : MachineId → gmap MachineId (list NodeId) → PipeInfo → res unit)
    (flow_gen : list ClientId → res SomeFlowGen)
    (id : MachineId) (machine_config : res (gmap MachineId (list NodeId))) (network_config : res NetworkConfig)
    (topology_file : option (list (NodeId * NodeId))) (config_file : res (gmap NodeId NodeConfig))
    (num_clients : option N) (txn_span : N) : res (Ending + Cluster Bm Dc Pm) :=
  match machine_config with
  | Ok machine_list =>
    local_nodes ← unwrap_option (machine_list !! id);
    let nodes := machine_nodes machine_list in
    match network_config with
    | Ok network_config =>
      let pipe_info := parse_network_config nodes network_config in
      let topology := cluster_topology local_nodes nodes topology_file in
      configs ← unwrap_result config_file;
      configs ← cluster_configs topology nodes local_nodes configs;
      let client_list := cluster_clients num_clients local_nodes in
      req_dsts ← cluster_dsts local_nodes txn_span 0 client_list ∅;
      match mailbox_init id machine_list pipe_info with
      | Ok _ =>
        r ← start_nodes local_nodes configs topology ∅;
        match r with
        | inl ending => Ok (inl ending)
        | inr node_map => g ← flow_gen client_list; Ok (inr (cluster_new req_dsts node_map g))
        end
      | _ => Ok (inl (Exits (-1)))
      end
    | _ => Ok (inl Returns)
    end
  | _ => Ok (inl Returns)
  end.
End Nodes.
End Startup.

(** ** A cluster of chain-replication nodes *)

Section ReplInit.
Context `{Externals} `{!Bincode BitcoinTxn} `{!Bincode AvalancheTxn} `{!Bincode BlockHeader}
  `{!Bincode (list Hash)} `{!Bincode Msg} `{BuildProfile} `{HashOrder} `{Transport} `{Channel} `{Ln}.

(** [Node::init] of a chain-replication node (a node of another chain has another
    type). *)
Definition repl_init (new_stub : NodeId → res unit) (txn_crypto : CryptoScheme) (dissem_txns : bool)
    (id : NodeId) (config : NodeConfig) (neighbors : gset NodeId) :
    res (Node ChainReplicationBM ChainReplicationDecision DummyPacemaker) :=
  match chain_config config with
  | CCChainReplication config =>
    pm ← peer_messenger_new (new_stub id) id neighbors;
    repl_node id txn_crypto config dissem_txns pm.1
  | _ => Panic
  end.

(** A node on the chain can be made, one that is not cannot. *)
Lemma linear_find_total me rep_order : ∀ before rest,
  rep_order = before ++ rest → me ∈ rest → ∃ b, linear_find me (length before) rep_order rest = Ok b.
Proof.
  intros before rest. revert before. induction rest as [|node rest IH]; intros before Heq Hin; [by apply elem_of_nil in Hin|].
  cbn. case_decide as Hne.
  - assert (∀ i, (i < length rep_order)%nat → is_Some (rep_order !! i)) as Hs by (intros; by apply lookup_lt_is_Some_2).
    assert (length rep_order = length before + S (length rest))%nat as Hlen by (rewrite Heq, length_app; done).
    case_decide as Hz; [destruct (Hs 0%nat) as [x ->]; [lia|]; by eauto|].
    destruct (Hs (length before - 1)%nat) as [x Hx]; [lia|].
    replace (rep_order !! (length before - 1)%nat) with (Some x). by eauto.
  - replace (S (length before)) with (length (before ++ [node])) by (rewrite length_app; cbn; lia).
    apply IH; [by rewrite <- app_assoc|]. by apply elem_of_cons in Hin as [|].
Qed.

Lemma repl_node_total id txn_crypto config dissem_txns pm :
  id ∈ cr_order config → ∃ n, repl_node id txn_crypto config dissem_txns pm = Ok n.
Proof.
  intros Hin. destruct (linear_find_total id (cr_order config) [] (cr_order config) eq_refl Hin) as [b Hb].
  assert (cr_order config ≠ []) as Hne by (intros Hnil; rewrite Hnil in Hin; by apply elem_of_nil in Hin).
  assert (∃ bm, crb_new id config = Ok bm) as [bm Hbm] by (unfold crb_new; destruct (cr_order config); eauto; done).
  assert (∃ dc, crd_new id (CCChainReplication config) pm = Ok dc) as [dc Hdc].
  { unfold crd_new. destruct (last (cr_order config)) as [tail|] eqn:Hl; [|by apply last_None in Hl].
    destruct (cr_order config); [done|]. cbn. eauto. }
  unfold repl_node, mbind, res_bind. rewrite Hbm, Hdc.
  unfold node_new, get_txn_dissemination, get_block_dissemination, linear_new, mbind, res_bind. cbn in Hb |- *.
  rewrite Hb. destruct dissem_txns; cbn; eauto.
Qed.

(** ** The cluster comes up *)

Lemma cluster_topology_dom local_nodes nodes file :
  dom (cluster_topology local_nodes nodes file) = list_to_set local_nodes.
Proof.
  unfold cluster_topology. destruct file; [apply get_topology_dom|]. unfold fully_connected_topology.
  assert (∀ nm : gmap NodeId (gset NodeId), dom (foldl (λ nm n, <[n := nodes ∖ {[n]}]> nm) nm local_nodes) =
    list_to_set local_nodes ∪ dom nm) as Hd; [|rewrite Hd; set_solver].
  induction local_nodes as [|n l IH]; intros nm; cbn; [set_solver|]. rewrite IH, dom_insert_L. set_solver.
Qed.

Lemma cluster_configs_ok topology nodes local_nodes : ∀ configs,
  NoDup local_nodes →
  (∀ id, id ∈ local_nodes → is_Some (configs !! id) ∧ is_Some (topology !! id)) →
  ∃ configs', cluster_configs topology nodes local_nodes configs = Ok configs' ∧
    (∀ id, id ∉ local_nodes → configs' !! id = configs !! id) ∧
    ∀ id c n, id ∈ local_nodes → configs !! id = Some c → topology !! id = Some n →
      configs' !! id = Some (Config.validate n nodes c).
Proof.
  induction local_nodes as [|i rest IH]; intros configs Hnd Hall; [by exists configs; split_and!; [..|set_solver]|].
  apply NoDup_cons in Hnd as [Hi Hnd]. destruct (Hall i) as [[c Hc] [n Hn]]; [by left|]. cbn. rewrite Hc, Hn.
  destruct (IH (<[i := Config.validate n nodes c]> configs)) as (configs' & -> & Hout & Hin); [done| |].
  { intros id Hid. destruct (Hall id) as [? ?]; [by right|]. rewrite lookup_insert_ne by (by intros ->). done. }
  exists configs'. split_and!; [done| |].
  - intros id Hid. rewrite Hout by set_solver. apply lookup_insert_ne. set_solver.
  - intros id c' n' [->|Hid]%elem_of_cons Hc' Hn'.
    + rewrite Hout by done. rewrite lookup_insert_eq. congruence.
    + apply Hin; [done| |done]. rewrite lookup_insert_ne by (by intros ->). done.
Qed.

(** A missing configuration is a panic. *)
Lemma cluster_configs_missing topology nodes local_nodes id : ∀ configs,
  id ∈ local_nodes → configs !! id = None → cluster_configs topology nodes local_nodes configs = Panic.
Proof.
  induction local_nodes as [|i rest IH]; intros configs Hid Hnone; [by apply elem_of_nil in Hid|]. cbn.
  destruct (configs !! i) as [c|] eqn:Hc; [|done]. destruct (topology !! i); [|done].
  apply elem_of_cons in Hid as [->|Hid]; [congruence|]. apply IH; [done|].
  rewrite lookup_insert_ne; [done|congruence].
Qed.

Lemma span_dsts_ok local_nodes idx offsets : local_nodes ≠ [] →
  ∃ dsts, span_dsts local_nodes idx offsets = Ok dsts ∧ length dsts = length offsets ∧
    ∀ x, x ∈ dsts → x ∈ local_nodes.
Proof.
  intros Hne. induction offsets as [|offset rest (dsts & IH & Hlen & Hin)]; [by exists []; split_and!; [..|set_solver]|].
  assert (0 < length local_nodes)%nat as Hpos by (destruct local_nodes; cbn; [done|lia]).
  cbn. unfold rand_index. rewrite decide_False by lia. cbn. unfold nth.
  destruct (local_nodes !! N.to_nat ((idx + offset) `mod` N.of_nat (length local_nodes))) as [node|] eqn:Hnode.
  - rewrite IH. cbn. exists (node :: dsts). split_and!; [done|cbn; lia|]. intros x [->|Hx]%elem_of_cons; [|by apply Hin].
    by eapply list_elem_of_lookup_2.
  - apply lookup_ge_None in Hnode. pose proof (N.mod_upper_bound (idx + offset) (N.of_nat (length local_nodes))). lia.
Qed.

(** The nodes a client sends to: some of the local ones, and one at least. *)
Definition sends_to (local_nodes dsts : list NodeId) : Prop := dsts ≠ [] ∧ ∀ x, x ∈ dsts → x ∈ local_nodes.

Lemma cluster_dsts_ok local_nodes txn_span client_list : local_nodes ≠ [] → ∀ idx acc,
  map_Forall (λ _, sends_to local_nodes) acc →
  ∃ dsts, cluster_dsts local_nodes txn_span idx client_list acc = Ok dsts ∧
    dom dsts = list_to_set client_list ∪ dom acc ∧ map_Forall (λ _, sends_to local_nodes) dsts.
Proof.
  intros Hne. induction client_list as [|client rest IH]; intros idx acc Hacc; [by exists acc; split_and!; [|set_solver|]|].
  assert (∃ d, client_dsts local_nodes txn_span idx = Ok d ∧ sends_to local_nodes d) as (d & Hd & Hs).
  { unfold client_dsts. case_decide as Hz; [by exists local_nodes|].
    destruct (span_dsts_ok local_nodes idx (range 0 txn_span) Hne) as (d & Hd & Hlen & Hin).
    exists d. split; [done|]. split; [|done]. intros ->. unfold range in Hlen. rewrite length_fmap, length_seq in Hlen.
    cbn in Hlen. lia. }
  cbn. rewrite Hd. cbn. destruct (IH (idx + 1) (<[client := d]> acc)) as (dsts & -> & Hdom & Hall);
    [by apply map_Forall_insert_2|].
  exists dsts. split_and!; [done| |done]. rewrite Hdom, dom_insert_L. cbn. set_solver.
Qed.

Lemma start_nodes_ok {Bm Dc Pm : Type} (init : NodeId → NodeConfig → gset NodeId → res (Node Bm Dc Pm)) local_nodes :
  ∀ configs topology node_map,
  NoDup local_nodes →
  (∀ id, id ∈ local_nodes → ∃ c n, configs !! id = Some c ∧ init id c (default ∅ (topology !! id)) = Ok n) →
  ∃ node_map', start_nodes init local_nodes configs topology node_map = Ok (inr node_map') ∧
    dom node_map' = list_to_set local_nodes ∪ dom node_map ∧
    ∀ id n, node_map' !! id = Some n → node_map !! id = Some n ∨
      ∃ c, id ∈ local_nodes ∧ configs !! id = Some c ∧ init id c (default ∅ (topology !! id)) = Ok n.
Proof.
  induction local_nodes as [|i rest IH]; intros configs topology node_map Hnd Hall.
  { exists node_map. split_and!; [done|set_solver|by left]. }
  apply NoDup_cons in Hnd as [Hi Hnd]. destruct (Hall i) as (c & n & Hc & Hn); [by left|].
  cbn. rewrite Hc. cbn. rewrite Hn.
  destruct (IH (delete i configs) (delete i topology) (<[i := n]> node_map)) as (nm & -> & Hdom & Hin); [done| |].
  { intros id Hid. assert (id ≠ i) by (by intros ->). rewrite !lookup_delete_ne by done. apply Hall. by right. }
  exists nm. split_and!; [done|rewrite Hdom, dom_insert_L; cbn; set_solver|].
  intros id n' Hn'. destruct (Hin id n' Hn') as [[[<- <-]|[_ Hold]]%lookup_insert_Some|(c' & Hid & Hc' & Hini)].
  - right. exists c. split_and!; [by left|done..].
  - by left.
  - right. assert (id ≠ i) by (by intros ->). rewrite !lookup_delete_ne in * by done. exists c'. split_and!; [by right|done..].
Qed.

Lemma machine_nodes_local machines id local_nodes node :
  machines !! id = Some local_nodes → node ∈ local_nodes → node ∈ machine_nodes machines.
Proof.
  intros Hm Hin. unfold machine_nodes. apply elem_of_list_to_set, list_elem_of_In, in_concat.
  exists local_nodes. split; [|by apply list_elem_of_In]. apply list_elem_of_In, list_elem_of_fmap.
  exists (id, local_nodes). by rewrite elem_of_map_iter.
Qed.

(** [Node::init] on a validated configuration. *)
Lemma repl_init_valid new_stub txn_crypto dissem_txns node config c nodes neighbors :
  new_stub node = Ok tt → chain_config config = CCChainReplication c → node ∈ nodes →
  ∃ n, repl_init new_stub txn_crypto dissem_txns node (Config.validate neighbors nodes config) neighbors = Ok n ∧
    repl_node node txn_crypto (validate_order nodes c) dissem_txns (mkPeerMessenger node neighbors 0 []) = Ok n.
Proof.
  intros Hstub Hchain Hin. destruct config as [cc mc]. cbn in Hchain. subst cc.
  destruct (validate_order_covers nodes c) as (_ & Hall & _).
  destruct (repl_node_total node txn_crypto (validate_order nodes c) dissem_txns
    (mkPeerMessenger node neighbors 0 [])) as [n Hn]; [by apply Hall|].
  exists n. split; [|done]. unfold repl_init, peer_messenger_new. cbn. by rewrite Hstub.
Qed.

(** C34: a chain-replication cluster comes up. Whenever the configuration files can be
    read, the machine is listed, its nodes are distinct, one at least, each with a
    chain-replication configuration (with whatever order), and the mailbox, the stubs and
    the generator can be made, [main] reaches its loop: no
    [unwrap] and no index on the way fails. It then runs exactly the local nodes, each
    with [Node::init] of a chain that visits every node of every machine exactly once;
    and each client sends to nodes that run here, one at least. *)
Theorem cluster_starts {NetworkConfig PipeInfo : Type} (parse : gset NodeId → NetworkConfig → PipeInfo)
    mailbox_init flow_gen new_stub txn_crypto dissem_txns id machines local_nodes network topology_file configs
    num_clients txn_span g :
  machines !! id = Some local_nodes → NoDup local_nodes → local_nodes ≠ [] →
  (∀ node, node ∈ local_nodes → ∃ config c, configs !! node = Some config ∧ chain_config config = CCChainReplication c) →
  mailbox_init id machines (parse (machine_nodes machines) network) = Ok tt →
  (∀ node, new_stub node = Ok tt) →
  flow_gen (cluster_clients num_clients local_nodes) = Ok g →
  ∃ s, cluster_start (repl_init new_stub txn_crypto dissem_txns) parse mailbox_init flow_gen id (Ok machines)
      (Ok network) topology_file (Ok configs) num_clients txn_span = Ok (inr s) ∧
    dom (cl_node_map s) = list_to_set local_nodes ∧
    map_Forall (λ node n, ∃ config pm, repl_node node txn_crypto config dissem_txns pm = Ok n ∧
      NoDup (cr_order config) ∧ ∀ x, x ∈ cr_order config ↔ x ∈ machine_nodes machines) (cl_node_map s) ∧
    dom (cl_req_dsts s) = list_to_set (cluster_clients num_clients local_nodes) ∧
    map_Forall (λ _ dsts, sends_to local_nodes dsts) (cl_req_dsts s) ∧ cl_flow_gen s = g.
Proof.
  intros Hm Hnd Hne Hcfg Hmail Hstub Hgen. set (nodes := machine_nodes machines).
  set (topology := cluster_topology local_nodes nodes topology_file).
  assert (∀ node, node ∈ local_nodes → node ∈ nodes) as Hlocal by (intros; by eapply machine_nodes_local).
  assert (∀ node, node ∈ local_nodes → is_Some (topology !! node)) as Htop.
  { intros node Hin. apply elem_of_dom. unfold topology. rewrite cluster_topology_dom. by apply elem_of_list_to_set. }
  destruct (cluster_configs_ok topology nodes local_nodes configs Hnd) as (configs' & Hc & _ & Hvalid).
  { intros node Hin. destruct (Hcfg node Hin) as (? & ? & ? & _). eauto. }
  assert (∀ node, node ∈ local_nodes → ∃ config c n, configs' !! node = Some config ∧
    repl_init new_stub txn_crypto dissem_txns node config (default ∅ (topology !! node)) = Ok n ∧
    repl_node node txn_crypto (validate_order nodes c) dissem_txns (mkPeerMessenger node (default ∅ (topology !! node)) 0 []) = Ok n)
    as Hinit.
  { intros node Hin. destruct (Hcfg node Hin) as (config & c & Hnode & Hchain), (Htop node Hin) as [nb Hnb].
    destruct (repl_init_valid new_stub txn_crypto dissem_txns node config c nodes nb) as (n & Hi & Hn); auto.
    rewrite Hnb. exists (Config.validate nb nodes config), c, n. split; [|done]. by rewrite (Hvalid _ _ _ Hin Hnode Hnb). }
  destruct (cluster_dsts_ok local_nodes txn_span (cluster_clients num_clients local_nodes) Hne 0 ∅) as (dsts & Hd & Hdom & Hsend);
    [by apply map_Forall_empty|].
  destruct (start_nodes_ok (repl_init new_stub txn_crypto dissem_txns) local_nodes configs' topology ∅ Hnd) as (nm & Hs & Hdom' & Hnm).
  { intros node Hin. destruct (Hinit node Hin) as (config & c & n & Hnode & Hi & _). by exists config, n. }
  exists (cluster_new dsts nm g). split_and!; cbn; [|set_solver| |set_solver|done..].
  - unfold cluster_start. rewrite Hm. cbn. fold nodes topology. rewrite Hc. cbn. rewrite Hd. cbn.
    fold nodes in Hmail. rewrite Hmail, Hs. cbn. by rewrite Hgen.
  - intros node n Hn. destruct (Hnm node n Hn) as [Hx|(c & Hin & Hnode & Hi)]; [by rewrite lookup_empty in Hx|].
    destruct (Hinit node Hin) as (config & c' & n' & Hnode' & Hi' & Hn').
    assert (n' = n) as -> by congruence. eexists _, _. split; [exact Hn'|].
    by destruct (validate_order_covers nodes c') as (? & ? & _).
Qed.
End ReplInit.

(** ** What the other ways to start do *)

Section Others.
Context `{Externals} `{!Bincode BitcoinTxn} `{!Bincode AvalancheTxn} `{!Bincode BlockHeader}
  `{!Bincode (list Hash)} `{!Bincode Msg} `{BuildProfile} `{HashOrder} `{Transport} `{Channel} `{Ln}.

(** The server does not validate its configuration: with the default order it cannot
    make the stages of its node, whatever the topology. *)
Lemma server_default_chain_panics new_stub txn_crypto dissem_txns id mc topology configs :
  new_stub id = Ok tt →
  configs !! id = Some (mkNodeConfig (CCChainReplication ChainReplicationConfig_default) mc) →
  ∃ config neighbors, server_start id (Ok configs) topology = Ok (config, neighbors) ∧
    repl_init new_stub txn_crypto dissem_txns id config neighbors = Panic.
Proof.
  intros Hstub Hid. unfold server_start. cbn. rewrite Hid. cbn. eexists _, _. split; [done|].
  unfold repl_init, peer_messenger_new. cbn. by rewrite Hstub.
Qed.

(** A chain of one node: its decision stage takes its own blocks as the head, and as
    nobody acknowledges them it is never ready to commit. *)
Lemma lone_head_never_commits me nodes config pm d tails :
  nodes = {[me]} → crd_new me (CCChainReplication (validate_order nodes config)) pm = Ok d →
  crd_commit_ready (foldl (λ d tail, (crd_new_tail me tail d).2) d tails) = false.
Proof.
  intros -> Hd. assert (commit_ready d = ∅ ∧ role d = Head) as [Hready Hrole].
  { destruct (validate_order_covers {[me]} config) as (_ & Hall & _). unfold crd_new in Hd.
    destruct (cr_order _) as [|head rest]; [done|]. cbn in Hd.
    assert (head = me) as -> by (specialize (Hall head); set_solver).
    destruct (last _); [|done]. injection Hd as <-. cbn. by rewrite decide_True. }
  assert (commit_ready (foldl (λ d tail, (crd_new_tail me tail d).2) d tails) = ∅ ∧
    role (foldl (λ d tail, (crd_new_tail me tail d).2) d tails) = Head) as [Hr _].
  { clear Hd. revert d Hready Hrole. induction tails as [|tail tails IH]; intros d Hready Hrole; [done|]. cbn.
    assert (commit_ready (crd_new_tail me tail d).2 = ∅ ∧ role (crd_new_tail me tail d).2 = Head) as [? ?].
    { unfold crd_new_tail. destruct tail as [|[b c] [|]]; [done| |done].
      unfold mbind, M_bind, gets, modify, id. by rewrite Hrole. }
    by apply IH. }
  unfold crd_commit_ready. rewrite Hr. by apply bool_decide_false.
Qed.
End Others.

(** ** Witness: two machines, two nodes on the first *)

#[local] Existing Instances sample_externals sample_bincode_btc sample_bincode_header
  sample_transport sample_channel sample_profile canonical_order node_bincode_avax node_bincode_hashes
  repl_bincode_msg repl_ln.

Definition w_machines : gmap MachineId (list NodeId) := {[1 := [4; 5]; 2 := [6]]}.
Definition w_node_config : NodeConfig := mkNodeConfig (CCChainReplication ChainReplicationConfig_default) None.
Definition w_flow_gen (clients : list ClientId) : res SomeFlowGen :=
  g ← cf_new clients 3 2 UNSET CSDummy 0 [0; 0; 0; 0]; Ok (FGChainReplication g).

Lemma cluster_starts_witness : ∃ g, w_flow_gen [0; 1] = Ok g ∧
  ∃ s, cluster_start (repl_init (λ _, Ok tt) CSDummy false) (λ _ (_ : unit), tt) (λ _ _ _, Ok tt) w_flow_gen 1
      (Ok w_machines) (Ok tt) (Some [(4, 5); (5, 6)]) (Ok {[4 := w_node_config; 5 := w_node_config]}) None 2 = Ok (inr s) ∧
    dom (cl_node_map s) = list_to_set [4; 5] ∧
    map_Forall (λ node n, ∃ config pm, repl_node node CSDummy config false pm = Ok n ∧
      NoDup (cr_order config) ∧ ∀ x, x ∈ cr_order config ↔ x ∈ machine_nodes w_machines) (cl_node_map s) ∧
    dom (cl_req_dsts s) = list_to_set [0; 1] ∧
    map_Forall (λ _ dsts, sends_to [4; 5] dsts) (cl_req_dsts s) ∧ cl_flow_gen s = g.
Proof.
  destruct (w_flow_gen [0; 1]) as [g| | |] eqn:Hg; [|by vm_compute in Hg..]. exists g. split; [done|].
  apply (cluster_starts (λ _ (_ : unit), tt) (λ _ _ _, Ok tt) w_flow_gen (λ _, Ok tt) CSDummy false 1 w_machines
    [4; 5] tt (Some [(4, 5); (5, 6)]) {[4 := w_node_config; 5 := w_node_config]} None 2 g).
  - done.
  - apply (bool_decide_unpack _). by vm_compute.
  - done.
  - intros node Hn. exists w_node_config, ChainReplicationConfig_default. split; [|done].
    apply elem_of_cons in Hn as [->|[->|[]%elem_of_nil]%elem_of_cons]; by vm_compute.
  - done.
  - done.
  - exact Hg.
Defined.
